(* ===== verification/_CoqProject ===== *)
-Q . S2P
Prelude.v
JavaReader.v
Split.v
Registry.v
ClassRel.v
ClassRegex.v
Extractor.v
Tabular.v
Imports.v
Render.v
Traverse.v
Viz.v
Driver.v
Main.v
ClassNeeds.v
