(* ===== verification/Prelude.v ===== *)
(** * A verification library for javatree (landenlabs/javatree)

    javatree scans a tree of Java files, extracts class declarations and
    prints the class hierarchy.  Its parts under [src/javatree/], and how
    they interact:

    - the line scrubber [JavaReader::getJavaline] ([javeReader.cpp],
      [javaReader.h]) reads one line with [std::getline], finds the five
      markers [//], [/*], [*/], double and single quote ([CommentItem::findAll]),
      sorts them by column, and runs a state machine over them that
      records removal spans for block comments and literals and
      truncates at a line comment; [my_isCommentOpen], [my_removeList]
      and [my_lineNum] persist across calls;
    - [FindClassDefsInFile] ([javatree.cpp]) reads a file line by line
      through the scrubber, recognises class lines with the regular
      expression [pubClass_p] / [allClass_p], squeezes the declaration
      with two [std::regex_replace] calls, splits it with [Split]
      ([split.h]) and the bracket-aware [FindSplit], registers the class
      ([AddClass]), its superclasses ([add_parent]) and interfaces, and
      tracks braces to build dotted names of nested classes;
    - the class graph: [ClassRelations] nodes with three [ClassLinkage]
      chains ([class_rel.h], [class_rel.cpp], [add_linkage_to]) and the
      registry [clist], a [std::map] from names to nodes;
    - two variants of the per-file pass share the scrubber and the
      graph: [TabularListOfInFile] ([-T]) collects table rows, and
      [FindImportPackageInFile] ([-I]) records packages and imports;
    - [FindClassDefinitions] walks a directory and calls the pass of the
      selected mode on every file; [display_dependences] then prints, for
      every class without a parent, the tree below it with the recursive
      [display_children] (text, HTML, Graphviz or JavaScript output);
      [Release_clist] frees the nodes;
    - [main] reads its arguments left to right: switches set global
      options, each other word is a code path that is scanned at once
      with the options seen so far; after the last one it prints one of
      the four outputs (Graphviz files, tabular HTML page, dTree HTML
      page, text tree with the optional name table);
    - [classneeds.cpp] is a second, older program of the directory,
      modelled on its own in [ClassNeeds.v].

    Files, in dependency order, and what they model:

    - [Prelude.v] (this file): byte strings as [list ascii]; the
      [std::string] operations the code calls with their exceptions as
      values of [result] (notation [let*]); [int]/[size_t] conversions;
      the hint databases [jt], [jt_rw], tactics and shared lemmas.
    - [JavaReader.v]: Module [JavaReader] has [CommentItem], [findAll],
      the sort, the marker state machine ([scan_item], [scan_items]),
      [finish] and [getJavaline] on an explicit reader state and a stream
      (unread bytes, [eofbit], [failbit], as [std::getline] sets them);
      [JavaReaderFacts] proves the marker search and sort correct and the
      comment removal on one line (C1) and across lines (C2), that a
      block comment closed before a line comment on the same line is
      kept and leaves a stale removal span (C29), and the 32-bit
      wrap-around of the line counter [my_lineNum] (C36).
    - [Split.v]: [FindSplit] and the [Split] constructor with its
      function-pointer parameter; reference definition, termination and
      the split/join round trip.
    - [Registry.v]: the interface [StrMap] (a class of operations) with
      its laws [StrMapLaws] that the graph uses for [clist], and the
      instance by sorted association lists in [std::string] order.
    - [ClassRel.v]: chains as lists of their links' [relations] fields,
      nodes as records, the heap of nodes with explicit addresses (a
      [new] allocates the next one) and the registry through [StrMap];
      [AddClass], [add_parent], the interface edge, [release_links],
      [Release_clist]; the chain refinement (C7) and the graph invariant
      [graph_ok]/[paired] preserved by [add_parent] (C6).  [RemoveFacts]
      shows that [remove_interfaces], [remove_parents] and
      [remove_children], which nothing calls, never return: they end by
      deleting a head link embedded in a node (undefined behaviour), or
      recurse for ever on a cycle of head links (C8).
    - [ClassRegex.v]: the class regular expression as a deterministic
      matcher proved equal to the expression's relational meaning (C4),
      and the space-squeezing [regex_replace] calls.
    - [Extractor.v]: [FindClassDefsInFile] in a state and exception monad
      [SE] whose state is the graph with the text written to [cerr] (a
      caught exception keeps the updates and the writes made before it),
      with Hoare-style triples [se_triple]; [braces] and
      [MakeFullClassName] return the lines they write beside their value.
      The pass terminates (C5), keeps the graph sound (C3), writes on
      [cerr] only [Brace parsing error] and [Bad class] lines followed by
      the report of a caught exception, whose text is always
      [std::exception] since the exception is caught by value (C19), and
      its brace tracking keeps one name per open brace or throws after an
      unmatched brace (C17, C18).
    - [Tabular.v]: [TabularListOfInFile], the second per-file pass that
      fills [tableList] with [TableItem] rows instead of the graph (the
      table is the state of the same monad), and [outputHtmlTableList];
      a lockstep simulation ([se_rel]) shows it writes the same [cerr]
      text and returns what [FindClassDefsInFile] returns, and only lists
      classes that pass registers (C9).
    - [Imports.v]: [FindImportPackageInFile], the [-I] pass that records
      packages, files and [com.wsi.] imports; it always returns and
      never dereferences its [NULL] [file_ptr], and keeps [graph_ok],
      but its file-to-import edges are not paired (C35).
    - [Render.v]: the text renderers ([display_dependences],
      [display_children], [display_other_parents], [count_children]) as
      the bytes written to [stdout]; termination on acyclic graphs (C23).
    - [Traverse.v]: the specification's cycle-guarded [traverse] (the
      contract every renderer consumes) as a list of visits, a text
      emitter [render] for it, and the refinement: on a ranked (acyclic)
      graph [display_children] prints exactly the emitter's text of the
      contract's visits (C11); the guarded traversal always ends.
    - [Viz.v]: the Graphviz ([-z]) and JavaScript ([-j]) branches: the
      four-argument [display_children] with the global counter
      [sNodeNum], [display_interfaces], [NextFile] with its [size_t]
      arithmetic, and the output files of [-O]; the JavaScript output is
      a well-formed [dTree] script (C10), [-O] leaves a stray brace on
      the standard output (C31), and [childModStr], never reset between
      siblings, draws public classes red (C32).
    - [Driver.v]: [FindClassDefinitions] over a directory listing,
      [FileMatches], [MakeTitle], and whole-run scenarios, among them the
      specification's two-file example and a graph on which the
      printer never stops (C21); the walk collects what the passes
      write to [cerr], and every file pass keeps an invariant of the
      graph, so the walk does.
    - [Main.v]: [main] itself: the options as a record, the argument loop
      ([parse_switch] for each switch, [process_path] for each code path:
      [MakeTitle], the walk with the options seen so far, the passes'
      messages and the count line on [cerr]), [strtol] and the [int] cast of [-N] at their widths,
      the usage text, [display_names], the HTML writers
      [outputHtmlPrefix1], [outputHtmlMetaHeader2],
      [outputHtmlTableStyle], [outputHtmlTitle3], and the four output
      branches, as the bytes [main] leaves on [stdout], in files and on
      [cerr]; the ways [main] ends without a defined result (a switch
      read past its end, an uncaught [regex_error] or exception) are
      values of [Abort].  The loop keeps the graph sound (C13), a switch
      without its value reads past [argv] (C20), [-N] is saturated and
      wrapped to 32 bits so a huge budget disables splitting (C25), and
      switches after the last path change no scan (C26); examples run the
      whole program on the scenario and on files whose passes fail.
    - [ClassNeeds.v]: [classneeds.cpp], a separate older program that
      reads linker map files ([find_file_references], [process_section])
      into two lists over one heap, records that a file provides or
      needs an item ([add_provides], [add_needs]), and prints a class
      tree and a file tree with a [display_children] that clears the
      links it visits and writes the global [levels] and [indent_text]
      arrays.  Its external library ([Class_list], [Class_relations],
      [Pattern], [WWString::truncate], [WWTime]) is modelled from its
      use: the lists as [StrMap]s, the chains as [ClassRel]'s, the
      patterns and the time as parameters.  The class tree always
      finishes within [MAX_LEVELS] and stays inside the arrays (C24);
      a line of 256 bytes or more hangs the reader (C22); the [l]
      switch falls through into [t] (C37); and the class tree clears
      every child link of the nodes it expands, unless it stops at a
      [<Recursion>] or [<Too deep>] break, which empties the file tree
      drawn after it (C38).

    Fuel: every loop whose source has no structural bound carries fuel,
    and [None] only means the fuel ran out.  [FindClassDefsInFile] gives
    its line loop one more unit than the file has bytes and the
    continuation loop one more than the unread bytes: every good
    [getJavaline] consumes a byte, so this is enough (C5).  [Split] gets
    one more than the string's length (C15), [findAll] one more than the
    line's length, [release_links] the chain's length.
    [display_children] has no bound in the source: fuel above a rank of
    the child relation suffices (C23), and on a cycle no fuel does (C21).
    In [ClassNeeds.v] the class tree needs 29 levels of fuel (C24),
    since [levels] cuts cycles and [MAX_LEVELS] cuts depth, and the
    reading loops get fuel that a line of 256 bytes or more never
    satisfies (C22).

    Conventions: [npos] is [None] where a search fails and [2^64 - 1]
    where it is used as a number; [int] is a 32-bit value kept as [Z]
    with hypotheses that keep it in range, [size_t] a 64-bit unsigned
    [Z] ([size_of_int] is the conversion, [size_sub] the wrap-around
    subtraction); [std::string::max_size] and [std::vector::max_size] are
    libstdc++'s 64-bit values.  The renderer's node counter
    [sNodeNum], a [static int], is a [nat]: the program would need more
    than 2^31 nodes to overflow it; likewise the [short] loop counters of
    [classneeds.cpp] are [nat]s (they would need 32768 list entries).

    Not modelled: the code under [#if 0] (not compiled), and what
    follows the first undefined behaviour of [remove_interfaces],
    [remove_parents] and [remove_children] (the model stops at the
    [delete] of the embedded head link).  The functions no caller
    reaches ([remove_...], [release_clist] of [classneeds.cpp], whose
    call is commented out) are modelled all the same.  The license and
    comment lines of the sources have nothing to model.  [Directory_files],
    [ReplaceAll] and [SwapStream] live outside [src/] and appear only
    through their use; [std::regex] on a [-V] pattern, [ctime] and
    whether [-O] can create a file are parameters of [main]'s model, and
    [Release_clist], which prints nothing, does not appear in its
    output. *)

From Stdlib Require Import Ascii String List Lia ZArith Bool.
Import ListNotations.

Declare Scope jt_scope.
Delimit Scope jt_scope with jt.
Open Scope jt_scope.

(** ** Byte strings *)

(** [lstring] of the sources (a [std::string]) as its list of bytes. *)
Definition lstring := list ascii.

Definition lstr (s : string) : lstring := list_ascii_of_string s.
Arguments lstr s /.

Notation "'$' s" := (lstr s%string) (at level 1, s at level 0, only parsing) : jt_scope.

Fixpoint lstring_eqb (a b : lstring) : bool :=
  match a, b with
  | [], [] => true
  | x :: a', y :: b' => Ascii.eqb x y && lstring_eqb a' b'
  | _, _ => false
  end.

Notation "a =s? b" := (lstring_eqb a b) (at level 70) : jt_scope.

(** [s] begins with [want]. *)
Fixpoint starts_with (want s : lstring) : bool :=
  match want, s with
  | [], _ => true
  | w :: want', c :: s' => Ascii.eqb w c && starts_with want' s'
  | _ :: _, [] => false
  end.

(** ** C++ exceptions as values *)

Inductive cxx_exception := OutOfRange | LengthError.

Inductive result (A : Type) : Type :=
| Ok (a : A)
| Throw (e : cxx_exception).
Arguments Ok {A} a.
Arguments Throw {A} e.

Definition rbind {A B} (m : result A) (k : A -> result B) : result B :=
  match m with
  | Ok a => k a
  | Throw e => Throw e
  end.

Notation "'let*' x ':=' m 'in' k" := (rbind m (fun x => k))
  (at level 10, x name, m at level 100, k at level 200) : jt_scope.

(** ** Machine integers *)

(** The conversion [(int) n] of a [size_t] to a 32-bit [int]. *)
Definition int_of_size (n : nat) : Z :=
  let z := (Z.of_nat n mod 2 ^ 32)%Z in
  if (z <? 2 ^ 31)%Z then z else (z - 2 ^ 32)%Z.

(** The implicit conversion of an [int] to [size_t] (64 bits). *)
Definition size_of_int (z : Z) : Z := (z mod 2 ^ 64)%Z.

(** [unsigned int] increment. *)
Definition uint_succ (n : Z) : Z := ((n + 1) mod 2 ^ 32)%Z.

(** ** [std::string] operations *)

Fixpoint find_in (want s : lstring) (i : nat) : option nat :=
  if starts_with want s then Some i
  else match s with
       | [] => None
       | _ :: s' => find_in want s' (S i)
       end.

(** [s.find(want, pos)]: the first index at or after [pos] where [want]
    occurs; [npos] (here [None]) when [pos > s.size()] or there is none. *)
Definition str_find (want s : lstring) (pos : nat) : option nat :=
  if pos <=? length s then find_in want (skipn pos s) pos else None.

Definition mem_char (c : ascii) (set : lstring) : bool :=
  existsb (Ascii.eqb c) set.

Fixpoint find_first_of_from (set s : lstring) (i : nat) : option nat :=
  match s with
  | [] => None
  | c :: s' => if mem_char c set then Some i else find_first_of_from set s' (S i)
  end.

(** [s.find_first_of(set)]. *)
Definition find_first_of (set s : lstring) : option nat := find_first_of_from set s 0.

(** [s.erase(pos)] with [pos] a [size_t]: [std::out_of_range] when
    [pos > s.size()]. *)
Definition str_erase_from (pos : Z) (s : lstring) : result lstring :=
  if (Z.of_nat (length s) <? pos)%Z then Throw OutOfRange
  else Ok (firstn (Z.to_nat pos) s).

(** [s.erase(pos, n)] with [size_t] arguments: removes
    [min(n, size - pos)] bytes at [pos]. *)
Definition str_erase (pos n : Z) (s : lstring) : result lstring :=
  if (Z.of_nat (length s) <? pos)%Z then Throw OutOfRange
  else Ok (firstn (Z.to_nat pos) s
           ++ skipn (Z.to_nat pos + Z.to_nat (Z.min n (Z.of_nat (length s) - pos)))%nat s).

(** [s.substr(pos, n)] with [size_t] arguments. *)
Definition str_substr (pos n : Z) (s : lstring) : result lstring :=
  if (Z.of_nat (length s) <? pos)%Z then Throw OutOfRange
  else Ok (firstn (Z.to_nat (Z.min n (Z.of_nat (length s) - pos))) (skipn (Z.to_nat pos) s)).

(** [std::string::npos]. *)
Definition npos : Z := (2 ^ 64 - 1)%Z.

(** [size_t] subtraction [a - b]. *)
Definition size_sub (a b : nat) : Z := ((Z.of_nat a - Z.of_nat b) mod 2 ^ 64)%Z.

(** ** Shared automation *)

Create HintDb jt.
Create Rewrite HintDb jt_rw.

Ltac inv H := inversion H; subst; clear H.

Ltac break_if :=
  match goal with
  | |- context [if ?c then _ else _] => destruct c eqn:?
  | H : context [if ?c then _ else _] |- _ => destruct c eqn:?
  end.

(** ** Lemmas shared by the components *)

Lemma lstring_eqb_eq a b : lstring_eqb a b = true <-> a = b.
Proof.
  revert b; induction a as [|x a IH]; intros [|y b]; simpl;
    try (split; congruence).
  rewrite andb_true_iff, Ascii.eqb_eq, IH. split; [intros [-> ->]; auto | intros H; inv H; auto].
Qed.

Lemma lstring_eqb_refl a : lstring_eqb a a = true.
Proof. apply lstring_eqb_eq; reflexivity. Qed.

Lemma starts_with_app want s : starts_with want (want ++ s) = true.
Proof. induction want; simpl; auto. rewrite Ascii.eqb_refl; auto. Qed.

Lemma starts_with_spec want s :
  starts_with want s = true <-> exists r, s = want ++ r.
Proof.
  split.
  - revert s; induction want as [|w want IH]; intros [|c s]; simpl; try discriminate; eauto.
    rewrite andb_true_iff, Ascii.eqb_eq. intros [-> H]. destruct (IH _ H) as [r ->]. eauto.
  - intros [r ->]. apply starts_with_app.
Qed.

(** Two prefixes of one string: one is a prefix of the other. *)
Lemma starts_with_both p q s :
  starts_with p s = true -> starts_with q s = true ->
  starts_with p q = true \/ starts_with q p = true.
Proof.
  revert q s; induction p as [|a p IH]; intros [|b q] [|c s]; simpl; auto; try discriminate.
  rewrite !andb_true_iff, !Ascii.eqb_eq. intros [-> H1] [-> H2].
  destruct (IH _ _ H1 H2); auto.
Qed.

Lemma find_in_ge want s i j : find_in want s i = Some j -> i <= j.
Proof.
  revert i; induction s as [|c s IH]; intros i; simpl; break_if; intros H; inv H; auto.
  apply IH in H1; lia.
Qed.

Lemma find_in_shift want s i j :
  find_in want s (i + j) = option_map (fun k => k + j) (find_in want s i).
Proof.
  revert i; induction s as [|c s IH]; intros i; simpl; break_if; simpl; auto.
  rewrite <- IH. f_equal.
Qed.

(** [find_in] finds the first occurrence: it occurs at the index found,
    and at no earlier index. *)
Lemma find_in_some want s i j :
  find_in want s i = Some j ->
  starts_with want (skipn (j - i) s) = true /\
  forall k, i <= k < j -> starts_with want (skipn (k - i) s) = false.
Proof.
  revert i; induction s as [|c s IH]; intros i; simpl.
  - break_if; intros H; inv H; rewrite Nat.sub_diag; simpl; split; auto; lia.
  - destruct (starts_with want (c :: s)) eqn:E; intros H.
    + inv H. rewrite Nat.sub_diag; split; auto; lia.
    + pose proof (find_in_ge _ _ _ _ H). destruct (IH _ H) as [H1 H2].
      replace (j - i) with (S (j - S i)) by lia. split; auto.
      intros k Hk. destruct (Nat.eq_dec k i) as [->|Hne].
      * rewrite Nat.sub_diag; auto.
      * replace (k - i) with (S (k - S i)) by lia. apply H2; lia.
Qed.

Lemma find_in_none want s i :
  find_in want s i = None -> forall k, starts_with want (skipn k s) = false.
Proof.
  revert i; induction s as [|c s IH]; intros i; simpl; break_if; try discriminate.
  - intros _ [|k]; simpl; auto.
  - intros H [|k]; simpl; eauto.
Qed.

Lemma starts_with_app_l p a b :
  length p <= length a -> starts_with p (a ++ b) = starts_with p a.
Proof.
  revert a; induction p as [|x p IH]; intros [|c a]; simpl; auto; intros H; [lia|].
  rewrite IH by lia. reflexivity.
Qed.

Lemma starts_with_nil p : p <> [] -> starts_with p [] = false.
Proof. destruct p; [congruence|reflexivity]. Qed.

Lemma find_first_of_from_app set l c r i :
  Forall (fun x => mem_char x set = false) l -> mem_char c set = true ->
  find_first_of_from set (l ++ c :: r) i = Some (i + length l).
Proof.
  revert i; induction l as [|x l IH]; intros i Hl Hc; simpl.
  - rewrite Hc. f_equal; lia.
  - inv Hl. rewrite H1, IH by auto. f_equal; lia.
Qed.

Lemma find_first_of_from_none set l i :
  Forall (fun x => mem_char x set = false) l -> find_first_of_from set l i = None.
Proof.
  revert i; induction l as [|x l IH]; intros i Hl; simpl; auto. inv Hl. rewrite H1; auto.
Qed.

Lemma mem_char_single c d : mem_char c [d] = Ascii.eqb c d.
Proof. unfold mem_char; simpl. rewrite orb_false_r. reflexivity. Qed.

Lemma int_of_size_small n : (Z.of_nat n < 2 ^ 31)%Z -> int_of_size n = Z.of_nat n.
Proof.
  intros H. unfold int_of_size.
  rewrite Z.mod_small by lia. destruct (Z.ltb_spec (Z.of_nat n) (2 ^ 31)); lia.
Qed.

Lemma size_of_int_small z : (0 <= z < 2 ^ 64)%Z -> size_of_int z = z.
Proof. intros H. unfold size_of_int. apply Z.mod_small; auto. Qed.

Lemma in_skipn_in {A} (x : A) n l : In x (skipn n l) -> In x l.
Proof. intros H. rewrite <- (firstn_skipn n l). apply in_or_app; auto. Qed.

Lemma skipn_app_length {A} (a b : list A) : skipn (length a) (a ++ b) = b.
Proof. induction a; simpl; auto. Qed.

Lemma firstn_app_length {A} (a b : list A) : firstn (length a) (a ++ b) = a.
Proof. induction a; simpl; f_equal; auto. Qed.

Lemma skipn_app_ge {A} n (a b : list A) :
  length a <= n -> skipn n (a ++ b) = skipn (n - length a) b.
Proof. intros H. rewrite skipn_app, skipn_all2 by auto. reflexivity. Qed.

Lemma str_erase_ok (pos n : nat) s :
  pos <= length s ->
  str_erase (Z.of_nat pos) (Z.of_nat n) s = Ok (firstn pos s ++ skipn (pos + n) s).
Proof.
  intros H. unfold str_erase.
  destruct (Z.ltb_spec (Z.of_nat (length s)) (Z.of_nat pos)); [lia|].
  rewrite Nat2Z.id. f_equal. f_equal.
  destruct (Nat.le_gt_cases (pos + n) (length s)).
  - f_equal. lia.
  - rewrite !skipn_all2; auto; lia.
Qed.

Lemma str_substr_ok (pos n : nat) s :
  pos <= length s -> str_substr (Z.of_nat pos) (Z.of_nat n) s = Ok (firstn n (skipn pos s)).
Proof.
  intros H. unfold str_substr.
  destruct (Z.ltb_spec (Z.of_nat (length s)) (Z.of_nat pos)); [lia|]. rewrite Nat2Z.id.
  f_equal. destruct (Nat.le_gt_cases n (length s - pos)).
  - f_equal. lia.
  - rewrite !firstn_all2; auto; rewrite length_skipn; lia.
Qed.

Lemma str_substr_rest (pos : nat) n s :
  pos <= length s -> (Z.of_nat (length s) - Z.of_nat pos <= n)%Z ->
  str_substr (Z.of_nat pos) n s = Ok (skipn pos s).
Proof.
  intros H1 H2. unfold str_substr.
  destruct (Z.ltb_spec (Z.of_nat (length s)) (Z.of_nat pos)); [lia|]. rewrite Nat2Z.id.
  f_equal. apply firstn_all2. rewrite length_skipn. lia.
Qed.

Lemma size_sub_le a b : b <= a -> (Z.of_nat a < 2 ^ 64)%Z -> size_sub a b = Z.of_nat (a - b).
Proof. intros H1 H2. unfold size_sub. rewrite Z.mod_small; lia. Qed.

Lemma firstn_skipn_split {A} (n : nat) (l : list A) :
  l = firstn n l ++ skipn n l.
Proof. symmetry; apply firstn_skipn. Qed.

Lemma repeat_cons_app_assoc {A} (x : A) n l : repeat x n ++ x :: l = repeat x (S n) ++ l.
Proof. change (repeat x (S n)) with (x :: repeat x n). rewrite repeat_cons, <- app_assoc. reflexivity. Qed.

Lemma not_in_mem c l : mem_char c l = false -> ~ In c l.
Proof.
  unfold mem_char. intros H Hin. assert (existsb (Ascii.eqb c) l = true); [|congruence].
  apply existsb_exists. exists c. split; auto. apply Ascii.eqb_refl.
Qed.

#[export] Hint Resolve lstring_eqb_refl starts_with_app : jt.
#[export] Hint Rewrite length_app length_firstn length_skipn firstn_skipn
  @skipn_app_length @firstn_app_length : jt_rw.
