(* ===== verification/JavaReader.v ===== *)
(** * JavaReader: the comment and literal scrubber

    Models [CommentItem] and [JavaReader] of [src/javatree/javaReader.h]
    and [JavaReader::getJavaline] of [src/javatree/javeReader.cpp]: the
    marker search [findAll], the sort by column, the marker state machine
    with its removal spans, the truncation at a line comment and at an
    unterminated block comment, and the erasure of the spans in reverse
    order.  The input stream is the list of the bytes not read yet;
    [getline] splits off one line. *)

From Stdlib Require Import Ascii String List Lia ZArith Bool.
From Stdlib Require Import Sorting.Permutation Sorting.Sorted.
From S2P Require Import Prelude.
Import ListNotations.
Open Scope jt_scope.

Module JavaReader.

(** ** [CommentItem] *)

Inductive ComType := LineComment | BlockCommentOpen | BlockCommentClose | Quote2 | Quote1.

Definition ComType_eq_dec (a b : ComType) : {a = b} + {a <> b}.
Proof. decide equality. Defined.

Record CommentItem := mkItem { idx : nat; comType : ComType }.

(** The loop of [CommentItem::findAll]:
    [while ((foundIdx = have.find(want, foundIdx + 1)) != -1) push_back].
    [foundIdx] starts at [-1] (as [size_t]), so the first search is from 0
    and each later one from the last index plus one; [fuel] bounds the
    iterations (see [findAll_occurrences] for why [length have + 1] is
    enough). *)
Fixpoint findAll_loop (fuel : nat) (found : list CommentItem) (have want : lstring)
         (ty : ComType) (from : nat) : list CommentItem :=
  match fuel with
  | O => found
  | S fuel' =>
      match str_find want have from with
      | None => found
      | Some i => findAll_loop fuel' (found ++ [mkItem i ty]) have want ty (S i)
      end
  end.

Definition findAll (found : list CommentItem) (have want : lstring) (ty : ComType)
  : list CommentItem :=
  findAll_loop (S (length have)) found have want ty 0.

(** [CommentItem::sort]: [std::sort] with [lhs.idx < rhs.idx], modelled
    by insertion sort (see [sort_unique] for why the choice of algorithm
    does not matter here). *)
Fixpoint insert_item (c : CommentItem) (l : list CommentItem) : list CommentItem :=
  match l with
  | [] => [c]
  | d :: l' => if idx d <? idx c then d :: insert_item c l' else c :: l
  end.

Definition sort (l : list CommentItem) : list CommentItem := fold_right insert_item [] l.

(** ** Reader state *)

(** [JavaReader::IntPair]: a removal span [line.erase(beg, len)]. *)
Record IntPair := mkPair { beg : Z; len : Z }.

(** The members of [JavaReader] that persist across calls
    ([my_comments] is cleared before each use and not modelled). *)
Record ReaderState := mkReader {
  my_isCommentOpen : bool;
  my_removeList : list IntPair;
  my_lineNum : Z }.

Definition init_reader : ReaderState := mkReader false [] 0.

(** [getLineNum()]: the [unsigned int] counter widened to [size_t]. *)
Definition getLineNum (st : ReaderState) : Z := my_lineNum st.

(** The locals of one call ([blockStart], [quote1Start], [quote2Start],
    [quote1Open], [quote2Open]) together with the two members the loop
    writes ([my_isCommentOpen], [my_removeList]). *)
Record Scan := mkScan {
  blockStart : Z;
  quote1Start : Z;
  quote2Start : Z;
  quote1Open : bool;
  quote2Open : bool;
  commentOpen : bool;
  removeList : list IntPair }.

Inductive ScanOutcome :=
| Continue (s : Scan)
| ReturnAt (s : Scan) (i : nat).  (** [line.erase(iter->idx); return in;] *)

(** One iteration of the [for] loop over the sorted markers. *)
Definition scan_item (s : Scan) (it : CommentItem) : ScanOutcome :=
  let i := int_of_size (idx it) in
  if commentOpen s then
    match comType it with
    | BlockCommentClose =>
        Continue (mkScan (-1) (quote1Start s) (quote2Start s) (quote1Open s) (quote2Open s)
                   false (removeList s ++ [mkPair (blockStart s) (i - blockStart s + 2)]))
    | _ => Continue s
    end
  else if quote2Open s then
    match comType it with
    | Quote2 =>
        Continue (mkScan (blockStart s) (quote1Start s) (-1) (quote1Open s) false
                   (commentOpen s) (removeList s ++ [mkPair (quote2Start s) (i - quote2Start s + 1)]))
    | _ => Continue s
    end
  else if quote1Open s then
    match comType it with
    | Quote1 =>
        Continue (mkScan (blockStart s) (-1) (quote2Start s) false (quote2Open s)
                   (commentOpen s) (removeList s ++ [mkPair (quote1Start s) (i - quote1Start s + 1)]))
    | _ => Continue s
    end
  else
    match comType it with
    | LineComment => ReturnAt s (idx it)
    | BlockCommentOpen =>
        Continue (mkScan i (quote1Start s) (quote2Start s) (quote1Open s) (quote2Open s)
                   true (removeList s))
    | BlockCommentClose => Continue s
    | Quote2 =>
        Continue (mkScan (blockStart s) (quote1Start s) i (quote1Open s) true
                   (commentOpen s) (removeList s))
    | Quote1 =>
        Continue (mkScan (blockStart s) i (quote2Start s) true (quote2Open s)
                   (commentOpen s) (removeList s))
    end.

Fixpoint scan_items (s : Scan) (l : list CommentItem) : ScanOutcome :=
  match l with
  | [] => Continue s
  | it :: l' =>
      match scan_item s it with
      | Continue s' => scan_items s' l'
      | ReturnAt s' i => ReturnAt s' i
      end
  end.

(** The markers of one line, found in the order of the source and sorted. *)
Definition markers (line : lstring) : list CommentItem :=
  let f := findAll [] line ($"//") LineComment in
  let f := findAll f line ($"/*") BlockCommentOpen in
  let f := findAll f line ($"*/") BlockCommentClose in
  let f := findAll f line [ascii_of_nat 34] Quote2 in
  let f := findAll f line [ascii_of_nat 39] Quote1 in
  sort f.

(** [for (riter = my_removeList.rbegin(); ...) line.erase(riter->beg, riter->len);]
    over the list already reversed; the [int] fields convert to [size_t]. *)
Fixpoint erase_spans (l : list IntPair) (line : lstring) : result lstring :=
  match l with
  | [] => Ok line
  | p :: l' =>
      let* line' := str_erase (size_of_int (beg p)) (size_of_int (len p)) line in
      erase_spans l' line'
  end.

(** The tail of [getJavaline] after the [if (getline(...).good())] block:
    [if (my_isCommentOpen) line.erase(blockStart);] and the reverse erasure. *)
Definition finish (s : Scan) (line : lstring) : result lstring :=
  let* line' := if commentOpen s then str_erase_from (size_of_int (blockStart s)) line
                else Ok line in
  erase_spans (rev (removeList s)) line'.

(** An [ifstream] positioned in its file: the bytes not read yet and
    the [eofbit] and [failbit] of its state. *)
Record istream := mkStream { buf : lstring; eofbit : bool; failbit : bool }.

Definition good (ins : istream) : bool := negb (eofbit ins) && negb (failbit ins).

Definition open_stream (inp : lstring) : istream := mkStream inp false false.

Definition newline : ascii := ascii_of_nat 10.

(** [std::getline(in, line)]: when the stream is not good the sentry
    fails, [failbit] is set and [line] is left as it was; otherwise
    [line] gets the bytes up to the next newline (which is consumed), or
    up to the end of the file, which sets [eofbit], and also [failbit]
    when nothing was extracted. *)
Definition getline (ins : istream) (line : lstring) : istream * lstring :=
  if good ins then
    match find_first_of [newline] (buf ins) with
    | Some i => (mkStream (skipn (S i) (buf ins)) false false, firstn i (buf ins))
    | None =>
        match buf ins with
        | [] => (mkStream [] true true, [])
        | _ => (mkStream [] true false, buf ins)
        end
    end
  else (mkStream (buf ins) (eofbit ins) true, line).

Record ReadResult := mkRead {
  rd_state : ReaderState;
  rd_line : lstring;
  rd_stream : istream }.

Definition rd_good (r : ReadResult) : bool := good (rd_stream r).

(** [JavaReader::getJavaline(in, line)]: [line] is an in-out argument. *)
Definition getJavaline (st : ReaderState) (ins : istream) (line0 : lstring) : result ReadResult :=
  let '(ins', line) := getline ins line0 in
  if good ins' then
    let s0 := mkScan 0 0 0 false false (my_isCommentOpen st) [] in
    let n := uint_succ (my_lineNum st) in
    match scan_items s0 (markers line) with
    | ReturnAt s i =>
        let* l := str_erase_from (Z.of_nat i) line in
        Ok (mkRead (mkReader (commentOpen s) (removeList s) n) l ins')
    | Continue s =>
        let* l := finish s line in
        Ok (mkRead (mkReader (commentOpen s) (removeList s) n) l ins')
    end
  else
    let s0 := mkScan 0 0 0 false false (my_isCommentOpen st) (my_removeList st) in
    let* l := finish s0 line in
    Ok (mkRead st l ins').

(** ** Reference definitions for the marker search *)

Definition dquote : ascii := ascii_of_nat 34.
Definition squote : ascii := ascii_of_nat 39.

(** The text each marker type is searched for. *)
Definition pattern (ty : ComType) : lstring :=
  match ty with
  | LineComment => $"//"
  | BlockCommentOpen => $"/*"
  | BlockCommentClose => $"*/"
  | Quote2 => [dquote]
  | Quote1 => [squote]
  end.

(** Every index, from [i] on, at which [want] occurs in [s]. *)
Fixpoint occurrences (want s : lstring) (i : nat) : list nat :=
  match s with
  | [] => []
  | _ :: s' => (if starts_with want s then [i] else []) ++ occurrences want s' (S i)
  end.

(** The item [it] names a real marker of [line]. *)
Definition marker_at (line : lstring) (it : CommentItem) : bool :=
  starts_with (pattern (comType it)) (skipn (idx it) line).

(** The bytes a marker can start with. *)
Definition marker_chars : lstring := [ascii_of_nat 47; ascii_of_nat 42; dquote; squote].

Definition no_marker_chars (s : lstring) : Prop :=
  Forall (fun c => mem_char c marker_chars = false) s.

(** The bytes of a file made of the given newline-terminated lines. *)
Definition file_of (ls : list lstring) : lstring := flat_map (fun l => l ++ [newline]) ls.

(** [while (reader.getJavaline(in, line).good()) { ... }] with an empty
    body, for at most [fuel] lines: the scrubbed lines and the final
    reader. *)
Fixpoint read_lines (fuel : nat) (st : ReaderState) (ins : istream) (line : lstring)
  : result (list lstring * ReaderState) :=
  match fuel with
  | O => Ok ([], st)
  | S fuel' =>
      let* r := getJavaline st ins line in
      if rd_good r then
        let* p := read_lines fuel' (rd_state r) (rd_stream r) (rd_line r) in
        Ok (rd_line r :: fst p, snd p)
      else Ok ([], rd_state r)
  end.

Definition all_types : list ComType :=
  [LineComment; BlockCommentOpen; BlockCommentClose; Quote2; Quote1].

(** The items [findAll] appends for one marker type. *)
Definition occ_items (line : lstring) (ty : ComType) : list CommentItem :=
  map (fun i => mkItem i ty) (occurrences (pattern ty) line 0).

Definition no_close (s : lstring) : Prop :=
  forall k, starts_with (pattern BlockCommentClose) (skipn k s) = false.

End JavaReader.

Module JavaReaderFacts.
Import JavaReader.

(** The orders on markers by column. *)
Definition idx_le (a b : CommentItem) : Prop := idx a <= idx b.
Definition idx_lt (a b : CommentItem) : Prop := idx a < idx b.

(** *** The marker search *)

Lemma occurrences_find_in_none want s i :
  want <> [] -> find_in want s i = None -> occurrences want s i = [].
Proof.
  intros Hw; revert i; induction s as [|c s IH]; intros i; simpl; auto.
  destruct (starts_with want (c :: s)); [discriminate|]. intros H; simpl; auto.
Qed.

Lemma occurrences_find_in_some want s i j :
  want <> [] -> find_in want s i = Some j ->
  j - i < length s /\
  occurrences want s i = j :: occurrences want (skipn (S (j - i)) s) (S j).
Proof.
  intros Hw; revert i; induction s as [|c s IH]; intros i; simpl.
  - destruct want; [congruence|discriminate].
  - destruct (starts_with want (c :: s)) eqn:E; intros H.
    + inv H. rewrite Nat.sub_diag; simpl. split; [lia|reflexivity].
    + pose proof (find_in_ge _ _ _ _ H). destruct (IH _ H) as [Hl ->].
      replace (j - i) with (S (j - S i)) by lia. simpl. split; [lia|reflexivity].
Qed.

(** The loop of [findAll], given fuel [length have + 1 - from], lists
    every occurrence from [from] on. *)
Lemma findAll_loop_occurrences fuel found have want ty from :
  want <> [] -> length have < fuel + from ->
  findAll_loop fuel found have want ty from
  = found ++ map (fun i => mkItem i ty) (occurrences want (skipn from have) from).
Proof.
  intros Hw; revert found from; induction fuel as [|fuel IH]; intros found from Hf; simpl.
  - rewrite skipn_all2 by lia. simpl. rewrite app_nil_r. reflexivity.
  - unfold str_find. destruct (from <=? length have) eqn:Hle.
    + destruct (find_in want (skipn from have) from) as [i|] eqn:Hfind.
      * destruct (occurrences_find_in_some _ _ _ _ Hw Hfind) as [Hlt ->].
        pose proof (find_in_ge _ _ _ _ Hfind). rewrite length_skipn in Hlt.
        rewrite IH by lia. rewrite skipn_skipn.
        replace (S (i - from) + from) with (S i) by lia.
        rewrite <- app_assoc. reflexivity.
      * rewrite occurrences_find_in_none by auto. simpl. rewrite app_nil_r. reflexivity.
    + apply Nat.leb_gt in Hle. rewrite skipn_all2 by lia. simpl. rewrite app_nil_r. reflexivity.
Qed.

Lemma in_occurrences want s i k :
  want <> [] ->
  In k (occurrences want s i) <-> i <= k /\ starts_with want (skipn (k - i) s) = true.
Proof.
  intros Hw; revert i; induction s as [|c s IH]; intros i; simpl.
  - destruct want; [congruence|]. rewrite skipn_nil. simpl. split; [tauto|intros [_ H]; discriminate].
  - rewrite in_app_iff, IH. destruct (starts_with want (c :: s)) eqn:E; simpl.
    + split.
      * intros [[<-|[]]|[H1 H2]]; [rewrite Nat.sub_diag; auto|].
        split; [lia|]. replace (k - i) with (S (k - S i)) by lia. exact H2.
      * intros [H1 H2]. destruct (Nat.eq_dec k i) as [->|Hne]; [auto|].
        right. split; [lia|]. replace (k - i) with (S (k - S i)) in H2 by lia. exact H2.
    + split.
      * intros [[]|[H1 H2]]. split; [lia|]. replace (k - i) with (S (k - S i)) by lia. exact H2.
      * intros [H1 H2]. destruct (Nat.eq_dec k i) as [->|Hne].
        -- rewrite Nat.sub_diag in H2. simpl in H2. congruence.
        -- right. split; [lia|]. replace (k - i) with (S (k - S i)) in H2 by lia. exact H2.
Qed.

Lemma occurrences_ge want s i k : In k (occurrences want s i) -> i <= k.
Proof.
  revert i; induction s as [|c s IH]; intros i; simpl; [tauto|].
  rewrite in_app_iff. destruct (starts_with want (c :: s)); simpl.
  - intros [[<-|[]]|H]; [lia|]. apply IH in H; lia.
  - intros [[]|H]. apply IH in H; lia.
Qed.

Lemma NoDup_occurrences want s i : NoDup (occurrences want s i).
Proof.
  revert i; induction s as [|c s IH]; intros i; simpl; [constructor|].
  destruct (starts_with want (c :: s)); simpl; auto.
  constructor; auto. intros H. apply occurrences_ge in H. lia.
Qed.

(** *** Sorting by column *)

Lemma insert_item_perm c l : Permutation (c :: l) (insert_item c l).
Proof.
  induction l as [|d l IH]; simpl; auto.
  destruct (idx d <? idx c); auto.
  eapply perm_trans; [apply perm_swap|]. constructor. exact IH.
Qed.

Lemma sort_perm l : Permutation l (sort l).
Proof.
  induction l as [|c l IH]; simpl; auto.
  eapply perm_trans; [apply perm_skip, IH|apply insert_item_perm].
Qed.

Lemma insert_item_sorted c l : Sorted idx_le l -> Sorted idx_le (insert_item c l).
Proof.
  induction 1 as [|d l Hs IH Hhd]; simpl; [repeat constructor|].
  destruct (idx d <? idx c) eqn:E.
  - apply Nat.ltb_lt in E. constructor; auto.
    destruct l as [|e l]; simpl; [constructor; unfold idx_le; lia|].
    inv Hhd. destruct (idx e <? idx c); constructor; unfold idx_le in *; lia.
  - apply Nat.ltb_ge in E. constructor; [constructor; auto|constructor; unfold idx_le; lia].
Qed.

Lemma sort_sorted l : StronglySorted idx_le (sort l).
Proof.
  apply Sorted_StronglySorted; [unfold Relations_1.Transitive, idx_le; lia|].
  induction l; simpl; [constructor|]. apply insert_item_sorted; auto.
Qed.

Lemma NoDup_map_inj {A B} (f : A -> B) l x y :
  NoDup (map f l) -> In x l -> In y l -> f x = f y -> x = y.
Proof.
  induction l as [|a l IH]; simpl; [tauto|]. intros Hnd. inv Hnd.
  intros [<-|Hx] [<-|Hy] E; auto; exfalso.
  - apply H1. rewrite E. apply in_map; auto.
  - apply H1. rewrite <- E. apply in_map; auto.
Qed.

Lemma sorted_perm_eq l1 l2 :
  StronglySorted idx_le l1 -> StronglySorted idx_le l2 ->
  NoDup (map idx l1) -> Permutation l1 l2 -> l1 = l2.
Proof.
  revert l2; induction l1 as [|x l1 IH]; intros l2 H1 H2 Hnd Hp.
  - symmetry; apply Permutation_nil; auto.
  - destruct l2 as [|y l2]; [apply Permutation_sym, Permutation_nil in Hp; discriminate|].
    apply StronglySorted_inv in H1 as [H1s H1f]. apply StronglySorted_inv in H2 as [H2s H2f].
    assert (Hy : In y (x :: l1)) by (apply (Permutation_in _ (Permutation_sym Hp)); left; auto).
    assert (Hx : In x (y :: l2)) by (apply (Permutation_in _ Hp); left; auto).
    assert (x = y).
    { destruct Hy as [->|Hy]; auto. destruct Hx as [->|Hx]; auto.
      apply (NoDup_map_inj idx (x :: l1)); simpl; auto.
      rewrite Forall_forall in *. unfold idx_le in *.
      specialize (H1f _ Hy). specialize (H2f _ Hx). lia. }
    subst y. f_equal. simpl in Hnd. inv Hnd.
    apply IH; auto. eapply Permutation_cons_inv; eauto.
Qed.

(** *** The markers of a line *)

Lemma pattern_nonempty ty : pattern ty <> [].
Proof. destruct ty; discriminate. Qed.

(** [findAll] (with the fuel [length have + 1] of the model) appends
    exactly the items of every occurrence of the searched marker, in
    increasing column order: the [while] loop of [CommentItem::findAll]
    terminates having found them all. *)
Theorem findAll_occurrences found have want ty :
  want <> [] ->
  findAll found have want ty = found ++ map (fun i => mkItem i ty) (occurrences want have 0).
Proof. intros Hw. unfold findAll. rewrite findAll_loop_occurrences by (auto; lia). reflexivity. Qed.

Lemma markers_raw line : markers line = sort (flat_map (occ_items line) all_types).
Proof.
  unfold markers. rewrite !findAll_occurrences by discriminate.
  simpl. rewrite <- !app_assoc, app_nil_r. reflexivity.
Qed.

Lemma in_occ_items line ty it :
  In it (occ_items line ty) <-> comType it = ty /\ marker_at line it = true.
Proof.
  unfold occ_items, marker_at. destruct it as [k t]; simpl. rewrite in_map_iff. split.
  - intros [i [E H]]. inv E. apply in_occurrences in H; [|apply pattern_nonempty].
    rewrite Nat.sub_0_r in H. tauto.
  - intros [-> H]. exists k. split; auto. apply in_occurrences; [apply pattern_nonempty|].
    rewrite Nat.sub_0_r. split; [lia|auto].
Qed.

Lemma in_raw_markers line it :
  In it (flat_map (occ_items line) all_types) <-> marker_at line it = true.
Proof.
  rewrite in_flat_map. split.
  - intros [ty [_ H]]. apply in_occ_items in H. tauto.
  - intros H. exists (comType it). split; [destruct (comType it); simpl; tauto|].
    apply in_occ_items; auto.
Qed.

Lemma in_markers line it : In it (markers line) <-> marker_at line it = true.
Proof.
  rewrite markers_raw. split; intros H.
  - apply in_raw_markers. eapply Permutation_in; [apply Permutation_sym, sort_perm|eauto].
  - eapply Permutation_in; [apply sort_perm|]. apply in_raw_markers; auto.
Qed.

(** Two markers at one column are the same marker. *)
Lemma marker_at_unique line x y :
  marker_at line x = true -> marker_at line y = true -> idx x = idx y -> x = y.
Proof.
  destruct x as [i tx], y as [j ty]; unfold marker_at; simpl; intros Hx Hy <-.
  destruct (starts_with_both _ _ _ Hx Hy) as [H|H];
    destruct tx, ty; try reflexivity; discriminate H.
Qed.

Lemma NoDup_raw_markers line : NoDup (flat_map (occ_items line) all_types).
Proof.
  assert (Hty : forall ty, NoDup (occ_items line ty)).
  { intros ty. unfold occ_items. apply Finite.Injective_map_NoDup; [|apply NoDup_occurrences].
    intros a b E. inv E. reflexivity. }
  assert (Hall : NoDup all_types) by (repeat constructor; simpl; intuition discriminate).
  induction all_types as [|t ts IH]; simpl; [constructor|]. inv Hall.
  apply NoDup_app; auto. intros it Hin1 Hin2.
  apply in_occ_items in Hin1 as [<- _]. apply in_flat_map in Hin2 as [t' [Ht' Hin2]].
  apply in_occ_items in Hin2 as [E _]. congruence.
Qed.

Lemma NoDup_map_idx l :
  NoDup l -> (forall x y, In x l -> In y l -> idx x = idx y -> x = y) -> NoDup (map idx l).
Proof.
  induction l as [|a l IH]; simpl; intros Hnd Hu; [constructor|]. inv Hnd.
  constructor; auto. rewrite in_map_iff. intros [b [E Hb]].
  assert (b = a) by (apply Hu; auto). subst. auto.
Qed.

Lemma strict_of_sorted l :
  StronglySorted idx_le l -> NoDup (map idx l) -> StronglySorted idx_lt l.
Proof.
  induction l as [|a l IH]; simpl; intros Hs Hnd; [constructor|].
  apply StronglySorted_inv in Hs as [Hs Hf]. inv Hnd. constructor; auto.
  rewrite Forall_forall in *. intros b Hb. specialize (Hf b Hb). unfold idx_le, idx_lt in *.
  assert (idx a <> idx b) by (intros E; apply H1; rewrite E; apply in_map; auto). lia.
Qed.

Lemma NoDup_map_idx_markers line : NoDup (map idx (markers line)).
Proof.
  apply NoDup_map_idx.
  - rewrite markers_raw. eapply Permutation_NoDup; [apply sort_perm|apply NoDup_raw_markers].
  - intros x y Hx Hy. apply (marker_at_unique line); apply in_markers; auto.
Qed.

(** C16: the markers of a line come out of the sort in strictly increasing
    column order (no two markers share a column), and every arrangement
    of the found markers that is sorted by column, which is all that
    [std::sort] with [lhs.idx < rhs.idx] promises, is the modelled one. *)
Theorem markers_sort_unique line l :
  Permutation (flat_map (occ_items line) all_types) l -> StronglySorted idx_le l ->
  l = markers line /\ StronglySorted idx_lt (markers line).
Proof.
  intros Hp Hs. assert (Hm : StronglySorted idx_le (markers line))
    by (rewrite markers_raw; apply sort_sorted).
  split; [|apply strict_of_sorted; auto using NoDup_map_idx_markers].
  apply sorted_perm_eq; auto.
  - apply NoDup_map_idx.
    + eapply Permutation_NoDup; [exact Hp|apply NoDup_raw_markers].
    + intros x y Hx Hy. apply (marker_at_unique line); apply in_raw_markers;
        apply (Permutation_in _ (Permutation_sym Hp)); auto.
  - rewrite markers_raw. eapply perm_trans; [apply Permutation_sym, Hp|apply sort_perm].
Qed.

Lemma markers_strict line : StronglySorted idx_lt (markers line).
Proof.
  apply strict_of_sorted; [rewrite markers_raw; apply sort_sorted|apply NoDup_map_idx_markers].
Qed.

(** *** Structure of the sorted marker list *)

Lemma StronglySorted_app_inv {A} (R : A -> A -> Prop) l1 x l2 :
  StronglySorted R (l1 ++ x :: l2) ->
  (forall y, In y l1 -> R y x) /\ (forall y, In y l2 -> R x y).
Proof.
  induction l1 as [|a l1 IH]; simpl; intros H; apply StronglySorted_inv in H as [Hs Hf].
  - split; [tauto|]. rewrite Forall_forall in Hf; auto.
  - destruct (IH Hs) as [H1 H2]. split; auto. intros y [<-|Hy]; auto.
    rewrite Forall_forall in Hf. apply Hf, in_or_app; simpl; auto.
Qed.

(** A marker of [line] splits the sorted list into the markers left of it
    and those right of it. *)
Lemma markers_split line x :
  marker_at line x = true ->
  exists l1 l2, markers line = l1 ++ x :: l2 /\
    (forall y, In y l1 -> idx y < idx x) /\ (forall y, In y l2 -> idx x < idx y).
Proof.
  intros Hx. apply in_markers, in_split in Hx as [l1 [l2 E]].
  exists l1, l2. split; auto. pose proof (markers_strict line) as Hs. rewrite E in Hs.
  apply StronglySorted_app_inv in Hs. exact Hs.
Qed.

(** A leftmost marker of [line] heads the sorted list. *)
Lemma markers_head line x :
  marker_at line x = true ->
  (forall y, marker_at line y = true -> idx x <= idx y) ->
  exists t, markers line = x :: t.
Proof.
  intros Hx Hmin. destruct (markers_split line x Hx) as [[|y l1] [l2 [E [H1 _]]]]; eauto.
  exfalso. assert (Hy : In y (markers line)) by (rewrite E; left; auto).
  apply in_markers, Hmin in Hy. specialize (H1 y (or_introl eq_refl)). lia.
Qed.

Lemma pattern_head ty : exists c r, pattern ty = c :: r /\ mem_char c marker_chars = true.
Proof. destruct ty; simpl; eauto. Qed.

(** No marker starts inside a prefix free of marker bytes. *)
Lemma marker_not_in_prefix pre s y :
  no_marker_chars pre -> marker_at (pre ++ s) y = true -> length pre <= idx y.
Proof.
  unfold marker_at, no_marker_chars. intros Hpre Hy.
  destruct (Nat.le_gt_cases (length pre) (idx y)) as [|Hlt]; auto. exfalso.
  rewrite skipn_app in Hy. destruct (skipn (idx y) pre) as [|c r] eqn:Es.
  - apply (f_equal (@length _)) in Es. rewrite length_skipn in Es. simpl in Es. lia.
  - assert (Hc : In c pre) by (apply (in_skipn_in _ (idx y)); rewrite Es; left; auto).
    rewrite Forall_forall in Hpre. specialize (Hpre c Hc).
    destruct (pattern_head (comType y)) as [d [t [Ep Hd]]]. rewrite Ep in Hy. simpl in Hy.
    apply andb_true_iff in Hy as [Hdc _]. apply Ascii.eqb_eq in Hdc. subst. congruence.
Qed.

(** No marker starts in a suffix free of marker bytes. *)
Lemma marker_not_in_suffix pre s y :
  no_marker_chars s -> marker_at (pre ++ s) y = true -> idx y < length pre.
Proof.
  unfold marker_at, no_marker_chars. intros Hs Hy.
  destruct (Nat.le_gt_cases (length pre) (idx y)) as [Hle|]; auto. exfalso.
  rewrite skipn_app, skipn_all2 in Hy by auto. simpl in Hy.
  destruct (skipn (idx y - length pre) s) as [|c r] eqn:Es.
  - rewrite starts_with_nil in Hy by apply pattern_nonempty. discriminate.
  - assert (Hc : In c s) by (apply (in_skipn_in _ (idx y - length pre)); rewrite Es; left; auto).
    rewrite Forall_forall in Hs. specialize (Hs c Hc).
    destruct (pattern_head (comType y)) as [d [t [Ep Hd]]]. rewrite Ep in Hy. simpl in Hy.
    apply andb_true_iff in Hy as [Hdc _]. apply Ascii.eqb_eq in Hdc. subst. congruence.
Qed.

Lemma getline_line line rest old :
  ~ In newline line -> getline (open_stream (line ++ newline :: rest)) old = (open_stream rest, line).
Proof.
  intros Hn. unfold getline, find_first_of, good. cbn [open_stream buf eofbit failbit negb andb].
  rewrite find_first_of_from_app.
  - unfold open_stream. rewrite Nat.add_0_l.
    replace (S (length line)) with (length (line ++ [newline])) by (rewrite length_app; simpl; lia).
    replace (line ++ newline :: rest) with ((line ++ [newline]) ++ rest) by (rewrite <- app_assoc; reflexivity).
    rewrite skipn_app_length. f_equal.
    rewrite <- app_assoc. simpl. apply firstn_app_length.
  - apply Forall_forall. intros c Hc. rewrite mem_char_single.
    destruct (Ascii.eqb_spec c newline); congruence.
  - rewrite mem_char_single. apply Ascii.eqb_refl.
Qed.

(** *** The marker state machine *)

Lemma scan_items_app s l1 l2 :
  scan_items s (l1 ++ l2)
  = match scan_items s l1 with Continue s' => scan_items s' l2 | r => r end.
Proof.
  revert s; induction l1 as [|it l1 IH]; intros s; simpl; auto.
  destruct (scan_item s it); auto.
Qed.

(** Inside a block comment every marker but [*/] is ignored. *)
Lemma scan_items_open_skip s l :
  commentOpen s = true -> (forall it, In it l -> comType it <> BlockCommentClose) ->
  scan_items s l = Continue s.
Proof.
  intros Ho; induction l as [|it l IH]; intros Hl; simpl; auto.
  unfold scan_item. rewrite Ho.
  destruct (comType it) eqn:E; try (apply IH; intros; apply Hl; simpl; auto).
  exfalso. apply (Hl it); simpl; auto.
Qed.

Lemma no_marker_chars_app a b :
  no_marker_chars (a ++ b) <-> no_marker_chars a /\ no_marker_chars b.
Proof. unfold no_marker_chars. apply Forall_app. Qed.

Lemma str_erase_from_length (n : nat) line :
  n <= length line -> str_erase_from (Z.of_nat n) line = Ok (firstn n line).
Proof.
  intros H. unfold str_erase_from. destruct (Z.ltb_spec (Z.of_nat (length line)) (Z.of_nat n)); [lia|].
  rewrite Nat2Z.id. reflexivity.
Qed.

(** C1: outside any open comment or literal, a line comment truncates the
    line: when the text before [//] holds no marker byte, [getJavaline]
    returns exactly that text, whatever follows [//] on the line, counts
    the line, and leaves no comment open. *)
Theorem getJavaline_line_comment st pre post rest old :
  my_isCommentOpen st = false -> no_marker_chars pre -> ~ In newline (pre ++ post) ->
  getJavaline st (open_stream (pre ++ $"//" ++ post ++ newline :: rest)) old
  = Ok (mkRead (mkReader false [] (uint_succ (my_lineNum st))) pre (open_stream rest)).
Proof.
  intros Hc Hpre Hn. unfold getJavaline.
  replace (pre ++ $"//" ++ post ++ newline :: rest)
    with ((pre ++ $"//" ++ post) ++ newline :: rest) by (rewrite <- !app_assoc; reflexivity).
  rewrite getline_line
    by (rewrite !in_app_iff in *; simpl; intuition discriminate).
  set (x := mkItem (length pre) LineComment).
  assert (Hx : marker_at (pre ++ $"//" ++ post) x = true)
    by (unfold marker_at; simpl; rewrite skipn_app_length; reflexivity).
  destruct (markers_head _ x Hx) as [t ->].
  { intros y Hy. apply (marker_not_in_prefix pre _ y Hpre Hy). }
  simpl. unfold scan_item; simpl. rewrite Hc.
  rewrite str_erase_from_length by (rewrite length_app; lia).
  rewrite firstn_app_length. reflexivity.
Qed.

(** *** Block comments *)

(** A [*/] that starts in a part of the line free of [*/] is impossible. *)
Lemma close_not_in_suffix a b y :
  no_close b -> marker_at (a ++ b) y = true -> length a <= idx y ->
  comType y <> BlockCommentClose.
Proof.
  unfold marker_at. intros Hb Hy Hle E. rewrite E, skipn_app_ge in Hy by auto.
  rewrite Hb in Hy. discriminate.
Qed.

(** No marker starts at a slash followed by marker-free text. *)
Lemma no_marker_at_slash line y post :
  no_marker_chars post -> skipn (idx y) line = ascii_of_nat 47 :: post ->
  marker_at line y = false.
Proof.
  unfold marker_at, no_marker_chars. intros Hp E. rewrite E.
  destruct (starts_with (pattern (comType y)) _) eqn:Hs; auto. exfalso.
  apply starts_with_spec in Hs as [r Hr].
  destruct post as [|c post]; destruct (comType y); simpl in Hr; inversion Hr; subst;
    inv Hp; match goal with H : _ = false |- _ => vm_compute in H; discriminate end.
Qed.

Lemma getJavaline_block_open st pre mid rest old :
  my_isCommentOpen st = false -> no_marker_chars pre -> no_close ($"*" ++ mid) ->
  ~ In newline (pre ++ mid) -> (Z.of_nat (length pre) < 2 ^ 31)%Z ->
  getJavaline st (open_stream (pre ++ $"/*" ++ mid ++ newline :: rest)) old
  = Ok (mkRead (mkReader true [] (uint_succ (my_lineNum st))) pre (open_stream rest)).
Proof.
  intros Hc Hpre Hmid Hn Hlen. unfold getJavaline.
  replace (pre ++ $"/*" ++ mid ++ newline :: rest)
    with ((pre ++ $"/*" ++ mid) ++ newline :: rest) by (rewrite <- !app_assoc; reflexivity).
  rewrite getline_line by (rewrite !in_app_iff in *; simpl; intuition discriminate).
  set (x := mkItem (length pre) BlockCommentOpen).
  assert (Hx : marker_at (pre ++ $"/*" ++ mid) x = true)
    by (unfold marker_at; simpl; rewrite skipn_app_length; reflexivity).
  destruct (markers_head _ x Hx) as [t Et].
  { intros y Hy. apply (marker_not_in_prefix pre _ y Hpre Hy). }
  assert (Ht : forall y, In y t -> comType y <> BlockCommentClose).
  { intros y Hy. pose proof (markers_strict (pre ++ $"/*" ++ mid)) as Hs. rewrite Et in Hs.
    apply StronglySorted_inv in Hs as [_ Hf]. rewrite Forall_forall in Hf.
    specialize (Hf y Hy). unfold idx_lt in Hf. simpl in Hf.
    assert (Hm : marker_at (pre ++ $"/*" ++ mid) y = true) by (apply in_markers; rewrite Et; right; auto).
    replace (pre ++ $"/*" ++ mid) with ((pre ++ $"/") ++ ($"*" ++ mid)) in Hm
      by (rewrite <- !app_assoc; reflexivity).
    apply (close_not_in_suffix _ _ _ Hmid Hm). rewrite length_app. simpl. lia. }
  rewrite Et. simpl. unfold scan_item at 1; simpl. rewrite Hc.
  rewrite scan_items_open_skip by auto.
  unfold finish; simpl. rewrite int_of_size_small, size_of_int_small by lia.
  rewrite str_erase_from_length by (rewrite length_app; lia).
  rewrite firstn_app_length. reflexivity.
Qed.

Lemma getJavaline_block_inside st mid rest old :
  my_isCommentOpen st = true -> no_close mid -> ~ In newline mid ->
  getJavaline st (open_stream (mid ++ newline :: rest)) old
  = Ok (mkRead (mkReader true [] (uint_succ (my_lineNum st))) [] (open_stream rest)).
Proof.
  intros Hc Hmid Hn. unfold getJavaline. rewrite getline_line by auto.
  rewrite scan_items_open_skip by (auto; intros y Hy; apply in_markers in Hy;
    apply (close_not_in_suffix [] mid y Hmid Hy); simpl; lia).
  unfold finish. simpl. rewrite Hc. change (size_of_int 0) with (Z.of_nat 0).
  rewrite str_erase_from_length by lia. reflexivity.
Qed.

Lemma getJavaline_block_close st mid post rest old :
  my_isCommentOpen st = true -> no_close (mid ++ $"*") -> no_marker_chars post ->
  ~ In newline (mid ++ post) -> (Z.of_nat (length mid) + 2 < 2 ^ 31)%Z ->
  getJavaline st (open_stream (mid ++ $"*/" ++ post ++ newline :: rest)) old
  = Ok (mkRead (mkReader false [mkPair 0 (Z.of_nat (length mid) + 2)] (uint_succ (my_lineNum st)))
               post (open_stream rest)).
Proof.
  intros Hc Hmid Hpost Hn Hlen. unfold getJavaline.
  set (line := mid ++ $"*/" ++ post).
  replace (mid ++ $"*/" ++ post ++ newline :: rest) with (line ++ newline :: rest)
    by (unfold line; rewrite <- !app_assoc; reflexivity).
  rewrite getline_line by (unfold line; rewrite !in_app_iff in *; simpl; intuition discriminate).
  set (x := mkItem (length mid) BlockCommentClose).
  assert (Hx : marker_at line x = true)
    by (unfold marker_at, line; simpl; rewrite skipn_app_length; reflexivity).
  destruct (markers_split _ x Hx) as [l1 [l2 [E [H1 H2]]]].
  assert (Hl2 : l2 = []).
  { destruct l2 as [|y l2]; auto. exfalso. specialize (H2 y (or_introl eq_refl)).
    assert (Hy : marker_at line y = true) by (apply in_markers; rewrite E; apply in_or_app; simpl; auto).
    simpl in H2. destruct (Nat.eq_dec (idx y) (S (length mid))) as [Ei|Ne].
    - rewrite (no_marker_at_slash line y post Hpost) in Hy; [discriminate|].
      unfold line. rewrite Ei. replace (mid ++ $"*/" ++ post) with ((mid ++ $"*") ++ ($"/" ++ post))
        by (rewrite <- !app_assoc; reflexivity).
      rewrite skipn_app_ge by (rewrite length_app; simpl; lia).
      rewrite length_app. simpl. rewrite Nat.add_1_r, Nat.sub_diag. reflexivity.
    - replace line with ((mid ++ $"*/") ++ post) in Hy by (unfold line; rewrite <- app_assoc; reflexivity).
      apply (marker_not_in_suffix _ _ _ Hpost) in Hy. rewrite length_app in Hy. simpl in Hy. lia. }
  subst l2. rewrite E, scan_items_app, scan_items_open_skip; auto.
  2: { intros y Hy Ey. specialize (H1 y Hy).
       assert (Hm : marker_at line y = true) by (apply in_markers; rewrite E; apply in_or_app; auto).
       unfold marker_at in Hm. rewrite Ey in Hm. simpl in H1.
       replace line with ((mid ++ $"*") ++ ($"/" ++ post)) in Hm
         by (unfold line; rewrite <- !app_assoc; reflexivity).
       rewrite skipn_app, starts_with_app_l in Hm
         by (rewrite length_skipn, length_app; simpl; lia).
       rewrite Hmid in Hm. discriminate. }
  simpl. unfold scan_item; simpl. rewrite Hc. unfold finish; simpl.
  rewrite int_of_size_small by lia. rewrite Z.sub_0_r.
  rewrite (size_of_int_small 0), size_of_int_small by lia.
  replace (Z.of_nat (length mid) + 2)%Z with (Z.of_nat (length (mid ++ $"*/"))) at 1
    by (rewrite length_app; simpl; lia).
  rewrite (str_erase_ok 0) by lia. simpl.
  unfold line. rewrite app_assoc, skipn_app_length. reflexivity.
Qed.

(** *** A closed block comment followed by a line comment *)

(** No marker starts inside a stretch free of marker bytes. *)
Lemma marker_not_in_middle a m b y :
  no_marker_chars m -> marker_at (a ++ m ++ b) y = true ->
  idx y < length a \/ length a + length m <= idx y.
Proof.
  intros Hm Hy. destruct (Nat.lt_ge_cases (idx y) (length a)) as [|Ha]; [left; auto|right].
  destruct (Nat.lt_ge_cases (idx y) (length a + length m)) as [Hlt|]; [exfalso|auto].
  unfold marker_at in Hy. rewrite skipn_app_ge, skipn_app in Hy by auto.
  destruct (skipn (idx y - length a) m) as [|c r] eqn:Es.
  - apply (f_equal (@length _)) in Es. rewrite length_skipn in Es. simpl in Es. lia.
  - assert (Hc : In c m) by (apply (in_skipn_in _ (idx y - length a)); rewrite Es; left; auto).
    unfold no_marker_chars in Hm. rewrite Forall_forall in Hm. specialize (Hm c Hc).
    destruct (pattern_head (comType y)) as [d [t [Ep Hd]]]. rewrite Ep in Hy. simpl in Hy.
    apply andb_true_iff in Hy as [Hdc _]. apply Ascii.eqb_eq in Hdc. subst. congruence.
Qed.

(** No marker starts at a [*] not followed by [/], nor at a [/]
    followed by a byte that is not a marker byte. *)
Lemma no_marker_at_pair line y c1 c2 r :
  skipn (idx y) line = c1 :: c2 :: r ->
  (c1 = "*"%char /\ c2 <> "/"%char) \/ (c1 = "/"%char /\ mem_char c2 marker_chars = false) ->
  marker_at line y = false.
Proof.
  unfold marker_at. intros E H. rewrite E.
  destruct H as [[-> Hc]|[-> Hc]]; destruct (comType y); unfold pattern;
    cbn [lstr list_ascii_of_string starts_with]; try reflexivity;
    rewrite ?andb_true_r; (apply Ascii.eqb_neq; intros <-); [congruence| |]; vm_compute in Hc; discriminate.
Qed.

Lemma skipn_at {A} n (a b : list A) : n = length a -> skipn n (a ++ b) = b.
Proof. intros ->. apply skipn_app_length. Qed.

Lemma mem_char_slash c : mem_char c marker_chars = false -> c <> "/"%char.
Proof. intros H ->. vm_compute in H. discriminate. Qed.

(** The only markers left of the [//] of [pre /* mid */ post // tail]
    are the [/*] and the [*/]. *)
Lemma markers_before_line_comment pre mid post tail y :
  no_marker_chars pre -> no_marker_chars mid -> no_marker_chars post -> post <> [] ->
  marker_at (pre ++ $"/*" ++ mid ++ $"*/" ++ post ++ $"//" ++ tail) y = true ->
  idx y < length pre + 4 + length mid + length post ->
  y = mkItem (length pre) BlockCommentOpen \/ y = mkItem (length pre + 2 + length mid) BlockCommentClose.
Proof.
  intros Hpre Hmid Hpost Hp0 Hy Hlt. pose proof (marker_not_in_prefix pre _ _ Hpre Hy) as H0.
  destruct y as [i ty]; cbn [idx] in *.
  destruct (marker_not_in_middle (pre ++ $"/*") mid ($"*/" ++ post ++ $"//" ++ tail) (mkItem i ty) Hmid)
    as [Hm|Hm]; [rewrite <- !app_assoc; exact Hy| |]; rewrite length_app in Hm; simpl in Hm.
  - assert (Hi : i = length pre \/ i = S (length pre)) by lia. destruct Hi as [-> | ->].
    + left. unfold marker_at in Hy. cbn [idx] in Hy. rewrite skipn_app_length in Hy.
      destruct ty; cbn in Hy; congruence.
    + exfalso. destruct mid as [|m mid]; [|inv Hmid].
      * replace (pre ++ $"/*" ++ [] ++ $"*/" ++ post ++ $"//" ++ tail)
          with ((pre ++ $"/") ++ "*"%char :: "*"%char :: ("/"%char :: post ++ $"//" ++ tail)) in Hy
          by (rewrite <- app_assoc; reflexivity).
        rewrite (no_marker_at_pair _ _ "*"%char "*"%char ("/"%char :: post ++ $"//" ++ tail)) in Hy; [discriminate| |left; split; [reflexivity|discriminate]].
        cbn [idx]. apply skipn_at. rewrite length_app. simpl. lia.
      * replace (pre ++ $"/*" ++ (m :: mid) ++ $"*/" ++ post ++ $"//" ++ tail)
          with ((pre ++ $"/") ++ "*"%char :: m :: (mid ++ $"*/" ++ post ++ $"//" ++ tail)) in Hy
          by (rewrite <- app_assoc; reflexivity).
        rewrite (no_marker_at_pair _ _ "*"%char m (mid ++ $"*/" ++ post ++ $"//" ++ tail)) in Hy; [discriminate| |left; split; [reflexivity|]].
        -- cbn [idx]. apply skipn_at. rewrite length_app. simpl. lia.
        -- apply mem_char_slash. auto.
  - destruct (marker_not_in_middle (pre ++ $"/*" ++ mid ++ $"*/") post ($"//" ++ tail) (mkItem i ty) Hpost)
      as [Hq|Hq]; [rewrite <- !app_assoc; exact Hy| |]; rewrite !length_app in Hq; simpl in Hq; [|lia].
    assert (Hi : i = length pre + 2 + length mid \/ i = length pre + 3 + length mid) by lia.
    destruct Hi as [-> | ->].
    + right. replace (pre ++ $"/*" ++ mid ++ $"*/" ++ post ++ $"//" ++ tail)
        with ((pre ++ $"/*" ++ mid) ++ $"*/" ++ post ++ $"//" ++ tail) in Hy by (rewrite <- !app_assoc; reflexivity).
      unfold marker_at in Hy. cbn [idx] in Hy. rewrite skipn_at in Hy by (rewrite !length_app; simpl; lia).
      destruct ty; cbn in Hy; congruence.
    + exfalso. destruct post as [|p post]; [congruence|]. inv Hpost.
      replace (pre ++ $"/*" ++ mid ++ $"*/" ++ (p :: post) ++ $"//" ++ tail)
        with ((pre ++ $"/*" ++ mid ++ $"*") ++ "/"%char :: p :: (post ++ $"//" ++ tail)) in Hy
        by (rewrite <- !app_assoc; reflexivity).
      rewrite (no_marker_at_pair _ _ "/"%char p (post ++ $"//" ++ tail)) in Hy; [discriminate| |right; auto].
      cbn [idx]. apply skipn_at. rewrite !length_app. simpl. lia.
Qed.

(** A strictly sorted list of two given markers, in order. *)
Lemma strict_two (o c : CommentItem) l :
  StronglySorted idx_lt l -> idx o < idx c -> In o l -> In c l ->
  (forall y, In y l -> y = o \/ y = c) -> l = [o; c].
Proof.
  intros Hs Hoc Ho Hc Hl. assert (Hi : forall y, In y l -> idx y = idx o \/ idx y = idx c)
    by (intros y Hy; destruct (Hl y Hy) as [-> | ->]; auto).
  destruct l as [|a [|b [|d l]]]; [destruct Ho| | |].
  - destruct Ho as [<-|[]]. destruct Hc as [E|[]]. subst. lia.
  - apply StronglySorted_inv in Hs as [_ Hf]. inv Hf. unfold idx_lt in *.
    destruct (Hl a (or_introl eq_refl)) as [-> | ->], (Hl b (or_intror (or_introl eq_refl))) as [-> | ->];
      auto; lia.
  - exfalso. apply StronglySorted_inv in Hs as [Hs Hf]. apply StronglySorted_inv in Hs as [_ Hf2].
    inv Hf. inv Hf2. match goal with H : Forall _ (d :: l) |- _ => inv H end. unfold idx_lt in *.
    pose proof (Hi a (or_introl eq_refl)). pose proof (Hi b (or_intror (or_introl eq_refl))).
    pose proof (Hi d (or_intror (or_intror (or_introl eq_refl)))). lia.
Qed.

Lemma StronglySorted_app_l {A} (R : A -> A -> Prop) l1 l2 :
  StronglySorted R (l1 ++ l2) -> StronglySorted R l1.
Proof.
  induction l1 as [|a l1 IH]; simpl; intros H; [constructor|].
  apply StronglySorted_inv in H as [Hs Hf]. constructor; [auto|].
  rewrite Forall_forall in *. intros x Hx. apply Hf, in_or_app. auto.
Qed.

(** C29: a block comment closed on its line and followed by a line
    comment is not removed: [getJavaline] returns at the [//] before
    erasing the spans it collected, so the line keeps [/* mid */], and
    the span of the comment stays in [my_removeList] for the next call. *)
Theorem getJavaline_block_then_line_comment st pre mid post tail rest old :
  my_isCommentOpen st = false -> no_marker_chars pre -> no_marker_chars mid ->
  no_marker_chars post -> post <> [] -> ~ In newline (pre ++ mid ++ post ++ tail) ->
  (Z.of_nat (length pre + length mid + length post) + 4 < 2 ^ 31)%Z ->
  getJavaline st (open_stream (pre ++ $"/*" ++ mid ++ $"*/" ++ post ++ $"//" ++ tail ++ newline :: rest)) old
  = Ok (mkRead (mkReader false [mkPair (Z.of_nat (length pre)) (Z.of_nat (length mid) + 4)]
                         (uint_succ (my_lineNum st)))
               (pre ++ $"/*" ++ mid ++ $"*/" ++ post) (open_stream rest)).
Proof.
  intros Hc Hpre Hmid Hpost Hp0 Hn Hlen. unfold getJavaline.
  set (kept := pre ++ $"/*" ++ mid ++ $"*/" ++ post).
  set (line := kept ++ $"//" ++ tail).
  replace (pre ++ $"/*" ++ mid ++ $"*/" ++ post ++ $"//" ++ tail ++ newline :: rest)
    with (line ++ newline :: rest) by (unfold line, kept; rewrite <- !app_assoc; reflexivity).
  rewrite getline_line by (unfold line, kept; rewrite !in_app_iff in *; simpl; intuition discriminate).
  assert (Hk : length kept = length pre + 4 + length mid + length post)
    by (unfold kept; rewrite !length_app; simpl; lia).
  set (o := mkItem (length pre) BlockCommentOpen).
  set (c := mkItem (length pre + 2 + length mid) BlockCommentClose).
  set (l := mkItem (length pre + 4 + length mid + length post) LineComment).
  assert (Hl : marker_at line l = true)
    by (unfold marker_at, line; cbn [idx l]; rewrite skipn_at by (symmetry; exact Hk); reflexivity).
  assert (Ho : marker_at line o = true)
    by (unfold marker_at, line, kept; cbn [idx o]; rewrite <- !app_assoc, skipn_app_length; reflexivity).
  assert (Hcl : marker_at line c = true).
  { unfold marker_at, line, kept. cbn [idx c].
    replace ((pre ++ $"/*" ++ mid ++ $"*/" ++ post) ++ $"//" ++ tail)
      with ((pre ++ $"/*" ++ mid) ++ $"*/" ++ post ++ $"//" ++ tail) by (rewrite <- !app_assoc; reflexivity).
    rewrite skipn_at by (rewrite !length_app; simpl; lia). reflexivity. }
  destruct (markers_split line l Hl) as [l1 [l2 [E [H1 H2]]]].
  assert (Hin : forall y, marker_at line y = true -> idx y < idx l -> In y l1).
  { intros y Hy Hlt. apply in_markers in Hy. rewrite E in Hy.
    apply in_app_or in Hy as [Hy|[<-|Hy]]; [exact Hy|lia|]. specialize (H2 y Hy). lia. }
  assert (El1 : l1 = [o; c]).
  { apply strict_two.
    - apply (StronglySorted_app_l _ _ (l :: l2)). rewrite <- E. apply markers_strict.
    - cbn. lia.
    - apply Hin; [exact Ho|cbn; lia].
    - apply Hin; [exact Hcl|cbn; lia].
    - intros y Hy. apply (markers_before_line_comment pre mid post tail); [auto|auto|auto|auto| |exact (H1 y Hy)].
      unfold line, kept in E. rewrite <- !app_assoc in E. apply in_markers. rewrite E.
      apply in_or_app. auto. }
  rewrite E, El1. unfold o, c, l. cbn [app scan_items]. unfold scan_item. cbn [idx comType commentOpen quote1Open quote2Open].
  rewrite Hc. cbn [commentOpen quote1Open quote2Open removeList blockStart app].
  rewrite !int_of_size_small by lia. cbn [good open_stream eofbit failbit negb andb].
  rewrite str_erase_from_length by (unfold line; rewrite length_app, Hk; lia).
  rewrite <- Hk. unfold line. rewrite firstn_app_length.
  replace (Z.of_nat (length pre + 2 + length mid) - Z.of_nat (length pre) + 2)%Z
    with (Z.of_nat (length mid) + 4)%Z by lia.
  reflexivity.
Qed.

Lemma file_of_app ls1 ls2 : file_of (ls1 ++ ls2) = file_of ls1 ++ file_of ls2.
Proof. unfold file_of. apply flat_map_app. Qed.

Lemma file_of_cons m ms tail :
  file_of (m :: ms) ++ tail = m ++ newline :: (file_of ms ++ tail).
Proof. unfold file_of. cbn [flat_map]. rewrite <- !app_assoc. reflexivity. Qed.

Lemma read_lines_inside ms : forall st fuel tail old,
  my_isCommentOpen st = true -> Forall no_close ms -> Forall (fun l => ~ In newline l) ms ->
  exists st' old', my_isCommentOpen st' = true /\
    read_lines (length ms + fuel) st (open_stream (file_of ms ++ tail)) old
    = (let* p := read_lines fuel st' (open_stream tail) old' in
       Ok (repeat [] (length ms) ++ fst p, snd p)).
Proof.
  induction ms as [|m ms IH]; intros st fuel tail old Hc Hcl Hnl.
  - simpl. exists st, old. split; auto.
    destruct (read_lines fuel st (open_stream tail) old) as [[a b]|e]; reflexivity.
  - inv Hcl. inv Hnl.
    rewrite file_of_cons. cbn [length Nat.add read_lines].
    rewrite getJavaline_block_inside by auto. cbn [rbind rd_good rd_state rd_stream rd_line good open_stream eofbit failbit negb andb].
    destruct (IH (mkReader true [] (uint_succ (my_lineNum st))) fuel tail []) as [st' [old' [Ho E]]]; auto.
    exists st', old'. split; auto. rewrite E.
    destruct (read_lines fuel st' (open_stream tail) old') as [[a b]|e]; reflexivity.
Qed.

(** C2: a block comment opened on one line and closed [k] lines later is
    removed: the opening line keeps the text before [/*], every line in
    between comes out empty, the closing line keeps the text after [*/],
    and the reader leaves the comment state closed after it. *)
Theorem read_lines_block_comment st pre m0 ms mk post rest old :
  my_isCommentOpen st = false -> no_marker_chars pre -> no_close ($"*" ++ m0) ->
  Forall no_close ms -> no_close (mk ++ $"*") -> no_marker_chars post ->
  ~ In newline (pre ++ m0) -> Forall (fun l => ~ In newline l) ms -> ~ In newline (mk ++ post) ->
  (Z.of_nat (length pre) < 2 ^ 31)%Z -> (Z.of_nat (length mk) + 2 < 2 ^ 31)%Z ->
  exists st', my_isCommentOpen st' = false /\
    read_lines (S (length ms + 1)) st
      (open_stream (file_of ((pre ++ $"/*" ++ m0) :: ms ++ [mk ++ $"*/" ++ post]) ++ rest)) old
    = Ok (pre :: repeat [] (length ms) ++ [post], st').
Proof.
  intros Hc Hpre Hm0 Hms Hmk Hpost Hn0 Hnms Hnk Hl1 Hl2.
  replace (file_of ((pre ++ $"/*" ++ m0) :: ms ++ [mk ++ $"*/" ++ post]) ++ rest)
    with (pre ++ $"/*" ++ m0 ++ newline :: (file_of ms ++ (mk ++ $"*/" ++ post ++ newline :: rest)))
    by (simpl; rewrite file_of_app; simpl; rewrite <- !app_assoc; reflexivity).
  cbn [read_lines]. rewrite getJavaline_block_open by auto.
  cbn [rbind rd_good rd_state rd_stream rd_line good open_stream eofbit failbit negb andb].
  destruct (read_lines_inside ms (mkReader true [] (uint_succ (my_lineNum st))) 1
              (mk ++ $"*/" ++ post ++ newline :: rest) pre) as [st1 [old1 [Ho E]]]; auto.
  rewrite E. cbn [read_lines]. rewrite getJavaline_block_close by auto. simpl.
  eexists. split; [|reflexivity]. reflexivity.
Qed.

(** *** Progress on the stream *)

(** [std::getline] never grows the unread input, and consumes at least
    one byte when it leaves the stream good. *)
Lemma getline_buf ins line :
  length (buf (fst (getline ins line))) <= length (buf ins) /\
  (good (fst (getline ins line)) = true -> length (buf (fst (getline ins line))) < length (buf ins)).
Proof.
  unfold getline. destruct (good ins) eqn:Hg.
  - destruct (buf ins) as [|c b] eqn:Eb; [simpl; split; [lia|discriminate]|].
    destruct (find_first_of [newline] (c :: b)) as [i|].
    + cbn [fst buf]. rewrite length_skipn. simpl. lia.
    + simpl. split; [lia|discriminate].
  - simpl. split; [lia|]. unfold good. simpl. rewrite andb_false_r. discriminate.
Qed.

Lemma getJavaline_buf st ins line0 r :
  getJavaline st ins line0 = Ok r ->
  length (buf (rd_stream r)) <= length (buf ins) /\
  (rd_good r = true -> length (buf (rd_stream r)) < length (buf ins)).
Proof.
  unfold getJavaline, rd_good. pose proof (getline_buf ins line0) as Hb.
  destruct (getline ins line0) as [ins' line]. cbn [fst] in Hb.
  destruct (good ins') eqn:Hg.
  - destruct (scan_items _ _) as [s|s i].
    + destruct (finish s line); cbn [rbind]; intros H; inv H; cbn [rd_stream]; rewrite Hg in *; exact Hb.
    + destruct (str_erase_from _ line); cbn [rbind]; intros H; inv H; cbn [rd_stream]; rewrite Hg in *; exact Hb.
  - destruct (finish _ line); cbn [rbind]; intros H; inv H; simpl; split; [lia|]. congruence.
Qed.

(** *** Witnesses *)

Lemma findAll_occurrences_witness :
  findAll [] ($"a // b // c") ($"//") LineComment
  = [] ++ map (fun i => mkItem i LineComment) (occurrences ($"//") ($"a // b // c") 0).
Proof. apply findAll_occurrences. discriminate. Defined.

Lemma markers_sort_unique_witness :
  [mkItem 2 LineComment] = markers ($"a // b") /\ StronglySorted idx_lt (markers ($"a // b")).
Proof.
  apply markers_sort_unique; vm_compute; [apply Permutation_refl|repeat constructor].
Defined.

Lemma getJavaline_line_comment_witness :
  getJavaline init_reader (open_stream ($"x = 1; " ++ $"//" ++ $" note" ++ newline :: [])) []
  = Ok (mkRead (mkReader false [] (uint_succ (my_lineNum init_reader))) ($"x = 1; ") (open_stream [])).
Proof.
  apply getJavaline_line_comment; [reflexivity|repeat constructor|apply not_in_mem; reflexivity].
Defined.

Lemma getJavaline_block_then_line_comment_witness :
  getJavaline init_reader
    (open_stream ($"class A " ++ $"/*" ++ $" extends B " ++ $"*/" ++ $" { " ++ $"//" ++ $" c" ++ newline :: [])) []
  = Ok (mkRead (mkReader false [mkPair (Z.of_nat (length ($"class A "))) (Z.of_nat (length ($" extends B ")) + 4)]
                         (uint_succ (my_lineNum init_reader)))
               ($"class A " ++ $"/*" ++ $" extends B " ++ $"*/" ++ $" { ") (open_stream [])).
Proof.
  apply getJavaline_block_then_line_comment;
    [reflexivity|repeat constructor|repeat constructor|repeat constructor|discriminate
    |apply not_in_mem; reflexivity|vm_compute; reflexivity].
Defined.

Lemma read_lines_block_comment_witness :
  exists st', my_isCommentOpen st' = false /\
    read_lines (S (length [$" mid"] + 1)) init_reader
      (open_stream (file_of (($"int a; " ++ $"/*" ++ $" start") :: [$" mid"] ++ [$" end " ++ $"*/" ++ $" int b;"])
                    ++ [])) []
    = Ok ($"int a; " :: repeat [] (length [$" mid"]) ++ [$" int b;"], st').
Proof.
  apply read_lines_block_comment;
    first [reflexivity | repeat constructor | (intros k; apply (find_in_none _ _ 0); reflexivity)
          | (apply not_in_mem; reflexivity) | (vm_compute; reflexivity) | idtac].
  all: repeat constructor; first [(intros k; apply (find_in_none _ _ 0); reflexivity)
                                 | (apply not_in_mem; reflexivity)].
Defined.

(** *** The line counter is an [unsigned int] *)

Lemma getJavaline_lineNum st ins line0 r :
  getJavaline st ins line0 = Ok r ->
  my_lineNum (rd_state r) = if rd_good r then uint_succ (my_lineNum st) else my_lineNum st.
Proof.
  unfold getJavaline, rd_good. destruct (getline ins line0) as [ins' line].
  destruct (good ins') eqn:Eg.
  - destruct (scan_items _ _); unfold rbind;
      match goal with |- match ?x with _ => _ end = _ -> _ => destruct x end;
      intros E; inv E; cbn; rewrite Eg; reflexivity.
  - unfold rbind. destruct (finish _ _); intros E; inv E; cbn; rewrite Eg; reflexivity.
Qed.

(** C36: [my_lineNum] counts the lines [getJavaline] returns modulo
    [2^32]: after [read_lines] returns [ls], the counter is the old one
    plus [length ls], wrapped around at the width of [unsigned int]. *)
Theorem read_lines_lineNum fuel : forall st ins line ls st',
  (0 <= my_lineNum st < 2 ^ 32)%Z ->
  read_lines fuel st ins line = Ok (ls, st') ->
  my_lineNum st' = ((my_lineNum st + Z.of_nat (length ls)) mod 2 ^ 32)%Z.
Proof.
  induction fuel as [|f IH]; intros st ins line ls st' Hb E; cbn [read_lines] in E.
  - inv E. cbn. rewrite Z.add_0_r, Z.mod_small; auto.
  - destruct (getJavaline st ins line) as [r|e] eqn:Eg; [|discriminate]. cbn [rbind] in E.
    pose proof (getJavaline_lineNum _ _ _ _ Eg) as Hn.
    destruct (rd_good r).
    + destruct (read_lines f (rd_state r) (rd_stream r) (rd_line r)) as [[ls' st2]|e] eqn:Er; [|discriminate].
      cbn in E. inv E.
      assert (Hb' : (0 <= my_lineNum (rd_state r) < 2 ^ 32)%Z)
        by (rewrite Hn; unfold uint_succ; apply Z.mod_pos_bound; lia).
      rewrite (IH _ _ _ _ _ Hb' Er), Hn. unfold uint_succ. rewrite Zplus_mod_idemp_l.
      cbn [length]. f_equal. lia.
    + inv E. rewrite Hn. cbn. rewrite Z.add_0_r, Z.mod_small; auto.
Qed.

Lemma read_lines_lineNum_witness :
  (0 <= my_lineNum init_reader < 2 ^ 32)%Z /\
  read_lines 3 init_reader (open_stream ($"a" ++ [newline] ++ $"b" ++ [newline])) []
    = Ok ([$"a"; $"b"], mkReader false [] 2) /\
  my_lineNum (mkReader false [] 2) = ((my_lineNum init_reader + 2) mod 2 ^ 32)%Z.
Proof.
  split; [vm_compute; split; [discriminate|reflexivity]|]. split; [vm_compute; reflexivity|].
  apply (read_lines_lineNum 3 init_reader (open_stream ($"a" ++ [newline] ++ $"b" ++ [newline])) [] [$"a"; $"b"]);
    [vm_compute; split; [discriminate|reflexivity]|vm_compute; reflexivity].
Defined.

End JavaReaderFacts.
