(* ===== verification/Split.v ===== *)
(** * Split: the generic-aware splitter

    Models [FindSplit] of [src/javatree/javatree.cpp], which returns the
    next index of a delimiter at angle-bracket depth 0, and the [Split]
    tokenizer of [src/javatree/split.h], which cuts a string at the
    indices a find function returns and drops empty pieces.  [Split]
    takes its find function as a parameter, as the C++ constructor takes
    a function pointer. *)

From Stdlib Require Import Ascii String List Lia ZArith Bool.
From S2P Require Import Prelude.
Import ListNotations.
Open Scope jt_scope.

Module Split.

Definition lt_c : ascii := ascii_of_nat 60.
Definition gt_c : ascii := ascii_of_nat 62.

(** The depth after reading [c] at depth [d]: [<] opens, [>] closes. *)
Definition depth_step (d : Z) (c : ascii) : Z :=
  let d1 := if Ascii.eqb c lt_c then (d + 1)%Z else d in
  if Ascii.eqb c gt_c then (d1 - 1)%Z else d1.

(** The loop of [FindSplit] from index [idx] at depth [depth]. *)
Fixpoint find_split_from (delimList s : lstring) (idx : nat) (depth : Z) : option nat :=
  match s with
  | [] => None
  | c :: s' =>
      let depth' := depth_step depth c in
      if (depth' =? 0)%Z && mem_char c delimList then Some idx
      else find_split_from delimList s' (S idx) depth'
  end.

(** [FindSplit(str, delimList, begIdx)]. *)
Definition FindSplit (str delimList : lstring) (begIdx : nat) : option nat :=
  find_split_from delimList (skipn begIdx str) begIdx 0.

Section SplitLoop.

(** The [Find_of] function pointer the constructor receives. *)
Variable find_of : lstring -> lstring -> nat -> option nat.

(** The [while (pos != npos)] loop of [Split::Split] and the final
    [push_back] after it; [None] when [fuel] runs out. *)
Fixpoint split_loop (fuel : nat) (str delimList : lstring) (lastPos : nat)
         (pos : option nat) (acc : list lstring) : option (result (list lstring)) :=
  match pos with
  | None =>
      if lastPos <? length str then
        Some (let* t := str_substr (Z.of_nat lastPos) (npos - Z.of_nat lastPos) str in
              Ok (acc ++ [t]))
      else Some (Ok acc)
  | Some p =>
      match fuel with
      | O => None
      | S fuel' =>
          match (if negb (p =? lastPos)
                 then let* t := str_substr (Z.of_nat lastPos) (size_sub p lastPos) str in
                      Ok (acc ++ [t])
                 else Ok acc) with
          | Throw e => Some (Throw e)
          | Ok acc' => split_loop fuel' str delimList (S p) (find_of str delimList (S p)) acc'
          end
      end
  end.

(** [Split split(str, delimList, find_of)]. *)
Definition Split (str delimList : lstring) : option (result (list lstring)) :=
  split_loop (S (length str)) str delimList 0 (find_of str delimList 0) [].

End SplitLoop.

(** ** Reference definitions *)

(** Net bracket depth of a string. *)
Definition net_depth (s : lstring) : Z := fold_left depth_step s 0%Z.

(** The index [FindSplit] should return: the least [j >= begIdx] whose
    byte is a delimiter and at which the depth counted from [begIdx]
    (this byte included) is 0. *)
Definition find_split_ref (str delimList : lstring) (begIdx : nat) : option nat :=
  hd_error (filter (fun j => mem_char (nth j str " "%char) delimList
                             && (net_depth (firstn (S j - begIdx) (skipn begIdx str)) =? 0)%Z)
                   (seq begIdx (length str - begIdx))).

(** Tokens joined by one separator byte. *)
Fixpoint join_with (c : ascii) (ts : list lstring) : lstring :=
  match ts with
  | [] => []
  | [t] => t
  | t :: ts' => t ++ c :: join_with c ts'
  end.

(** Every delimiter byte of [t] sits inside angle brackets. *)
Definition no_top_delim (delimList t : lstring) : Prop :=
  forall k, k < length t -> mem_char (nth k t " "%char) delimList = true ->
  net_depth (firstn (S k) t) <> 0%Z.

End Split.

Module SplitFacts.
Import Split.

Lemma find_split_from_ref delimList s : forall i z,
  find_split_from delimList s i z
  = hd_error (filter (fun j => mem_char (nth (j - i) s " "%char) delimList
                               && (fold_left depth_step (firstn (S (j - i)) s) z =? 0)%Z)
                     (seq i (length s))).
Proof.
  induction s as [|c s IH]; intros i z; simpl; auto.
  rewrite Nat.sub_diag. simpl. rewrite (andb_comm (depth_step z c =? 0)%Z).
  destruct (mem_char c delimList && (depth_step z c =? 0)%Z); simpl; auto.
  rewrite IH. f_equal. apply filter_ext_in. intros j Hj. apply in_seq in Hj.
  replace (j - i) with (S (j - S i)) by lia. reflexivity.
Qed.

(** C12: [FindSplit] returns the least index at or after [begIdx] that
    holds a delimiter at bracket depth 0 (the depth counted from
    [begIdx], that byte included), and [npos] when there is none: the
    one-pass depth counter equals the reference search that recounts the
    depth for every candidate. *)
Theorem FindSplit_ref str delimList begIdx :
  FindSplit str delimList begIdx = find_split_ref str delimList begIdx.
Proof.
  unfold FindSplit, find_split_ref. rewrite find_split_from_ref, length_skipn.
  f_equal. apply filter_ext_in. intros j Hj. apply in_seq in Hj.
  rewrite nth_skipn. replace (begIdx + (j - begIdx)) with j by lia.
  replace (S (j - begIdx)) with (S j - begIdx) by lia. reflexivity.
Qed.

Lemma find_split_from_bounds delimList s i z j :
  find_split_from delimList s i z = Some j -> i <= j < i + length s.
Proof.
  revert i z; induction s as [|c s IH]; intros i z; simpl; [discriminate|].
  destruct (_ && _); [intros H; inv H; lia|]. intros H. apply IH in H. lia.
Qed.

Lemma FindSplit_bounds str delimList begIdx j :
  FindSplit str delimList begIdx = Some j -> begIdx <= j < length str.
Proof.
  unfold FindSplit. intros H. apply find_split_from_bounds in H.
  rewrite length_skipn in H. lia.
Qed.

(** Bytes that are no top-level delimiter are skipped with their depth. *)
Lemma find_split_from_skip delimList t r : forall i z,
  (forall k, k < length t -> mem_char (nth k t " "%char) delimList = true ->
     fold_left depth_step (firstn (S k) t) z <> 0%Z) ->
  find_split_from delimList (t ++ r) i z
  = find_split_from delimList r (i + length t) (fold_left depth_step t z).
Proof.
  induction t as [|c t IH]; intros i z Ht; simpl; [rewrite Nat.add_0_r; auto|].
  destruct ((depth_step z c =? 0)%Z) eqn:Ez; simpl.
  - destruct (mem_char c delimList) eqn:Em.
    + exfalso. apply (Ht 0); simpl; auto; [lia|]. apply Z.eqb_eq; auto.
    + rewrite IH; [f_equal; lia|]. intros k Hk Hm. apply (Ht (S k)); simpl; auto; lia.
  - rewrite IH; [f_equal; lia|]. intros k Hk Hm. apply (Ht (S k)); simpl; auto; lia.
Qed.

Lemma split_loop_FindSplit str delimList : forall fuel lastPos acc,
  lastPos <= length str -> length str - lastPos < fuel -> (Z.of_nat (length str) < 2 ^ 64)%Z ->
  exists ts, split_loop FindSplit fuel str delimList lastPos (FindSplit str delimList lastPos) acc
             = Some (Ok ts).
Proof.
  induction fuel as [|fuel IH]; intros lastPos acc H1 H2 H3; [lia|]. cbn [split_loop].
  destruct (FindSplit str delimList lastPos) as [p|] eqn:E.
  - apply FindSplit_bounds in E. rewrite size_sub_le by lia.
    destruct (negb (p =? lastPos)); [rewrite str_substr_ok by lia; cbn [rbind]|];
      apply IH; lia.
  - destruct (lastPos <? length str); eauto.
    rewrite str_substr_rest by (unfold npos; lia). cbn [rbind]. eauto.
Qed.

(** C15: [Split] with [FindSplit] as its find function always finishes
    (the [while] loop runs at most once per byte, so the model's fuel
    [length str + 1] suffices) and never raises [std::out_of_range] from
    [substr]. *)
Theorem Split_FindSplit_total str delimList :
  (Z.of_nat (length str) < 2 ^ 64)%Z ->
  exists ts, Split FindSplit str delimList = Some (Ok ts).
Proof. intros H. apply split_loop_FindSplit; lia. Qed.

Lemma FindSplit_app_length pre r delimList :
  FindSplit (pre ++ r) delimList (length pre) = find_split_from delimList r (length pre) 0.
Proof. unfold FindSplit. rewrite skipn_app_length. reflexivity. Qed.

Lemma split_loop_join c delimList ts : forall pre acc fuel,
  mem_char c delimList = true -> c <> lt_c -> c <> gt_c -> ts <> [] ->
  Forall (fun t => t <> [] /\ no_top_delim delimList t /\ net_depth t = 0%Z) ts ->
  length (pre ++ join_with c ts) < fuel + length pre ->
  (Z.of_nat (length (pre ++ join_with c ts)) < 2 ^ 64)%Z ->
  split_loop FindSplit fuel (pre ++ join_with c ts) delimList (length pre)
    (FindSplit (pre ++ join_with c ts) delimList (length pre)) acc
  = Some (Ok (acc ++ ts)).
Proof.
  induction ts as [|t ts IH]; intros pre acc fuel Hc Hlt Hgt Hne Hall Hf Hb; [congruence|].
  inv Hall. destruct H1 as [Htne [Htop Hnet]].
  assert (Hskip : forall r i, find_split_from delimList (t ++ r) i 0
                              = find_split_from delimList r (i + length t) 0).
  { intros r i. rewrite find_split_from_skip; [unfold net_depth in Hnet; rewrite Hnet; auto|].
    intros k Hk Hm. apply Htop; auto. }
  rewrite FindSplit_app_length.
  destruct ts as [|t' ts'].
  - simpl join_with in *. rewrite <- (app_nil_r t), Hskip, app_nil_r.
    destruct fuel; cbn [split_loop]; [rewrite length_app in Hf; lia|].
    destruct (Nat.ltb_spec (length pre) (length (pre ++ t))) as [Hl|Hl];
      [|rewrite length_app in Hl; destruct t; cbn [length] in *; [congruence|lia]].
    rewrite str_substr_rest by (unfold npos; rewrite length_app in *; lia).
    cbn [rbind]. rewrite skipn_app_length. reflexivity.
  - change (join_with c (t :: t' :: ts')) with (t ++ c :: join_with c (t' :: ts')) in *.
    rewrite Hskip. cbn [find_split_from].
    unfold depth_step. destruct (Ascii.eqb_spec c lt_c); [congruence|].
    destruct (Ascii.eqb_spec c gt_c); [congruence|]. rewrite Hc. cbn [andb Z.eqb].
    destruct fuel; [rewrite !length_app in Hf; cbn [length] in Hf; lia|]. cbn [split_loop].
    assert (Hp : (length pre + length t =? length pre) = false)
      by (apply Nat.eqb_neq; destruct t; simpl; [congruence|lia]).
    rewrite Hp. cbn [negb]. rewrite size_sub_le by (rewrite !length_app in *; cbn [length] in *; lia).
    replace (length pre + length t - length pre) with (length t) by lia.
    rewrite str_substr_ok by (rewrite length_app; lia).
    rewrite skipn_app_length, firstn_app_length. cbn [rbind].
    specialize (IH (pre ++ t ++ [c]) (acc ++ [t]) fuel Hc Hlt Hgt ltac:(discriminate) H2).
    assert (El : length (pre ++ t ++ [c]) = S (length pre + length t))
      by (rewrite !length_app; cbn [length]; lia).
    rewrite El in IH.
    replace ((pre ++ t ++ [c]) ++ join_with c (t' :: ts'))
      with (pre ++ t ++ c :: join_with c (t' :: ts')) in IH by (rewrite <- !app_assoc; reflexivity).
    rewrite <- app_assoc in IH. cbn [app] in IH. apply IH.
    + rewrite !length_app in *. cbn [length] in *. lia.
    + exact Hb.
Qed.

(** C14: splitting round trip: tokens that are non-empty, bracket-balanced
    and hold delimiters only inside angle brackets (such as [Pair<A,B>]
    for the delimiters [", "]), joined by one delimiter byte, are split
    back into exactly those tokens. *)
Theorem Split_join c delimList ts :
  mem_char c delimList = true -> c <> Split.lt_c -> c <> Split.gt_c ->
  Forall (fun t => t <> [] /\ no_top_delim delimList t /\ net_depth t = 0%Z) ts ->
  (Z.of_nat (length (join_with c ts)) < 2 ^ 64)%Z ->
  Split FindSplit (join_with c ts) delimList = Some (Ok ts).
Proof.
  intros Hc Hlt Hgt Hall Hb. destruct ts as [|t ts]; [reflexivity|].
  unfold Split. apply (split_loop_join c delimList (t :: ts) [] []); simpl; auto; [discriminate|lia].
Qed.

Lemma no_top_delim_check delimList t :
  forallb (fun k => negb (mem_char (nth k t " "%char) delimList)
                    || negb (Z.eqb (net_depth (firstn (S k) t)) 0)) (seq 0 (length t)) = true ->
  no_top_delim delimList t.
Proof.
  intros H k Hk Hm. rewrite forallb_forall in H.
  specialize (H k (proj2 (in_seq _ _ _) (conj (Nat.le_0_l k) Hk))). rewrite Hm in H. simpl in H.
  apply negb_true_iff, Z.eqb_neq in H. exact H.
Qed.

(** *** Witnesses *)

Lemma Split_FindSplit_total_witness :
  exists ts, Split FindSplit ($"Map<K,V> x") ($", ") = Some (Ok ts).
Proof. apply Split_FindSplit_total. vm_compute. reflexivity. Defined.

Lemma Split_join_witness :
  Split FindSplit (join_with " "%char [$"Map<K,V>"; $"Other"]) ($", ") = Some (Ok [$"Map<K,V>"; $"Other"]).
Proof.
  apply Split_join; [reflexivity|discriminate|discriminate| |vm_compute; reflexivity].
  repeat constructor; first [discriminate | (apply no_top_delim_check; vm_compute; reflexivity)].
Defined.

End SplitFacts.
