(* ===== verification/Registry.v ===== *)
(** * Registry: the name-keyed class list [clist]

    [src/javatree/javatree.cpp] keeps every class in
    [std::map<lstring, ClassRelations*> clist] and iterates it in key
    order ([display_dependences], [display_names], [Release_clist]).
    This file states what the rest of the development needs from that map
    as the class [StrMap] with its laws [StrMapLaws] (lookup, insert that
    keeps an existing entry as [std::map::insert] does, iteration in
    increasing key order), and implements it by a sorted association list
    ordered by [std::string]'s comparison (lexicographic on unsigned
    bytes). *)

From Stdlib Require Import Ascii String List Lia ZArith Bool NArith.
From Stdlib Require Import Sorting.Sorted.
From S2P Require Import Prelude.
Import ListNotations.
Open Scope jt_scope.

(** ** Key order *)

(** [std::string::compare]: lexicographic, bytes compared unsigned. *)
Fixpoint lstring_compare (a b : lstring) : comparison :=
  match a, b with
  | [], [] => Eq
  | [], _ :: _ => Lt
  | _ :: _, [] => Gt
  | x :: a', y :: b' =>
      match Ascii.compare x y with
      | Eq => lstring_compare a' b'
      | c => c
      end
  end.

Definition lstring_lt (a b : lstring) : Prop := lstring_compare a b = Lt.

(** ** The map interface *)

Class StrMap (M : Type -> Type) := {
  mwf : forall {V}, M V -> Prop;
  mempty : forall {V}, M V;
  mfind : forall {V}, lstring -> M V -> option V;
  minsert : forall {V}, lstring -> V -> M V -> M V;
  melements : forall {V}, M V -> list (lstring * V)
}.

Class StrMapLaws (M : Type -> Type) `{StrMap M} := {
  mwf_empty : forall V, mwf (@mempty M _ V);
  mwf_insert : forall V k (v : V) m, mwf m -> mwf (minsert k v m);
  mfind_empty : forall V k, mfind k (@mempty M _ V) = None;
  mfind_insert_new : forall V k (v : V) m, mwf m -> mfind k m = None -> mfind k (minsert k v m) = Some v;
  mfind_insert_other : forall V k k' (v : V) m, mwf m -> k <> k' -> mfind k' (minsert k v m) = mfind k' m;
  minsert_present : forall V k (v v' : V) m, mwf m -> mfind k m = Some v' -> minsert k v m = m;
  melements_find : forall V k (v : V) m, mwf m -> In (k, v) (melements m) <-> mfind k m = Some v;
  melements_sorted : forall V (m : M V), mwf m ->
    StronglySorted (fun x y => lstring_lt (fst x) (fst y)) (melements m)
}.

(** ** Sorted association lists *)

Definition SortedMap (V : Type) : Type := list (lstring * V).

Fixpoint sm_find {V} (k : lstring) (m : SortedMap V) : option V :=
  match m with
  | [] => None
  | (k', v) :: m' =>
      match lstring_compare k k' with
      | Eq => Some v
      | Lt => None
      | Gt => sm_find k m'
      end
  end.

Fixpoint sm_insert {V} (k : lstring) (v : V) (m : SortedMap V) : SortedMap V :=
  match m with
  | [] => [(k, v)]
  | (k', v') :: m' =>
      match lstring_compare k k' with
      | Eq => m
      | Lt => (k, v) :: m
      | Gt => (k', v') :: sm_insert k v m'
      end
  end.

Definition sm_wf {V} (m : SortedMap V) : Prop :=
  StronglySorted (fun x y => lstring_lt (fst x) (fst y)) m.

#[export] Instance SortedMap_StrMap : StrMap SortedMap := {
  mwf := @sm_wf;
  mempty := fun V => [];
  mfind := @sm_find;
  minsert := @sm_insert;
  melements := fun V m => m
}.

(** ** Facts about the key order *)

Lemma ascii_compare_refl x : Ascii.compare x x = Eq.
Proof. unfold Ascii.compare. apply N.compare_refl. Qed.

Lemma ascii_compare_Eq x y : Ascii.compare x y = Eq -> x = y.
Proof. apply Ascii.compare_eq_iff. Qed.

Lemma ascii_compare_Lt_trans x y z :
  Ascii.compare x y = Lt -> Ascii.compare y z = Lt -> Ascii.compare x z = Lt.
Proof. unfold Ascii.compare. rewrite !N.compare_lt_iff. lia. Qed.

Lemma lstring_compare_refl a : lstring_compare a a = Eq.
Proof. induction a; simpl; auto. rewrite ascii_compare_refl. auto. Qed.

Lemma lstring_compare_Eq a b : lstring_compare a b = Eq -> a = b.
Proof.
  revert b; induction a as [|x a IH]; intros [|y b]; simpl; try discriminate; auto.
  destruct (Ascii.compare x y) eqn:E; try discriminate.
  apply ascii_compare_Eq in E. intros H. f_equal; auto.
Qed.

Lemma lstring_compare_antisym a b : lstring_compare b a = CompOpp (lstring_compare a b).
Proof.
  revert b; induction a as [|x a IH]; intros [|y b]; simpl; auto.
  rewrite (Ascii.compare_antisym y x). destruct (Ascii.compare x y); simpl; auto.
Qed.

Lemma lstring_lt_trans a b c : lstring_lt a b -> lstring_lt b c -> lstring_lt a c.
Proof.
  unfold lstring_lt. revert b c; induction a as [|x a IH]; intros [|y b] [|z c]; simpl;
    try discriminate; auto.
  destruct (Ascii.compare x y) eqn:Exy; try discriminate;
  destruct (Ascii.compare y z) eqn:Eyz; try discriminate; intros H1 H2.
  - apply ascii_compare_Eq in Exy, Eyz. subst. rewrite ascii_compare_refl. eauto.
  - apply ascii_compare_Eq in Exy. subst. rewrite Eyz. auto.
  - apply ascii_compare_Eq in Eyz. subst. rewrite Exy. auto.
  - rewrite (ascii_compare_Lt_trans _ _ _ Exy Eyz). auto.
Qed.

Lemma lstring_lt_irrefl a : ~ lstring_lt a a.
Proof. unfold lstring_lt. rewrite lstring_compare_refl. discriminate. Qed.

Lemma lstring_compare_Gt a b : lstring_compare a b = Gt -> lstring_lt b a.
Proof. unfold lstring_lt. intros H. rewrite lstring_compare_antisym, H. reflexivity. Qed.

(** ** The sorted list satisfies the laws *)

Section SortedMapFacts.
Context {V : Type}.

Lemma sm_find_lt k (m : SortedMap V) :
  Forall (fun x => lstring_lt k (fst x)) m -> sm_find k m = None.
Proof.
  induction m as [|[k' v] m IH]; simpl; auto. intros Hf. inv Hf.
  simpl in H1. unfold lstring_lt in H1. rewrite H1. auto.
Qed.

Lemma sm_insert_forall (P : lstring * V -> Prop) k v (m : SortedMap V) :
  P (k, v) -> Forall P m -> Forall P (sm_insert k v m).
Proof.
  induction m as [|[k' v'] m IH]; simpl; intros Hk Hm; [auto|]. inv Hm.
  destruct (lstring_compare k k'); auto.
Qed.

Lemma sm_wf_insert k v (m : SortedMap V) : sm_wf m -> sm_wf (sm_insert k v m).
Proof.
  unfold sm_wf. induction m as [|[k' v'] m IH]; simpl; intros Hs.
  - repeat constructor.
  - apply StronglySorted_inv in Hs as [Hs Hf].
    destruct (lstring_compare k k') eqn:E.
    + constructor; auto.
    + constructor; [constructor; auto|]. constructor; [exact E|].
      eapply Forall_impl; [|exact Hf]. intros [k'' v''] H. eapply lstring_lt_trans; eauto.
    + constructor; auto. apply sm_insert_forall; auto. apply lstring_compare_Gt; auto.
Qed.

Lemma sm_find_insert_new k v (m : SortedMap V) :
  sm_find k m = None -> sm_find k (sm_insert k v m) = Some v.
Proof.
  induction m as [|[k' v'] m IH]; simpl; intros H.
  - rewrite lstring_compare_refl. auto.
  - destruct (lstring_compare k k') eqn:E; try discriminate; simpl.
    + rewrite lstring_compare_refl. auto.
    + rewrite E. auto.
Qed.

Lemma sm_find_insert_other k k' v (m : SortedMap V) :
  k <> k' -> sm_find k' (sm_insert k v m) = sm_find k' m.
Proof.
  intros Hne. induction m as [|[k2 v2] m IH]; simpl.
  - destruct (lstring_compare k' k) eqn:E; auto. apply lstring_compare_Eq in E. congruence.
  - destruct (lstring_compare k k2) eqn:E; simpl; auto.
    + destruct (lstring_compare k' k) eqn:E2.
      * apply lstring_compare_Eq in E2. congruence.
      * assert (lstring_lt k' k2) by (eapply lstring_lt_trans; eauto).
        unfold lstring_lt in H. rewrite H. auto.
      * auto.
    + rewrite IH. auto.
Qed.

Lemma sm_insert_present k v v' (m : SortedMap V) :
  sm_find k m = Some v' -> sm_insert k v m = m.
Proof.
  induction m as [|[k2 v2] m IH]; simpl; [discriminate|].
  destruct (lstring_compare k k2); try discriminate; auto.
  intros H. rewrite IH; auto.
Qed.

Lemma sm_elements_find k v (m : SortedMap V) :
  sm_wf m -> In (k, v) m <-> sm_find k m = Some v.
Proof.
  unfold sm_wf. induction m as [|[k2 v2] m IH]; simpl; intros Hs; [split; [tauto|discriminate]|].
  apply StronglySorted_inv in Hs as [Hs Hf]. rewrite Forall_forall in Hf.
  split.
  - intros [E|Hin].
    + inv E. rewrite lstring_compare_refl. auto.
    + pose proof (Hf _ Hin) as Hlt. simpl in Hlt. unfold lstring_lt in Hlt.
      rewrite lstring_compare_antisym in Hlt.
      destruct (lstring_compare k k2) eqn:E; try discriminate. apply IH; auto.
  - destruct (lstring_compare k k2) eqn:E; try discriminate.
    + intros H. inv H. apply lstring_compare_Eq in E. subst. auto.
    + intros H. right. apply IH; auto.
Qed.

End SortedMapFacts.

#[export] Instance SortedMap_laws : StrMapLaws SortedMap.
Proof.
  constructor; simpl; intros.
  - constructor.
  - apply sm_wf_insert; auto.
  - reflexivity.
  - apply sm_find_insert_new; auto.
  - apply sm_find_insert_other; auto.
  - eapply sm_insert_present; eauto.
  - apply sm_elements_find; auto.
  - exact H.
Qed.
