(* ===== verification/ClassRel.v ===== *)
(** * ClassRel: class nodes, their edge chains, and the class graph

    Models [ClassLinkage] and [ClassRelations] of
    [src/javatree/class_rel.h] with [add_linkage_to] and [find_relation]
    of [src/javatree/class_rel.cpp], and the class graph of
    [src/javatree/javatree.cpp]: the heap of [ClassRelations] objects
    (addresses are [nat], [new] allocates the next one), the registry
    [clist] through the [StrMap] interface of [Registry.v], and the
    operations [AddClass], [add_parent] and the interface edge that
    [FindClassDefsInFile] adds to a freshly allocated node.

    A [ClassLinkage] chain is the list of the [relations] pointers of its
    links, the embedded head link first ([None] is [NULL]); the abstract
    view of a chain is the ordered list of the nodes it holds ([abs]). *)

From Stdlib Require Import Ascii String List Lia ZArith Bool.
From Stdlib Require Import Sorting.Sorted Relation_Operators.
From S2P Require Import Prelude Registry.
Import ListNotations.
Open Scope jt_scope.

Module ClassRel.

(** A [ClassRelations*]. *)
Definition addr := nat.

(** ** [ClassLinkage] chains *)

(** The [relations] field of every link of a chain, head link first. *)
Definition ClassLinkage := list (option addr).

(** [ClassLinkage()]: one link, [relations == NULL], [linkage == NULL]. *)
Definition empty_linkage : ClassLinkage := [None].

(** [ClassRelations::add_linkage_to(start_linkage, crel_ptr)]: walk the
    links while [relations != NULL], return when [crel_ptr] is found,
    allocate a link when [linkage == NULL]; then store [crel_ptr] in the
    first link with [relations == NULL]. *)
Fixpoint add_linkage_to (links : ClassLinkage) (crel_ptr : addr) : ClassLinkage :=
  match links with
  | [] => [Some crel_ptr]
  | None :: rest => Some crel_ptr :: rest
  | Some r :: rest =>
      if Nat.eqb r crel_ptr then links else Some r :: add_linkage_to rest crel_ptr
  end.

Definition option_addr_eqb (a b : option addr) : bool :=
  match a, b with
  | None, None => true
  | Some x, Some y => Nat.eqb x y
  | _, _ => false
  end.

(** [ClassRelations::find_relation(start_linkage, crel_ptr)]: the
    position of the first link whose [relations] is [crel_ptr] ([NULL]
    allowed), [None] for the [NULL] result. *)
Fixpoint find_relation_from (links : ClassLinkage) (crel_ptr : option addr) (i : nat)
  : option nat :=
  match links with
  | [] => None
  | r :: rest => if option_addr_eqb r crel_ptr then Some i else find_relation_from rest crel_ptr (S i)
  end.

Definition find_relation (links : ClassLinkage) (crel_ptr : option addr) : option nat :=
  find_relation_from links crel_ptr 0.

(** The nodes a chain holds, in order. *)
Definition abs (links : ClassLinkage) : list addr := flat_map (fun r => match r with Some a => [a] | None => [] end) links.

(** Chains [add_linkage_to] builds: the head link alone and empty, or
    every link holding a node. *)
Definition chain_wf (links : ClassLinkage) : Prop :=
  links = [None] \/ (links <> [] /\ Forall (fun r => r <> None) links).

(** The ordered-set append the spec asks of an edge set. *)
Definition set_append (a : addr) (l : list addr) : list addr :=
  if in_dec Nat.eq_dec a l then l else l ++ [a].

(** [release_links(first_link)]: the [do]/[while] loop that deletes the
    last link of the chain until only the embedded head link is left;
    the count is the number of [delete]s.  The head link's [relations]
    is not cleared. *)
Fixpoint release_links (fuel : nat) (links : ClassLinkage) : option (ClassLinkage * nat) :=
  match fuel with
  | O => None
  | S f =>
      match links with
      | [] | [_] => Some (links, 0)
      | _ => match release_links f (removelast links) with
             | Some (l, n) => Some (l, S n)
             | None => None
             end
      end
  end.

(** ** [ClassRelations] *)

Record ClassRelations := mkCR {
  my_name : lstring;
  my_modifier : lstring;
  my_file : lstring;
  my_children : ClassLinkage;
  my_parents : ClassLinkage;
  my_interfaces : ClassLinkage }.

(** [ClassRelations(name, modifier, file)]. *)
Definition new_ClassRelations (name modifier file : lstring) : ClassRelations :=
  mkCR name modifier file empty_linkage empty_linkage empty_linkage.

(** [void file(const lstring& file)]. *)
Definition set_file (file : lstring) (n : ClassRelations) : ClassRelations :=
  mkCR (my_name n) (my_modifier n) file (my_children n) (my_parents n) (my_interfaces n).

(** [add_parent], [add_child], [add_interface] of [ClassRelations]. *)
Definition add_parent_link (crel : addr) (n : ClassRelations) : ClassRelations :=
  mkCR (my_name n) (my_modifier n) (my_file n) (my_children n)
       (add_linkage_to (my_parents n) crel) (my_interfaces n).

Definition add_child_link (crel : addr) (n : ClassRelations) : ClassRelations :=
  mkCR (my_name n) (my_modifier n) (my_file n) (add_linkage_to (my_children n) crel)
       (my_parents n) (my_interfaces n).

Definition add_interface_link (crel : addr) (n : ClassRelations) : ClassRelations :=
  mkCR (my_name n) (my_modifier n) (my_file n) (my_children n) (my_parents n)
       (add_linkage_to (my_interfaces n) crel).

(** [find_interface(crel)], [find_parent(crel)], [find_child(crel)]: the
    position of the link of the chain holding [crel], [None] for [NULL]. *)
Definition find_interface (n : ClassRelations) (crel : addr) : option nat :=
  find_relation (my_interfaces n) (Some crel).
Definition find_parent (n : ClassRelations) (crel : addr) : option nat :=
  find_relation (my_parents n) (Some crel).
Definition find_child (n : ClassRelations) (crel : addr) : option nat :=
  find_relation (my_children n) (Some crel).

(** The three chains of a node, as [remove_interfaces], [remove_parents]
    and [remove_children] select them. *)
Inductive ChainSel := SelInterfaces | SelParents | SelChildren.

Definition chain_of (sel : ChainSel) (n : ClassRelations) : ClassLinkage :=
  match sel with
  | SelInterfaces => my_interfaces n
  | SelParents => my_parents n
  | SelChildren => my_children n
  end.

(** How a [remove_...] call ends: it returns (only for [NULL]), or it
    reaches [delete linkage_ptr] on the head link, which is a member of
    the node and was not allocated by [new]: undefined behaviour. *)
Inductive RemoveEnd := RemoveReturned | DeleteEmbedded (a : addr).

(** ** The class graph *)

Section Graph.
Context {M : Type -> Type} `{SM : StrMap M}.

(** [clist] and the heap of [ClassRelations] objects. *)
Record Graph := mkGraph {
  clist : M addr;
  heap : list (addr * ClassRelations);
  next_addr : addr }.

Definition empty_graph : Graph := mkGraph mempty [] 0.

Fixpoint assoc_get (h : list (addr * ClassRelations)) (a : addr) : option ClassRelations :=
  match h with
  | [] => None
  | (b, n) :: h' => if Nat.eqb a b then Some n else assoc_get h' a
  end.

Definition hget (g : Graph) (a : addr) : option ClassRelations := assoc_get (heap g) a.

(** [new ClassRelations(...)]: the next address. *)
Definition halloc (g : Graph) (n : ClassRelations) : Graph * addr :=
  (mkGraph (clist g) (heap g ++ [(next_addr g, n)]) (S (next_addr g)), next_addr g).

(** A member function called through a pointer. *)
Definition hmodify (g : Graph) (a : addr) (f : ClassRelations -> ClassRelations) : Graph :=
  mkGraph (clist g)
          (map (fun p => if Nat.eqb (fst p) a then (fst p, f (snd p)) else p) (heap g))
          (next_addr g).

(** [AddClass(class_name, class_modifier, filename)]. *)
Definition AddClass (g : Graph) (class_name class_modifier filename : lstring) : Graph * addr :=
  match mfind class_name (clist g) with
  | None =>
      let '(g1, a) := halloc g (new_ClassRelations class_name class_modifier filename) in
      (mkGraph (minsert class_name a (clist g1)) (heap g1) (next_addr g1), a)
  | Some a => (hmodify g a (set_file filename), a)
  end.

(** [add_parent(pChild, parents_name, filename)]. *)
Definition add_parent (g : Graph) (pChild : addr) (parents_name filename : lstring) : Graph :=
  let '(g1, pSuper) := AddClass g parents_name [] filename in
  let g2 := hmodify g1 pChild (add_parent_link pSuper) in
  hmodify g2 pSuper (add_child_link pChild).

(** [crel_ptr->add_interface(new ClassRelations(token, "interface", "_no_file_"))]. *)
Definition add_new_interface (g : Graph) (crel_ptr : addr) (token : lstring) : Graph :=
  let '(g1, a) := halloc g (new_ClassRelations token ($"interface") ($"_no_file_")) in
  hmodify g1 crel_ptr (add_interface_link a).

(** ** Invariants of the class graph *)

Definition addrs (g : Graph) : list addr := map fst (heap g).

(** Allocated addresses are distinct and below the next one. *)
Definition heap_ok (g : Graph) : Prop :=
  NoDup (addrs g) /\ Forall (fun a => a < next_addr g) (addrs g).

(** A chain is well formed, holds no node twice and only allocated ones. *)
Definition chain_ok (g : Graph) (l : ClassLinkage) : Prop :=
  chain_wf l /\ NoDup (abs l) /\ Forall (fun a => In a (addrs g)) (abs l).

Definition node_ok (g : Graph) (n : ClassRelations) : Prop :=
  chain_ok g (my_children n) /\ chain_ok g (my_parents n) /\ chain_ok g (my_interfaces n).

(** The registry maps each name to an allocated node of that name, and
    every node's chains are sound. *)
Definition graph_ok (g : Graph) : Prop :=
  mwf (clist g) /\ heap_ok g /\
  (forall k a, mfind k (clist g) = Some a -> exists n, hget g a = Some n /\ my_name n = k) /\
  (forall a n, hget g a = Some n -> node_ok g n).

(** Parent and child edges come in complementary pairs. *)
Definition paired (g : Graph) : Prop :=
  forall a b na nb, hget g a = Some na -> hget g b = Some nb ->
    (In b (abs (my_parents na)) <-> In a (abs (my_children nb))).

(** The invariant a pass over a file keeps. *)
Definition graph_inv (g : Graph) : Prop := graph_ok g /\ paired g.

(** [Release_clist()]: for every entry of [clist] in key order, the
    links of its three chains are released and the node is deleted; the
    result lists the deleted nodes and counts the deleted links. *)
Definition Release_clist (g : Graph) : option (list addr * nat) :=
  fold_left
    (fun acc p =>
       match acc, hget g (snd p) with
       | Some (freed, k), Some n =>
           match release_links (length (my_children n)) (my_children n),
                 release_links (length (my_parents n)) (my_parents n),
                 release_links (length (my_interfaces n)) (my_interfaces n) with
           | Some (_, k1), Some (_, k2), Some (_, k3) => Some (freed ++ [snd p], k + k1 + k2 + k3)
           | _, _, _ => None
           end
       | Some (freed, k), None => Some (freed ++ [snd p], k)
       | None, _ => None
       end)
    (melements (clist g)) (Some ([], 0)).

(** [crel_ptr->...().relations]: the node the head link of a chain holds. *)
Definition chain_head (sel : ChainSel) (g : Graph) (a : addr) : option addr :=
  match hget g a with
  | Some n => match chain_of sel n with Some r :: _ => Some r | _ => None end
  | None => None
  end.

(** [ClassRelations::remove_interfaces(crel_ptr)] and its two siblings:
    the first iteration of the [do] loop recurses on the head link's
    [relations] and then deletes the head link itself, so the run ends at
    the first [delete], on the deepest node reached through head links;
    [None] when the fuel runs out (on a cycle of head links the
    recursion never ends). *)
Fixpoint remove_links (fuel : nat) (sel : ChainSel) (g : Graph) (crel : option addr) : option RemoveEnd :=
  match crel with
  | None => Some RemoveReturned
  | Some a =>
      match fuel with
      | O => None
      | S f =>
          match remove_links f sel g (chain_head sel g a) with
          | Some RemoveReturned => Some (DeleteEmbedded a)
          | r => r
          end
      end
  end.

(** The public [remove_interfaces()], [remove_parents()] and
    [remove_children()]: the protected function on [this]. *)
Definition remove_interfaces (fuel : nat) (g : Graph) (this : addr) : option RemoveEnd :=
  remove_links fuel SelInterfaces g (Some this).
Definition remove_parents (fuel : nat) (g : Graph) (this : addr) : option RemoveEnd :=
  remove_links fuel SelParents g (Some this).
Definition remove_children (fuel : nat) (g : Graph) (this : addr) : option RemoveEnd :=
  remove_links fuel SelChildren g (Some this).

End Graph.

End ClassRel.

(** Small graphs the witnesses below use: [A] registered, then [B]. *)
Module ClassRelRuns.
Import ClassRel.

Definition g_A : @Graph SortedMap := fst (AddClass empty_graph ($"A") ($"public ") ($"A.java")).
Definition g_AB : @Graph SortedMap := fst (AddClass g_A ($"B") ($"public ") ($"B.java")).
(** [A] and [B] each the other's superclass: the parent chains' heads
    form a cycle. *)
Definition g_cyc : @Graph SortedMap := add_parent (add_parent g_AB 0 ($"B") ($"B.java")) 1 ($"A") ($"A.java").

End ClassRelRuns.

Module ClassRelFacts.
Import ClassRel.

(** ** Chains *)

Lemma abs_app l1 l2 : abs (l1 ++ l2) = abs l1 ++ abs l2.
Proof. unfold abs. apply flat_map_app. Qed.

Lemma set_append_in a l : In a l -> set_append a l = l.
Proof. unfold set_append. destruct (in_dec Nat.eq_dec a l); tauto. Qed.

Lemma set_append_cons_ne a r l : a <> r -> set_append a (r :: l) = r :: set_append a l.
Proof.
  intros Hne. unfold set_append.
  destruct (in_dec Nat.eq_dec a (r :: l)) as [[E|H]|H];
    destruct (in_dec Nat.eq_dec a l) as [H'|H']; simpl; try congruence; try tauto.
  exfalso. apply H. right. auto.
Qed.

Lemma add_linkage_to_full links a :
  Forall (fun r => r <> None) links ->
  Forall (fun r => r <> None) (add_linkage_to links a) /\
  abs (add_linkage_to links a) = set_append a (abs links).
Proof.
  induction links as [|r links IH]; intros Hf; cbn [add_linkage_to].
  - split; [constructor; [discriminate|constructor]|reflexivity].
  - inv Hf. destruct r as [r|]; [|congruence].
    destruct (Nat.eqb_spec r a) as [->|Hne].
    + split; [constructor; auto|]. symmetry. apply set_append_in. left. auto.
    + destruct (IH H2) as [Hf' Habs]. split; [constructor; auto|].
      change (abs (Some r :: add_linkage_to links a)) with (r :: abs (add_linkage_to links a)).
      change (abs (Some r :: links)) with (r :: abs links).
      rewrite Habs, set_append_cons_ne; auto.
Qed.

(** C7: [add_linkage_to] implements an insertion-ordered set on the
    chain: on every chain it builds, adding a node that the chain holds
    leaves the held nodes unchanged, adding any other node appends it at
    the end, and the result is again a well-formed chain. *)
Theorem add_linkage_to_refines links a :
  chain_wf links ->
  chain_wf (add_linkage_to links a) /\ abs (add_linkage_to links a) = set_append a (abs links).
Proof.
  intros [->|[Hne Hf]].
  - split; [right; split; [discriminate|repeat constructor; discriminate]|reflexivity].
  - destruct (add_linkage_to_full links a Hf) as [Hf' Habs]. split; auto.
    right. split; auto. destruct links as [|r l]; [congruence|]. simpl.
    destruct r; [destruct (Nat.eqb _ _)|]; discriminate.
Qed.

Lemma set_append_NoDup a l : NoDup l -> NoDup (set_append a l).
Proof.
  unfold set_append. destruct (in_dec Nat.eq_dec a l); auto. intros H.
  apply NoDup_app; auto; [repeat constructor; auto|]. intros x Hx [<-|[]]; auto.
Qed.

Lemma In_set_append a b l : In b (set_append a l) <-> b = a \/ In b l.
Proof.
  unfold set_append. destruct (in_dec Nat.eq_dec a l) as [Hin|Hnin].
  - split; auto. intros [->|H]; auto.
  - rewrite in_app_iff. simpl. intuition.
Qed.

(** [release_links] ends with the head link alone, after deleting
    every other link once: with fuel at least the chain's length it
    returns the one-link chain and [length - 1] deletions. *)
Theorem release_links_head fuel : forall h rest,
  length (h :: rest) <= fuel ->
  release_links fuel (h :: rest) = Some ([h], length rest).
Proof.
  induction fuel as [|f IH]; intros h rest Hf; [simpl in Hf; lia|]. cbn [release_links].
  destruct rest as [|b rest]; [reflexivity|].
  replace (removelast (h :: b :: rest)) with (h :: removelast (b :: rest)) by reflexivity.
  rewrite IH.
  - f_equal. f_equal. rewrite removelast_firstn_len, length_firstn. simpl. lia.
  - rewrite length_cons, removelast_firstn_len, length_firstn. simpl in *. lia.
Qed.

Lemma release_links_head_witness : release_links 3 [None; Some 1; Some 2] = Some ([None], 2).
Proof. apply (release_links_head 3 None [Some 1; Some 2]). simpl. lia. Defined.

End ClassRelFacts.

Module GraphFacts.
Import ClassRel ClassRelFacts.

Section GraphFacts.
Context {M : Type -> Type} `{SM : StrMap M} `{SML : @StrMapLaws M SM}.

Lemma assoc_get_map h a f b :
  assoc_get (map (fun p => if Nat.eqb (fst p) a then (fst p, f (snd p)) else p) h) b
  = if Nat.eqb b a then option_map f (assoc_get h b) else assoc_get h b.
Proof.
  induction h as [|[c n] h IH]; simpl; [destruct (Nat.eqb b a); reflexivity|].
  destruct (Nat.eqb_spec c a) as [Hca|Hca]; simpl; rewrite IH;
    destruct (Nat.eqb_spec b c); destruct (Nat.eqb_spec b a); simpl; congruence.
Qed.

Lemma hget_hmodify (g : @Graph M) a f b :
  hget (hmodify g a f) b = if Nat.eqb b a then option_map f (hget g b) else hget g b.
Proof. apply assoc_get_map. Qed.

Lemma addrs_hmodify (g : @Graph M) a f : addrs (hmodify g a f) = addrs g.
Proof.
  unfold addrs, hmodify; simpl. rewrite map_map. apply map_ext. intros [c n]; simpl.
  destruct (Nat.eqb c a); reflexivity.
Qed.

Lemma hget_in (g : @Graph M) a n : hget g a = Some n -> In a (addrs g).
Proof.
  unfold hget, addrs. induction (heap g) as [|[b m] h IH]; simpl; [discriminate|].
  destruct (Nat.eqb_spec a b); auto.
Qed.

Lemma assoc_get_app_new h b n c :
  ~ In b (map fst h) ->
  assoc_get (h ++ [(b, n)]) c = if Nat.eqb c b then Some n else assoc_get h c.
Proof.
  induction h as [|[d m] h IH]; simpl; intros Hb; [destruct (Nat.eqb c b); auto|].
  destruct (Nat.eqb_spec c d) as [->|Hcd].
  - destruct (Nat.eqb_spec d b); [exfalso; apply Hb; left; auto|auto].
  - rewrite IH; auto.
Qed.

Lemma hget_halloc (g : @Graph M) n c :
  heap_ok g ->
  hget (fst (halloc g n)) c = if Nat.eqb c (next_addr g) then Some n else hget g c.
Proof.
  intros [_ Hlt]. unfold hget, halloc; simpl. apply assoc_get_app_new.
  intros Hin. rewrite Forall_forall in Hlt. specialize (Hlt _ Hin). lia.
Qed.

Lemma addrs_halloc (g : @Graph M) n : addrs (fst (halloc g n)) = addrs g ++ [next_addr g].
Proof. unfold addrs, halloc; simpl. rewrite map_app. reflexivity. Qed.

Lemma chain_ok_mono (g g' : @Graph M) l :
  incl (addrs g) (addrs g') -> chain_ok g l -> chain_ok g' l.
Proof.
  intros Hi [H1 [H2 H3]]. repeat split; auto.
  eapply Forall_impl; [|exact H3]. intros a Ha. apply Hi; auto.
Qed.

Lemma node_ok_mono (g g' : @Graph M) n :
  incl (addrs g) (addrs g') -> node_ok g n -> node_ok g' n.
Proof. intros Hi [H1 [H2 H3]]. repeat split; eapply chain_ok_mono; eauto. Qed.

Lemma chain_ok_add (g : @Graph M) l a :
  In a (addrs g) -> chain_ok g l -> chain_ok g (add_linkage_to l a).
Proof.
  intros Ha [Hwf [Hnd Hin]]. destruct (add_linkage_to_refines l a Hwf) as [Hwf' Habs].
  repeat split; auto; rewrite Habs.
  - apply set_append_NoDup; auto.
  - rewrite Forall_forall in *. intros b Hb. apply In_set_append in Hb as [->|Hb]; auto.
Qed.

Lemma new_node_ok (g : @Graph M) name modifier file : node_ok g (new_ClassRelations name modifier file).
Proof.
  unfold node_ok, chain_ok. simpl.
  repeat split; try (left; reflexivity); constructor.
Qed.

Lemma heap_ok_halloc (g : @Graph M) n : heap_ok g -> heap_ok (fst (halloc g n)).
Proof.
  intros [Hnd Hlt]. unfold heap_ok. rewrite addrs_halloc. simpl. split.
  - apply NoDup_app; auto; [repeat constructor; auto|].
    intros x Hx [<-|[]]. rewrite Forall_forall in Hlt. specialize (Hlt _ Hx). lia.
  - apply Forall_app. split; [|constructor; [simpl; lia|constructor]].
    eapply Forall_impl; [|exact Hlt]. intros x Hx; simpl in *; lia.
Qed.

(** Calling a member function that keeps the name and sound chains
    keeps the graph sound. *)
Lemma graph_ok_hmodify (g : @Graph M) a f :
  graph_ok g ->
  (forall n, hget g a = Some n -> node_ok g (f n) /\ my_name (f n) = my_name n) ->
  graph_ok (hmodify g a f).
Proof.
  intros [Hwf [[Hnd Hlt] [Hreg Hnodes]]] Hf. unfold graph_ok, heap_ok.
  rewrite addrs_hmodify. simpl. refine (conj Hwf (conj (conj Hnd Hlt) (conj _ _))).
  - intros k b Hk. destruct (Hreg k b Hk) as [nd [Hn Hname]].
    rewrite hget_hmodify. destruct (Nat.eqb_spec b a) as [->|Hba]; [|eauto].
    rewrite Hn. simpl. exists (f nd). split; auto. destruct (Hf nd Hn) as [_ ->]. auto.
  - intros b nd Hb. rewrite hget_hmodify in Hb.
    apply (node_ok_mono g); [rewrite addrs_hmodify; apply incl_refl|].
    destruct (Nat.eqb_spec b a) as [->|Hba]; [|eauto].
    destruct (hget g a) as [m|] eqn:Ha; [|discriminate]. simpl in Hb. inv Hb.
    apply Hf; auto.
Qed.

Lemma hget_hmodify_inv (g : @Graph M) a f b n' :
  hget (hmodify g a f) b = Some n' ->
  exists n, hget g b = Some n /\ n' = if Nat.eqb b a then f n else n.
Proof.
  rewrite hget_hmodify. destruct (Nat.eqb b a); destruct (hget g b) as [n|]; simpl;
    intros H; inv H; eauto.
Qed.

Lemma node_ok_set_file (g : @Graph M) f n : node_ok g n -> node_ok g (set_file f n).
Proof. exact (fun H => H). Qed.

Lemma In_abs_add a b l : chain_wf l -> In b (abs (add_linkage_to l a)) <-> b = a \/ In b (abs l).
Proof.
  intros Hwf. destruct (add_linkage_to_refines l a Hwf) as [_ ->]. apply In_set_append.
Qed.

Lemma hget_AddClass_new (g : @Graph M) k m f b :
  heap_ok g -> mfind k (clist g) = None ->
  hget (fst (AddClass g k m f)) b
  = if Nat.eqb b (next_addr g) then Some (new_ClassRelations k m f) else hget g b.
Proof.
  intros Hh Hk. unfold AddClass. rewrite Hk. simpl.
  exact (hget_halloc g (new_ClassRelations k m f) b Hh).
Qed.

Lemma not_in_addrs_next (g : @Graph M) : heap_ok g -> ~ In (next_addr g) (addrs g).
Proof. intros [_ Hlt] Hin. rewrite Forall_forall in Hlt. specialize (Hlt _ Hin). lia. Qed.

(** [AddClass] keeps the graph sound, registers the name, and only adds
    addresses. *)
Lemma graph_ok_AddClass (g : @Graph M) k m f :
  graph_ok g ->
  graph_ok (fst (AddClass g k m f)) /\
  mfind k (clist (fst (AddClass g k m f))) = Some (snd (AddClass g k m f)) /\
  incl (addrs g) (addrs (fst (AddClass g k m f))).
Proof.
  intros Hok. pose proof Hok as [Hwf [Hh [Hreg Hnodes]]].
  destruct (mfind k (clist g)) as [a|] eqn:Hk.
  - unfold AddClass. rewrite Hk. simpl. split; [|split; [exact Hk|rewrite addrs_hmodify; apply incl_refl]].
    apply graph_ok_hmodify; auto. intros n Hn. split; [apply node_ok_set_file; eauto|reflexivity].
  - assert (Hincl : incl (addrs g) (addrs (fst (AddClass g k m f)))).
    { unfold AddClass. rewrite Hk. simpl. unfold addrs; simpl. rewrite map_app.
      intros x Hx. apply in_or_app; auto. }
    split; [|split; [unfold AddClass; rewrite Hk; simpl; apply mfind_insert_new; auto|exact Hincl]].
    unfold graph_ok. refine (conj _ (conj _ (conj _ _))).
    + unfold AddClass. rewrite Hk. simpl. apply mwf_insert. exact Hwf.
    + unfold AddClass. rewrite Hk. exact (heap_ok_halloc g _ Hh).
    + intros k' b Hb. rewrite hget_AddClass_new by auto.
      unfold AddClass in Hb. rewrite Hk in Hb. simpl in Hb.
      destruct (list_eq_dec ascii_dec k k') as [<-|Hne].
      * rewrite mfind_insert_new in Hb by auto. inv Hb. rewrite Nat.eqb_refl. eauto.
      * rewrite mfind_insert_other in Hb by auto. destruct (Hreg k' b Hb) as [n [Hn Hname]].
        destruct (Nat.eqb_spec b (next_addr g)) as [->|]; eauto.
        exfalso. apply (not_in_addrs_next g Hh). eapply hget_in; eauto.
    + intros b n Hb. rewrite hget_AddClass_new in Hb by auto.
      destruct (Nat.eqb b (next_addr g)); [inv Hb; apply new_node_ok|].
      apply (node_ok_mono g); eauto.
Qed.

Lemma graph_ok_add_parent (g : @Graph M) pChild name file :
  graph_ok g -> In pChild (addrs g) -> graph_ok (add_parent g pChild name file).
Proof.
  intros Hok Hc. unfold add_parent.
  destruct (graph_ok_AddClass g name [] file Hok) as [Hok1 [Hreg1 Hincl]].
  destruct (AddClass g name [] file) as [g1 pSuper]. simpl in *.
  assert (Hs : In pSuper (addrs g1)).
  { destruct Hok1 as [_ [_ [Hreg _]]]. destruct (Hreg _ _ Hreg1) as [n [Hn _]].
    eapply hget_in; eauto. }
  apply graph_ok_hmodify.
  - apply graph_ok_hmodify; auto. intros n Hn. split; [|reflexivity].
    destruct Hok1 as [_ [_ [_ Hnodes]]]. destruct (Hnodes _ _ Hn) as [H1 [H2 H3]].
    exact (conj H1 (conj (chain_ok_add _ _ _ Hs H2) H3)).
  - intros n Hn. split; [|reflexivity].
    apply hget_hmodify_inv in Hn as [n0 [Hn0 ->]].
    pose proof Hok1 as [_ [_ [_ Hnodes]]]. specialize (Hnodes _ _ Hn0).
    assert (Hg2 : node_ok (hmodify g1 pChild (add_parent_link pSuper))
                    (if Nat.eqb pSuper pChild then add_parent_link pSuper n0 else n0)).
    { apply (node_ok_mono g1); [rewrite addrs_hmodify; apply incl_refl|].
      destruct (Nat.eqb pSuper pChild); auto. destruct Hnodes as [H1 [H2 H3]].
      exact (conj H1 (conj (chain_ok_add _ _ _ Hs H2) H3)). }
    destruct Hg2 as [H1 [H2 H3]]. refine (conj (chain_ok_add _ _ _ _ H1) (conj H2 H3)).
    rewrite addrs_hmodify. apply Hincl; auto.
Qed.

Lemma paired_hmodify_chains (g : @Graph M) a f :
  (forall n, my_parents (f n) = my_parents n /\ my_children (f n) = my_children n) ->
  paired g -> paired (hmodify g a f).
Proof.
  intros Hf Hp x y nx ny Hx Hy.
  apply hget_hmodify_inv in Hx as [mx [Hx ->]]. apply hget_hmodify_inv in Hy as [my [Hy ->]].
  destruct (Nat.eqb x a), (Nat.eqb y a);
    rewrite ?(proj1 (Hf _)), ?(proj2 (Hf _)); apply Hp; auto.
Qed.

Lemma chain_target_allocated (g : @Graph M) x n b :
  graph_ok g -> hget g x = Some n ->
  (In b (abs (my_parents n)) \/ In b (abs (my_children n))) -> In b (addrs g).
Proof.
  intros [_ [_ [_ Hnodes]]] Hx Hb. destruct (Hnodes _ _ Hx) as [[_ [_ Hc]] [[_ [_ Hp]] _]].
  rewrite Forall_forall in Hc, Hp. destruct Hb; auto.
Qed.

Lemma paired_AddClass (g : @Graph M) k m f :
  graph_ok g -> paired g -> paired (fst (AddClass g k m f)).
Proof.
  intros Hok Hp. pose proof Hok as [_ [Hh _]].
  destruct (mfind k (clist g)) as [a|] eqn:Hk.
  - unfold AddClass. rewrite Hk. apply paired_hmodify_chains; auto.
  - intros x y nx ny Hx Hy. rewrite hget_AddClass_new in Hx, Hy by auto.
    destruct (Nat.eqb_spec x (next_addr g)) as [->|Hxn];
      destruct (Nat.eqb_spec y (next_addr g)) as [->|Hyn];
      repeat match goal with H : Some _ = Some _ |- _ => inv H end; simpl; try tauto.
    + split; [tauto|]. intros Hin. exfalso. apply (not_in_addrs_next g Hh).
      eapply chain_target_allocated; eauto.
    + split; [|tauto]. intros Hin. exfalso. apply (not_in_addrs_next g Hh).
      eapply chain_target_allocated; eauto.
    + apply Hp; auto.
Qed.

Lemma chain_wf_of_graph (g : @Graph M) x n :
  graph_ok g -> hget g x = Some n -> chain_wf (my_parents n) /\ chain_wf (my_children n).
Proof.
  intros [_ [_ [_ Hnodes]]] Hx. destruct (Hnodes _ _ Hx) as [[Hc _] [[Hpa _] _]]. auto.
Qed.

Lemma paired_add_parent (g : @Graph M) pChild name file :
  graph_ok g -> paired g -> paired (add_parent g pChild name file).
Proof.
  intros Hok Hp. unfold add_parent.
  destruct (graph_ok_AddClass g name [] file Hok) as [Hok1 _].
  pose proof (paired_AddClass g name [] file Hok Hp) as Hp1.
  destruct (AddClass g name [] file) as [g1 pSuper]. simpl in *.
  intros x y nx ny Hx Hy.
  apply hget_hmodify_inv in Hx as [mx [Hx ->]]. apply hget_hmodify_inv in Hx as [lx [Hx ->]].
  apply hget_hmodify_inv in Hy as [my [Hy ->]]. apply hget_hmodify_inv in Hy as [ly [Hy ->]].
  destruct (chain_wf_of_graph g1 x lx Hok1 Hx) as [Hpx Hcx].
  destruct (chain_wf_of_graph g1 y ly Hok1 Hy) as [Hpy Hcy].
  specialize (Hp1 x y lx ly Hx Hy).
  destruct (Nat.eqb_spec x pChild) as [Ex|Ex]; destruct (Nat.eqb_spec x pSuper) as [Ex'|Ex'];
  destruct (Nat.eqb_spec y pChild) as [Ey|Ey]; destruct (Nat.eqb_spec y pSuper) as [Ey'|Ey'];
  cbn [my_parents my_children add_parent_link add_child_link];
  rewrite ?In_abs_add by auto; intuition congruence.
Qed.

(** C6: recording a superclass keeps the class graph sound and its
    parent and child edges complementary: after [add_parent] the registry
    still maps each name to an allocated node of that name, every chain
    is well formed, duplicate-free and points to allocated nodes, and a
    node lists [b] among its parents exactly when [b] lists it among its
    children. *)
Theorem add_parent_invariant (g : @Graph M) pChild name file :
  graph_ok g -> paired g -> In pChild (addrs g) ->
  graph_ok (add_parent g pChild name file) /\ paired (add_parent g pChild name file).
Proof.
  intros Hok Hp Hc. split; [apply graph_ok_add_parent|apply paired_add_parent]; auto.
Qed.

Lemma graph_ok_add_new_interface (g : @Graph M) crel token :
  graph_ok g -> graph_ok (add_new_interface g crel token).
Proof.
  intros Hok. pose proof Hok as [Hwf [Hh [Hreg Hnodes]]]. unfold add_new_interface. simpl.
  set (g1 := fst (halloc g (new_ClassRelations token ($"interface") ($"_no_file_")))).
  assert (Hincl : incl (addrs g) (addrs g1))
    by (unfold g1; rewrite addrs_halloc; intros x Hx; apply in_or_app; auto).
  assert (Hok1 : graph_ok g1).
  { refine (conj Hwf (conj (heap_ok_halloc g _ Hh) (conj _ _))).
    - intros k b Hb. destruct (Hreg k b Hb) as [n [Hn Hname]]. exists n. split; auto.
      unfold g1. rewrite hget_halloc by auto. destruct (Nat.eqb_spec b (next_addr g)) as [->|]; auto.
      exfalso. apply (not_in_addrs_next g Hh). eapply hget_in; eauto.
    - intros b n Hb. unfold g1 in Hb. rewrite hget_halloc in Hb by auto.
      destruct (Nat.eqb b (next_addr g)); [inv Hb; apply new_node_ok|].
      apply (node_ok_mono g); eauto. }
  apply graph_ok_hmodify; auto. intros n Hn. split; [|reflexivity].
  destruct Hok1 as [_ [_ [_ Hnodes1]]]. destruct (Hnodes1 _ _ Hn) as [H1 [H2 H3]].
  refine (conj H1 (conj H2 (chain_ok_add _ _ _ _ H3))).
  unfold g1. rewrite addrs_halloc. apply in_or_app. right. left. reflexivity.
Qed.

Lemma add_new_interface_eq (g : @Graph M) crel token :
  add_new_interface g crel token
  = hmodify (fst (halloc g (new_ClassRelations token ($"interface") ($"_no_file_"))))
            crel (add_interface_link (next_addr g)).
Proof. reflexivity. Qed.

Lemma paired_add_new_interface (g : @Graph M) crel token :
  graph_ok g -> paired g -> paired (add_new_interface g crel token).
Proof.
  intros Hok Hp. pose proof Hok as [_ [Hh _]]. rewrite add_new_interface_eq.
  apply paired_hmodify_chains; [intros; split; reflexivity|].
  intros x y nx ny Hx Hy. rewrite hget_halloc in Hx, Hy by auto.
  destruct (Nat.eqb_spec x (next_addr g)) as [->|Hxn];
    destruct (Nat.eqb_spec y (next_addr g)) as [->|Hyn];
    repeat match goal with H : Some _ = Some _ |- _ => inv H end; simpl; try tauto.
  - split; [tauto|]. intros Hin. exfalso. apply (not_in_addrs_next g Hh).
    eapply chain_target_allocated; eauto.
  - split; [|tauto]. intros Hin. exfalso. apply (not_in_addrs_next g Hh).
    eapply chain_target_allocated; eauto.
  - apply Hp; auto.
Qed.

(** C27: [AddClass] on a name already registered returns the registered
    node and changes only its file: the modifier passed in is dropped, so
    a class first seen as a superclass (modifier empty) keeps the empty
    modifier when its own declaration is scanned later. *)
Theorem AddClass_existing (g : @Graph M) k m f a n :
  mfind k (clist g) = Some a -> hget g a = Some n ->
  snd (AddClass g k m f) = a /\ hget (fst (AddClass g k m f)) a = Some (set_file f n) /\
  clist (fst (AddClass g k m f)) = clist g.
Proof.
  intros Hk Hn. unfold AddClass. rewrite Hk. cbn [fst snd]. split; [reflexivity|split; [|reflexivity]].
  rewrite hget_hmodify, Nat.eqb_refl, Hn. reflexivity.
Qed.

(** C28: [add_parent] passes its file name to [AddClass] for the
    superclass, so an already declared superclass gets that file
    ([FindClassDefsInFile] passes ["_no_file_"]) while its name and
    modifier stay. *)
Theorem add_parent_overwrites_file (g : @Graph M) pChild name file s ns :
  mfind name (clist g) = Some s -> hget g s = Some ns -> s <> pChild ->
  exists ns', hget (add_parent g pChild name file) s = Some ns' /\
    my_file ns' = file /\ my_name ns' = my_name ns /\ my_modifier ns' = my_modifier ns.
Proof.
  intros Hk Hs Hne. unfold add_parent, AddClass. rewrite Hk. cbn [fst snd].
  rewrite !hget_hmodify, Nat.eqb_refl. apply Nat.eqb_neq in Hne. rewrite Hne, Hs.
  simpl. eexists. split; [reflexivity|]. simpl. auto.
Qed.

Lemma graph_ok_empty : graph_ok (@empty_graph M SM).
Proof.
  refine (conj (mwf_empty _) (conj (conj (NoDup_nil _) (Forall_nil _)) (conj _ _))).
  - intros k a Hk. simpl in Hk. rewrite mfind_empty in Hk. discriminate.
  - intros a n Ha. discriminate.
Qed.

Lemma paired_empty : paired (@empty_graph M SM).
Proof. intros a b na nb Ha. discriminate. Qed.

End GraphFacts.

(** *** Witnesses *)

Import ClassRelRuns.

Lemma add_linkage_to_refines_witness :
  chain_wf (add_linkage_to [Some 3; Some 5] 4) /\
  abs (add_linkage_to [Some 3; Some 5] 4) = set_append 4 (abs [Some 3; Some 5]).
Proof.
  apply add_linkage_to_refines. right. split; [discriminate|repeat constructor; discriminate].
Defined.

Lemma add_parent_invariant_witness :
  graph_ok (add_parent g_A 0 ($"B") ($"_no_file_")) /\ paired (add_parent g_A 0 ($"B") ($"_no_file_")).
Proof.
  apply add_parent_invariant.
  - apply graph_ok_AddClass, graph_ok_empty.
  - apply paired_AddClass; [apply graph_ok_empty|apply paired_empty].
  - vm_compute. left. reflexivity.
Defined.

Lemma AddClass_existing_witness :
  snd (AddClass g_A ($"A") [] ($"_no_file_")) = 0 /\
  hget (fst (AddClass g_A ($"A") [] ($"_no_file_"))) 0
    = Some (set_file ($"_no_file_") (new_ClassRelations ($"A") ($"public ") ($"A.java"))) /\
  clist (fst (AddClass g_A ($"A") [] ($"_no_file_"))) = clist g_A.
Proof. apply AddClass_existing; vm_compute; reflexivity. Defined.

Lemma add_parent_overwrites_file_witness :
  exists ns', hget (add_parent g_AB 0 ($"B") ($"_no_file_")) 1 = Some ns' /\
    my_file ns' = $"_no_file_" /\ my_name ns' = $"B" /\ my_modifier ns' = $"public ".
Proof.
  apply (add_parent_overwrites_file g_AB 0 ($"B") ($"_no_file_") 1
           (new_ClassRelations ($"B") ($"public ") ($"B.java")));
    [vm_compute; reflexivity|vm_compute; reflexivity|discriminate].
Defined.

End GraphFacts.


(** ** [remove_interfaces], [remove_parents], [remove_children] *)

Module RemoveFacts.
Import ClassRel ClassRelRuns.

Section Remove.
Context {M : Type -> Type} `{SM : StrMap M}.
Variable sel : ChainSel.
Variable g : @Graph M.

(** The relation [x -> y] when the head link of [x]'s chain holds [y]. *)
Let head_step (x y : addr) : Prop := chain_head sel g x = Some y.

(** C8: a [remove_...] call on a node never returns.  When the head
    links below it are ranked (no cycle) and the fuel exceeds the rank,
    it runs down the head links to the first node [b] whose head link is
    empty and ends in [delete] of [b]'s head link, a member of the node
    that [new] never allocated: undefined behaviour. *)
Theorem remove_links_undefined (rank : addr -> nat) fuel : forall a,
  (forall x y, chain_head sel g x = Some y -> rank y < rank x) -> rank a < fuel ->
  exists b, remove_links fuel sel g (Some a) = Some (DeleteEmbedded b) /\
    chain_head sel g b = None /\ clos_refl_trans addr head_step a b.
Proof.
  induction fuel as [|f IH]; intros a Hr Ha; [lia|]. cbn [remove_links].
  destruct (chain_head sel g a) as [y|] eqn:Eh.
  - destruct (IH y Hr (Nat.lt_le_trans _ _ _ (Hr a y Eh) (le_S_n _ _ Ha))) as (b & E & Hb & Hp).
    rewrite E. exists b. split; [reflexivity|split; [exact Hb|]].
    exact (rt_trans _ _ _ _ _ (rt_step _ head_step a y Eh) Hp).
  - exists a. split; [destruct f; reflexivity|split; [exact Eh|apply rt_refl]].
Qed.

(** On a cycle of head links the recursion never ends. *)
Lemma remove_links_cycle (cyc : list addr) :
  (forall x, In x cyc -> exists y, chain_head sel g x = Some y /\ In y cyc) ->
  forall fuel a, In a cyc -> remove_links fuel sel g (Some a) = None.
Proof.
  intros Hc fuel. induction fuel as [|f IH]; intros a Ha; [reflexivity|]. cbn [remove_links].
  destruct (Hc a Ha) as (y & Ey & Hy). rewrite Ey, (IH y Hy). reflexivity.
Qed.

End Remove.

Lemma remove_links_undefined_witness :
  exists b, remove_children 1 g_A 0 = Some (DeleteEmbedded b) /\
    chain_head SelChildren g_A b = None /\
    clos_refl_trans addr (fun x y => chain_head SelChildren g_A x = Some y) 0 b.
Proof.
  apply (remove_links_undefined SelChildren g_A (fun _ => 0) 1 0); [|lia].
  intros x y E. unfold chain_head in E. destruct x as [|[|x]]; vm_compute in E; discriminate E.
Defined.

(** [remove_parents] on [A] of [g_cyc] recurses for ever. *)
Example remove_parents_cycle : forall fuel, remove_parents fuel g_cyc 0 = None.
Proof.
  intros fuel. apply (remove_links_cycle SelParents g_cyc [0; 1]); [|left; reflexivity].
  intros x [<-|[<-|[]]]; [exists 1|exists 0]; split; try reflexivity; simpl; auto.
Qed.

End RemoveFacts.
