(* ===== verification/ClassRegex.v ===== *)
(** * ClassRegex: the regular expressions of [FindClassDefsInFile]

    [src/javatree/javatree.cpp] matches each line against
    [pubClass_p] (or [allClass_p] when [allClasses] is set) with
    [std::regex_match], and squeezes the declaration text with two
    [std::regex_replace] calls.  This file gives the deterministic
    matchers that compute the same results: [class_match] returns group 1
    and the position of group 4, [squeeze] performs both replacements.
    [class_regex] is the relational meaning of the regular expression;
    the facts show that [class_match] computes exactly its groups, that a
    line ending in a carriage return never matches, and that [squeeze]
    leaves no space around [<], [>] and [,] and is the identity on what it
    has already squeezed. *)

From Stdlib Require Import Ascii String List Lia ZArith Bool.
From S2P Require Import Prelude JavaReader.
Import ListNotations.
Open Scope jt_scope.
Import JavaReader.

Module ClassRegex.

(** ** Characters *)

Definition tab : ascii := ascii_of_nat 9.
Definition cr : ascii := ascii_of_nat 13.
Definition space : ascii := " "%char.

Definition is_blank (c : ascii) : bool := Ascii.eqb c space || Ascii.eqb c tab.

(** [[A-Za-z]]. *)
Definition is_alpha (c : ascii) : bool :=
  let n := nat_of_ascii c in ((65 <=? n) && (n <=? 90)) || ((97 <=? n) && (n <=? 122)).

(** The ECMAScript [.]: any byte but a line terminator. *)
Definition regex_dot (c : ascii) : bool := negb (Ascii.eqb c newline) && negb (Ascii.eqb c cr).

(** ** The class regular expression *)

(** [(public|abstract|final|static)], with [protected] and [private]
    when [allClasses] is set. *)
Definition class_keywords (allClasses : bool) : list lstring :=
  if allClasses
  then [$"public"; $"protected"; $"private"; $"abstract"; $"final"; $"static"]
  else [$"public"; $"abstract"; $"final"; $"static"].

(** The length of the leading [[ \t]*]. *)
Fixpoint span_blank (s : lstring) : nat :=
  match s with
  | c :: s' => if is_blank c then S (span_blank s') else 0
  | [] => 0
  end.

(** One iteration of [((kw)[ \t]+)]: the length it consumes. *)
Fixpoint find_kw (kws : list lstring) (s : lstring) : option nat :=
  match kws with
  | [] => None
  | kw :: kws' =>
      let b := span_blank (skipn (length kw) s) in
      if starts_with kw s && negb (b =? 0) then Some (length kw + b) else find_kw kws' s
  end.

(** The repetition [((kw)[ \t]+)*], as long as it goes. *)
Fixpoint mods_loop (fuel : nat) (kws : list lstring) (s : lstring) : nat :=
  match fuel with
  | O => 0
  | S f => match find_kw kws s with
           | Some k => k + mods_loop f kws (skipn k s)
           | None => 0
           end
  end.

(** [std::regex_match(line, matchs, class_p)]: group 1 and the position
    of group 4 when the whole line matches. *)
Definition class_match (kws : list lstring) (line : lstring) : option (lstring * nat) :=
  let w1 := span_blank line in
  let r1 := skipn w1 line in
  let m := mods_loop (length line) kws r1 in
  let r2 := skipn m r1 in
  if starts_with $"class" r2 then
    let w2 := span_blank (skipn 5 r2) in
    let p4 := w1 + m + 5 + w2 in
    let g4 := skipn p4 line in
    if negb (w2 =? 0)
       && match g4 with c :: _ => is_alpha c | [] => false end
       && forallb regex_dot g4
    then Some (firstn m r1, p4) else None
  else None.

(** ** The rewriting of the declaration text *)

(** [ReplaceAll(rightClass, "\t", " ")]. *)
Definition replace_tabs (s : lstring) : lstring :=
  map (fun c => if Ascii.eqb c tab then space else c) s.

(** [std::regex_replace(s, " *([<>,])", "$1")]: drops every run of
    spaces that ends at [<], [>] or [,]; [pend] counts the spaces read. *)
Fixpoint drop_space_before (pend : nat) (s : lstring) : lstring :=
  match s with
  | [] => repeat space pend
  | c :: s' =>
      if Ascii.eqb c space then drop_space_before (S pend) s'
      else if mem_char c $"<>," then c :: drop_space_before 0 s'
      else repeat space pend ++ c :: drop_space_before 0 s'
  end.

(** [std::regex_replace(s, "([<,]) *", "$1")]: drops the spaces after
    [<] and [,]; [skip] holds while such spaces are being dropped. *)
Fixpoint drop_space_after (skip : bool) (s : lstring) : lstring :=
  match s with
  | [] => []
  | c :: s' =>
      if skip && Ascii.eqb c space then drop_space_after true s'
      else c :: drop_space_after (mem_char c $"<,") s'
  end.

(** The two replacements, in the source's order. *)
Definition squeeze (s : lstring) : lstring := drop_space_after false (drop_space_before 0 s).

(** ** The meaning of the regular expression *)

Definition blank_str (w : lstring) : Prop := Forall (fun c => is_blank c = true) w.

(** The words [((kw)[ \t]+)*] denotes. *)
Inductive mods_rel (kws : list lstring) : lstring -> Prop :=
| mods_nil : mods_rel kws []
| mods_cons kw b r : In kw kws -> b <> [] -> blank_str b -> mods_rel kws r ->
    mods_rel kws (kw ++ b ++ r).

(** [line] matches the class pattern as a whole: leading blanks, the
    modifier group 1 [g1], the word [class], at least one blank, and the
    group 4 [g4]: a letter followed by bytes that are not line ends. *)
Definition class_regex (kws : list lstring) (line g1 g4 : lstring) : Prop :=
  exists w1 w2 c r,
    line = w1 ++ g1 ++ $"class" ++ w2 ++ g4 /\ blank_str w1 /\ mods_rel kws g1 /\
    w2 <> [] /\ blank_str w2 /\ g4 = c :: r /\ is_alpha c = true /\
    Forall (fun d => regex_dot d = true) r.

(** The keywords are non-empty words without blanks, [class] not among them. *)
Definition kws_ok (kws : list lstring) : bool :=
  forallb (fun kw => negb (Nat.eqb (length kw) 0) && forallb (fun c => negb (is_blank c)) kw
                     && negb (kw =s? $"class")) kws.

Definition starts_blank (s : lstring) : bool :=
  match s with c :: _ => is_blank c | [] => false end.

(** ** Properties of the squeezed text *)

(** [P] holds of every two adjacent bytes. *)
Fixpoint pairs_ok (P : ascii -> ascii -> bool) (s : lstring) : bool :=
  match s with
  | a :: ((b :: _) as t) => P a b && pairs_ok P t
  | _ => true
  end.

(** No space just before [<], [>] or [,]. *)
Definition no_space_before (a b : ascii) : bool :=
  negb (Ascii.eqb a space && mem_char b $"<>,").

(** Neither that nor a space just after [<] or [,]. *)
Definition squeezed_pair (a b : ascii) : bool :=
  no_space_before a b && negb (mem_char a $"<," && Ascii.eqb b space).

Definition not_space (c : ascii) : bool := negb (Ascii.eqb c space).


End ClassRegex.

Module ClassRegexFacts.
Import ClassRegex.

Definition kw_good (kw : lstring) : Prop :=
  kw <> [] /\ Forall (fun c => is_blank c = false) kw /\ kw <> $"class".

Lemma kws_ok_spec kws : kws_ok kws = true -> Forall kw_good kws.
Proof.
  unfold kws_ok. rewrite forallb_forall, Forall_forall. intros H kw Hin.
  specialize (H kw Hin). apply andb_true_iff in H as [H H3]. apply andb_true_iff in H as [H1 H2].
  split; [destruct kw; discriminate|split].
  - rewrite Forall_forall. rewrite forallb_forall in H2. intros c Hc.
    specialize (H2 c Hc). destruct (is_blank c); auto.
  - intros ->. discriminate.
Qed.

Lemma span_blank_app w s : blank_str w -> span_blank (w ++ s) = length w + span_blank s.
Proof. induction 1 as [|c w Hc _ IH]; simpl; [auto|]. rewrite Hc. lia. Qed.

Lemma span_blank_stop s : starts_blank s = false -> span_blank s = 0.
Proof. destruct s as [|c s]; simpl; auto. intros ->. auto. Qed.

Lemma span_blank_split s :
  blank_str (firstn (span_blank s) s) /\ starts_blank (skipn (span_blank s) s) = false.
Proof.
  induction s as [|c s IH]; simpl; [split; [constructor|auto]|].
  destruct (is_blank c) eqn:Hc; simpl; [|rewrite Hc; split; [constructor|auto]].
  destruct IH as [IH1 IH2]. split; [constructor|]; auto.
Qed.

Lemma span_blank_le s : span_blank s <= length s.
Proof. induction s as [|c s IH]; simpl; [lia|]. destruct (is_blank c); simpl; lia. Qed.

(** Two blank-free words each followed by a blank in the same text are equal. *)
Lemma nonblank_prefix_unique kw1 kw2 c1 c2 t1 t2 :
  Forall (fun c => is_blank c = false) kw1 -> Forall (fun c => is_blank c = false) kw2 ->
  is_blank c1 = true -> is_blank c2 = true -> kw1 ++ c1 :: t1 = kw2 ++ c2 :: t2 -> kw1 = kw2.
Proof.
  revert kw2; induction kw1 as [|a kw1 IH]; intros [|b kw2] H1 H2 Hc1 Hc2 E; simpl in E; inv E;
    auto; inv H1; inv H2; try congruence.
  f_equal. eapply IH; eauto.
Qed.

Lemma find_kw_cond kw s :
  starts_with kw s && negb (span_blank (skipn (length kw) s) =? 0) = true ->
  exists c t, s = kw ++ c :: t /\ is_blank c = true.
Proof.
  intros H. apply andb_true_iff in H as [Hs Hb]. apply starts_with_spec in Hs as [r ->].
  rewrite skipn_app_length in Hb. destruct r as [|c t]; [discriminate|].
  simpl in Hb. destruct (is_blank c) eqn:Hc; [eauto|discriminate].
Qed.

Lemma find_kw_some kws s k :
  find_kw kws s = Some k ->
  exists kw b, In kw kws /\ b <> [] /\ blank_str b /\ s = kw ++ b ++ skipn k s /\ k = length kw + length b.
Proof.
  induction kws as [|kw kws IH]; simpl; [discriminate|].
  destruct (starts_with kw s && _) eqn:E.
  - intros H. inv H. pose proof (find_kw_cond _ _ E) as [c [t [Es _]]].
    apply andb_true_iff in E as [Hs Hb]. apply starts_with_spec in Hs as [r ->].
    rewrite skipn_app_length in *. destruct (span_blank_split r) as [Hb1 _].
    exists kw, (firstn (span_blank r) r). refine (conj (or_introl eq_refl) (conj _ (conj Hb1 (conj _ _)))).
    + destruct r as [|a r]; simpl in Hb |- *; [discriminate|].
      destruct (is_blank a); simpl in *; discriminate.
    + rewrite skipn_app, skipn_all2 by lia. rewrite Nat.add_comm, Nat.add_sub, firstn_skipn. reflexivity.
    + rewrite length_firstn. pose proof (span_blank_le r). lia.
  - intros H. destruct (IH H) as [kw' [b [Hin Hr]]]. exists kw', b. split; [right; exact Hin|exact Hr].
Qed.

Lemma kw_good_head kw s : kw_good kw -> starts_blank (kw ++ s) = false.
Proof. intros [Hne [Hf _]]. destruct kw as [|c kw]; [congruence|]. inv Hf. simpl. auto. Qed.

(** [find_kw] finds the keyword that starts the text. *)
Lemma find_kw_hit kws kw b rest :
  Forall kw_good kws -> In kw kws -> b <> [] -> blank_str b -> starts_blank rest = false ->
  find_kw kws (kw ++ b ++ rest) = Some (length kw + length b).
Proof.
  intros Hok Hin Hb Hbl Hr. assert (Hkw : kw_good kw) by (rewrite Forall_forall in Hok; auto).
  assert (Hspan : span_blank (b ++ rest) = length b)
    by (rewrite span_blank_app, span_blank_stop by auto; lia).
  destruct b as [|c b']; [congruence|]. inv Hbl.
  induction kws as [|kw' kws IH]; [destruct Hin|].
  apply Forall_cons_iff in Hok as [Hk' Hok]. cbn [find_kw].
  destruct (starts_with kw' _ && _) eqn:E.
  - destruct (find_kw_cond _ _ E) as [c' [t [Es Hc']]].
    assert (kw' = kw) as ->.
    { destruct Hk' as [_ [Hn1 _]]. destruct Hkw as [_ [Hk _]]. symmetry.
      eapply (nonblank_prefix_unique kw kw' c c'); eauto. }
    rewrite skipn_app_length, Hspan. reflexivity.
  - destruct Hin as [->|Hin]; [|apply IH; auto].
    rewrite starts_with_app, skipn_app_length, Hspan in E. simpl in E. discriminate.
Qed.

(** No keyword followed by a blank starts at the word [class]. *)
Lemma find_kw_class kws w2 g4 :
  Forall kw_good kws -> w2 <> [] -> blank_str w2 -> find_kw kws ($"class" ++ w2 ++ g4) = None.
Proof.
  intros Hok Hw Hb. destruct w2 as [|c w2]; [congruence|]. inv Hb.
  induction kws as [|kw' kws IH]; [reflexivity|].
  apply Forall_cons_iff in Hok as [Hk' Hok]. cbn [find_kw].
  destruct (starts_with kw' _ && _) eqn:E; [|auto].
  destruct (find_kw_cond _ _ E) as [c' [t [Es Hc']]]. exfalso.
  destruct Hk' as [_ [Hk Hne]]. apply Hne.
  apply (nonblank_prefix_unique kw' ($"class") c' c t (w2 ++ g4)); auto.
  repeat constructor.
Qed.

Lemma mods_rel_starts kws g rest :
  Forall kw_good kws -> mods_rel kws g -> starts_blank rest = false -> starts_blank (g ++ rest) = false.
Proof.
  intros Hok Hm Hr. destruct Hm as [|kw b r Hin _ _ _]; auto.
  rewrite <- app_assoc. apply kw_good_head. rewrite Forall_forall in Hok. auto.
Qed.

(** On a text made of modifiers and then [class], the repetition
    consumes exactly the modifiers. *)
Lemma mods_loop_full kws g rest fuel :
  Forall kw_good kws -> mods_rel kws g -> length g <= fuel ->
  starts_blank rest = false -> find_kw kws rest = None ->
  mods_loop fuel kws (g ++ rest) = length g.
Proof.
  intros Hok Hm. revert fuel. induction Hm as [|kw b r Hin Hb Hbl Hr IH]; intros fuel Hf Hs Hn.
  - destruct fuel; simpl; [auto|]. rewrite Hn. auto.
  - assert (Hkw : kw_good kw) by (rewrite Forall_forall in Hok; auto).
    destruct fuel as [|f]; [destruct Hkw as [Hne _]; destruct kw; [congruence|simpl in Hf; lia]|].
    rewrite !length_app in *. cbn [mods_loop]. rewrite <- !app_assoc.
    rewrite find_kw_hit by (auto; apply (mods_rel_starts kws); auto).
    replace (skipn (length kw + length b) (kw ++ b ++ r ++ rest)) with (r ++ rest)
      by (rewrite app_assoc, <- length_app, skipn_app_length; reflexivity).
    destruct b; [congruence|]. rewrite IH by (auto; simpl in Hf; lia). lia.
Qed.

Lemma mods_loop_sound fuel : forall kws s,
  mods_rel kws (firstn (mods_loop fuel kws s) s) /\ mods_loop fuel kws s <= length s.
Proof.
  induction fuel as [|f IH]; intros kws s; cbn [mods_loop]; [split; [constructor|lia]|].
  destruct (find_kw kws s) as [k|] eqn:E; [|split; [constructor|lia]].
  destruct (find_kw_some _ _ _ E) as [kw [b [Hin [Hb [Hbl [Es Ek]]]]]].
  destruct (IH kws (skipn k s)) as [IH1 IH2]. rewrite length_skipn in IH2.
  assert (Hk : k <= length s) by (rewrite Es, !length_app; lia).
  split; [|lia].
  rewrite Es at 2. rewrite app_assoc. replace k with (length (kw ++ b)) at 1 by (rewrite length_app; lia).
  rewrite firstn_app_2, <- app_assoc. constructor; auto.
Qed.

Lemma alpha_not_blank c : is_alpha c = true -> is_blank c = false.
Proof.
  unfold is_alpha, is_blank. intros H. destruct (Ascii.eqb_spec c space) as [->|]; [discriminate|].
  destruct (Ascii.eqb_spec c tab) as [->|]; [discriminate|]. reflexivity.
Qed.

Lemma alpha_dot c : is_alpha c = true -> regex_dot c = true.
Proof.
  unfold is_alpha, regex_dot. intros H. destruct (Ascii.eqb_spec c newline) as [->|]; [discriminate|].
  destruct (Ascii.eqb_spec c cr) as [->|]; [discriminate|]. reflexivity.
Qed.

Lemma starts_with_class_skip r : starts_with $"class" r = true -> r = $"class" ++ skipn 5 r.
Proof. intros H. apply starts_with_spec in H as [t ->]. reflexivity. Qed.

(** Whatever [class_match] returns is a match of the regular expression. *)
Lemma class_match_sound kws line g1 p4 :
  class_match kws line = Some (g1, p4) -> class_regex kws line g1 (skipn p4 line).
Proof.
  unfold class_match.
  set (w1 := span_blank line). set (r1 := skipn w1 line). set (m := mods_loop _ kws r1).
  set (r2 := skipn m r1).
  destruct (starts_with $"class" r2) eqn:Hc; [|discriminate].
  set (w2 := span_blank (skipn 5 r2)).
  assert (Hg4 : skipn (w1 + m + 5 + w2) line = skipn w2 (skipn 5 r2))
    by (unfold r2, r1; rewrite !skipn_skipn; f_equal; lia).
  rewrite Hg4. destruct (skipn w2 (skipn 5 r2)) as [|c r] eqn:E4; [rewrite andb_false_r; discriminate|].
  destruct (negb (w2 =? 0) && is_alpha c && forallb regex_dot (c :: r)) eqn:Hm; [|discriminate].
  intros H. inv H. rewrite Hg4. apply andb_true_iff in Hm as [Hm Hd]. apply andb_true_iff in Hm as [Hw Ha].
  simpl in Hd. apply andb_true_iff in Hd as [_ Hd]. rewrite forallb_forall in Hd.
  exists (firstn w1 line), (firstn w2 (skipn 5 r2)), c, r.
  destruct (span_blank_split line) as [Hb1 _]. destruct (span_blank_split (skipn 5 r2)) as [Hb2 _].
  refine (conj _ (conj Hb1 (conj (proj1 (mods_loop_sound _ kws r1)) (conj _ (conj Hb2 (conj eq_refl (conj Ha _))))))).
  - rewrite <- E4, firstn_skipn, <- (starts_with_class_skip r2 Hc).
    unfold r2. rewrite firstn_skipn. unfold r1. rewrite firstn_skipn. reflexivity.
  - destruct (skipn 5 r2) as [|d t]; simpl in *; [discriminate|].
    destruct (is_blank d); simpl in *; [discriminate|]. unfold w2 in Hw. simpl in Hw. discriminate.
  - apply Forall_forall. auto.
Qed.

(** Every match of the regular expression is found by [class_match]. *)
Lemma class_match_complete kws line g1 g4 :
  Forall kw_good kws -> class_regex kws line g1 g4 ->
  exists p4, class_match kws line = Some (g1, p4) /\ skipn p4 line = g4.
Proof.
  intros Hok (w1 & w2 & c & r & -> & Hw1 & Hm & Hw2ne & Hw2 & -> & Ha & Hr).
  set (rest := $"class" ++ w2 ++ c :: r).
  assert (Hrest : starts_blank rest = false) by reflexivity.
  assert (Hspan2 : span_blank (w2 ++ c :: r) = length w2)
    by (rewrite span_blank_app, span_blank_stop by (simpl; auto using alpha_not_blank); lia).
  exists (length w1 + length g1 + 5 + length w2). unfold class_match.
  rewrite span_blank_app, (span_blank_stop (g1 ++ rest)) by (auto; apply (mods_rel_starts kws); auto).
  rewrite Nat.add_0_r, skipn_app_length.
  rewrite mods_loop_full by first [assumption | reflexivity | (rewrite !length_app; lia) | (apply find_kw_class; auto)].
  rewrite firstn_app_length, skipn_app_length. unfold rest. rewrite starts_with_app.
  change (skipn 5 ($"class" ++ w2 ++ c :: r)) with (w2 ++ c :: r). rewrite Hspan2.
  replace (length w1 + length g1 + 5 + length w2) with (length (w1 ++ g1 ++ $"class" ++ w2))
    by (rewrite !length_app; simpl; lia).
  rewrite !app_assoc, skipn_app_length. cbn [forallb].
  rewrite alpha_dot, Ha by auto. destruct w2; [congruence|]. simpl.
  replace (forallb regex_dot r) with true; [auto|].
  symmetry. apply forallb_forall. rewrite Forall_forall in Hr. auto.
Qed.

(** C4: [class_match] is the regular expression [pubClass_p] (or
    [allClass_p] when [allClasses] is set) of [FindClassDefsInFile]: it
    succeeds on a line exactly when the whole line matches, and then
    returns the match's group 1 and the start of its group 4. *)
Theorem class_match_regex allClasses line g1 g4 :
  class_regex (class_keywords allClasses) line g1 g4 <->
  exists p4, class_match (class_keywords allClasses) line = Some (g1, p4) /\ skipn p4 line = g4.
Proof.
  assert (Hok : Forall kw_good (class_keywords allClasses))
    by (apply kws_ok_spec; destruct allClasses; reflexivity).
  split; [apply class_match_complete; auto|].
  intros (p4 & E & <-). apply class_match_sound. exact E.
Qed.

(** C30: A line that ends in a carriage return never matches: the [.] of the
    pattern does not match it, and group 4 reaches the end of the line. *)
Theorem class_match_crlf kws line : class_match kws (line ++ [cr]) = None.
Proof.
  destruct (class_match kws (line ++ [cr])) as [[g1 p4]|] eqn:E; [|reflexivity].
  apply class_match_sound in E as (w1 & w2 & c & r & _ & _ & _ & _ & _ & E4 & Ha & Hr).
  assert (Hin : In cr (c :: r)).
  { destruct (Nat.le_gt_cases p4 (length line)).
    - rewrite <- E4, skipn_app. replace (p4 - length line) with 0 by lia.
      apply in_or_app. right. left. reflexivity.
    - rewrite skipn_all2 in E4 by (rewrite length_app; simpl; lia). discriminate. }
  destruct Hin as [Ec|Hin]; [rewrite Ec in Ha; vm_compute in Ha; discriminate Ha|].
  rewrite Forall_forall in Hr. specialize (Hr _ Hin). vm_compute in Hr. discriminate Hr.
Qed.

(** *** [squeeze] *)

Lemma pairs_ok_tail P a s : pairs_ok P (a :: s) = true -> pairs_ok P s = true.
Proof. destruct s as [|b s]; simpl; auto. intros H. apply andb_true_iff in H. tauto. Qed.

Lemma pairs_ok_skipn P n s : pairs_ok P s = true -> pairs_ok P (skipn n s) = true.
Proof.
  revert s; induction n as [|n IH]; intros [|a s] H; simpl; auto. apply IH. eapply pairs_ok_tail; eauto.
Qed.

Lemma pairs_ok_cons P a b s : pairs_ok P (a :: b :: s) = P a b && pairs_ok P (b :: s).
Proof. reflexivity. Qed.

Lemma pairs_ok_spaces n c s :
  mem_char c $"<>," = false -> pairs_ok no_space_before (c :: s) = true ->
  pairs_ok no_space_before (repeat space n ++ c :: s) = true.
Proof.
  intros Hc Hs. induction n as [|n IH]; [exact Hs|]. cbn [repeat app].
  destruct n; cbn [repeat app] in *; rewrite pairs_ok_cons, IH, andb_true_r;
    unfold no_space_before; [rewrite Hc|]; reflexivity.
Qed.

Lemma drop_space_before_ok s : forall pend, pairs_ok no_space_before (drop_space_before pend s) = true.
Proof.
  induction s as [|c s IH]; intros pend; cbn [drop_space_before].
  - induction pend as [|[|p] IH]; auto.
  - destruct (Ascii.eqb_spec c space) as [->|Hc]; [apply IH|].
    assert (Hhd : forall t, pairs_ok no_space_before t = true ->
                  pairs_ok no_space_before (c :: t) = true).
    { intros [|d t] Ht; [reflexivity|]. rewrite pairs_ok_cons, Ht, andb_true_r.
      unfold no_space_before. destruct (Ascii.eqb_spec c space); [congruence|reflexivity]. }
    destruct (mem_char c $"<>,") eqn:Hm; [apply Hhd, IH|].
    apply pairs_ok_spaces; auto.
Qed.

(** The invariant of [drop_space_after]: [p] is the last byte written,
    and [skip] holds exactly when it is [<] or [,]. *)
Lemma drop_space_after_ok s : forall p,
  pairs_ok no_space_before (p :: s) = true ->
  pairs_ok squeezed_pair (p :: drop_space_after (mem_char p $"<,") s) = true.
Proof.
  induction s as [|c s IH]; intros p Hs; [reflexivity|].
  cbn [drop_space_after]. rewrite pairs_ok_cons in Hs. apply andb_true_iff in Hs as [Hpc Hs].
  destruct (mem_char p $"<," && Ascii.eqb c space) eqn:Hsk.
  - apply andb_true_iff in Hsk as [Hm Hc]. apply Ascii.eqb_eq in Hc. subst c.
    pose proof (IH p) as IHp. rewrite Hm in IHp. apply IHp. destruct s as [|d s]; [reflexivity|].
    rewrite pairs_ok_cons. apply pairs_ok_tail in Hs. rewrite Hs, andb_true_r.
    unfold no_space_before. destruct (Ascii.eqb_spec p space) as [->|]; [discriminate|reflexivity].
  - rewrite pairs_ok_cons, IH by exact Hs. unfold squeezed_pair. rewrite Hpc, Hsk. reflexivity.
Qed.

Lemma drop_space_after_start s :
  pairs_ok no_space_before s = true -> pairs_ok squeezed_pair (drop_space_after false s) = true.
Proof. destruct s as [|c s]; [reflexivity|]. intros H. apply drop_space_after_ok. exact H. Qed.

(** The squeezed text has no space next to [<], [>] or [,] as the two
    replacements intend. *)
Lemma squeeze_ok s : pairs_ok squeezed_pair (squeeze s) = true.
Proof. apply drop_space_after_start, drop_space_before_ok. Qed.

Lemma pairs_ok_app_inv P l t : pairs_ok P (l ++ t) = true -> pairs_ok P t = true.
Proof. induction l as [|a l IH]; simpl; auto. intros H. apply IH. eapply pairs_ok_tail; eauto. Qed.

Lemma pairs_ok_impl (P Q : ascii -> ascii -> bool) s :
  (forall a b, P a b = true -> Q a b = true) -> pairs_ok P s = true -> pairs_ok Q s = true.
Proof.
  intros HPQ. induction s as [|a [|b s] IH]; auto. rewrite !pairs_ok_cons.
  intros H. apply andb_true_iff in H as [H1 H2]. rewrite HPQ, IH; auto.
Qed.

Lemma drop_space_before_id s : forall pend,
  pairs_ok no_space_before (repeat space pend ++ s) = true ->
  drop_space_before pend s = repeat space pend ++ s.
Proof.
  induction s as [|c s IH]; intros pend H; cbn [drop_space_before]; [rewrite app_nil_r; reflexivity|].
  destruct (Ascii.eqb_spec c space) as [->|Hc].
  - rewrite IH; [|rewrite <- repeat_cons_app_assoc; exact H]. symmetry. apply repeat_cons_app_assoc.
  - destruct (mem_char c $"<>,") eqn:Hm.
    + destruct pend as [|k]; [cbn [repeat app] in *; f_equal; apply (IH 0); eapply pairs_ok_tail; eauto|].
      exfalso. replace (repeat space (S k) ++ c :: s) with (repeat space k ++ [space; c] ++ s) in H
        by (rewrite <- repeat_cons_app_assoc; reflexivity).
      apply pairs_ok_app_inv in H. cbn in H. unfold no_space_before in H. rewrite Hm in H. discriminate.
    + f_equal. f_equal. apply (IH 0). apply pairs_ok_app_inv in H. eapply pairs_ok_tail; eauto.
Qed.

Lemma drop_space_after_id s : forall p,
  pairs_ok squeezed_pair (p :: s) = true -> drop_space_after (mem_char p $"<,") s = s.
Proof.
  induction s as [|c s IH]; intros p H; [reflexivity|]. cbn [drop_space_after].
  rewrite pairs_ok_cons in H. apply andb_true_iff in H as [Hpc H].
  unfold squeezed_pair in Hpc. apply andb_true_iff in Hpc as [_ Hpc]. apply negb_true_iff in Hpc.
  rewrite Hpc. f_equal. apply IH. exact H.
Qed.

Lemma squeeze_id s : pairs_ok squeezed_pair s = true -> squeeze s = s.
Proof.
  intros H. unfold squeeze. rewrite (drop_space_before_id s 0).
  - destruct s as [|c s]; [reflexivity|]. cbn [repeat app drop_space_after andb].
    f_equal. apply drop_space_after_id. exact H.
  - eapply pairs_ok_impl; [|exact H]. unfold squeezed_pair. intros a b Hab.
    apply andb_true_iff in Hab. tauto.
Qed.

(** The second pair of [std::regex_replace] calls of
    [FindClassDefsInFile], applied to [parents] (a suffix of the already
    squeezed [rightClass]), changes nothing. *)
Theorem squeeze_suffix_idem s n : squeeze (skipn n (squeeze s)) = skipn n (squeeze s).
Proof. apply squeeze_id, pairs_ok_skipn, squeeze_ok. Qed.

(** The replacements only remove spaces. *)
Lemma squeeze_keeps s : filter not_space (squeeze s) = filter not_space s.
Proof.
  unfold squeeze.
  assert (Ha : forall t skip, filter not_space (drop_space_after skip t) = filter not_space t).
  { induction t as [|c t IH]; intros skip; [reflexivity|]. cbn [drop_space_after].
    destruct (skip && Ascii.eqb c space) eqn:E.
    - apply andb_true_iff in E as [_ E]. apply Ascii.eqb_eq in E. subst. rewrite IH. reflexivity.
    - cbn [filter]. rewrite IH. reflexivity. }
  assert (Hr : forall n t, filter not_space (repeat space n ++ t) = filter not_space t)
    by (induction n; simpl; auto).
  assert (Hb : forall t pend, filter not_space (drop_space_before pend t) = filter not_space t).
  { induction t as [|c t IH]; intros pend; cbn [drop_space_before].
    - rewrite <- (app_nil_r (repeat space pend)), Hr. reflexivity.
    - destruct (Ascii.eqb_spec c space) as [->|Hc]; [rewrite IH; reflexivity|].
      assert (Hn : not_space c = true) by (unfold not_space; destruct (Ascii.eqb_spec c space); auto).
      destruct (mem_char c _); [|rewrite Hr]; cbn [filter]; rewrite Hn, IH; reflexivity. }
  rewrite Ha, Hb. reflexivity.
Qed.

End ClassRegexFacts.
