(* ===== verification/Extractor.v ===== *)
(** * Extractor: [FindClassDefsInFile] of [src/javatree/javatree.cpp]

    The per-file pass that turns the comment-free lines of a [.java] file
    into [AddClass], [add_parent] and interface edges.  Its locals
    ([depth], [classNames], [class_name], the reader and the stream) are
    the record [FileState]; the class graph, with the text written to
    [cerr] so far, is threaded by a small state and exception monad [SE]
    in which a thrown [std::exception] keeps the graph updates and the
    [cerr] writes made before it, as the [try]/[catch] of the source does.
    Loops carry fuel; [None] means only that the fuel ran out, and
    [FindClassDefsInFile_total] shows it never does with the fuel chosen.

    The two [std::regex] objects of the function are replaced by the
    deterministic matchers [class_match] and [squeeze]; [class_match_regex]
    proves the first equal to the relational meaning of the regular
    expression [pubClass_p]/[allClass_p]. *)

From Stdlib Require Import Ascii String List Lia ZArith Bool.
From S2P Require Import Prelude JavaReader Split Registry ClassRel ClassRegex.
Import ListNotations.
Open Scope jt_scope.
Import JavaReader ClassRel ClassRegex.

(** ** A state and exception monad *)

(** A computation on a state [S] that may throw a [cxx_exception] (the
    state reached so far is kept) and may run out of fuel ([None]). *)
Definition SE (S A : Type) : Type := S -> option (S * result A).

Definition se_ret {S A} (a : A) : SE S A := fun s => Some (s, Ok a).

Definition se_bind {S A B} (m : SE S A) (k : A -> SE S B) : SE S B :=
  fun s => match m s with
           | None => None
           | Some (s', Ok a) => k a s'
           | Some (s', Throw e) => Some (s', Throw e)
           end.

Definition se_lift {S A} (r : result A) : SE S A := fun s => Some (s, r).

Definition se_opt {S A} (o : option (result A)) : SE S A :=
  fun s => match o with Some r => Some (s, r) | None => None end.

Definition se_update {S} (f : S -> S) : SE S unit := fun s => Some (f s, Ok tt).

Definition se_run {S A} (f : S -> S * A) : SE S A :=
  fun s => let '(s', a) := f s in Some (s', Ok a).

(** The state of a pass is the data it builds paired with the text it
    has written to [cerr]; [se_on] runs an operation on the data, and
    [cerr_write] appends to [cerr]. *)
Definition se_on {G A} (f : G -> G * A) : SE (G * lstring) A :=
  se_run (fun s => let '(g', a) := f (fst s) in ((g', snd s), a)).

Definition se_on_update {G} (f : G -> G) : SE (G * lstring) unit :=
  se_update (fun s => (f (fst s), snd s)).

Definition cerr_write {G} (msg : lstring) : SE (G * lstring) unit :=
  se_update (fun s => (fst s, snd s ++ msg)).

Declare Scope se_scope.
Delimit Scope se_scope with se.
Notation "x <- m ;; k" := (se_bind m (fun x => k))
  (at level 61, m at next level, right associativity) : se_scope.
Open Scope se_scope.

Module Extractor.

(** The two globals the pass reads: [allClasses] and [cset == JAVA_CHAR]. *)
Record Config := mkConfig { allClasses : bool; javaChars : bool }.

(** ** Characters *)

Definition slash : ascii := "/"%char.
Definition backslash : ascii := ascii_of_nat 92.
Definition dot : ascii := "."%char.
Definition lbrace : ascii := "{"%char.
Definition rbrace : ascii := "}"%char.
Definition semi : ascii := ";"%char.

(** ** C and C++ string helpers *)

Fixpoint rfind_from (c : ascii) (s : lstring) (i : nat) (acc : option nat) : option nat :=
  match s with
  | [] => acc
  | d :: s' => rfind_from c s' (S i) (if Ascii.eqb d c then Some i else acc)
  end.

(** [strrchr(s, c)] and [s.find_last_of(c)]: the last index of [c]. *)
Definition strrchr (s : lstring) (c : ascii) : option nat := rfind_from c s 0 None.

(** [std::string::max_size()] of libstdc++ on a 64-bit target. *)
Definition string_max_size : Z := (2 ^ 62 - 1)%Z.

(** [std::vector<lstring>::max_size()]: [PTRDIFF_MAX / sizeof(lstring)]. *)
Definition vector_max_size : Z := (2 ^ 58 - 1)%Z.

(** [s.resize(n)], [n] a [size_t]: [std::length_error] past [max_size()],
    padding with [NUL] bytes. *)
Definition str_resize (n : Z) (s : lstring) : result lstring :=
  if (string_max_size <? n)%Z then Throw LengthError
  else Ok (firstn (Z.to_nat n) s ++ repeat (ascii_of_nat 0) (Z.to_nat n - length s)).

(** [v.resize(n)] on a [StringList], padding with empty strings. *)
Definition vec_resize (n : Z) (v : list lstring) : result (list lstring) :=
  if (vector_max_size <? n)%Z then Throw LengthError
  else Ok (firstn (Z.to_nat n) v ++ repeat [] (Z.to_nat n - length v)).

(** [hasExtension(filepath, extn)]: the FIRST occurrence of [extn]
    ([strstr]) must end the path. *)
Definition hasExtension (filepath extn : lstring) : bool :=
  match find_in extn filepath 0 with
  | Some i => Nat.eqb (i + length extn) (length filepath)
  | None => false
  end.

(** [FilePathToURL(filepath)]. *)
Definition FilePathToURL (filepath : lstring) : lstring :=
  $"file:///" ++ map (fun c => if Ascii.eqb c backslash then slash else c) filepath.

(** The [filename] computed before the loop; the [else] branch searches
    the local [filename], still empty at that point. *)
Definition file_label (cfg : Config) (filepath : lstring) : lstring :=
  if javaChars cfg then FilePathToURL filepath
  else let filename : lstring := [] in
       match strrchr filename slash with
       | Some i => skipn (S i) filename
       | None => filepath
       end.

(** [class_name] before the first line: the base name with its
    extension cut by [resize(find_last_of('.'))]. *)
Definition initial_class_name (filepath : lstring) : result lstring :=
  let base := match strrchr filepath slash with
              | Some i => skipn (S i) filepath
              | None => filepath
              end in
  str_resize (match strrchr base dot with Some i => Z.of_nat i | None => npos end) base.


(** [Split split(s, delims, FindSplit)]; [Split_FindSplit_total] shows
    the fuel of [Split] suffices, so the [None] branch is not reached. *)
Definition split_words (s delims : lstring) : result (list lstring) :=
  match Split.Split Split.FindSplit s delims with Some r => r | None => Ok [] end.

(** [cerr << "Bad class " << name << std::endl]. *)
Definition bad_class (name : lstring) : lstring := $"Bad class " ++ name ++ [newline].

(** [MakeFullClassName(outFullName, inNames, name)]: the full name and
    what it writes to [cerr], one [Bad class] line per empty enclosing
    name, which is skipped. *)
Definition MakeFullClassName (inNames : list lstring) (name : lstring) : lstring * lstring :=
  match inNames with
  | [] => (name, [])
  | _ => (flat_map (fun n => match n with [] => [] | _ => n ++ [dot] end) inNames ++ name,
          flat_map (fun n => match n with [] => bad_class name | _ => [] end) inNames)
  end.

(** The [for] loop over the tokens of the declaration tail; [modType] is
    0 before any keyword, 1 after [extends] and 2 after [implements]. *)
Section Tokens.
Context {M : Type -> Type} `{SM : StrMap M}.

Fixpoint parent_tokens (crel : addr) (modType : nat) (toks : list lstring) (g : @Graph M)
  : @Graph M :=
  match toks with
  | [] => g
  | t :: ts =>
      if t =s? $"extends" then parent_tokens crel 1 ts g
      else if t =s? $"implements" then parent_tokens crel 2 ts g
      else match modType with
           | 1 => parent_tokens crel modType ts (add_parent g crel t $"_no_file_")
           | 2 => parent_tokens crel modType ts (add_new_interface g crel t)
           | _ => parent_tokens crel modType ts g
           end
  end.

End Tokens.

(** ** Braces and nesting *)

(** [std::cerr << " Brace parsing error on " << filepath << std::endl]. *)
Definition brace_error (filepath : lstring) : lstring :=
  $" Brace parsing error on " ++ filepath ++ [newline].

(** The [for] loop over the bytes of [line] that tracks [depth] and the
    enclosing class names [classNames]: the text it writes to [cerr]
    (also when a [resize] throws after it) and its result. *)
Fixpoint braces (filepath cs : lstring) (depth : Z) (names : list lstring) (cn : lstring)
  : lstring * result (Z * list lstring) :=
  match cs with
  | [] => ([], Ok (depth, names))
  | c :: cs' =>
      if Ascii.eqb c lbrace then
        match vec_resize (size_of_int depth) names with
        | Ok v => braces filepath cs' (depth + 1) (v ++ [cn]) cn
        | Throw e => ([], Throw e)
        end
      else if Ascii.eqb c rbrace then
        let d := (depth - 1)%Z in
        if (d <? 0)%Z then
          let r := braces filepath cs' d names cn in (brace_error filepath ++ fst r, snd r)
        else match vec_resize (size_of_int d) names with
             | Ok v => braces filepath cs' d v cn
             | Throw e => ([], Throw e)
             end
      else braces filepath cs' depth names cn
  end.

(** ** The pass over one file *)

(** The locals of [FindClassDefsInFile] that live across lines. *)
Record FileState := mkFS {
  fs_reader : ReaderState;
  fs_in : istream;
  fs_line : lstring;
  fs_depth : Z;
  fs_classNames : list lstring;
  fs_class_name : lstring }.

(** The [while] loop that appends continuation lines to [line] until one
    holds [;] or [{]; [moreText] is its own local. *)
Fixpoint more_loop (fuel : nat) (rd : ReaderState) (ins : istream) (moreText line : lstring)
  : option (result (ReaderState * istream * lstring)) :=
  match fuel with
  | O => None
  | S f =>
      match getJavaline rd ins moreText with
      | Throw e => Some (Throw e)
      | Ok r =>
          if rd_good r then
            let line' := line ++ rd_line r in
            match find_first_of $";{" (rd_line r) with
            | Some _ => Some (Ok (rd_state r, rd_stream r, line'))
            | None => more_loop f (rd_state r) (rd_stream r) (rd_line r) line'
            end
          else Some (Ok (rd_state r, rd_stream r, line))
      end
  end.

(** The brace loop run on the current line; it only writes to [cerr]. *)
Definition run_braces {G} (filepath : lstring) (fs : FileState) : SE (G * lstring) FileState :=
  let r := braces filepath (fs_line fs) (fs_depth fs) (fs_classNames fs) (fs_class_name fs) in
  _ <- cerr_write (fst r) ;;
  p <- se_lift (snd r) ;;
  se_ret (mkFS (fs_reader fs) (fs_in fs) (fs_line fs) (fst p) (snd p) (fs_class_name fs)).

Section Pass.
Context {M : Type -> Type} `{SM : StrMap M}.

(** [std::string(matchs[4])] cut at the first [;] or [{] of the line. *)
Definition end_of_decl (line : lstring) : nat * ascii :=
  match find_first_of $";{" line with
  | Some i => (i, nth i line space)
  | None => (length line, space)
  end.

(** The body of the [if (std::regex_match(...))] branch and the brace
    loop after it, for a line that matched with group 1 [g1] and group 4
    at [p4]. *)
Definition class_line (cfg : Config) (filepath filename : lstring) (fs : FileState) (g1 : lstring)
           (p4 : nat) : SE (@Graph M * lstring) FileState :=
  let line := fs_line fs in
  let '(endIdx, endChar) := end_of_decl line in
  if Ascii.eqb endChar semi then se_ret fs
  else
    rc <- se_lift (str_resize (size_sub endIdx p4) (skipn p4 line)) ;;
    let rightClass := squeeze (replace_tabs rc) in
    pieces <- se_lift (split_words rightClass $" ") ;;
    let cn := hd [] pieces in
    if allClasses cfg || match str_find $"public" g1 0 with Some _ => true | None => false end then
      let full := MakeFullClassName (fs_classNames fs) cn in
      _ <- cerr_write (snd full) ;;
      crel <- se_on (fun g => AddClass g (fst full) g1 filename) ;;
      more <- (if negb (Ascii.eqb endChar lbrace)
               then se_opt (more_loop (S (length (buf (fs_in fs)))) (fs_reader fs) (fs_in fs) [] line)
               else se_ret (fs_reader fs, fs_in fs, line)) ;;
      parents <- se_lift (str_substr (Z.of_nat (length cn)) npos rightClass) ;;
      toks <- se_lift (split_words (squeeze parents) $", ") ;;
      _ <- se_on_update (parent_tokens crel 0 toks) ;;
      let '(rd, ins, line') := more in
      run_braces filepath (mkFS rd ins line' (fs_depth fs) (fs_classNames fs) cn)
    else run_braces filepath (mkFS (fs_reader fs) (fs_in fs) line (fs_depth fs) (fs_classNames fs) cn).

(** One iteration of the [while] body after a good [getJavaline]. *)
Definition process_line (cfg : Config) (filepath filename : lstring) (fs : FileState)
  : SE (@Graph M * lstring) FileState :=
  let line := fs_line fs in
  if (4096 <=? length line) || (length line =? 0) then se_ret fs
  else match class_match (class_keywords (allClasses cfg)) line with
       | Some (g1, p4) => class_line cfg filepath filename fs g1 p4
       | None => run_braces filepath fs
       end.

(** [while (reader.getJavaline(in, line).good()) { ... }]. *)
Fixpoint file_loop (fuel : nat) (cfg : Config) (filepath filename : lstring) (fs : FileState)
  : SE (@Graph M * lstring) FileState :=
  match fuel with
  | O => fun _ => None
  | S f =>
      r <- se_lift (getJavaline (fs_reader fs) (fs_in fs) (fs_line fs)) ;;
      let fs1 := mkFS (rd_state r) (rd_stream r) (rd_line r)
                      (fs_depth fs) (fs_classNames fs) (fs_class_name fs) in
      if rd_good r then
        fs2 <- process_line cfg filepath filename fs1 ;;
        file_loop f cfg filepath filename fs2
      else se_ret fs1
  end.

(** The body of the [try] block of [FindClassDefsInFile] once the file
    is open: the initial [class_name], then the line loop. *)
Definition class_pass (cfg : Config) (filepath contents : lstring) : SE (@Graph M * lstring) FileState :=
  cn <- se_lift (initial_class_name filepath) ;;
  file_loop (S (length contents)) cfg filepath (file_label cfg filepath)
            (mkFS init_reader (open_stream contents) [] 0 [] cn).

(** [FindClassDefsInFile(filepath)] on a file whose bytes are [file]
    ([None] when it cannot be opened): the graph after the call and the
    [bool] it returns; an exception is caught and gives [false]. *)
Definition FindClassDefsInFile (cfg : Config) (filepath : lstring) (file : option lstring)
           (g : @Graph M) : option (@Graph M * bool) :=
  if negb (hasExtension filepath $".java") then Some (g, false)
  else match file with
       | None => Some (g, false)
       | Some contents =>
           match class_pass cfg filepath contents (g, []) with
           | None => None
           | Some ((g', _), Ok _) => Some (g', true)
           | Some ((g', _), Throw _) => Some (g', false)
           end
       end.

(** What the pass writes to [cerr]: the file that cannot be opened, or
    the [Bad class] and brace errors of the lines read, followed, when
    an exception was caught, by its report.  [catch (exception ex)]
    copies the exception into a [std::exception], so [ex.what()] is that
    class's text. *)
Definition unable_to_open (filepath : lstring) : lstring :=
  $"Classtree: Unable to open " ++ filepath ++ [newline].

Definition parsing_error (filepath : lstring) : lstring :=
  $"Parsing error in file:" ++ filepath ++ [newline] ++ $"std::exception" ++ [newline].


Definition FindClassDefsInFile_cerr (cfg : Config) (filepath : lstring) (file : option lstring)
           (g : @Graph M) : lstring :=
  if negb (hasExtension filepath $".java") then []
  else match file with
       | None => unable_to_open filepath
       | Some contents =>
           match class_pass cfg filepath contents (g, []) with
           | Some ((_, w), Ok _) => w
           | Some ((_, w), Throw _) => w ++ parsing_error filepath
           | None => []
           end
       end.

End Pass.

End Extractor.

(** ** Helpers for whole-file runs *)

Module ExtractorRuns.
Import Extractor.

(** The names of the nodes a chain holds. *)
Definition chain_names {M} (g : @Graph M) (l : ClassLinkage) : list lstring :=
  map (fun a => match hget g a with Some n => my_name n | None => [] end) (abs l).

(** Parents, children and interfaces of the class registered as [k]. *)
Definition node_view {M} `{StrMap M} (g : @Graph M) (k : lstring)
  : option (list lstring * list lstring * list lstring) :=
  match mfind k (clist g) with
  | Some a => match hget g a with
              | Some n => Some (chain_names g (my_parents n), chain_names g (my_children n),
                                chain_names g (my_interfaces n))
              | None => None
              end
  | None => None
  end.

Definition text (ls : list lstring) : lstring := flat_map (fun l => l ++ [newline]) ls.

Definition run (cfg : Config) (path : lstring) (ls : list lstring) (g : @Graph SortedMap)
  : option (@Graph SortedMap * bool) :=
  FindClassDefsInFile cfg path (Some (text ls)) g.

Definition view (r : option (@Graph SortedMap * bool)) (k : lstring) :=
  match r with Some (g, _) => node_view g k | None => None end.

Definition pub : Config := mkConfig false false.

(** A class whose body closes one brace too many before opening one. *)
Definition unmatched_A : list lstring := [$"public class A {"; $"}}{"].

Definition decl_A : list lstring :=
  [$"public class A extends B implements I1, I2 {"; $"}"].

End ExtractorRuns.

(** ** Reasoning about [SE] computations *)

(** A predicate on the data of a pass state, whatever was written. *)
Definition on_data {G} (P : G -> Prop) : G * lstring -> Prop := fun s => P (fst s).

(** [m] leaves the data alone; it may write to [cerr]. *)
Definition se_keeps {G A} (m : SE (G * lstring) A) : Prop :=
  forall s s' r, m s = Some (s', r) -> fst s' = fst s.


Section SEFacts.
Context {S : Type}.

(** [m] never runs out of fuel. *)
Definition se_total {A} (m : SE S A) : Prop := forall s, m s <> None.

(** From a state satisfying [I] and [P], [m] reaches a state satisfying
    [I] (also when it throws), and [Q] of its value when it returns. *)
Definition se_triple {A} (I P : S -> Prop) (m : SE S A) (Q : A -> S -> Prop) : Prop :=
  forall s s' r, I s -> P s -> m s = Some (s', r) -> I s' /\ (forall a, r = Ok a -> Q a s').

(** [m] leaves the state alone. *)
Definition se_pure {A} (m : SE S A) : Prop := forall s s' r, m s = Some (s', r) -> s' = s.

Lemma se_total_bind {A B} (m : SE S A) (k : A -> SE S B) :
  se_total m -> (forall a, se_total (k a)) -> se_total (se_bind m k).
Proof.
  intros Hm Hk s. unfold se_bind. specialize (Hm s).
  destruct (m s) as [[s' [a|e]]|]; [apply Hk|discriminate|congruence].
Qed.

Lemma se_total_ret {A} (a : A) : se_total (se_ret a).
Proof. intros s. discriminate. Qed.

Lemma se_total_lift {A} (r : result A) : se_total (se_lift r).
Proof. intros s. discriminate. Qed.

Lemma se_total_update f : se_total (se_update f).
Proof. intros s. discriminate. Qed.

Lemma se_total_run {A} (f : S -> S * A) : se_total (se_run f).
Proof. intros s. unfold se_run. destruct (f s). discriminate. Qed.

Lemma se_total_opt {A} (o : option (result A)) : o <> None -> se_total (se_opt o).
Proof. intros Ho s. unfold se_opt. destruct o; congruence. Qed.

Lemma se_triple_bind {A B} I P Q R (m : SE S A) (k : A -> SE S B) :
  se_triple I P m Q -> (forall a, se_triple I (Q a) (k a) R) -> se_triple I P (se_bind m k) R.
Proof.
  intros Hm Hk s s' r HI HP. unfold se_bind.
  destruct (m s) as [[s1 [a|e]]|] eqn:E; [|intros H; inv H|discriminate].
  - destruct (Hm _ _ _ HI HP E) as [HI1 HQ]. apply (Hk a s1); auto.
  - destruct (Hm _ _ _ HI HP E) as [HI1 _]. split; [auto|discriminate].
Qed.

(** A computation that leaves the state alone keeps the precondition. *)
Lemma se_triple_pure {A B} I P R (m : SE S A) (k : A -> SE S B) :
  se_pure m -> (forall a, se_triple I P (k a) R) -> se_triple I P (se_bind m k) R.
Proof.
  intros Hm Hk. apply (se_triple_bind I P (fun _ => P)); auto.
  intros s s' r HI HP E. rewrite (Hm _ _ _ E). auto.
Qed.

Lemma se_triple_ret {A} I P (Q : A -> S -> Prop) a :
  (forall s, P s -> Q a s) -> se_triple I P (se_ret a) Q.
Proof. intros H s s' r HI HP E. inv E. split; [auto|intros b Hb; inv Hb; auto]. Qed.

Lemma se_triple_lift {A} I P (Q : A -> S -> Prop) r :
  (forall s a, P s -> r = Ok a -> Q a s) -> se_triple I P (se_lift r) Q.
Proof. intros H s s' r' HI HP E. inv E. split; [auto|intros b Hb; subst; eauto]. Qed.

Lemma se_triple_conseq {A} I P (Q Q' : A -> S -> Prop) m :
  se_triple I P m Q' -> (forall a s, Q' a s -> Q a s) -> se_triple I P m Q.
Proof. intros Hm HQ s s' r HI HP E. destruct (Hm _ _ _ HI HP E) as [H1 H2]. split; auto. Qed.

Lemma se_pure_ret {A} (a : A) : se_pure (se_ret a).
Proof. intros s s' r E. inv E. reflexivity. Qed.

Lemma se_pure_lift {A} (r : result A) : se_pure (se_lift r).
Proof. intros s s' r' E. inv E. reflexivity. Qed.

Lemma se_pure_opt {A} (o : option (result A)) : se_pure (se_opt o).
Proof. intros s s' r' E. unfold se_opt in E. destruct o; inv E. reflexivity. Qed.

End SEFacts.

#[export] Hint Resolve se_total_ret se_total_lift se_total_update se_total_run
  se_pure_ret se_pure_lift se_pure_opt : jt.

Module ExtractorFacts.
Import Extractor.


Lemma se_triple_run {S A} I P (Q : A -> S -> Prop) (f : S -> S * A) :
  (forall s, I s -> P s -> I (fst (f s)) /\ Q (snd (f s)) (fst (f s))) ->
  se_triple I P (se_run f) Q.
Proof.
  intros H s s' r HI HP E. unfold se_run in E. specialize (H s HI HP).
  destruct (f s) as [s1 a]. inv E. split; [tauto|intros b Hb; inv Hb; tauto].
Qed.

Lemma se_triple_update {S} I P (Q : unit -> S -> Prop) (f : S -> S) :
  (forall s, I s -> P s -> I (f s) /\ Q tt (f s)) -> se_triple I P (se_update f) Q.
Proof. intros H s s' r HI HP E. inv E. split; [apply H; auto|intros [] Hb; apply H; auto]. Qed.

(** *** Termination *)

(** The continuation loop stops within its fuel and never grows the
    unread input. *)
Lemma more_loop_total fuel : forall rd ins mt line,
  length (buf ins) < fuel ->
  exists x, more_loop fuel rd ins mt line = Some x /\
    (forall rd' ins' l', x = Ok (rd', ins', l') -> length (buf ins') <= length (buf ins)).
Proof.
  induction fuel as [|f IH]; intros rd ins mt line Hf; [lia|]. cbn [more_loop].
  destruct (getJavaline rd ins mt) as [r|e] eqn:E; [|eexists; split; [reflexivity|discriminate]].
  destruct (JavaReaderFacts.getJavaline_buf _ _ _ _ E) as [Hle Hlt].
  destruct (rd_good r) eqn:Hg.
  - specialize (Hlt eq_refl). destruct (find_first_of _ (rd_line r)).
    + eexists. split; [reflexivity|]. intros rd' ins' l' Ex. inv Ex. lia.
    + destruct (IH (rd_state r) (rd_stream r) (rd_line r) (line ++ rd_line r)) as [x [Ex Hx]]; [lia|].
      exists x. split; [exact Ex|]. intros rd' ins' l' Eq. specialize (Hx _ _ _ Eq). lia.
  - eexists. split; [reflexivity|]. intros rd' ins' l' Ex. inv Ex. exact Hle.
Qed.

(** *** Pass states: data and [cerr] *)


Lemma se_pure_keeps {G A} (m : SE (G * lstring) A) : se_pure m -> se_keeps m.
Proof. intros H s s' r E. rewrite (H _ _ _ E). reflexivity. Qed.

Lemma se_keeps_cerr_write {G} msg : se_keeps (@cerr_write G msg).
Proof. intros s s' r E. inv E. reflexivity. Qed.

Lemma se_total_on {G A} (f : G -> G * A) : se_total (se_on f).
Proof. unfold se_on. auto with jt. Qed.

Lemma se_total_on_update {G} (f : G -> G) : se_total (se_on_update f).
Proof. unfold se_on_update. auto with jt. Qed.

Lemma se_total_cerr_write {G} msg : se_total (@cerr_write G msg).
Proof. unfold cerr_write. auto with jt. Qed.

#[local] Hint Resolve se_keeps_cerr_write se_total_on se_total_on_update se_total_cerr_write : jt.
#[local] Hint Extern 1 (se_keeps _) => apply se_pure_keeps; auto with jt : jt.

(** A step that keeps the data keeps every predicate on it. *)
Lemma se_triple_keeps {G A B} (I P : G -> Prop) R (m : SE (G * lstring) A) (k : A -> SE _ B) :
  se_keeps m -> (forall a, se_triple (on_data I) (on_data P) (k a) R) ->
  se_triple (on_data I) (on_data P) (se_bind m k) R.
Proof.
  intros Hm Hk. apply (se_triple_bind _ _ (fun _ => on_data P)); auto.
  intros s s' r HI HP E. unfold on_data in *. rewrite (Hm _ _ _ E). auto.
Qed.

Lemma se_triple_on {G A} (I P : G -> Prop) (Q : A -> G -> Prop) (f : G -> G * A) :
  (forall g, I g -> P g -> I (fst (f g)) /\ Q (snd (f g)) (fst (f g))) ->
  se_triple (on_data I) (on_data P) (se_on f) (fun a => on_data (Q a)).
Proof.
  intros H. unfold se_on, on_data. apply se_triple_run. intros [g w] HI HP. cbn [fst snd] in *.
  specialize (H g HI HP). destruct (f g) as [g' a]. exact H.
Qed.

Lemma se_triple_on_update {G} (I P : G -> Prop) (Q : unit -> G -> Prop) (f : G -> G) :
  (forall g, I g -> P g -> I (f g) /\ Q tt (f g)) ->
  se_triple (on_data I) (on_data P) (se_on_update f) (fun a => on_data (Q a)).
Proof. intros H. unfold se_on_update, on_data. apply se_triple_update. intros [g w]. apply H. Qed.

Ltac se_pure_step :=
  cbv zeta; first [apply se_triple_pure; [solve [auto with jt]|intros ?] | apply se_triple_keeps; [solve [auto with jt]|intros ?]].

Lemma run_braces_spec {G} fp (fs : FileState) (s s' : G * lstring) r :
  run_braces fp fs s = Some (s', r) -> fst s' = fst s /\ forall fs', r = Ok fs' -> fs_in fs' = fs_in fs.
Proof.
  unfold run_braces, cerr_write, se_bind, se_update, se_lift, se_ret.
  destruct (snd (braces _ _ _ _ _)); intros E; inv E; split; auto; intros fs' H; inv H; reflexivity.
Qed.

Lemma se_triple_run_braces {G} (I P : G -> Prop) fp fs :
  se_triple (on_data I) (on_data P) (run_braces fp fs) (fun fs' s => P (fst s) /\ fs_in fs' = fs_in fs).
Proof.
  intros s s' r HI HP E. destruct (run_braces_spec fp fs s s' r E) as [Hs H].
  unfold on_data in *. rewrite Hs. split; [exact HI|]. intros a Ha. split; [exact HP|auto].
Qed.

Lemma run_braces_total {G} fp fs : se_total (@run_braces G fp fs).
Proof. unfold run_braces. apply se_total_bind; [auto with jt|intros _]. apply se_total_bind; auto with jt. Qed.

Section PassFacts.
Context {M : Type -> Type} `{SM : StrMap M}.

Lemma class_line_total cfg fp fn fs g1 p4 : se_total (@class_line M SM cfg fp fn fs g1 p4).
Proof.
  unfold class_line. destruct (end_of_decl (fs_line fs)) as [endIdx endChar].
  destruct (Ascii.eqb endChar semi); [auto with jt|].
  apply se_total_bind; [auto with jt|intros rc].
  apply se_total_bind; [auto with jt|intros pieces].
  destruct (_ || _); [|apply run_braces_total].
  do 2 (apply se_total_bind; [auto with jt|intros ?]).
  apply se_total_bind.
  { destruct (negb _); [|auto with jt]. apply se_total_opt.
    destruct (more_loop_total (S (length (buf (fs_in fs)))) (fs_reader fs) (fs_in fs) [] (fs_line fs))
      as [x [-> _]]; [lia|discriminate]. }
  intros [[rd ins] line'].
  do 3 (apply se_total_bind; [auto with jt|intros ?]). apply run_braces_total.
Qed.

Lemma process_line_total cfg fp fn fs : se_total (@process_line M SM cfg fp fn fs).
Proof.
  unfold process_line. destruct (_ || _); [auto with jt|].
  destruct (class_match _ _) as [[g1 p4]|]; [apply class_line_total|apply run_braces_total].
Qed.

(** The pass over a line never grows the unread input. *)
Lemma class_line_stream cfg fp fn fs g1 p4 :
  se_triple (on_data (fun _ => True)) (on_data (fun _ => True)) (@class_line M SM cfg fp fn fs g1 p4)
    (fun fs' _ => length (buf (fs_in fs')) <= length (buf (fs_in fs))).
Proof.
  unfold class_line. destruct (end_of_decl (fs_line fs)) as [endIdx endChar].
  destruct (Ascii.eqb endChar semi); [apply se_triple_ret; auto|].
  se_pure_step. se_pure_step.
  destruct (_ || _).
  2: { eapply se_triple_conseq; [apply se_triple_run_braces|]. intros x _ [_ ->]. simpl. lia. }
  se_pure_step.
  apply (se_triple_bind _ _ (fun _ => on_data (fun _ => True))); [apply se_triple_on; auto|intros crel].
  apply (se_triple_bind _ _ (fun more => on_data (fun _ => length (buf (snd (fst more))) <= length (buf (fs_in fs))))).
  { destruct (negb _); [|apply se_triple_ret; unfold on_data; simpl; lia].
    destruct (more_loop_total (S (length (buf (fs_in fs)))) (fs_reader fs) (fs_in fs) [] (fs_line fs))
      as [x [Ex Hx]]; [lia|].
    intros g g' r _ _ E. unfold se_opt in E. rewrite Ex in E. inv E. split; [exact I|].
    intros [[rd ins] l] ->. unfold on_data; simpl. eapply Hx. reflexivity. }
  intros [[rd ins] line']. cbn [fst snd]. se_pure_step. se_pure_step.
  apply (se_triple_bind _ _ (fun _ => on_data (fun _ => length (buf ins) <= length (buf (fs_in fs))))).
  { apply se_triple_on_update. auto. }
  intros _. eapply se_triple_conseq; [apply se_triple_run_braces|]. intros x _ [H ->]. exact H.
Qed.

Lemma process_line_stream cfg fp fn fs :
  se_triple (on_data (fun _ => True)) (on_data (fun _ => True)) (@process_line M SM cfg fp fn fs)
    (fun fs' _ => length (buf (fs_in fs')) <= length (buf (fs_in fs))).
Proof.
  unfold process_line. destruct (_ || _); [apply se_triple_ret; auto|].
  destruct (class_match _ _) as [[g1 p4]|]; [apply class_line_stream|].
  eapply se_triple_conseq; [apply se_triple_run_braces|]. intros x _ [_ ->]. auto.
Qed.

Lemma file_loop_total cfg fp fn fuel : forall fs,
  length (buf (fs_in fs)) < fuel -> se_total (@file_loop M SM fuel cfg fp fn fs).
Proof.
  induction fuel as [|f IH]; intros fs Hf g; [lia|]. cbn [file_loop]. unfold se_bind at 1, se_lift.
  destruct (getJavaline _ _ _) as [r|e] eqn:E; [|discriminate].
  destruct (JavaReaderFacts.getJavaline_buf _ _ _ _ E) as [_ Hlt].
  destruct (rd_good r) eqn:Hg; [|discriminate]. specialize (Hlt eq_refl).
  unfold se_bind. set (fs1 := mkFS _ _ _ _ _ _).
  destruct (process_line cfg fp fn fs1 g) as [[g' [fs2|e]]|] eqn:Ep; [|discriminate|].
  - destruct (process_line_stream cfg fp fn fs1 g g' (Ok fs2) I I Ep) as [_ Hs].
    specialize (Hs fs2 eq_refl). apply IH. simpl in Hs. lia.
  - destruct (process_line_total cfg fp fn fs1 g Ep).
Qed.

End PassFacts.

(** C5: [FindClassDefsInFile] terminates on every file: the fuel given to
    its line loop (one more than the number of bytes) and to the
    continuation loop is always enough, because every good
    [getJavaline] consumes at least one byte. *)
Theorem FindClassDefsInFile_total {M} `{SM : StrMap M} cfg filepath file (g : @Graph M) :
  FindClassDefsInFile cfg filepath file g <> None.
Proof.
  unfold FindClassDefsInFile. destruct (negb _); [discriminate|].
  destruct file as [contents|]; [|discriminate].
  match goal with |- match ?b (g, []) with _ => _ end <> None =>
    assert (Hb : b (g, []) <> None); [|destruct (b (g, [])) as [[[g' w] [x|e]]|]; congruence] end.
  unfold class_pass. apply se_total_bind; [auto with jt|]. intros cn. apply file_loop_total. simpl. lia.
Qed.

(** *** The class graph stays sound *)

Section Invariant.
Context {M : Type -> Type} `{SM : StrMap M} `{SML : @StrMapLaws M SM}.
Import GraphFacts.

Lemma addrs_add_parent (g : @Graph M) pChild name file :
  graph_ok g -> incl (addrs g) (addrs (add_parent g pChild name file)).
Proof.
  intros Hok. unfold add_parent.
  destruct (graph_ok_AddClass g name [] file Hok) as [_ [_ Hincl]].
  destruct (AddClass g name [] file) as [g1 pSuper]. simpl in *.
  rewrite !addrs_hmodify. exact Hincl.
Qed.

Lemma addrs_add_new_interface (g : @Graph M) crel token :
  incl (addrs g) (addrs (add_new_interface g crel token)).
Proof.
  rewrite add_new_interface_eq, addrs_hmodify, addrs_halloc. intros a Ha. apply in_or_app. auto.
Qed.

Lemma parent_tokens_inv crel toks : forall mt (g : @Graph M),
  graph_inv g -> In crel (addrs g) -> graph_inv (parent_tokens crel mt toks g) /\
  In crel (addrs (parent_tokens crel mt toks g)).
Proof.
  unfold graph_inv.
  induction toks as [|t ts IH]; intros mt g [Hok Hp] Hc; cbn [parent_tokens]; [split; [split|]; auto|].
  destruct (t =s? $"extends"); [apply IH; [split|]; auto|].
  destruct (t =s? $"implements"); [apply IH; [split|]; auto|].
  destruct mt as [|[|[|mt]]]; apply IH; try (split; auto; fail); auto.
  - split; [apply graph_ok_add_parent|apply paired_add_parent]; auto.
  - apply addrs_add_parent; auto.
  - split; [apply graph_ok_add_new_interface|apply paired_add_new_interface]; auto.
  - apply addrs_add_new_interface; auto.
Qed.

Lemma se_triple_run_braces_inv fp fs (P : @Graph M -> Prop) :
  se_triple (on_data graph_inv) (on_data P) (run_braces fp fs) (fun _ _ => True).
Proof. eapply se_triple_conseq; [apply se_triple_run_braces|]. auto. Qed.

Lemma class_line_inv cfg fp fn fs g1 p4 :
  se_triple (on_data graph_inv) (on_data (fun _ => True)) (@class_line M SM cfg fp fn fs g1 p4)
    (fun _ _ => True).
Proof.
  unfold class_line. destruct (end_of_decl (fs_line fs)) as [endIdx endChar].
  destruct (Ascii.eqb endChar semi); [apply se_triple_ret; auto|].
  se_pure_step. se_pure_step.
  destruct (_ || _); [|apply se_triple_run_braces_inv].
  se_pure_step.
  apply (se_triple_bind _ _ (fun crel => on_data (fun g => In crel (addrs g)))).
  { apply se_triple_on. intros g [Hok Hp] _.
    destruct (graph_ok_AddClass g (fst (MakeFullClassName (fs_classNames fs) (hd [] a0))) g1 fn Hok)
      as [Hok1 [Hreg _]].
    unfold graph_inv. refine (conj (conj Hok1 (paired_AddClass _ _ _ _ Hok Hp)) _).
    destruct Hok1 as [_ [_ [Hr _]]]. destruct (Hr _ _ Hreg) as [n [Hn _]]. eapply hget_in; eauto. }
  intros crel. apply se_triple_pure.
  { destruct (negb _); auto with jt. }
  intros [[rd ins] line']. cbn [fst snd]. se_pure_step. se_pure_step.
  apply (se_triple_bind _ _ (fun _ => on_data (fun _ => True))).
  { apply se_triple_on_update. intros g Hi Hc. split; [apply parent_tokens_inv; auto|auto]. }
  intros _. apply se_triple_run_braces_inv.
Qed.

Lemma process_line_inv cfg fp fn fs :
  se_triple (on_data graph_inv) (on_data (fun _ => True)) (@process_line M SM cfg fp fn fs)
    (fun _ _ => True).
Proof.
  unfold process_line. destruct (_ || _); [apply se_triple_ret; auto|].
  destruct (class_match _ _) as [[g1 p4]|]; [apply class_line_inv|apply se_triple_run_braces_inv].
Qed.

Lemma file_loop_inv cfg fp fn fuel : forall fs,
  se_triple (on_data graph_inv) (on_data (fun _ => True)) (@file_loop M SM fuel cfg fp fn fs)
    (fun _ _ => True).
Proof.
  induction fuel as [|f IH]; intros fs; cbn [file_loop]; [intros g g' r _ _ E; discriminate|].
  se_pure_step. destruct (rd_good _); [|apply se_triple_ret; auto].
  apply (se_triple_bind _ _ (fun _ => on_data (fun _ => True))); [|intros fs2; apply IH].
  eapply se_triple_conseq; [apply process_line_inv|]. intros ? ? ?. exact I.
Qed.

End Invariant.

(** One file pass, with the class graph invariant as pre- and
    postcondition. *)
Lemma FindClassDefsInFile_graph_inv {M} `{SML : StrMapLaws M} cfg filepath file
      (g g' : @Graph M) b :
  graph_inv g -> FindClassDefsInFile cfg filepath file g = Some (g', b) -> graph_inv g'.
Proof.
  intros [Hok Hp]. unfold FindClassDefsInFile.
  destruct (negb _); [intros E; inv E; split; auto|].
  destruct file as [contents|]; [|intros E; inv E; split; auto].
  match goal with |- match ?m (g, []) with _ => _ end = _ -> _ =>
    assert (Hm : se_triple (on_data graph_inv) (on_data (fun _ => True)) m (fun _ _ => True));
    [|destruct (m (g, [])) as [[[g1 w] r]|] eqn:E; [|discriminate];
      destruct (Hm (g, []) (g1, w) r (conj Hok Hp) I E) as [Hi _];
      destruct r; intros Eq; inv Eq; exact Hi] end.
  unfold class_pass. se_pure_step. apply file_loop_inv.
Qed.

(** C3: one file pass keeps the class graph sound: every registered name
    leads to an allocated node of that name, every edge chain is well
    formed, duplicate-free and points to allocated nodes, and parent and
    child edges come in pairs, whether the pass returns [true], [false],
    or stopped on a caught exception. *)
Theorem FindClassDefsInFile_sound {M} `{SML : StrMapLaws M} cfg filepath file
        (g g' : @Graph M) b :
  graph_ok g -> paired g -> FindClassDefsInFile cfg filepath file g = Some (g', b) ->
  graph_ok g' /\ paired g'.
Proof.
  intros Hok Hp E. exact (FindClassDefsInFile_graph_inv cfg filepath file g g' b (conj Hok Hp) E).
Qed.

(** *** What the pass writes to [cerr] *)




Section LogSteps.
Context {G : Type}.
Variable fp : lstring.




End LogSteps.



Section PassLog.
Context {M : Type -> Type} `{SM : StrMap M}.




End PassLog.


(** *** Brace tracking *)

Lemma vec_resize_ok (n : Z) v :
  (n <= vector_max_size)%Z -> Z.to_nat n <= length v -> vec_resize n v = Ok (firstn (Z.to_nat n) v).
Proof.
  intros H1 H2. unfold vec_resize. destruct (Z.ltb_spec vector_max_size n); [lia|].
  replace (Z.to_nat n - length v) with 0 by lia. rewrite app_nil_r. reflexivity.
Qed.

Lemma vec_resize_negative d v :
  (d < 0)%Z -> (- 2 ^ 31 <= d)%Z -> vec_resize (size_of_int d) v = Throw LengthError.
Proof.
  intros H1 H2. unfold vec_resize, size_of_int, vector_max_size.
  rewrite Z.mod_eq by lia. replace (d / 2 ^ 64)%Z with (-1)%Z.
  - destruct (Z.ltb_spec (2 ^ 58 - 1) (d - 2 ^ 64 * -1)); [reflexivity|lia].
  - apply Z.div_unique with (d + 2 ^ 64)%Z; lia.
Qed.

(** The result of the brace loop, leaving out what it writes. *)
Lemma braces_snd fp c cs d v cn :
  snd (braces fp (c :: cs) d v cn) =
  if Ascii.eqb c lbrace then
    let* v' := vec_resize (size_of_int d) v in snd (braces fp cs (d + 1) (v' ++ [cn]) cn)
  else if Ascii.eqb c rbrace then
    if (d - 1 <? 0)%Z then snd (braces fp cs (d - 1) v cn)
    else let* v' := vec_resize (size_of_int (d - 1)) v in snd (braces fp cs (d - 1) v' cn)
  else snd (braces fp cs d v cn).
Proof.
  cbn [braces]. destruct (Ascii.eqb c lbrace); [destruct (vec_resize _ _); reflexivity|].
  destruct (Ascii.eqb c rbrace); [|reflexivity].
  destruct (_ <? _)%Z; [reflexivity|destruct (vec_resize _ _); reflexivity].
Qed.

(** C17: [classNames] holds one name per open brace: whenever [depth] is
    not negative, [classNames] has exactly [depth] entries, so the
    [resize] calls only ever cut it; the hypotheses keep [depth] within
    the range of an [int]. *)
Theorem braces_depth fp cs : forall d v cn d' v',
  (- 2 ^ 31 <= d - Z.of_nat (length cs))%Z -> (d + Z.of_nat (length cs) < 2 ^ 31)%Z ->
  ((0 <= d)%Z -> length v = Z.to_nat d) ->
  snd (braces fp cs d v cn) = Ok (d', v') ->
  (0 <= d')%Z -> length v' = Z.to_nat d'.
Proof.
  induction cs as [|c cs IH]; intros d v cn d' v' Hlo Hhi Hinv E;
    [cbn [braces snd] in E; inv E; auto|rewrite braces_snd in E]; cbn [length] in *.
  destruct (Ascii.eqb c lbrace).
  - destruct (Z.ltb_spec d 0) as [Hneg|Hpos].
    + rewrite vec_resize_negative in E by lia. discriminate.
    + rewrite size_of_int_small in E by lia.
      rewrite vec_resize_ok in E by (unfold vector_max_size; lia || (rewrite Hinv; lia)).
      cbn [rbind] in E.
      intros Hd'. eapply IH; [| |intros _|exact E|exact Hd']; [lia|lia|].
      rewrite length_app, length_firstn, Hinv by lia. simpl. lia.
  - destruct (Ascii.eqb c rbrace).
    + destruct (Z.ltb_spec (d - 1) 0).
      * intros Hd'. eapply IH; [| | |exact E|exact Hd']; lia.
      * rewrite size_of_int_small in E by lia.
        rewrite vec_resize_ok in E by (unfold vector_max_size; lia || (rewrite Hinv; lia)).
        cbn [rbind] in E.
        intros Hd'. eapply IH; [| |intros _|exact E|exact Hd']; [lia|lia|].
        rewrite length_firstn, Hinv by lia. lia.
    + intros Hd'. eapply IH; [| | |exact E|exact Hd']; [lia|lia|auto].
Qed.

(** C18: once a [}] has no matching [{] ([depth] negative), the next [{]
    of the line makes [classNames.resize(depth)] throw
    [std::length_error]: the negative [int] converts to a [size_t] near
    [2^64]. *)
Theorem braces_negative_throws fp cs : forall d v cn,
  (d < 0)%Z -> (- 2 ^ 31 <= d - Z.of_nat (length cs))%Z -> In lbrace cs ->
  snd (braces fp cs d v cn) = Throw LengthError.
Proof.
  induction cs as [|c cs IH]; intros d v cn Hd Hlo Hin; [destruct Hin|]. cbn [length] in Hlo.
  rewrite braces_snd. destruct (Ascii.eqb_spec c lbrace) as [->|Hc].
  - rewrite vec_resize_negative by lia. reflexivity.
  - destruct Hin as [->|Hin]; [congruence|].
    destruct (Ascii.eqb c rbrace); [destruct (Z.ltb_spec (d - 1) 0); [|lia]|]; apply IH; auto; lia.
Qed.

(** *** Witnesses *)

Lemma FindClassDefsInFile_sound_witness :
  match @FindClassDefsInFile SortedMap _ (mkConfig false false) ($"src/A.java")
          (Some ($"public class A extends B {" ++ [newline])) empty_graph with
  | Some (g', _) => graph_ok g' /\ paired g'
  | None => False
  end.
Proof.
  pose proof (FindClassDefsInFile_sound (mkConfig false false) ($"src/A.java")
                (Some ($"public class A extends B {" ++ [newline])) empty_graph) as H.
  destruct (FindClassDefsInFile _ _ _ _) as [[g' b]|] eqn:E; [|vm_compute in E; discriminate].
  apply (H g' b); [apply GraphFacts.graph_ok_empty|apply GraphFacts.paired_empty|reflexivity].
Defined.

Lemma braces_depth_witness :
  snd (braces ($"src/A.java") ($"{{}") 0 [] ($"A")) = Ok (1%Z, [$"A"]) /\ length [$"A"] = Z.to_nat 1.
Proof.
  split; [vm_compute; reflexivity|].
  apply (braces_depth ($"src/A.java") ($"{{}") 0 [] ($"A") 1 [$"A"]);
    [cbn; lia|cbn; lia|intros _; reflexivity|vm_compute; reflexivity|lia].
Defined.

Lemma braces_negative_throws_witness :
  snd (braces ($"src/A.java") ($"x{") (-1) [] ($"A")) = Throw LengthError.
Proof. apply braces_negative_throws; [lia|cbn; lia|right; left; reflexivity]. Defined.

End ExtractorFacts.

(** ** Whole-file examples *)

Module ExtractorExamples.
Import Extractor ExtractorFacts.
Import ExtractorRuns.

(** End to end on one declaration: [FindClassDefsInFile] registers
    the class with its superclass as parent (and itself as the
    superclass's child) and both interfaces in source order, and returns
    [true]. *)
Example extract_declaration :
  option_map snd (run pub ($"src/A.java") decl_A empty_graph) = Some true /\
  view (run pub ($"src/A.java") decl_A empty_graph) ($"A")
    = Some ([$"B"], [], [$"I1"; $"I2"]) /\
  view (run pub ($"src/A.java") decl_A empty_graph) ($"B") = Some ([], [$"A"], []).
Proof. vm_compute. repeat split. Qed.

(** A block comment followed on the same line by a line comment is not
    removed ([getJavaline_block_then_line_comment]), so its words are
    parsed as the declaration: the class gets
    the parents [B] and [*/]; the stale span then makes the next
    [getJavaline] at the end of the file throw, and the pass returns
    [false]. *)
Example extract_comment_then_line_comment :
  let r := run pub ($"src/A.java") [$"public class A /* extends B */ { // c"] empty_graph in
  option_map snd r = Some false /\ view r ($"A") = Some ([$"B"; $"*/"], [], []).
Proof. vm_compute. split; reflexivity. Qed.

(** A [}] too many writes a brace error, and the [{] after it makes
    [resize] throw: the pass writes both reports and returns [false]. *)
Example extract_unmatched_brace :
  option_map snd (run pub ($"src/A.java") unmatched_A empty_graph) = Some false /\
  @FindClassDefsInFile_cerr SortedMap _ pub ($"src/A.java") (Some (text unmatched_A)) empty_graph
    = brace_error ($"src/A.java") ++ parsing_error ($"src/A.java").
Proof. vm_compute. split; reflexivity. Qed.


(** Reading the same file twice adds every interface again: each
    [implements] entry allocates a fresh node that is never registered,
    so the duplicate check of [add_linkage_to] cannot see it, while the
    parent edge stays single. *)
Example extract_twice_duplicates_interfaces :
  let g1 := match run pub ($"src/A.java") decl_A empty_graph with Some (g, _) => g | None => empty_graph end in
  view (run pub ($"src/A.java") decl_A g1) ($"A")
    = Some ([$"B"], [], [$"I1"; $"I2"; $"I1"; $"I2"]).
Proof. vm_compute. reflexivity. Qed.

End ExtractorExamples.
