(* ===== verification/Tabular.v ===== *)
(** * Tabular: [TabularListOfInFile] and [outputHtmlTableList]

    [src/javatree/javatree.cpp] holds a second copy of the per-file pass,
    [TabularListOfInFile], used with the tabular option: it matches the
    same class lines, but records a [TableItem] in the global [tableList]
    instead of changing the class graph, also tracks the [package]
    declaration, and checks the extension with [strstr] only.  It is
    modelled here as the source writes it, next to the model of
    [FindClassDefsInFile] in [Extractor.v], from whose helpers it is built;
    [outputHtmlTableList] prints the collected table.

    The facts relate the two passes by a lockstep simulation: on a path
    that [hasExtension] accepts, both return the same result and every
    row the table gains names a class that [FindClassDefsInFile]
    registered in [clist]. *)

From Stdlib Require Import Ascii String List Lia ZArith Bool.
From S2P Require Import Prelude JavaReader Registry ClassRel ClassRegex Extractor.
Import ListNotations.
Open Scope jt_scope.
Open Scope se_scope.
Import JavaReader ClassRel ClassRegex Extractor.

Module Tabular.

(** [struct TableItem]. *)
Record TableItem := mkTableItem {
  package : lstring;
  className : lstring;
  fullClassName : lstring;
  modifier : lstring;
  filename : lstring }.

(** [[A-Za-z0-9_.]]. *)
Definition is_pkg_char (c : ascii) : bool :=
  let n := nat_of_ascii c in
  is_alpha c || ((48 <=? n) && (n <=? 57)) || Nat.eqb n 95 || Nat.eqb n 46.

(** [std::regex_match(line, matchs, package_p)] with
    [package_p = "package[ \t]+([A-Za-z0-9_.]+);"]: group 1 when the
    whole line matches. *)
Definition package_match (line : lstring) : option lstring :=
  if starts_with $"package" line then
    let r := skipn 7 line in
    let w := span_blank r in
    match rev (skipn w r) with
    | c :: rg =>
        let grp := rev rg in
        if negb (w =? 0) && Ascii.eqb c semi && negb (length grp =? 0) && forallb is_pkg_char grp
        then Some grp else None
    | [] => None
    end
  else None.

(** [strstr(filepath, ".java") == NULL] is false. *)
Definition has_java (filepath : lstring) : bool :=
  match find_in $".java" filepath 0 with Some _ => true | None => false end.

(** The body of the class branch of [TabularListOfInFile] and the brace
    loop after it; [pkg] is [packageName]. *)
Definition tab_class_line (cfg : Config) (filepath fname pkg : lstring) (fs : FileState) (g1 : lstring)
           (p4 : nat) : SE (list TableItem * lstring) FileState :=
  let line := fs_line fs in
  let '(endIdx, endChar) := end_of_decl line in
  if Ascii.eqb endChar semi then se_ret fs
  else
    rc <- se_lift (str_resize (size_sub endIdx p4) (skipn p4 line)) ;;
    let rightClass := squeeze (replace_tabs rc) in
    pieces <- se_lift (split_words rightClass $" ") ;;
    let cn := hd [] pieces in
    if allClasses cfg || match str_find $"public" g1 0 with Some _ => true | None => false end then
      let full := MakeFullClassName (fs_classNames fs) cn in
      _ <- cerr_write (snd full) ;;
      _ <- se_on_update (fun t => t ++ [mkTableItem pkg cn (fst full) g1 fname]) ;;
      more <- (if negb (Ascii.eqb endChar lbrace)
               then se_opt (more_loop (S (length (buf (fs_in fs)))) (fs_reader fs) (fs_in fs) [] line)
               else se_ret (fs_reader fs, fs_in fs, line)) ;;
      parents <- se_lift (str_substr (Z.of_nat (length cn)) npos rightClass) ;;
      toks <- se_lift (split_words (squeeze parents) $", ") ;;
      let '(rd, ins, line') := more in
      run_braces filepath (mkFS rd ins line' (fs_depth fs) (fs_classNames fs) cn)
    else run_braces filepath (mkFS (fs_reader fs) (fs_in fs) line (fs_depth fs) (fs_classNames fs) cn).

(** One iteration of the [while] body after a good [getJavaline]: a
    [package] line sets [packageName], a class line goes through
    [tab_class_line]; both then run the brace loop. *)
Definition tab_process_line (cfg : Config) (filepath fname : lstring) (fs : FileState) (pkg : lstring)
  : SE (list TableItem * lstring) (FileState * lstring) :=
  let line := fs_line fs in
  if (4096 <=? length line) || (length line =? 0) then se_ret (fs, pkg)
  else match package_match line with
       | Some p => fs' <- run_braces filepath fs ;; se_ret (fs', p)
       | None =>
           match class_match (class_keywords (allClasses cfg)) line with
           | Some (g1, p4) => fs' <- tab_class_line cfg filepath fname pkg fs g1 p4 ;; se_ret (fs', pkg)
           | None => fs' <- run_braces filepath fs ;; se_ret (fs', pkg)
           end
       end.

(** [while (reader.getJavaline(in, line).good()) { ... }]. *)
Fixpoint tab_file_loop (fuel : nat) (cfg : Config) (filepath fname : lstring) (fs : FileState)
         (pkg : lstring) : SE (list TableItem * lstring) (FileState * lstring) :=
  match fuel with
  | O => fun _ => None
  | S f =>
      r <- se_lift (getJavaline (fs_reader fs) (fs_in fs) (fs_line fs)) ;;
      let fs1 := mkFS (rd_state r) (rd_stream r) (rd_line r)
                      (fs_depth fs) (fs_classNames fs) (fs_class_name fs) in
      if rd_good r then
        p <- tab_process_line cfg filepath fname fs1 pkg ;;
        tab_file_loop f cfg filepath fname (fst p) (snd p)
      else se_ret (fs1, pkg)
  end.

(** The body of the [try] block of [TabularListOfInFile] once the file
    is open. *)
Definition tab_pass (cfg : Config) (filepath contents : lstring)
  : SE (list TableItem * lstring) (FileState * lstring) :=
  cn <- se_lift (initial_class_name filepath) ;;
  tab_file_loop (S (length contents)) cfg filepath (file_label cfg filepath)
                (mkFS init_reader (open_stream contents) [] 0 [] cn) [].

(** [TabularListOfInFile(filepath)] on a file whose bytes are [file]
    ([None] when it cannot be opened): [tableList] after the call and the
    returned [bool]. *)
Definition TabularListOfInFile (cfg : Config) (filepath : lstring) (file : option lstring)
           (tableList : list TableItem) : option (list TableItem * bool) :=
  if negb (has_java filepath) then Some (tableList, false)
  else match file with
       | None => Some (tableList, false)
       | Some contents =>
           match tab_pass cfg filepath contents (tableList, []) with
           | None => None
           | Some ((t', _), Ok _) => Some (t', true)
           | Some ((t', _), Throw _) => Some (t', false)
           end
       end.

(** What [TabularListOfInFile] writes to [cerr]: as for
    [FindClassDefsInFile], the brace errors and [Bad class] reports of
    the lines read, then the report of a caught exception. *)
Definition TabularListOfInFile_cerr (cfg : Config) (filepath : lstring) (file : option lstring)
           (tableList : list TableItem) : lstring :=
  if negb (has_java filepath) then []
  else match file with
       | None => unable_to_open filepath
       | Some contents =>
           match tab_pass cfg filepath contents (tableList, []) with
           | Some ((_, w), Ok _) => w
           | Some ((_, w), Throw _) => w ++ parsing_error filepath
           | None => []
           end
       end.

(** [outputHtmlTableList()]; [now] is the text [ctime] returns. *)
Definition outputHtmlTableList (now : lstring) (tableList : list TableItem) : lstring :=
  let nl := [newline] in
  $"<table id='gradient-style' summary='display' ellspacing='0' width='100%'  >" ++ nl
  ++ $"<thead>" ++ nl ++ $"<tr>" ++ nl
  ++ $"<th scope='col'>Pakcage</th> " ++ nl
  ++ $"<th scope='col'>FullClassName</th> " ++ nl
  ++ $"<th scope='col'>ClassName</th> " ++ nl
  ++ $"<th scope='col'>Modifiers</th> " ++ nl
  ++ $"<th scope='col'>Filename</th> " ++ nl
  ++ $"</tr>" ++ nl ++ $"</thead>" ++ nl ++ $"<tfoot>" ++ nl ++ $"<tr>" ++ nl
  ++ $"<td colspan='5'>Class List by Dennis Lang " ++ now ++ $"</td> " ++ nl
  ++ $"</tr> " ++ nl ++ $"</tfoot> " ++ nl ++ $"<tbody>" ++ nl
  ++ flat_map (fun item => $"<tr>" ++ $" <td>" ++ package item ++ $" <td>" ++ fullClassName item
                          ++ $" <td>" ++ className item ++ $" <td>" ++ modifier item
                          ++ $" <td>" ++ filename item ++ nl) tableList
  ++ $"</tbody>" ++ nl ++ $"</table>" ++ nl.

End Tabular.

(** A file with a [package] line, and the tabular pass on it. *)
Module TabularRuns.
Import Tabular ExtractorRuns.

Definition pkg_A : list lstring :=
  [$"package com.x;"; $"public class A extends B {"; $"  static class C {"; $"  }"; $"}"].

Definition tab_run (path : lstring) (ls : list lstring) : option (list TableItem * bool) :=
  TabularListOfInFile pub path (Some (text ls)) [].

End TabularRuns.

Module TabularFacts.
Import Tabular ExtractorFacts.

(** ** Registration in [clist] *)

(** [g'] keeps [clist] well formed and every name [g] registered. *)
Definition grows {M} `{StrMap M} (g g' : @Graph M) : Prop :=
  mwf (clist g') /\ forall k, mfind k (clist g) <> None -> mfind k (clist g') <> None.

(** A table row names a class registered in [clist]. *)
Definition registered {M} `{StrMap M} (g : @Graph M) (it : TableItem) : Prop :=
  mfind (fullClassName it) (clist g) <> None.

(** Two pass states whose data are related by [P] and that wrote the
    same text to [cerr]. *)
Definition same_log {G1 G2} (P : G1 -> G2 -> Prop) : G1 * lstring -> G2 * lstring -> Prop :=
  fun s1 s2 => P (fst s1) (fst s2) /\ snd s1 = snd s2.

(** The graph [g] of [FindClassDefsInFile] and the table [t] of
    [TabularListOfInFile]: [t] is [t0] followed by rows that all name
    registered classes. *)
Definition reg_rel {M} `{StrMap M} (t0 : list TableItem) (g : @Graph M) (t : list TableItem) : Prop :=
  mwf (clist g) /\ exists rows, t = t0 ++ rows /\ Forall (registered g) rows.

(** ** Relational reasoning on two [SE] computations *)

Section SERel.
Context {S1 S2 : Type}.

(** From states related by [P], [m1] and [m2] both return (related by
    [Q]), both throw the same exception (states related by [E]), or both
    run out of fuel. *)
Definition se_rel {A1 A2} (P : S1 -> S2 -> Prop) (m1 : SE S1 A1) (m2 : SE S2 A2)
           (Q : A1 -> A2 -> S1 -> S2 -> Prop) (E : S1 -> S2 -> Prop) : Prop :=
  forall s1 s2, P s1 s2 ->
    match m1 s1, m2 s2 with
    | Some (s1', Ok a1), Some (s2', Ok a2) => Q a1 a2 s1' s2'
    | Some (s1', Throw e1), Some (s2', Throw e2) => e1 = e2 /\ E s1' s2'
    | None, None => True
    | _, _ => False
    end.

Lemma se_rel_bind {A1 A2 B1 B2} P Q R E (m1 : SE S1 A1) (m2 : SE S2 A2)
      (k1 : A1 -> SE S1 B1) (k2 : A2 -> SE S2 B2) :
  se_rel P m1 m2 Q E -> (forall a1 a2, se_rel (Q a1 a2) (k1 a1) (k2 a2) R E) ->
  se_rel P (se_bind m1 k1) (se_bind m2 k2) R E.
Proof.
  intros Hm Hk s1 s2 HP. specialize (Hm s1 s2 HP). unfold se_bind.
  destruct (m1 s1) as [[s1' [a1|e1]]|], (m2 s2) as [[s2' [a2|e2]]|]; try contradiction; auto.
  apply Hk. exact Hm.
Qed.

Lemma se_rel_lift {A} P Q E (r : result A) :
  (forall s1 s2, P s1 s2 -> E s1 s2 /\ forall a, r = Ok a -> Q a a s1 s2) ->
  se_rel P (se_lift r) (se_lift r) Q E.
Proof. intros H s1 s2 HP. destruct (H s1 s2 HP) as [HE HQ]. destruct r; simpl; auto. Qed.

Lemma se_rel_ret {A1 A2} P (Q : A1 -> A2 -> S1 -> S2 -> Prop) E a1 a2 :
  (forall s1 s2, P s1 s2 -> Q a1 a2 s1 s2) -> se_rel P (se_ret a1) (se_ret a2) Q E.
Proof. intros H s1 s2 HP. simpl. auto. Qed.

Lemma se_rel_opt {A} P Q E (o : option (result A)) :
  (forall s1 s2, P s1 s2 -> E s1 s2 /\ forall a, o = Some (Ok a) -> Q a a s1 s2) ->
  se_rel P (se_opt o) (se_opt o) Q E.
Proof. intros H s1 s2 HP. destruct (H s1 s2 HP) as [HE HQ]. unfold se_opt. destruct o as [[a|e]|]; auto. Qed.

Lemma se_rel_update_l {A1 A2} P P' Q E (f : S1 -> S1) (k : unit -> SE S1 A1) (m2 : SE S2 A2) :
  (forall s1 s2, P s1 s2 -> P' (f s1) s2) -> se_rel P' (k tt) m2 Q E ->
  se_rel P (se_bind (se_update f) k) m2 Q E.
Proof. intros Hf Hk s1 s2 HP. unfold se_bind, se_update. apply Hk. auto. Qed.

Lemma se_rel_conseq {A1 A2} P (Q Q' : A1 -> A2 -> S1 -> S2 -> Prop) E m1 m2 :
  se_rel P m1 m2 Q E -> (forall a1 a2 s1 s2, Q a1 a2 s1 s2 -> Q' a1 a2 s1 s2) -> se_rel P m1 m2 Q' E.
Proof.
  intros Hm HQ s1 s2 HP. specialize (Hm s1 s2 HP).
  destruct (m1 s1) as [[? [?|?]]|], (m2 s2) as [[? [?|?]]|]; auto.
Qed.

Lemma se_rel_pre {A1 A2} (H0 : Prop) P Q E (m1 : SE S1 A1) (m2 : SE S2 A2) :
  (H0 -> se_rel P m1 m2 Q E) -> se_rel (fun s1 s2 => H0 /\ P s1 s2) m1 m2 Q E.
Proof. intros H s1 s2 [H1 HP]. apply H; auto. Qed.

Lemma se_rel_bind_eq {A B1 B2} P P' R E (m1 : SE S1 A) (m2 : SE S2 A)
      (k1 : A -> SE S1 B1) (k2 : A -> SE S2 B2) :
  se_rel P m1 m2 (fun a1 a2 s1 s2 => a1 = a2 /\ P' s1 s2) E ->
  (forall a, se_rel P' (k1 a) (k2 a) R E) ->
  se_rel P (se_bind m1 k1) (se_bind m2 k2) R E.
Proof.
  intros Hm Hk. apply (se_rel_bind _ _ _ _ _ _ _ _ Hm). intros a1 a2.
  apply se_rel_pre. intros ->. apply Hk.
Qed.

Lemma se_rel_lift_eq {A} P E (r : result A) :
  (forall s1 s2, P s1 s2 -> E s1 s2) ->
  se_rel P (se_lift r) (se_lift r) (fun a1 a2 s1 s2 => a1 = a2 /\ P s1 s2) E.
Proof. intros HE. apply se_rel_lift. intros s1 s2 HP. split; auto. Qed.

Lemma se_rel_opt_eq {A} P E (o : option (result A)) :
  (forall s1 s2, P s1 s2 -> E s1 s2) ->
  se_rel P (se_opt o) (se_opt o) (fun a1 a2 s1 s2 => a1 = a2 /\ P s1 s2) E.
Proof. intros HE. apply se_rel_opt. intros s1 s2 HP. split; auto. Qed.

Lemma se_rel_map_r {A1 A2 B} P Q E (m1 : SE S1 A1) (m2 : SE S2 A2) (f : A2 -> B) :
  se_rel P m1 m2 Q E ->
  se_rel P m1 (se_bind m2 (fun x => se_ret (f x)))
         (fun a1 b s1 s2 => exists a2, b = f a2 /\ Q a1 a2 s1 s2) E.
Proof.
  intros Hm s1 s2 HP. specialize (Hm s1 s2 HP). unfold se_bind, se_ret.
  destruct (m1 s1) as [[? [a1|?]]|], (m2 s2) as [[? [a2|?]]|]; eauto.
Qed.

End SERel.

(** Steps of two passes on states of the form [(data, cerr)]. *)
Section SERelPass.
Context {G1 G2 : Type}.

Lemma se_rel_cerr_write (P : G1 -> G2 -> Prop) E msg :
  se_rel (same_log P) (cerr_write msg) (cerr_write msg) (fun _ _ => same_log P) E.
Proof. intros [g1 w1] [g2 w2] [HP Hw]. unfold cerr_write, se_update, same_log in *. cbn in *. subst w2. auto. Qed.

Lemma se_rel_on_update {A} (P P' : G1 -> G2 -> Prop) E (f1 : G1 -> G1 * A) (f2 : G2 -> G2) :
  (forall g1 g2, P g1 g2 -> P' (fst (f1 g1)) (f2 g2)) ->
  se_rel (same_log P) (se_on f1) (se_on_update f2) (fun _ _ => same_log P') E.
Proof.
  intros H [g1 w1] [g2 w2] [HP Hw]. unfold se_on, se_on_update, se_run, se_update, same_log in *.
  cbn in *. specialize (H g1 g2 HP). destruct (f1 g1). auto.
Qed.

Lemma se_rel_run_braces (P : G1 -> G2 -> Prop) fp fs :
  se_rel (same_log P) (run_braces fp fs) (run_braces fp fs)
         (fun a1 a2 s1 s2 => a1 = a2 /\ same_log P s1 s2) (same_log P).
Proof.
  unfold run_braces. cbv zeta.
  apply (se_rel_bind _ (fun _ _ => same_log P)); [apply se_rel_cerr_write|intros _ _].
  apply (se_rel_bind _ (fun a1 a2 s1 s2 => a1 = a2 /\ same_log P s1 s2)); [apply se_rel_lift; auto|].
  intros a1 a2. apply se_rel_ret. intros s1 s2 [-> HP]. auto.
Qed.

End SERelPass.

(** ** The package pattern never matches a class line *)

Lemma package_not_class b line p :
  package_match line = Some p -> class_match (class_keywords b) line = None.
Proof.
  unfold package_match. destruct (starts_with $"package" line) eqn:Hs; [|discriminate]. intros _.
  apply starts_with_spec in Hs as [r ->].
  destruct b; unfold class_match, class_keywords; cbn [span_blank is_blank skipn length app lstr
    list_ascii_of_string mods_loop Nat.add]; reflexivity.
Qed.

(** ** Registration facts *)

Section Registration.
Context {M : Type -> Type} `{SM : StrMap M} `{SML : @StrMapLaws M SM}.

Lemma grows_trans g1 g2 g3 : grows g1 g2 -> grows g2 g3 -> grows g1 g3.
Proof. intros [_ H1] [W H2]. split; auto. Qed.

Lemma grows_hmodify g a f : mwf (clist g) -> grows g (hmodify g a f).
Proof. intros W. split; auto. Qed.

Lemma AddClass_grows g k m f :
  mwf (clist g) -> grows g (fst (AddClass g k m f)) /\ mfind k (clist (fst (AddClass g k m f))) <> None.
Proof.
  intros W. unfold AddClass. destruct (mfind k (clist g)) eqn:E; cbn [fst clist hmodify halloc].
  - split; [apply grows_hmodify; auto|rewrite E; discriminate].
  - split; [split; [apply mwf_insert; auto|]|rewrite mfind_insert_new; auto; discriminate].
    intros k' Hk. destruct (list_eq_dec ascii_dec k k') as [<-|Hne]; [contradiction|].
    cbn [clist]. rewrite mfind_insert_other; auto.
Qed.

Lemma add_parent_grows g c n f : mwf (clist g) -> grows g (add_parent g c n f).
Proof.
  intros W. unfold add_parent. pose proof (AddClass_grows g n [] f W) as [[W1 H1] _].
  destruct (AddClass g n [] f) as [g1 a]. split; auto.
Qed.

Lemma add_new_interface_grows g c t : mwf (clist g) -> grows g (add_new_interface g c t).
Proof. intros W. split; auto. Qed.

Lemma parent_tokens_grows crel toks : forall mt g, mwf (clist g) -> grows g (parent_tokens crel mt toks g).
Proof.
  induction toks as [|t ts IH]; intros mt g W; cbn [parent_tokens]; [split; auto|].
  destruct (t =s? $"extends"); [auto|]. destruct (t =s? $"implements"); [auto|].
  destruct mt as [|[|[|mt]]]; auto.
  - pose proof (add_parent_grows g crel t $"_no_file_" W) as Hg.
    eapply grows_trans; [exact Hg|]. apply IH, Hg.
  - pose proof (add_new_interface_grows g crel t W) as Hg.
    eapply grows_trans; [exact Hg|]. apply IH, Hg.
Qed.

Lemma reg_rel_grows t0 g g' t : reg_rel t0 g t -> grows g g' -> reg_rel t0 g' t.
Proof.
  intros [W [rows [-> Hr]]] [W' Hg]. split; auto. exists rows. split; auto.
  eapply Forall_impl; [|exact Hr]. intros it. apply Hg.
Qed.

(** Registering [k] and appending a row named [k] keep the relation. *)
Lemma reg_rel_AddClass t0 g t k m f it :
  reg_rel t0 g t -> fullClassName it = k -> reg_rel t0 (fst (AddClass g k m f)) (t ++ [it]).
Proof.
  intros Hr Hk. destruct (AddClass_grows g k m f (proj1 Hr)) as [Hg Hin].
  destruct (reg_rel_grows _ _ _ _ Hr Hg) as [W [rows [-> Hrows]]].
  split; auto. exists (rows ++ [it]). rewrite app_assoc. split; auto.
  apply Forall_app. split; auto. constructor; [|constructor]. unfold registered. rewrite Hk. exact Hin.
Qed.

End Registration.

(** ** The two passes in lockstep *)

Section Lockstep.
Context {M : Type -> Type} `{SM : StrMap M} `{SML : @StrMapLaws M SM}.
Variable cfg : Config.
Variables fp fname : lstring.
Variable t0 : list TableItem.

Let R := same_log (reg_rel t0).

Lemma class_line_lockstep pkg fs g1 p4 :
  se_rel R (class_line cfg fp fname fs g1 p4) (tab_class_line cfg fp fname pkg fs g1 p4)
         (fun a1 a2 s1 s2 => a1 = a2 /\ R s1 s2) R.
Proof.
  unfold class_line, tab_class_line. destruct (end_of_decl (fs_line fs)) as [endIdx endChar].
  destruct (Ascii.eqb endChar semi); [apply se_rel_ret; auto|].
  apply (se_rel_bind_eq _ R); [apply se_rel_lift_eq; auto|intros rc].
  apply (se_rel_bind_eq _ R); [apply se_rel_lift_eq; auto|intros pieces].
  destruct (_ || _); [|apply se_rel_run_braces].
  cbv zeta. apply (se_rel_bind _ (fun _ _ => R)); [apply se_rel_cerr_write|intros u u'].
  apply (se_rel_bind _ (fun _ _ => R)).
  { apply se_rel_on_update. intros g t Hr. apply reg_rel_AddClass; auto. }
  intros crel u2.
  apply (se_rel_bind_eq _ R); [destruct (negb _); [apply se_rel_opt_eq|apply se_rel_ret]; auto|].
  intros [[rd ins] line'].
  apply (se_rel_bind_eq _ R); [apply se_rel_lift_eq; auto|intros parents].
  apply (se_rel_bind_eq _ R); [apply se_rel_lift_eq; auto|intros toks].
  apply (se_rel_update_l _ R).
  - intros [g w1] s2 [Hr Hw]. split; [|exact Hw]. cbn [fst] in *.
    apply (reg_rel_grows _ g); auto. apply parent_tokens_grows, (proj1 Hr).
  - apply se_rel_run_braces.
Qed.

Lemma process_line_lockstep fs pkg :
  se_rel R (process_line cfg fp fname fs) (tab_process_line cfg fp fname fs pkg)
         (fun fs1 p s1 s2 => fs1 = fst p /\ R s1 s2) R.
Proof.
  unfold process_line, tab_process_line. destruct (_ || _); [apply se_rel_ret; auto|].
  destruct (package_match (fs_line fs)) as [p|] eqn:Hp.
  - rewrite (package_not_class _ _ _ Hp).
    eapply se_rel_conseq; [apply se_rel_map_r, se_rel_run_braces|].
    intros a1 b s1 s2 [a2 [-> [-> Hr]]]. auto.
  - destruct (class_match _ _) as [[g1 p4]|];
      (eapply se_rel_conseq; [apply se_rel_map_r; try apply class_line_lockstep; apply se_rel_run_braces|]);
      intros a1 b s1 s2 [a2 [-> [-> Hr]]]; auto.
Qed.

Lemma file_loop_lockstep fuel : forall fs pkg,
  se_rel R (file_loop fuel cfg fp fname fs) (tab_file_loop fuel cfg fp fname fs pkg)
         (fun _ _ s1 s2 => R s1 s2) R.
Proof.
  induction fuel as [|f IH]; intros fs pkg; [intros s1 s2 _; exact I|]. cbn [file_loop tab_file_loop].
  apply (se_rel_bind_eq _ R); [apply se_rel_lift_eq; auto|intros r].
  destruct (rd_good r); [|apply se_rel_ret; auto].
  apply (se_rel_bind _ _ _ _ _ _ _ _ (process_line_lockstep _ _)). intros fs2 p.
  apply se_rel_pre. intros ->. apply IH.
Qed.

End Lockstep.

Lemma hasExtension_has_java filepath : hasExtension filepath $".java" = true -> has_java filepath = true.
Proof. unfold hasExtension, has_java. destruct (find_in _ _ _); easy. Qed.

(** C9: on a path [hasExtension] accepts, [TabularListOfInFile] follows
    [FindClassDefsInFile] step for step: both write the same text to
    [cerr], both run out of fuel together or both return the same
    [bool], and the rows the table gains all name classes that
    [FindClassDefsInFile] registered in [clist], also when an exception
    ended the pass. *)
Theorem TabularListOfInFile_agrees {M} `{SML : StrMapLaws M} cfg filepath file (g : @Graph M) t :
  mwf (clist g) -> hasExtension filepath $".java" = true ->
  TabularListOfInFile_cerr cfg filepath file t = FindClassDefsInFile_cerr cfg filepath file g /\
  match FindClassDefsInFile cfg filepath file g, TabularListOfInFile cfg filepath file t with
  | Some (g', b), Some (t', b') =>
      b = b' /\ exists rows, t' = t ++ rows /\ Forall (fun it => mfind (fullClassName it) (clist g') <> None) rows
  | None, None => True
  | _, _ => False
  end.
Proof.
  intros W Hx. unfold FindClassDefsInFile, TabularListOfInFile, FindClassDefsInFile_cerr,
    TabularListOfInFile_cerr, class_pass, tab_pass.
  rewrite Hx, (hasExtension_has_java _ Hx). cbn [negb].
  destruct file as [contents|]; [|split; [reflexivity|split; [reflexivity|exists []; rewrite app_nil_r; auto]]].
  pose proof (se_rel_bind_eq _ (same_log (reg_rel t)) (fun _ _ s1 s2 => same_log (reg_rel t) s1 s2)
                (same_log (reg_rel t)) _ _ _ _
                (se_rel_lift_eq _ _ (initial_class_name filepath) (fun _ _ h => h))
                (fun cn => file_loop_lockstep cfg filepath (file_label cfg filepath) t (S (length contents))
                             (mkFS init_reader (open_stream contents) [] 0 [] cn) []))
    as Hrel.
  specialize (Hrel (g, []) (t, []) (conj (conj W (ex_intro _ [] (conj (eq_sym (app_nil_r t)) (Forall_nil _)))) eq_refl)).
  cbv zeta.
  destruct (@se_bind (@Graph M * lstring) lstring FileState _ _ (g, [])) as [[[g' w] [?|?]]|],
    (@se_bind (list TableItem * lstring) lstring (FileState * lstring) _ _ (t, [])) as [[[t' w'] [?|?]]|];
    try contradiction; auto.
  - destruct Hrel as [[_ [rows [Ht Hr]]] Hw]. cbn [fst snd] in *. subst. eauto.
  - destruct Hrel as [_ [[_ [rows [Ht Hr]]] Hw]]. cbn [fst snd] in *. subst. eauto.
Qed.

End TabularFacts.

(** ** Tabular runs *)

Module TabularExamples.
Import Tabular TabularFacts TabularRuns ExtractorRuns.

(** [TabularListOfInFile] records one row per public class, with the
    package of the [package] line, the class name, the captured
    modifiers (with their trailing blank) and the file name; the
    package-private nested class [C] is left out. *)
Example tabular_row :
  tab_run ($"src/A.java") pkg_A
    = Some ([mkTableItem ($"com.x") ($"A") ($"A") ($"public ") ($"src/A.java")], true).
Proof. vm_compute. reflexivity. Qed.

(** The tabular pass checks the extension with [strstr] only, so
    [A.java.orig] is read and tabulated, while [FindClassDefsInFile]
    (through [hasExtension]) rejects the same file. *)
Example tabular_accepts_non_java :
  option_map snd (tab_run ($"src/A.java.orig") pkg_A) = Some true /\
  option_map snd (run pub ($"src/A.java.orig") pkg_A empty_graph) = Some false.
Proof. vm_compute. split; reflexivity. Qed.

Lemma TabularListOfInFile_agrees_witness :
  mwf (clist (@empty_graph SortedMap _)) /\ hasExtension ($"src/A.java") $".java" = true /\
  TabularListOfInFile_cerr pub ($"src/A.java") (Some (text pkg_A)) []
    = FindClassDefsInFile_cerr pub ($"src/A.java") (Some (text pkg_A)) (@empty_graph SortedMap _) /\
  match FindClassDefsInFile pub ($"src/A.java") (Some (text pkg_A)) empty_graph,
        TabularListOfInFile pub ($"src/A.java") (Some (text pkg_A)) [] with
  | Some (g', b), Some (t', b') =>
      b = b' /\ exists rows, t' = [] ++ rows /\ Forall (fun it => mfind (fullClassName it) (clist g') <> None) rows
  | None, None => True
  | _, _ => False
  end.
Proof.
  assert (W : mwf (clist (@empty_graph SortedMap _))) by apply mwf_empty.
  split; [exact W|split; [vm_compute; reflexivity|]].
  apply (TabularListOfInFile_agrees pub ($"src/A.java") (Some (text pkg_A)) empty_graph [] W).
  vm_compute. reflexivity.
Defined.

End TabularExamples.
