(* ===== verification/Imports.v ===== *)
(** * Imports: [FindImportPackageInFile], the [-I] mode

    With [importPackage] set, [FindClassDefinitions] calls
    [FindImportPackageInFile] of [src/javatree/javatree.cpp] on every
    file: it reads the comment-free lines through [JavaReader], matches
    [import_p = "(package|import) ([A-Za-z0-9_.]+);"], registers the
    package (modifier [package]) with the file (modifier [file]) as an
    interface of it, and for every [com.wsi.] import outside the package
    registers the imported name as a child of the package and of the
    file.  The locals [packageName] and [file_ptr] persist from line to
    line; [file_ptr] starts as [NULL], and the dereference
    [file_ptr->add_child] is an outcome of its own ([NullDeref]), which
    the facts show never happens. *)

From Stdlib Require Import Ascii String List Lia ZArith Bool.
From S2P Require Import Prelude JavaReader Registry ClassRel ClassRegex Extractor Tabular.
Import ListNotations.
Open Scope jt_scope.
Open Scope se_scope.
Import JavaReader ClassRel ClassRegex Extractor Tabular.

Module Imports.

Definition sPackageTag : lstring := $"package".
Definition sFileTag : lstring := $"file".

(** One alternative of [import_p]: the keyword, one space, the name and
    [;] ending the line. *)
Definition keyword_name (kw line : lstring) : option lstring :=
  if starts_with (kw ++ $" ") line then
    match rev (skipn (S (length kw)) line) with
    | c :: rg =>
        let grp := rev rg in
        if Ascii.eqb c semi && negb (length grp =? 0) && forallb is_pkg_char grp then Some grp else None
    | [] => None
    end
  else None.

(** [std::regex_match(line, matchs, import_p)]: [matchs[1] == "package"]
    and [matchs[2]]. *)
Definition import_match (line : lstring) : option (bool * lstring) :=
  match keyword_name sPackageTag line with
  | Some p => Some (true, p)
  | None => match keyword_name ($"import") line with
            | Some i => Some (false, i)
            | None => None
            end
  end.

(** The locals of the function that persist across lines. *)
Record ImpState := mkIS {
  is_reader : ReaderState;
  is_in : istream;
  is_line : lstring;
  packageName : lstring;
  file_ptr : option addr }.

(** The body of the loop ends normally or dereferences a [NULL]
    [file_ptr]. *)
Inductive ImpStep := Next (s : ImpState) | NullDeref.

(** [importName.find(prefix) == 0]. *)
Definition found_at_0 (prefix s : lstring) : bool :=
  match str_find prefix s 0 with Some 0 => true | _ => false end.

Section Pass.
Context {M : Type -> Type} `{SM : StrMap M}.

(** The body of [while (reader.getJavaline(in, line).good())]. *)
Definition import_line (filename : lstring) (s : ImpState) : SE (@Graph M) ImpStep :=
  let line := is_line s in
  if (4096 <=? length line) || (length line =? 0) then se_ret (Next s)
  else match import_match line with
       | None => se_ret (Next s)
       | Some (true, p) =>
           child <- se_run (fun g => AddClass g p sPackageTag []) ;;
           file <- se_run (fun g => AddClass g filename sFileTag p) ;;
           _ <- se_update (fun g => hmodify g child (add_interface_link file)) ;;
           se_ret (Next (mkIS (is_reader s) (is_in s) line p (Some file)))
       | Some (false, importName) =>
           if found_at_0 (packageName s) importName then se_ret (Next s)
           else if negb (found_at_0 ($"com.wsi.") importName) then se_ret (Next s)
           else
             child <- se_run (fun g => AddClass g importName (packageName s) filename) ;;
             _ <- se_update (fun g => add_parent g child (packageName s) filename) ;;
             match file_ptr s with
             | None => se_ret NullDeref
             | Some f =>
                 _ <- se_update (fun g => hmodify g f (add_child_link child)) ;;
                 se_ret (Next s)
             end
       end.

Fixpoint import_loop (fuel : nat) (filename : lstring) (s : ImpState) : SE (@Graph M) ImpStep :=
  match fuel with
  | O => fun _ => None
  | S f =>
      r <- se_lift (getJavaline (is_reader s) (is_in s) (is_line s)) ;;
      let s1 := mkIS (rd_state r) (rd_stream r) (rd_line r) (packageName s) (file_ptr s) in
      if rd_good r then
        st <- import_line filename s1 ;;
        match st with
        | Next s2 => import_loop f filename s2
        | NullDeref => se_ret NullDeref
        end
      else se_ret (Next s1)
  end.

(** What a call of [FindImportPackageInFile] ends with. *)
Inductive ImportResult :=
| IDone (g : @Graph M) (ok : bool)
| INullDeref (g : @Graph M).

(** [FindImportPackageInFile(filepath)] on a file whose bytes are
    [file] ([None] when it cannot be opened). *)
Definition FindImportPackageInFile (cfg : Config) (filepath : lstring) (file : option lstring)
           (g : @Graph M) : option ImportResult :=
  if negb (has_java filepath) then Some (IDone g false)
  else match file with
       | None => Some (IDone g false)
       | Some contents =>
           match import_loop (S (length contents)) (file_label cfg filepath)
                   (mkIS init_reader (open_stream contents) [] [] None) g with
           | None => None
           | Some (g', Ok (Next _)) => Some (IDone g' true)
           | Some (g', Ok NullDeref) => Some (INullDeref g')
           | Some (g', Throw _) => Some (IDone g' false)
           end
       end.

(** What [FindImportPackageInFile] writes to [cerr]. *)
Definition FindImportPackageInFile_cerr (cfg : Config) (filepath : lstring) (file : option lstring)
           (g : @Graph M) : lstring :=
  if negb (has_java filepath) then []
  else match file with
       | None => unable_to_open filepath
       | Some contents =>
           match import_loop (S (length contents)) (file_label cfg filepath)
                   (mkIS init_reader (open_stream contents) [] [] None) g with
           | Some (_, Throw _) => parsing_error filepath
           | _ => []
           end
       end.

End Pass.

End Imports.

(** A file with a [package] line and three imports, and the graph an
    [-I] pass builds from it. *)
Module ImportsRuns.
Import Imports ExtractorRuns.

Definition imp_src : list lstring :=
  [$"package com.wsi.app;"; $"import java.util.Map;"; $"import com.wsi.app.Util;"; $"import com.wsi.lib.Net;"].

Definition imp_graph : @Graph SortedMap :=
  match FindImportPackageInFile pub ($"src/A.java") (Some (text imp_src)) empty_graph with
  | Some (IDone g _) => g
  | _ => empty_graph
  end.

(** The state of the loop on the line [import com.wsi.lib.Net;] of a
    file [A.java] of the package [com.wsi.app], whose file node is the
    only node of the graph. *)
Definition imp_g0 : @Graph SortedMap :=
  fst (AddClass empty_graph ($"A.java") sFileTag ($"com.wsi.app")).

Definition imp_state : ImpState :=
  mkIS init_reader (open_stream []) ($"import com.wsi.lib.Net;") ($"com.wsi.app") (Some 0).

End ImportsRuns.

Module ImportsFacts.
Import Imports ExtractorFacts.

(** ** [file_ptr] is never dereferenced while [NULL] *)

(** No [package] line has been seen, or [file_ptr] is set. *)
Definition pkg_inv (s : ImpState) : Prop := packageName s = [] \/ file_ptr s <> None.

(** [file_ptr] (when set) points to an allocated node. *)
Definition allocated {M} `{StrMap M} (o : option addr) (g : @Graph M) : Prop :=
  forall f, o = Some f -> In f (addrs g).

(** [find("")] is [0]: every import is skipped before the first
    [package] line. *)
Lemma found_at_0_nil s : found_at_0 [] s = true.
Proof. unfold found_at_0, str_find. destruct s; reflexivity. Qed.

Section Safe.
Context {M : Type -> Type} `{SM : StrMap M}.

Lemma import_line_total fn s : se_total (@import_line M SM fn s).
Proof.
  unfold import_line. destruct (_ || _); [auto with jt|].
  destruct (import_match _) as [[[|] p]|]; [| |auto with jt].
  - repeat (apply se_total_bind; [auto with jt|intros ?]). auto with jt.
  - destruct (found_at_0 (packageName s) p); [auto with jt|]. destruct (negb _); [auto with jt|].
    repeat (apply se_total_bind; [auto with jt|intros ?]).
    destruct (file_ptr s); [|auto with jt]. apply se_total_bind; auto with jt.
Qed.

Lemma import_line_next fn s :
  pkg_inv s ->
  se_triple (fun _ => True) (fun _ => True) (@import_line M SM fn s)
            (fun st _ => exists s', st = Next s' /\ pkg_inv s' /\ is_in s' = is_in s).
Proof.
  intros Hinv. unfold import_line. destruct (_ || _); [apply se_triple_ret; eauto|].
  destruct (import_match _) as [[[|] p]|]; [| |apply se_triple_ret; eauto].
  - do 3 (apply (se_triple_bind _ _ (fun _ _ => True)); [first [apply se_triple_run|apply se_triple_update]; auto|intros ?]).
    apply se_triple_ret. intros _. eexists. split; [reflexivity|]. split; [right; discriminate|reflexivity].
  - pose proof Hinv as [Hp|Hf]; [rewrite Hp, found_at_0_nil; apply se_triple_ret; eauto|].
    destruct (found_at_0 (packageName s) p); [apply se_triple_ret; eauto|]. destruct (negb (found_at_0 _ p)); [apply se_triple_ret; eauto|].
    do 2 (apply (se_triple_bind _ _ (fun _ _ => True)); [first [apply se_triple_run|apply se_triple_update]; auto|intros ?]).
    destruct (file_ptr s) as [f|]; [|contradiction].
    apply (se_triple_bind _ _ (fun _ _ => True)); [apply se_triple_update; auto|intros ?].
    apply se_triple_ret. intros _. eauto.
Qed.

(** With fuel above the unread input, the loop returns and never ends
    in [NullDeref]. *)
Lemma import_loop_safe fn fuel : forall s (g : @Graph M),
  pkg_inv s -> length (buf (is_in s)) < fuel ->
  exists g' r, import_loop fuel fn s g = Some (g', r) /\ forall st, r = Ok st -> exists s', st = Next s'.
Proof.
  induction fuel as [|f IH]; intros s g Hinv Hf; [lia|]. cbn [import_loop]. unfold se_bind at 1, se_lift.
  destruct (getJavaline _ _ _) as [r|e] eqn:E; [|eexists; eexists; split; [reflexivity|discriminate]].
  destruct (JavaReaderFacts.getJavaline_buf _ _ _ _ E) as [_ Hlt].
  destruct (rd_good r) eqn:Hg; [|eexists; eexists; split; [reflexivity|intros st Hs; inv Hs; eauto]].
  specialize (Hlt eq_refl). unfold se_bind.
  set (s1 := mkIS _ _ _ _ _).
  assert (Hinv1 : pkg_inv s1) by exact Hinv.
  destruct (import_line fn s1 g) as [[g1 [st|e]]|] eqn:Ei.
  - destruct (import_line_next fn s1 Hinv1 g g1 (Ok st) I I Ei) as [_ Hq].
    destruct (Hq st eq_refl) as [s2 [-> [Hinv2 Hin2]]]. apply IH; auto. rewrite Hin2. simpl. lia.
  - eexists; eexists; split; [reflexivity|discriminate].
  - exfalso. exact (import_line_total fn s1 g Ei).
Qed.

End Safe.

(** C33: [FindImportPackageInFile] always returns, and never dereferences
    the [NULL] [file_ptr]: an import line before any [package] line is
    skipped because [importName.find("")] is [0]. *)
Theorem FindImportPackageInFile_safe {M} `{SM : StrMap M} cfg filepath file (g : @Graph M) :
  exists g' b, FindImportPackageInFile cfg filepath file g = Some (IDone g' b).
Proof.
  unfold FindImportPackageInFile. destruct (negb _); [eauto|].
  destruct file as [contents|]; [|eauto].
  destruct (import_loop_safe (file_label cfg filepath) (S (length contents))
              (mkIS init_reader (open_stream contents) [] [] None) g) as [g' [r [-> Hr]]];
    [left; reflexivity|simpl; lia|].
  destruct r as [st|e]; [|eauto]. destruct (Hr st eq_refl) as [s' ->]. eauto.
Qed.

(** ** The pass keeps the class graph sound *)

Section Sound.
Context {M : Type -> Type} `{SM : StrMap M} `{SML : @StrMapLaws M SM}.
Import GraphFacts.

Lemma allocated_mono o g g' : incl (addrs g) (addrs g') -> allocated o g -> allocated o g'.
Proof. intros Hi H f Hf. apply Hi, H, Hf. Qed.

Lemma AddClass_allocated (g : @Graph M) k m f :
  graph_ok g -> In (snd (AddClass g k m f)) (addrs (fst (AddClass g k m f))).
Proof.
  intros Hok. destruct (graph_ok_AddClass g k m f Hok) as [[_ [_ [Hreg _]]] [Hk _]].
  destruct (Hreg _ _ Hk) as [n [Hn _]]. eapply hget_in. exact Hn.
Qed.

(** [a->add_interface(b)] and [a->add_child(b)] between allocated nodes
    keep the graph sound. *)
Lemma graph_ok_add_link (g : @Graph M) a b (link : addr -> ClassRelations -> ClassRelations) :
  (forall n, node_ok g n -> node_ok g (link b n) /\ my_name (link b n) = my_name n) ->
  graph_ok g -> graph_ok (hmodify g a (link b)).
Proof.
  intros Hl Hok. apply graph_ok_hmodify; auto. intros n Hn. apply Hl.
  destruct Hok as [_ [_ [_ Hnodes]]]. exact (Hnodes _ _ Hn).
Qed.

Lemma interface_link_ok (g : @Graph M) b n :
  In b (addrs g) -> node_ok g n -> node_ok g (add_interface_link b n) /\ my_name (add_interface_link b n) = my_name n.
Proof. intros Hb [H1 [H2 H3]]. split; [|reflexivity]. refine (conj H1 (conj H2 _)). apply chain_ok_add; auto. Qed.

Lemma child_link_ok (g : @Graph M) b n :
  In b (addrs g) -> node_ok g n -> node_ok g (add_child_link b n) /\ my_name (add_child_link b n) = my_name n.
Proof. intros Hb [H1 [H2 H3]]. split; [|reflexivity]. refine (conj _ (conj H2 H3)). apply chain_ok_add; auto. Qed.

Lemma se_triple_AddClass (R : @Graph M -> Prop) k m f :
  (forall g g', graph_ok g -> incl (addrs g) (addrs g') -> R g -> R g') ->
  se_triple graph_ok R (se_run (fun g => AddClass g k m f)) (fun a g => In a (addrs g) /\ R g).
Proof.
  intros HR. apply se_triple_run. intros g Hok Hg.
  destruct (graph_ok_AddClass g k m f Hok) as [Hok1 [_ Hincl]].
  split; [exact Hok1|split; [apply AddClass_allocated; exact Hok|exact (HR g _ Hok Hincl Hg)]].
Qed.

Lemma import_line_sound fn s :
  se_triple graph_ok (allocated (file_ptr s)) (@import_line M SM fn s)
            (fun st g => forall s', st = Next s' -> allocated (file_ptr s') g).
Proof.
  unfold import_line. destruct (_ || _); [apply se_triple_ret; intros g H s' E; inv E; exact H|].
  destruct (import_match _) as [[[|] p]|]; [| |apply se_triple_ret; intros g H s' E; inv E; exact H].
  - apply (se_triple_bind _ _ (fun child g => In child (addrs g) /\ allocated (file_ptr s) g)).
    { apply se_triple_AddClass. intros g g' _ Hi. apply allocated_mono, Hi. }
    intros child.
    apply (se_triple_bind _ _ (fun file g => In file (addrs g) /\ (In child (addrs g) /\ allocated (file_ptr s) g))).
    { apply se_triple_AddClass. intros g g' _ Hi [H Ha]. split; [apply Hi, H|eapply allocated_mono; eauto]. }
    intros file.
    apply (se_triple_bind _ _ (fun _ g => In file (addrs g))).
    { apply se_triple_update. intros g Hok [Hf [Hc _]]. rewrite addrs_hmodify.
      split; [apply graph_ok_add_link; auto; intros n; apply interface_link_ok; auto|exact Hf]. }
    intros _. apply se_triple_ret. intros g Hf s' E. inv E. intros f Ef. inv Ef. exact Hf.
  - destruct (found_at_0 (packageName s) p); [apply se_triple_ret; intros g H s' E; inv E; exact H|].
    destruct (negb _); [apply se_triple_ret; intros g H s' E; inv E; exact H|].
    apply (se_triple_bind _ _ (fun child g => In child (addrs g) /\ allocated (file_ptr s) g)).
    { apply se_triple_AddClass. intros g g' _ Hi. apply allocated_mono, Hi. }
    intros child.
    apply (se_triple_bind _ _ (fun _ g => In child (addrs g) /\ allocated (file_ptr s) g)).
    { apply se_triple_update. intros g Hok [Hc Ha].
      pose proof (ExtractorFacts.addrs_add_parent g child (packageName s) fn Hok) as Hi.
      split; [apply graph_ok_add_parent; auto|split; [apply Hi, Hc|eapply allocated_mono; eauto]]. }
    intros _. destruct (file_ptr s) as [f|] eqn:Ef; [|apply se_triple_ret; intros g _ s' E; discriminate].
    apply (se_triple_bind _ _ (fun _ g => allocated (file_ptr s) g)).
    { apply se_triple_update. intros g Hok [Hc Ha]. rewrite Ef in *. unfold allocated. rewrite addrs_hmodify.
      split; [apply graph_ok_add_link; [intros n; apply child_link_ok; auto|auto]|exact Ha]. }
    intros _. apply se_triple_ret. intros g H s' E. inv E. exact H.
Qed.

Lemma import_loop_sound fn fuel : forall s,
  se_triple graph_ok (allocated (file_ptr s)) (@import_loop M SM fuel fn s) (fun _ _ => True).
Proof.
  induction fuel as [|f IH]; intros s; cbn [import_loop]; [intros g g' r _ _ E; discriminate|].
  se_pure_step. destruct (rd_good _); [|apply se_triple_ret; auto].
  set (s1 := mkIS _ _ _ _ _). change (allocated (file_ptr s)) with (allocated (file_ptr s1)).
  apply (se_triple_bind _ _ (fun st g => forall s', st = Next s' -> allocated (file_ptr s') g));
    [apply import_line_sound|].
  intros [s2|]; [|apply se_triple_ret; auto].
  eapply se_triple_conseq; [|intros; exact I].
  intros g g' r Hok H E. apply (IH s2 g g' r Hok (H s2 eq_refl) E).
Qed.

End Sound.

(** One [-I] pass keeps [graph_ok]. *)
Lemma import_pass_graph_ok {M} `{SML : StrMapLaws M} cfg filepath file
        (g g' : @Graph M) b :
  graph_ok g -> FindImportPackageInFile cfg filepath file g = Some (IDone g' b) -> graph_ok g'.
Proof.
  intros Hok. unfold FindImportPackageInFile. destruct (negb _); [intros E; inv E; auto|].
  destruct file as [contents|]; [|intros E; inv E; auto].
  destruct (import_loop _ _ _ g) as [[g1 r]|] eqn:E; [|discriminate].
  assert (H0 : allocated (file_ptr (mkIS init_reader (open_stream contents) [] [] None)) g)
    by (intros f Hf; discriminate).
  destruct (import_loop_sound _ _ _ g g1 r Hok H0 E) as [Hok1 _].
  destruct r as [[]|]; intros Eq; inv Eq; exact Hok1.
Qed.

(** C34: [FindImportPackageInFile] keeps the class graph sound: every
    registered name leads to an allocated node of that name and every
    chain is well formed, duplicate-free and points to allocated nodes. *)
Theorem FindImportPackageInFile_graph_ok {M} `{SML : StrMapLaws M} cfg filepath file
        (g g' : @Graph M) b :
  graph_ok g -> FindImportPackageInFile cfg filepath file g = Some (IDone g' b) -> graph_ok g'.
Proof. exact (import_pass_graph_ok cfg filepath file g g' b). Qed.

(** ** The edge from the file node to an import is one-sided *)

Section Unpaired.
Context {M : Type -> Type} `{SM : StrMap M} `{SML : @StrMapLaws M SM}.
Import GraphFacts.

(** [AddClass] keeps the name and the chains of an allocated node. *)
Lemma hget_AddClass_old (g : @Graph M) k m fl b nb :
  heap_ok g -> hget g b = Some nb ->
  exists nb', hget (fst (AddClass g k m fl)) b = Some nb' /\ my_name nb' = my_name nb /\
    my_parents nb' = my_parents nb /\ my_children nb' = my_children nb.
Proof.
  intros Hh Hb. destruct (mfind k (clist g)) as [a|] eqn:Hk.
  - unfold AddClass. rewrite Hk. cbn [fst]. rewrite hget_hmodify, Hb.
    destruct (Nat.eqb b a); cbn [option_map]; eauto.
  - rewrite hget_AddClass_new by auto. destruct (Nat.eqb_spec b (next_addr g)) as [->|]; [|eauto].
    exfalso. apply (not_in_addrs_next g Hh). eapply hget_in; eauto.
Qed.

(** After [AddClass] of a new import [n], [add_parent] to the package and
    [file_ptr->add_child(child_ptr)], the file node lists the import as a
    child while the import's only parent is the package node. *)
Lemma import_edge_unpaired (g : @Graph M) fn pkg n f nf g1 child :
  graph_ok g -> hget g f = Some nf -> my_name nf <> pkg -> mfind n (clist g) = None ->
  AddClass g n pkg fn = (g1, child) ->
  ~ paired (hmodify (add_parent g1 child pkg fn) f (add_child_link child)).
Proof.
  intros Hok Hf Hname Hn EA Hp. pose proof Hok as [_ [Hh _]].
  destruct (graph_ok_AddClass g n pkg fn Hok) as [Hok1 _]. rewrite EA in Hok1. cbn [fst] in Hok1.
  pose proof (hget_AddClass_new g n pkg fn child Hh Hn) as Hc1. pose proof (hget_AddClass_old g n pkg fn f nf Hh Hf) as Hf1.
  assert (Ech : child = next_addr g) by (unfold AddClass in EA; rewrite Hn in EA; inv EA; reflexivity).
  subst child. rewrite EA in Hc1, Hf1. cbn [fst] in Hc1, Hf1. rewrite Nat.eqb_refl in Hc1.
  destruct Hf1 as [nf1 [Hf1 [Nf1 _]]]. pose proof Hok1 as [_ [Hh1 _]].
  unfold add_parent in Hp. destruct (graph_ok_AddClass _ pkg [] fn Hok1) as [Hok2 [Hreg2 _]].
  pose proof (hget_AddClass_old _ pkg [] fn _ _ Hh1 Hc1) as [nc2 [Hc2 [_ [Pc2 _]]]].
  pose proof (hget_AddClass_old _ pkg [] fn _ _ Hh1 Hf1) as [nf2 [Hf2 [Nf2 _]]].
  destruct (AddClass _ pkg [] fn) as [g2 q]. cbn [fst snd] in *.
  pose proof Hok2 as [_ [_ [Hreg _]]]. destruct (Hreg _ _ Hreg2) as [nq [Hq Nq]].
  assert (Hqf : q <> f) by (intros ->; congruence).
  assert (Hcf : next_addr g <> f) by (intros E; apply (not_in_addrs_next g Hh); rewrite E; eapply hget_in; eauto).
  specialize (Hp (next_addr g) f). rewrite !hget_hmodify, Hc2, Hf2 in Hp.
  destruct (Nat.eqb_spec (next_addr g) f); [congruence|]. destruct (Nat.eqb_spec f f); [|congruence].
  destruct (Nat.eqb_spec f q); [congruence|]. destruct (Nat.eqb_spec f (next_addr g)); [congruence|].
  assert (Hin : In (next_addr g) (abs (add_linkage_to (my_children nf2) (next_addr g)))).
  { apply In_abs_add; [exact (proj2 (chain_wf_of_graph _ _ _ Hok2 Hf2))|left; reflexivity]. }
  destruct (Nat.eqb_spec (next_addr g) q); rewrite Nat.eqb_refl in Hp; specialize (Hp _ _ eq_refl eq_refl);
    cbn [my_parents my_children add_parent_link add_child_link] in Hp; rewrite Pc2 in Hp;
    destruct (proj2 Hp Hin) as [E|[]]; congruence.
Qed.

End Unpaired.

(** C35: [file_ptr->add_child(child_ptr)] adds a child edge from the
    file node without the matching parent edge: on an [import com.wsi.]
    line of a package whose name differs from the file node's, naming a
    class not registered yet, the step returns and leaves a graph whose
    parent and child edges are no longer paired. *)
Theorem import_breaks_pairing {M} `{SML : StrMapLaws M} fn s (g : @Graph M) n f nf :
  graph_ok g -> 0 < length (is_line s) < 4096 ->
  import_match (is_line s) = Some (false, n) ->
  found_at_0 (packageName s) n = false -> found_at_0 ($"com.wsi.") n = true ->
  mfind n (clist g) = None ->
  file_ptr s = Some f -> hget g f = Some nf -> my_name nf <> packageName s ->
  exists g', import_line fn s g = Some (g', Ok (Next s)) /\ ~ paired g'.
Proof.
  intros Hok Hlen Hm H0 H1 Hn Hfp Hf Hname. unfold import_line. cbv zeta.
  assert (Hl : ((4096 <=? length (is_line s)) || (length (is_line s) =? 0)) = false)
    by (apply orb_false_iff; split; [apply Nat.leb_gt|apply Nat.eqb_neq]; lia).
  rewrite Hl, Hm, H0, H1. cbn [negb]. rewrite Hfp.
  destruct (AddClass g n (packageName s) fn) as [g1 child] eqn:EA.
  unfold se_bind, se_run, se_update, se_ret. rewrite EA.
  eexists. split; [reflexivity|]. exact (import_edge_unpaired g fn _ n f nf g1 child Hok Hf Hname Hn EA).
Qed.

End ImportsFacts.

(** ** An [-I] run *)

Module ImportsExamples.
Import Imports ImportsFacts ImportsRuns ExtractorRuns.

Lemma import_breaks_pairing_witness :
  exists g', import_line ($"A.java") imp_state imp_g0 = Some (g', Ok (Next imp_state)) /\ ~ paired g'.
Proof.
  apply (import_breaks_pairing ($"A.java") imp_state imp_g0 ($"com.wsi.lib.Net") 0
           (new_ClassRelations ($"A.java") sFileTag ($"com.wsi.app")));
    [exact (proj1 (GraphFacts.graph_ok_AddClass _ _ _ _ GraphFacts.graph_ok_empty))
    |cbn; lia|vm_compute; reflexivity|vm_compute; reflexivity|vm_compute; reflexivity
    |vm_compute; reflexivity|reflexivity|vm_compute; reflexivity|vm_compute; discriminate].
Defined.

Lemma FindImportPackageInFile_graph_ok_witness : graph_ok imp_graph.
Proof.
  apply (FindImportPackageInFile_graph_ok pub ($"src/A.java") (Some (text imp_src)) empty_graph imp_graph true);
    [apply GraphFacts.graph_ok_empty|vm_compute; reflexivity].
Defined.

End ImportsExamples.
