(* ===== verification/Render.v ===== *)
(** * Render: the text class tree of [display_dependences]

    Models the text renderers of [src/javatree/javatree.cpp] (the
    character sets [GRAPHICS_CHAR], [TEXT_CHAR], [SPACE_CHAR] and
    [HTML_CHAR]): [display_dependences] walks [clist] in key order and,
    for every class whose parent chain is empty, prints its line and the
    tree below it with the recursive [display_children], which marks the
    other parents of each child with [display_other_parents].  The output
    is the byte string written to [stdout].

    [display_children] has no guard against cycles; the model carries
    fuel and returns [None] when it runs out.  The facts show that a
    ranking of the child relation makes the fuel sufficient (the walk
    terminates on acyclic graphs) and that a cycle reachable from a node
    makes the walk from it run out of every fuel (the recursion never
    ends). *)

From Stdlib Require Import Ascii String List Lia ZArith Bool.
From S2P Require Import Prelude Registry ClassRel.
Import ListNotations.
Open Scope jt_scope.
Import ClassRel.

Module Render.

(** The four text values of [cset]. *)
Inductive Charset := GRAPHICS_CHAR | TEXT_CHAR | SPACE_CHAR | HTML_CHAR.

Definition by_cset (cs : Charset) (gr tx sp ht : lstring) : lstring :=
  match cs with GRAPHICS_CHAR => gr | TEXT_CHAR => tx | SPACE_CHAR => sp | HTML_CHAR => ht end.

Definition four_spaces : lstring := $"    ".

(** The glyph tables [none], [more], [more_and_me] and [just_me]. *)
Definition none_glyph (cs : Charset) : lstring :=
  by_cset cs four_spaces four_spaces four_spaces ($"<img src='n.png'>").
Definition more_glyph (cs : Charset) : lstring :=
  by_cset cs ($"   " ++ [ascii_of_nat 179]) ($"   |") four_spaces ($"<img src='0.png'>").
Definition more_and_me (cs : Charset) : lstring :=
  by_cset cs ($"   " ++ [ascii_of_nat 195]) ($"   +") four_spaces ($"<img src='2.png'>").
Definition just_me (cs : Charset) : lstring :=
  by_cset cs ($"   " ++ [ascii_of_nat 192]) ($"   -") four_spaces ($"<img src='1.png'>").

Definition nl : lstring := [ascii_of_nat 10].
Definition dc : lstring := nl ++ $"Class Tree" ++ nl.
Definition cc : lstring := $": ".

Definition doc_classes (cs : Charset) : lstring := by_cset cs dc dc dc ($"<table>").
Definition doc_classesChild (cs : Charset) : lstring := by_cset cs cc cc cc ($"<td>").
Definition doc_classesBLine (cs : Charset) : lstring := by_cset cs [] [] [] ($"<tr><td>").
Definition doc_classesELine (cs : Charset) : lstring := by_cset cs nl nl nl ($"</tr>" ++ nl).

(** [printf("%*.*s", w, w, s)]: at most [w] bytes of [s], right aligned
    in a field of [w]. *)
Definition pad_field (w : nat) (s : lstring) : lstring :=
  let t := firstn w s in repeat " "%char (w - length t) ++ t.

Section Tree.
Context {M : Type -> Type} `{SM : StrMap M}.
Variable g : @Graph M.

(** [*crel_ptr]; [graph_ok] makes every pointer the walk follows
    allocated, so the default node is never used. *)
Definition node (a : addr) : ClassRelations :=
  match hget g a with Some n => n | None => new_ClassRelations [] [] [] end.

(** [display_other_parents(parent_ptr, first_parent)]. *)
Fixpoint display_other_parents (parent : addr) (links : ClassLinkage) : lstring :=
  match links with
  | [] => []
  | Some r :: rest =>
      (if Nat.eqb r parent then [] else $"  (" ++ my_name (node r) ++ $")")
      ++ display_other_parents parent rest
  | None :: rest => display_other_parents parent rest
  end.

(** [print_indent(indent)]. *)
Definition print_indent (indent : list lstring) : lstring := concat indent.

(** The line [display_children] prints for the child [c] of [parent];
    [is_more] tells whether another link follows. *)
Definition child_line (cs : Charset) (indent : list lstring) (width : nat)
           (parent c : addr) (is_more : bool) : lstring :=
  doc_classesBLine cs ++ pad_field width (my_file (node c)) ++ doc_classesChild cs
  ++ print_indent (indent ++ [if is_more then more_and_me cs else just_me cs])
  ++ $" " ++ my_name (node c)
  ++ display_other_parents parent (my_parents (node c)) ++ doc_classesELine cs.

(** The [while] loop of [display_children] over the links of the
    children chain; [rec] is the recursive call on a child. *)
Fixpoint children_loop (rec : list lstring -> addr -> option lstring) (cs : Charset)
         (indent : list lstring) (width : nat) (parent : addr) (links : ClassLinkage)
  : option lstring :=
  match links with
  | [] => Some []
  | None :: rest => children_loop rec cs indent width parent rest
  | Some c :: rest =>
      let is_more := match rest with [] => false | _ => true end in
      match rec (indent ++ [if is_more then more_glyph cs else none_glyph cs]) c with
      | None => None
      | Some sub =>
          match children_loop rec cs indent width parent rest with
          | None => None
          | Some tl => Some (child_line cs indent width parent c is_more ++ sub ++ tl)
          end
      end
  end.

(** [display_children(indent, width, parent_ptr)]: [None] when the fuel
    runs out. *)
Fixpoint display_children (fuel : nat) (cs : Charset) (indent : list lstring) (width : nat)
         (parent : addr) : option lstring :=
  match fuel with
  | O => None
  | S f => children_loop (fun ind c => display_children f cs ind width c) cs indent width parent
                         (my_children (node parent))
  end.

(** [count_interfaces(parent_ptr)]: the interface links up to the first
    empty one, skipping nodes whose modifier is [file]. *)
Fixpoint count_interface_links (links : ClassLinkage) : nat :=
  match links with
  | Some r :: rest =>
      (if my_modifier (node r) =s? $"file" then 0 else 1) + count_interface_links rest
  | _ => 0
  end.

Definition count_interfaces (a : addr) : nat := count_interface_links (my_interfaces (node a)).

(** The [while] loop of [count_children] over the children links. *)
Fixpoint count_loop (rec : addr -> option nat) (links : ClassLinkage) : option nat :=
  match links with
  | [] => Some 0
  | None :: rest => count_loop rec rest
  | Some c :: rest =>
      match rec c, count_loop rec rest with
      | Some k, Some m => Some (1 + k + m)
      | _, _ => None
      end
  end.

(** [count_children(parent_ptr, pparent_ptr)]; [viz] is [cset == VIZ_CHAR]. *)
Fixpoint count_children (fuel : nat) (viz : bool) (a : addr) : option nat :=
  match fuel with
  | O => None
  | S f =>
      match count_loop (count_children f viz) (my_children (node a)) with
      | Some k => Some ((if viz then count_interfaces a else 0) + k)
      | None => None
      end
  end.

(** The first loop of [display_dependences]: the file column's width. *)
Definition file_width : nat :=
  fold_left (fun w p => Nat.max w (length (my_file (node (snd p))))) (melements (clist g)) 14.

(** A class is printed as a root when its parent chain's head is empty. *)
Definition is_root (a : addr) : bool :=
  match my_parents (node a) with None :: _ | [] => true | Some _ :: _ => false end.

(** The second loop of [display_dependences], over [clist] in key order. *)
Fixpoint roots_loop (fuel : nat) (cs : Charset) (w : nat) (es : list (lstring * addr))
  : option lstring :=
  match es with
  | [] => Some []
  | (_, a) :: rest =>
      if is_root a then
        match display_children fuel cs [] w a with
        | None => None
        | Some sub =>
            match roots_loop fuel cs w rest with
            | None => None
            | Some tl =>
                Some (doc_classesBLine cs ++ pad_field w (my_file (node a)) ++ doc_classesChild cs
                      ++ $" " ++ my_name (node a) ++ doc_classesELine cs ++ sub ++ tl)
            end
        end
      else roots_loop fuel cs w rest
  end.

(** [display_dependences()] for a text [cset]. *)
Definition display_dependences (fuel : nat) (cs : Charset) : option lstring :=
  match roots_loop fuel cs file_width (melements (clist g)) with
  | None => None
  | Some body => Some (doc_classes cs ++ body)
  end.

(** The child relation the walk follows. *)
Definition child_edge (a b : addr) : Prop := In (Some b) (my_children (node a)).

End Tree.

End Render.

Module RenderFacts.
Import Render.

Section Walk.
Context {M : Type -> Type} `{SM : StrMap M}.
Variable g : @Graph M.

Lemma children_loop_some rec cs indent width parent links :
  (forall ind c, In (Some c) links -> rec ind c <> None) ->
  children_loop g rec cs indent width parent links <> None.
Proof.
  induction links as [|[c|] rest IH]; intros Hrec; cbn [children_loop]; [discriminate| |].
  - destruct (rec _ c) eqn:E; [|exfalso; eapply Hrec; [left; reflexivity|exact E]].
    destruct (children_loop g rec cs indent width parent rest) eqn:E2; [discriminate|].
    exfalso. refine (IH _ eq_refl). intros ind d Hd. apply Hrec. right. exact Hd.
  - apply IH. intros ind d Hd. apply Hrec. right. exact Hd.
Qed.

Lemma children_loop_none rec cs indent width parent links c :
  In (Some c) links -> (forall ind, rec ind c = None) ->
  children_loop g rec cs indent width parent links = None.
Proof.
  intros Hin Hc. induction links as [|[d|] rest IH]; [destruct Hin| |]; cbn [children_loop].
  - destruct Hin as [E|Hin].
    + inv E. rewrite Hc. reflexivity.
    + destruct (rec _ d); [|reflexivity]. rewrite IH; auto.
  - destruct Hin as [E|Hin]; [discriminate|]. auto.
Qed.

(** C23: [display_children] terminates on a graph whose child relation is
    ranked (so has no cycle): fuel above the rank of the start node is
    enough, whatever the indentation and width. *)
Theorem display_children_terminates (rank : addr -> nat) cs width :
  (forall a b, child_edge g a b -> rank b < rank a) ->
  forall fuel indent a, rank a < fuel -> display_children g fuel cs indent width a <> None.
Proof.
  intros Hrank fuel. induction fuel as [|f IH]; intros indent a Ha; [lia|]. cbn [display_children].
  apply children_loop_some. intros ind c Hc. apply IH. specialize (Hrank a c Hc). lia.
Qed.

(** [display_children] has no cycle guard: from a node of a set in
    which every node has a child in the set, the recursion never ends
    (the walk runs out of every fuel). *)
Theorem display_children_cycle (S : list addr) cs width :
  (forall a, In a S -> exists b, In b S /\ child_edge g a b) ->
  forall fuel indent a, In a S -> display_children g fuel cs indent width a = None.
Proof.
  intros HS fuel. induction fuel as [|f IH]; intros indent a Ha; [reflexivity|].
  cbn [display_children]. destruct (HS a Ha) as [b [Hb Hab]].
  apply (children_loop_none _ _ _ _ _ _ b Hab). intros ind. apply IH. exact Hb.
Qed.

End Walk.

Lemma display_children_terminates_witness :
  display_children (add_parent ClassRelRuns.g_A 0 ($"B") ($"_no_file_")) 2 TEXT_CHAR [] 14 1 <> None.
Proof.
  apply (display_children_terminates _ (fun a => if Nat.eqb a 1 then 1 else 0)); [|vm_compute; lia].
  intros a b H. unfold child_edge in H.
  destruct a as [|[|a]]; vm_compute in H;
    repeat match goal with Hd : _ \/ _ |- _ => destruct Hd as [Hd|Hd] end;
    try contradiction; try discriminate;
    match goal with Hs : Some _ = Some _ |- _ => inv Hs end; vm_compute; lia.
Defined.

End RenderFacts.
