(* ===== verification/Traverse.v ===== *)
(** * Traverse: the traversal contract and the text renderer

    The specification asks every renderer to consume one traversal:
    [traverse(node, visit)] walks the children edges depth first, in
    insertion order, and calls [visit(depth, node, isLastSibling,
    cycleDetected)]; a child already on the root-to-node path is reported
    with [cycleDetected] and not expanded.  [traverse] below is that
    contract, with the visits as a list; a text emitter [render] turns
    the visits into the lines [display_children] prints, keeping the
    glyph stack a renderer needs.  The source has no such traversal:
    [display_children] recurses directly and has no guard.  The facts
    show that the guarded traversal always ends, and that on a graph
    whose child relation is ranked (so acyclic) the code's
    [display_children] prints exactly what [render] makes of the
    contract's visits: the code refines the contract there, and only
    there (see [walk_cycle_diverges] in [Driver.v]). *)

From Stdlib Require Import Ascii String List Lia ZArith Bool.
From S2P Require Import Prelude Registry ClassRel Render.
Import ListNotations.
Open Scope jt_scope.
Import ClassRel Render.

Module Traverse.

(** One call of the visitor: the child [v_node] of [v_parent] at depth
    [v_depth] (the children of a root are at depth 1). *)
Record Visit := mkVisit {
  v_depth : nat;
  v_parent : addr;
  v_node : addr;
  v_last : bool;
  v_cycle : bool }.

Section Contract.
Context {M : Type -> Type} `{SM : StrMap M}.
Variable g : @Graph M.

(** The children links of [parent], each child visited before the
    subtree below it; [rec] descends into a child with the longer path. *)
Fixpoint visit_children (rec : list addr -> nat -> addr -> option (list Visit))
         (path : list addr) (depth : nat) (parent : addr) (links : ClassLinkage)
  : option (list Visit) :=
  match links with
  | [] => Some []
  | None :: rest => visit_children rec path depth parent rest
  | Some c :: rest =>
      let last := match rest with [] => true | _ => false end in
      match visit_children rec path depth parent rest with
      | None => None
      | Some tl =>
          if existsb (Nat.eqb c) path then Some (mkVisit depth parent c last true :: tl)
          else match rec (c :: path) (S depth) c with
               | None => None
               | Some sub => Some (mkVisit depth parent c last false :: sub ++ tl)
               end
      end
  end.

(** [traverse] from [a] with the root-to-[a] path [path]; [None] only
    when the fuel runs out. *)
Fixpoint traverse (fuel : nat) (path : list addr) (depth : nat) (a : addr) : option (list Visit) :=
  match fuel with
  | O => None
  | S f => visit_children (traverse f) path depth a (my_children (node g a))
  end.

(** The glyph of one ancestor column: another sibling follows, or not. *)
Definition glyph (cs : Charset) (more : bool) : lstring :=
  if more then more_glyph cs else none_glyph cs.

(** What a text emitter prints for a visit that closes a cycle. *)
Definition recursion_marker : lstring := $"    (recursion)" ++ nl.

(** The emitter: the line of each visit, with the stack of the
    ancestors' [more] flags cut to the visit's depth. *)
Definition render_step (cs : Charset) (width : nat) (acc : lstring * list bool) (v : Visit)
  : lstring * list bool :=
  let st := firstn (pred (v_depth v)) (snd acc) in
  (fst acc ++ child_line g cs (map (glyph cs) st) width (v_parent v) (v_node v) (negb (v_last v))
           ++ (if v_cycle v then recursion_marker else []),
   st ++ [negb (v_last v)]).

Definition render_from (cs : Charset) (width : nat) (stack : list bool) (vs : list Visit) : lstring :=
  fst (fold_left (render_step cs width) vs ([], stack)).

Definition render (cs : Charset) (width : nat) (vs : list Visit) : lstring := render_from cs width [] vs.

End Contract.

End Traverse.

Module TraverseFacts.
Import Traverse.

(** ** The emitter's fold *)

Section Emit.
Context {M : Type -> Type} `{SM : StrMap M}.
Variable g : @Graph M.
Variable cs : Charset.
Variable width : nat.

Let step := render_step g cs width.

(** Every visit of [vs] lies below depth [d]. *)
Definition deep (d : nat) (vs : list Visit) : Prop := Forall (fun v => d < v_depth v) vs.

(** [s0] extends [s]. *)
Definition extends_stack (s s0 : list bool) : Prop := firstn (length s) s0 = s /\ length s <= length s0.

Lemma step_acc acc s v : step (acc, s) v = (acc ++ fst (step ([], s) v), snd (step ([], s) v)).
Proof. reflexivity. Qed.

Lemma fold_render_acc vs : forall acc s,
  fst (fold_left step vs (acc, s)) = acc ++ fst (fold_left step vs ([], s)).
Proof.
  induction vs as [|v vs IH]; intros acc s; cbn [fold_left]; [rewrite app_nil_r; reflexivity|].
  rewrite (step_acc acc). destruct (step ([], s) v) as [x s']. cbn [fst snd].
  rewrite IH, (IH x). symmetry. apply app_assoc.
Qed.

Lemma extends_stack_firstn s s0 k :
  extends_stack s s0 -> length s <= k -> extends_stack s (firstn k s0).
Proof.
  intros [E L] Hk. split.
  - rewrite firstn_firstn. replace (Nat.min (length s) k) with (length s) by lia. exact E.
  - rewrite length_firstn. lia.
Qed.

Lemma extends_stack_app s s0 l : extends_stack s s0 -> extends_stack s (s0 ++ l).
Proof.
  intros [E L]. split; [|rewrite length_app; lia].
  rewrite firstn_app. replace (length s - length s0) with 0 by lia. rewrite app_nil_r. exact E.
Qed.

(** Visits below [length s] leave the stack extending [s]. *)
Lemma fold_render_stack vs : forall acc s s0,
  deep (length s) vs -> extends_stack s s0 -> extends_stack s (snd (fold_left step vs (acc, s0))).
Proof.
  induction vs as [|v vs IH]; intros acc s s0 Hd Hs; [exact Hs|]. inv Hd. cbn [fold_left].
  unfold step at 2, render_step. cbn [snd]. apply IH; auto.
  apply extends_stack_app, extends_stack_firstn; [exact Hs|lia].
Qed.

(** The first visit at depth at most [length s + 1] cuts the stack back
    to a prefix of [s], so what lies above no longer matters. *)
Lemma fold_render_trunc v vs acc s s0 :
  pred (v_depth v) <= length s -> extends_stack s s0 ->
  fold_left step (v :: vs) (acc, s0) = fold_left step (v :: vs) (acc, s).
Proof.
  intros Hv [E _]. cbn [fold_left]. unfold step, render_step. cbn [fst snd].
  replace (firstn (pred (v_depth v)) s0) with (firstn (pred (v_depth v)) s); [reflexivity|].
  rewrite <- E, firstn_firstn. f_equal. lia.
Qed.

(** A visit, the subtree below it, and its later siblings. *)
Lemma render_from_node stack v sub tl :
  v_depth v = S (length stack) -> v_cycle v = false -> deep (S (length stack)) sub ->
  (tl = [] \/ exists w tl', tl = w :: tl' /\ v_depth w = S (length stack)) ->
  render_from g cs width stack (v :: sub ++ tl)
  = child_line g cs (map (glyph cs) stack) width (v_parent v) (v_node v) (negb (v_last v))
    ++ render_from g cs width (stack ++ [negb (v_last v)]) sub ++ render_from g cs width stack tl.
Proof.
  intros Hv Hc Hd Ht. unfold render_from. cbn [fold_left].
  fold step. rewrite step_acc. unfold step at 2 3, render_step. cbn [fst snd].
  rewrite Hv, Hc. cbn [pred]. rewrite firstn_all, !app_nil_r, app_nil_l.
  rewrite fold_render_acc, fold_left_app, app_nil_l. f_equal.
  destruct (fold_left step sub ([], stack ++ [negb (v_last v)])) as [x s2] eqn:Ef.
  assert (Hs2 : extends_stack stack s2).
  { replace s2 with (snd (fold_left step sub ([], stack ++ [negb (v_last v)]))) by (rewrite Ef; reflexivity).
    apply fold_render_stack; [eapply Forall_impl; [|exact Hd]; intros w Hw; cbv beta in *; lia|].
    apply extends_stack_app. split; [apply firstn_all|lia]. }
  cbn [fst]. rewrite fold_render_acc. f_equal.
  destruct Ht as [->|[w [tl' [-> Hw]]]]; [reflexivity|].
  f_equal. apply fold_render_trunc; [rewrite Hw; cbn; lia|exact Hs2].
Qed.

End Emit.

(** ** The code refines the contract on ranked graphs *)

Section Refine.
Context {M : Type -> Type} `{SM : StrMap M}.
Variable g : @Graph M.
Variable cs : Charset.
Variable width : nat.
Variable rank : addr -> nat.
Hypothesis Hrank : forall a b, child_edge g a b -> rank b < rank a.

(** What [display_children] and [traverse] agree on for [a], below the
    ancestors' flags [stack]. *)
Definition agree (f : nat) (path : list addr) (stack : list bool) (a : addr) (vs : list Visit)
           (links : ClassLinkage) (out : option lstring) : Prop :=
  visit_children (traverse g f) path (S (length stack)) a links = Some vs /\
  Forall (fun v => v_cycle v = false) vs /\ deep (length stack) vs /\
  (vs = [] \/ exists v vs', vs = v :: vs' /\ v_depth v = S (length stack)) /\
  out = Some (render_from g cs width stack vs).

Lemma not_on_path (a c : addr) path :
  (forall p, In p path -> rank a <= rank p) -> child_edge g a c -> existsb (Nat.eqb c) path = false.
Proof.
  intros Hp Hc. apply Bool.not_true_iff_false. intros Hin.
  apply existsb_exists in Hin as [p [Hin E]]. apply Nat.eqb_eq in E. subst p.
  specialize (Hp c Hin). specialize (Hrank a c Hc). lia.
Qed.

Lemma children_refine f
      (IH : forall c path stack, (forall p, In p path -> rank c <= rank p) -> rank c < f ->
            exists vs, traverse g f path (S (length stack)) c = Some vs /\
              Forall (fun v => v_cycle v = false) vs /\ deep (length stack) vs /\
              display_children g f cs (map (glyph cs) stack) width c = Some (render_from g cs width stack vs))
      a path stack :
  (forall p, In p path -> rank a <= rank p) -> rank a <= f ->
  forall links, (forall c, In (Some c) links -> child_edge g a c) ->
  exists vs, agree f path stack a vs links
    (children_loop g (fun ind c => display_children g f cs ind width c) cs (map (glyph cs) stack) width a links).
Proof.
  intros Hp Hf. unfold agree. induction links as [|[c|] rest IHl]; intros Hl.
  - exists []. split; [reflexivity|split; [constructor|split; [constructor|split; [left; reflexivity|reflexivity]]]].
  - assert (Hc : child_edge g a c) by (apply Hl; left; reflexivity).
    destruct IHl as [tl (Et & Nt & Dt & Ft & Ot)]; [intros d Hd; apply Hl; right; exact Hd|].
    set (more := match rest with [] => false | _ => true end).
    destruct (IH c (c :: path) (stack ++ [more])) as [sub (Es & Ns & Ds & Os)].
    { intros p [<-|Hin]; [lia|]. specialize (Hp p Hin). specialize (Hrank a c Hc). lia. }
    { specialize (Hrank a c Hc). lia. }
    exists (mkVisit (S (length stack)) a c (negb more) false :: sub ++ tl).
    cbn [visit_children children_loop]. rewrite Et, (not_on_path a c path Hp Hc).
    rewrite length_app in Es. cbn [length] in Es. rewrite Nat.add_1_r in Es. rewrite Es.
    replace (match rest with [] => true | _ => false end) with (negb more) by (unfold more; destruct rest; reflexivity).
    rewrite map_app in Os. change (map (glyph cs) [more]) with [if more then more_glyph cs else none_glyph cs] in Os.
    unfold more in Os. rewrite Os. rewrite Ot.
    split; [reflexivity|]. split; [constructor; [reflexivity|apply Forall_app; auto]|].
    split; [constructor; [cbn; lia|apply Forall_app; split; [|exact Dt]]|].
    { eapply Forall_impl; [|exact Ds]. intros v Hv. rewrite length_app in Hv. cbn [length] in Hv. lia. }
    split; [right; eauto|].
    f_equal. rewrite render_from_node; [|reflexivity|reflexivity| |exact Ft].
    + cbn [v_parent v_node v_last]. rewrite negb_involutive. reflexivity.
    + eapply Forall_impl; [|exact Ds]. intros v Hv. rewrite length_app in Hv. cbn [length] in Hv. lia.
  - destruct IHl as [tl (Et & Nt & Dt & Ft & Ot)]; [intros d Hd; apply Hl; right; exact Hd|].
    exists tl. cbn [visit_children children_loop]. repeat split; auto.
Qed.

Lemma traverse_refine f : forall c path stack,
  (forall p, In p path -> rank c <= rank p) -> rank c < f ->
  exists vs, traverse g f path (S (length stack)) c = Some vs /\
    Forall (fun v => v_cycle v = false) vs /\ deep (length stack) vs /\
    display_children g f cs (map (glyph cs) stack) width c = Some (render_from g cs width stack vs).
Proof.
  induction f as [|f IH]; intros c path stack Hp Hf; [lia|]. cbn [traverse display_children].
  destruct (children_refine f IH c path stack Hp ltac:(lia) (my_children (node g c)) (fun d Hd => Hd))
    as [vs (E & N & D & _ & O)].
  exists vs. auto.
Qed.

End Refine.

(** C11: on a graph whose child relation is ranked (so has no cycle), the
    code's [display_children], started at [r] with an empty indentation,
    prints exactly what a text emitter makes of the visits of the
    specification's cycle-guarded [traverse] from [r]: the traversal
    reports no cycle, and enough fuel for the code is enough for both. *)
Theorem display_children_refines {M} `{SM : StrMap M} (g : @Graph M) cs width (rank : addr -> nat) fuel r :
  (forall a b, child_edge g a b -> rank b < rank a) -> rank r < fuel ->
  exists vs, traverse g fuel [r] 1 r = Some vs /\ Forall (fun v => v_cycle v = false) vs /\
    display_children g fuel cs [] width r = Some (render g cs width vs).
Proof.
  intros Hrank Hf.
  destruct (traverse_refine g cs width rank Hrank fuel r [r] []) as [vs (E & N & _ & O)];
    [intros p [<-|[]]; lia|exact Hf|].
  exists vs. auto.
Qed.

(** ** The guarded traversal always ends *)

Section Total.
Context {M : Type -> Type} `{SM : StrMap M}.
Variable g : @Graph M.
Hypothesis Hok : graph_ok g.

Lemma In_abs_some c l : In (Some c) l -> In c (abs l).
Proof. intros H. unfold abs. apply in_flat_map. exists (Some c). split; [exact H|left; reflexivity]. Qed.

(** A child in a chain of a sound graph is allocated. *)
Lemma child_allocated a c : child_edge g a c -> In c (addrs g).
Proof.
  unfold child_edge, node. destruct (hget g a) as [n|] eqn:E; [|intros [H|[]]; discriminate].
  intros H. destruct Hok as [_ [_ [_ Hnodes]]]. destruct (Hnodes a n E) as [[_ [_ Hall]] _].
  rewrite Forall_forall in Hall. apply Hall, In_abs_some, H.
Qed.

Lemma visit_children_some rec path d a links :
  (forall c, In (Some c) links -> existsb (Nat.eqb c) path = false -> rec (c :: path) (S d) c <> None) ->
  visit_children rec path d a links <> None.
Proof.
  induction links as [|[c|] rest IH]; intros Hr; cbn [visit_children]; [discriminate| |].
  - destruct (visit_children rec path d a rest) as [tl|] eqn:E;
      [|exfalso; refine (IH _ eq_refl); intros e He; apply Hr; right; exact He].
    destruct (existsb (Nat.eqb c) path) eqn:Ep; [congruence|].
    destruct (rec _ _ c) as [l|] eqn:Er; [intros Hn; discriminate Hn|].
    exfalso. exact (Hr c (or_introl eq_refl) Ep Er).
  - apply IH. intros e He. apply Hr. right. exact He.
Qed.

(** The path holds distinct allocated nodes, so it never grows past the
    heap: fuel above the number of allocated nodes is enough. *)
Lemma traverse_some f : forall path d a,
  NoDup path -> incl path (addrs g) -> length (addrs g) < length path + f ->
  traverse g f path d a <> None.
Proof.
  induction f as [|f IH]; intros path d a Hnd Hincl Hlen.
  - pose proof (NoDup_incl_length Hnd Hincl). lia.
  - cbn [traverse]. apply visit_children_some. intros c Hc Hp. apply IH.
    + constructor; [|exact Hnd]. intros Hin. apply Bool.not_true_iff_false in Hp. apply Hp.
      apply existsb_exists. exists c. split; [exact Hin|apply Nat.eqb_refl].
    + intros x [<-|Hx]; [apply (child_allocated a); exact Hc|apply Hincl, Hx].
    + cbn [length]. lia.
Qed.

(** [traverse] from an allocated root ends with [length (addrs g) + 1]
    fuel, on every graph, cyclic or not. *)
Lemma traverse_total r : In r (addrs g) -> traverse g (S (length (addrs g))) [r] 1 r <> None.
Proof.
  intros Hr. apply traverse_some; [repeat constructor; intros []| intros x [<-|[]]; exact Hr|cbn; lia].
Qed.

End Total.

End TraverseFacts.

Module TraverseExamples.
Import Traverse TraverseFacts.

Lemma display_children_refines_witness :
  exists vs, traverse (add_parent ClassRelRuns.g_A 0 ($"B") ($"_no_file_")) 2 [1] 1 1 = Some vs /\
    Forall (fun v => v_cycle v = false) vs /\
    display_children (add_parent ClassRelRuns.g_A 0 ($"B") ($"_no_file_")) 2 TEXT_CHAR [] 14 1
      = Some (render (add_parent ClassRelRuns.g_A 0 ($"B") ($"_no_file_")) TEXT_CHAR 14 vs).
Proof.
  apply (display_children_refines _ _ _ (fun a => if Nat.eqb a 1 then 1 else 0)); [|vm_compute; lia].
  intros a b H. unfold child_edge in H.
  destruct a as [|[|a]]; vm_compute in H;
    repeat match goal with Hd : _ \/ _ |- _ => destruct Hd as [Hd|Hd] end;
    try contradiction; try discriminate;
    match goal with Hs : Some _ = Some _ |- _ => inv Hs end; vm_compute; lia.
Defined.

End TraverseExamples.
