(* ===== verification/Viz.v ===== *)
(** * Viz: the Graphviz and JavaScript renderers

    With [cset == VIZ_CHAR] ([-z]) or [cset == JAVA_CHAR] ([-j]),
    [display_dependences] of [src/javatree/javatree.cpp] prints the class
    tree through the four-argument [display_children(parentNum, width,
    parent_ptr, pparent_ptr)]: a Graphviz [digraph] body (node attribute
    lines and [->] edges, with [display_interfaces] adding the interface
    nodes), or the calls [d.add(id, parentId, name, file)] of the
    JavaScript [dTree] widget, where the ids come from the global counter
    [static int sNodeNum].  The state threaded here is the text written
    to [cout] and [cerr] and the counter; the recursion carries fuel.

    [ReplaceAll] is declared in [lstring.h], outside [src/]; it is
    modelled from its use as the replacement of every occurrence of a
    non-empty text, left to right. *)

From Stdlib Require Import Ascii String List Lia ZArith Bool DecimalString.
From S2P Require Import Prelude Registry ClassRel Render.
Import ListNotations.
Open Scope jt_scope.
Import ClassRel Render.

Module Viz.

(** [ReplaceAll(str, from, to)] for a non-empty [from]: every occurrence,
    scanned left to right, is replaced and the scan resumes after it. *)
Fixpoint replace_all_loop (fuel : nat) (from to s : lstring) : lstring :=
  match fuel with
  | O => s
  | S f =>
      match s with
      | [] => []
      | c :: s' =>
          if starts_with from s then to ++ replace_all_loop f from to (skipn (length from) s)
          else c :: replace_all_loop f from to s'
      end
  end.

Definition ReplaceAll (s from to : lstring) : lstring := replace_all_loop (length s) from to s.

(** [cout << n] for a non-negative [int] or [size_t]. *)
Definition dec (n : nat) : lstring := list_ascii_of_string (NilZero.string_of_uint (Nat.to_uint n)).

Definition dq : lstring := [ascii_of_nat 34].
Definition endl : lstring := [ascii_of_nat 10].
Definition sDot : lstring := $".".
Definition sNL : lstring := [ascii_of_nat 92; "n"%char].

(** [modifier().find(word) != -1]. *)
Definition has_word (word m : lstring) : bool :=
  match str_find word m 0 with Some _ => true | None => false end.

Definition nonempty (s : lstring) : bool := match s with [] => false | _ => true end.

Definition green : lstring := $" [color=green] ".
Definition chartreuse : lstring := $" [fillcolor=chartreuse] ".
Definition red : lstring := $" [color=red] ".
Definition cyan1 : lstring := $" [fillcolor=cyan1]".
Definition cyan4 : lstring := $" [fillcolor=cyan4]".

(** What the renderer writes, and the counter [sNodeNum]. *)
Record VizState := mkVS {
  cout : lstring;
  cerr : lstring;
  sNodeNum : nat }.

Definition emit (s : lstring) (st : VizState) : VizState :=
  mkVS (cout st ++ s) (cerr st) (sNodeNum st).

Definition emit_err (s : lstring) (st : VizState) : VizState :=
  mkVS (cout st) (cerr st ++ s) (sNodeNum st).

(** The line [d.add(id,parentNum,'name','file');]. *)
Definition js_add (id parentNum : nat) (name file : lstring) : lstring :=
  $"d.add(" ++ dec id ++ $"," ++ dec parentNum ++ $",'" ++ ReplaceAll name ($"<") ($"&lt;")
  ++ $"','" ++ file ++ $"');" ++ endl.

Section Draw.
Context {M : Type -> Type} `{SM : StrMap M}.
Variable g : @Graph M.
(** [cset == VIZ_CHAR]; otherwise the [JAVA_CHAR] output. *)
Variable viz : bool.
Variable importPackage : bool.

Let node := Render.node g.

(** The [while] loop of [display_interfaces]: up to the first empty link,
    skipping nodes whose modifier is [file]; [sep] is the separator of
    the non-Graphviz branch. *)
Fixpoint interfaces_loop (pname : lstring) (links : ClassLinkage) (sep : lstring) (cnt : nat)
         (st : VizState) : VizState * nat :=
  match links with
  | Some r :: rest =>
      if my_modifier (node r) =s? $"file" then interfaces_loop pname rest sep cnt st
      else
        let name := my_name (node r) in
        if viz then
          interfaces_loop pname rest sep (S cnt)
            (emit (dq ++ name ++ dq ++ $"  [style=filled, fillcolor=yellow] " ++ endl
                   ++ dq ++ name ++ dq ++ $" -> " ++ dq ++ pname ++ dq
                   ++ $" [color=red,penwidth=3.0] " ++ endl) st)
        else interfaces_loop pname rest ($", ") (S cnt) (emit (sep ++ name) st)
  | _ => (st, cnt)
  end.

(** [display_interfaces(parentNum, width, parent_ptr)]. *)
Definition display_interfaces (parent : addr) (st : VizState) : VizState * nat :=
  interfaces_loop (my_name (node parent)) (my_interfaces (node parent)) [] 0 st.

(** The lines the Graphviz branch prints for the edge [parent -> c],
    with the attribute strings [pm] ([parendModStr]) and [cm]
    ([childModStr]) as they are after the three [if]s. *)
Definition viz_edge (parent c : addr) (pm cm : lstring) : lstring :=
  let cn := ReplaceAll (my_name (node c)) sDot sNL in
  let pn := ReplaceAll (my_name (node parent)) sDot sNL in
  (if nonempty pm then dq ++ pn ++ dq ++ $" " ++ pm ++ endl else [])
  ++ (if nonempty cm then dq ++ cn ++ dq ++ $" " ++ cm ++ endl else [])
  ++ dq ++ pn ++ dq ++ $" -> " ++ dq ++ cn ++ dq ++ endl.

(** The [while] loop over the children links of [display_children];
    [pm] and [cm] are the locals [parendModStr] and [childModStr], which
    keep their values from one child to the next; [rec] is the recursive
    call [display_children(sNodeNum++, width, child_ptr, parent_ptr)]. *)
Fixpoint children_viz_loop (rec : nat -> addr -> VizState -> option (VizState * nat))
         (parentNum : nat) (parent : addr) (pparent : option addr) (links : ClassLinkage)
         (pm cm : lstring) (cnt : nat) (st : VizState) : option (VizState * nat) :=
  match links with
  | [] => Some (st, cnt)
  | None :: rest => children_viz_loop rec parentNum parent pparent rest pm cm cnt st
  | Some c :: rest =>
      let '(pm', cm', st1) :=
        if viz then
          let pm1 := if has_word ($"abstract") (my_modifier (node parent))
                     then match pparent with None => green | Some _ => chartreuse end else pm in
          (* [parent_ptr] is never [NULL] here: the ternary takes its second branch *)
          let cm1 := if has_word ($"abstract") (my_modifier (node c)) then chartreuse else cm in
          let cm2 := if negb (has_word ($"public") (my_modifier (node c))) then red else cm1 in
          ([], cm2, emit (viz_edge parent c pm1 cm2) st)
        else (pm, cm, emit (js_add (sNodeNum st) parentNum (my_name (node c)) (my_file (node c))) st) in
      let num := sNodeNum st1 in
      match rec num c (mkVS (cout st1) (cerr st1) (S num)) with
      | None => None
      | Some (st2, k) => children_viz_loop rec parentNum parent pparent rest pm' cm' (cnt + 1 + k) st2
      end
  end.

(** The branch for a node without children. *)
Definition viz_leaf (parent : addr) (cnt : nat) (st : VizState) : VizState * nat :=
  let n := node parent in
  if viz then
    if importPackage then
      (match my_parents n with
       | None :: _ | [] => emit_err ($"Isolated package " ++ my_name n ++ endl) st
       | _ => st
       end, cnt)
    else
      let name := ReplaceAll (my_name n) sDot sNL in
      let cm1 := if has_word ($"abstract") (my_modifier n) then chartreuse else [] in
      let cm2 := if negb (has_word ($"public") (my_modifier n)) then red else cm1 in
      (emit ((if nonempty cm2 then dq ++ name ++ dq ++ $" " ++ cm2 ++ endl else []) ++ dq ++ name ++ dq ++ endl) st,
       S cnt)
  else (st, cnt).

(** [display_children(parentNum, width, parent_ptr, pparent_ptr)]: the
    new state and the returned [nodeCnt]; [None] when the fuel runs out. *)
Fixpoint display_children_viz (fuel : nat) (parentNum : nat) (parent : addr) (pparent : option addr)
         (st : VizState) : option (VizState * nat) :=
  match fuel with
  | O => None
  | S f =>
      let '(st0, cnt0, pm0) :=
        if viz then
          let '(st', k) := display_interfaces parent st in
          (st', k, match pparent with None => cyan1 | Some _ => cyan4 end)
        else (st, 0, []) in
      match my_children (node parent) with
      | Some _ :: _ =>
          children_viz_loop (fun pn c => display_children_viz f pn c (Some parent))
                            parentNum parent pparent (my_children (node parent)) pm0 [] cnt0 st0
      | _ => Some (viz_leaf parent cnt0 st0)
      end
  end.

(** The [JAVA_CHAR] loop of [display_dependences]: for each class
    without a parent, in key order, [d.add(sNodeNum,0,...)] and then
    [display_children(sNodeNum++, fileWidth, crel_ptr, NULL)]. *)
Fixpoint js_roots (fuel : nat) (es : list (lstring * addr)) (st : VizState) : option VizState :=
  match es with
  | [] => Some st
  | (_, a) :: rest =>
      if is_root g a then
        let st1 := emit (js_add (sNodeNum st) 0 (my_name (node a)) (my_file (node a))) st in
        match display_children_viz fuel (sNodeNum st1) a None
                (mkVS (cout st1) (cerr st1) (S (sNodeNum st1))) with
        | None => None
        | Some (st2, _) => js_roots fuel rest st2
        end
      else js_roots fuel rest st
  end.

End Draw.

(** [display_dependences()] with [cset == JAVA_CHAR] ([doc_classes] is
    empty for it), from the initial [sNodeNum = 1]: the text written. *)
Definition js_display_dependences {M} `{StrMap M} (g : @Graph M) (fuel : nat) : option lstring :=
  option_map cout (js_roots g false false fuel (melements (clist g)) (mkVS [] [] 1)).

(** ** [display_dependences] with [cset == VIZ_CHAR] *)

(** The global [outStream] and where [cout] writes: [SwapStream] (of a
    header outside [src/]) redirects [cout] into [outStream] on [swap]
    and back to the process's standard output on [restore]. *)
Record DepState := mkDS {
  d_stdout : lstring;
  d_files : list (lstring * lstring);   (** files opened, in order, with their bytes *)
  d_swapped : bool;
  d_open : bool;                        (** [outStream.is_open()] *)
  d_good : bool;                        (** [outStream.good()] *)
  d_needHeader : bool;
  d_cerr : lstring;
  d_num : nat }.                        (** [sNodeNum] *)

(** Before [display_dependences]: nothing written, [outStream] never
    opened (and so [good]), [needHeader] and [sNodeNum = 1]. *)
Definition dep_init : DepState := mkDS [] [] false false true true [] 1.

Fixpoint append_last (s : lstring) (fs : list (lstring * lstring)) : list (lstring * lstring) :=
  match fs with
  | [] => []
  | [(n, c)] => [(n, c ++ s)]
  | f :: rest => f :: append_last s rest
  end.

(** [cout << s]. *)
Definition cout_write (s : lstring) (d : DepState) : DepState :=
  if d_swapped d
  then mkDS (d_stdout d) (append_last s (d_files d)) true (d_open d) (d_good d) (d_needHeader d) (d_cerr d) (d_num d)
  else mkDS (d_stdout d ++ s) (d_files d) false (d_open d) (d_good d) (d_needHeader d) (d_cerr d) (d_num d).

Definition cerr_write (s : lstring) (d : DepState) : DepState :=
  mkDS (d_stdout d) (d_files d) (d_swapped d) (d_open d) (d_good d) (d_needHeader d) (d_cerr d ++ s) (d_num d).

Definition set_swapped (b : bool) (d : DepState) : DepState :=
  mkDS (d_stdout d) (d_files d) b (d_open d) (d_good d) (d_needHeader d) (d_cerr d) (d_num d).

Definition set_needHeader (b : bool) (d : DepState) : DepState :=
  mkDS (d_stdout d) (d_files d) (d_swapped d) (d_open d) (d_good d) b (d_cerr d) (d_num d).

(** [outStream.close()]: [failbit] when no file is open. *)
Definition os_close (d : DepState) : DepState :=
  mkDS (d_stdout d) (d_files d) (d_swapped d) false (d_good d && d_open d) (d_needHeader d) (d_cerr d) (d_num d).

(** [outStream.open(name)]: success ([can_open]) clears the state. *)
Definition os_open (can_open : lstring -> bool) (name : lstring) (d : DepState) : DepState :=
  if can_open name
  then mkDS (d_stdout d) (d_files d ++ [(name, [])]) (d_swapped d) true true (d_needHeader d) (d_cerr d) (d_num d)
  else mkDS (d_stdout d) (d_files d) (d_swapped d) false false (d_needHeader d) (d_cerr d) (d_num d).

(** The [size_t] value [-1]. *)
Definition size_max : Z := (2 ^ 64 - 1)%Z.

(** [NextFile(out, nodeCnt, nextNodeCnt)]: whether to start a new file,
    and [nodeCnt] after the call; [size_t] arithmetic wraps and the [int]
    [nodesPerFile] is converted to [size_t] in the comparisons. *)
Definition NextFile (outPath : lstring) (vizSplit : bool) (nodesPerFile : Z) (out_good : bool)
           (nodeCnt nextNodeCnt : Z) : bool * Z :=
  if negb (nonempty outPath) then (false, nodeCnt)
  else
    let next := negb out_good || Z.eqb nodeCnt size_max || vizSplit
                || (negb (Z.eqb nodesPerFile 0)
                    && Z.ltb (size_of_int nodesPerFile) ((nodeCnt * 2) mod 2 ^ 64)
                    && Z.ltb (size_of_int nodesPerFile) ((nodeCnt + nextNodeCnt / 2) mod 2 ^ 64)) in
    (next, if next then 0%Z else nodeCnt).

(** [std::regex_replace(outFile, "[<,>?]", "_")]. *)
Definition dos_special (s : lstring) : lstring :=
  map (fun c => if mem_char c $"<,>?" then "_"%char else c) s.

(** [outVizHeader()]. *)
Definition outVizHeader (graphName title : lstring) (d : DepState) : DepState :=
  set_needHeader false
    (cout_write ($"digraph " ++ graphName ++ $" {" ++ endl ++ $"bgcolor=transparent" ++ endl
                 ++ $"overlap=false;" ++ endl ++ $"label=" ++ dq ++ title
                 ++ $" Class Hierarchy - Dennis Lang & GraphViz" ++ dq ++ $";" ++ endl
                 ++ $"fontsize=12;" ++ endl ++ $"node [shape=box,style=filled,fillcolor=white];" ++ endl) d).

(** [outVizTrailer()]. *)
Definition outVizTrailer (d : DepState) : DepState := cout_write ($"}" ++ endl) d.

(** The [if (outStream.good())] block that ends the current file. *)
Definition end_file (d : DepState) : DepState :=
  if d_good d then os_close (set_swapped false (outVizTrailer d)) else d.

Section VizDep.
Context {M : Type -> Type} `{SM : StrMap M}.
Variable g : @Graph M.
Variable importPackage : bool.
Variable outPath graphName title : lstring.
Variable vizSplit : bool.
Variable nodesPerFile : Z.
(** Whether the file system lets [outStream.open] create a file. *)
Variable can_open : lstring -> bool.

(** The body of [if (NextFile(...))] for the root [a]. *)
Definition new_file (a : addr) (d : DepState) : DepState :=
  let d1 := set_needHeader true (end_file d) in
  let outFile := dos_special (outPath ++ my_name (node g a) ++ $".gv") in
  let d2 := os_open can_open outFile d1 in
  if d_good d2 then set_swapped true d2 else cerr_write ($"Failed to open " ++ outFile ++ endl) d2.

(** [nodeCnt += display_children(sNodeNum, fileWidth, crel_ptr, NULL)]
    run on the current [cout]. *)
Definition draw_root (fuel : nat) (a : addr) (d : DepState) : option (DepState * nat) :=
  match display_children_viz g true importPackage fuel (d_num d) a None (mkVS [] (d_cerr d) (d_num d)) with
  | None => None
  | Some (st, k) =>
      let d1 := cout_write (cout st) d in
      Some (mkDS (d_stdout d1) (d_files d1) (d_swapped d1) (d_open d1) (d_good d1) (d_needHeader d1)
                 (cerr st) (sNodeNum st), k)
  end.

Definition incr_num (d : DepState) : DepState :=
  mkDS (d_stdout d) (d_files d) (d_swapped d) (d_open d) (d_good d) (d_needHeader d) (d_cerr d) (S (d_num d)).

(** The second loop of [display_dependences] in the [VIZ_CHAR] branch. *)
Fixpoint viz_roots (fuel : nat) (es : list (lstring * addr)) (nodeCnt : Z) (d : DepState)
  : option (DepState * Z) :=
  match es with
  | [] => Some (d, nodeCnt)
  | (_, a) :: rest =>
      if is_root g a then
        match count_children g fuel true a with
        | None => None
        | Some cc =>
            let '(nf, nc1) := NextFile outPath vizSplit nodesPerFile (d_good d) nodeCnt (Z.of_nat cc) in
            let d1 := if nf then new_file a d else d in
            let d2 := if d_needHeader d1 then outVizHeader graphName title d1 else d1 in
            match draw_root fuel a d2 with
            | None => None
            | Some (d3, k) => viz_roots fuel rest ((nc1 + Z.of_nat k) mod 2 ^ 64) (incr_num d3)
            end
        end
      else viz_roots fuel rest nodeCnt d
  end.

(** [display_dependences()] with [cset == VIZ_CHAR]. *)
Definition viz_display_dependences (fuel : nat) (d : DepState) : option DepState :=
  match viz_roots fuel (melements (clist g)) size_max d with
  | None => None
  | Some (d', _) => Some (end_file d')
  end.

End VizDep.

End Viz.

Module VizRuns.
Import Viz.

(** [A] (package-private, from [A.java]) and [B] (public, from
    [B.java]) both extend [P]. *)
Definition viz_g : @Graph SortedMap :=
  let g1 := fst (AddClass empty_graph ($"A") [] ($"A.java")) in
  let g2 := fst (AddClass g1 ($"B") ($"public ") ($"B.java")) in
  add_parent (add_parent g2 0 ($"P") ($"P.java")) 1 ($"P") ($"P.java").

(** [javatree -z] and [javatree -z -O=out/] on [viz_g]. *)
Definition viz_run (outPath : lstring) : option DepState :=
  viz_display_dependences viz_g false outPath ($"G") ($"T") false 0 (fun _ => true) 3 dep_init.

Definition quoted (s : lstring) : lstring := dq ++ s ++ dq.

End VizRuns.

Module VizFacts.
Import Viz.

(** ** The JavaScript output is a well-formed [dTree] *)

(** A [d.add] record: its id, its parent's id and the node printed. *)
Definition js_rec : Type := nat * nat * addr.

Definition rec_id (r : js_rec) : nat := fst (fst r).
Definition rec_parent (r : js_rec) : nat := snd (fst r).

(** The ids of [recs] are [n], [n+1], ..., and every parent is [pn] or
    the id of an earlier record. *)
Definition dtree_ok (n pn : nat) (recs : list js_rec) : Prop :=
  map rec_id recs = seq n (length recs) /\
  Forall (fun r => rec_parent r = pn \/ (n <= rec_parent r /\ rec_parent r < rec_id r)) recs.

Definition js_text {M} `{StrMap M} (g : @Graph M) (recs : list js_rec) : lstring :=
  concat (map (fun r => js_add (rec_id r) (rec_parent r) (my_name (node g (snd r))) (my_file (node g (snd r)))) recs).

(** From [st] to [st'], the JavaScript renderer wrote the [d.add] records
    [recs] of a [dTree] fragment below [pn], numbered from [sNodeNum st],
    and returned [cnt] plus their number. *)
Definition js_step {M} `{StrMap M} (g : @Graph M) (pn cnt : nat) (st st' : VizState) (k : nat) : Prop :=
  exists recs, cout st' = cout st ++ js_text g recs /\ cerr st' = cerr st /\
    sNodeNum st' = sNodeNum st + length recs /\ k = cnt + length recs /\
    dtree_ok (sNodeNum st) pn recs.

(** No file yet: nothing written, [cout] not redirected, [nodeCnt = -1]. *)
Definition before_files (d : DepState) (nc : Z) : Prop :=
  d_stdout d = [] /\ d_swapped d = false /\ d_good d = true /\ nc = size_max.

(** A file is open and [cout] writes into it; the standard output holds
    the stray trailer. *)
Definition in_file (d : DepState) : Prop :=
  d_stdout d = $"}" ++ endl /\ d_swapped d = true /\ d_good d = true /\ d_open d = true.

(** From [st] to [st'] the renderer only appended to [cout]. *)
Definition appends (st st' : VizState) : Prop := exists t, cout st' = cout st ++ t.

(** [e] occurs in the text [s]. *)
Definition infix (e s : lstring) : Prop := exists u v, s = u ++ e ++ v.

(** The child [c] is not [abstract]: [childModStr] is not set to
    [chartreuse] for it. *)
Definition not_abstract {M} `{StrMap M} (g : @Graph M) (o : option addr) : Prop :=
  match o with Some c => has_word ($"abstract") (my_modifier (node g c)) = false | None => True end.

Lemma dtree_ok_nil n pn : dtree_ok n pn [].
Proof. split; [reflexivity|constructor]. Qed.

Lemma seq_ge n k i : In i (seq n k) -> n <= i.
Proof. rewrite in_seq. lia. Qed.

(** A record with the subtree below it and the records after it. *)
Lemma dtree_ok_node n pn c r1 r2 :
  dtree_ok (S n) n r1 -> dtree_ok (S n + length r1) pn r2 ->
  dtree_ok n pn ((n, pn, c) :: r1 ++ r2).
Proof.
  intros [I1 P1] [I2 P2]. split.
  - cbn [map length rec_id fst]. rewrite map_app, I1, I2, length_app.
    rewrite <- seq_app. reflexivity.
  - constructor; [left; reflexivity|]. apply Forall_app. split.
    + apply Forall_forall. intros r Hr.
      assert (Hi : S n <= rec_id r) by (apply (seq_ge _ (length r1)); rewrite <- I1; apply in_map, Hr).
      rewrite Forall_forall in P1. destruct (P1 r Hr) as [E|E]; right; lia.
    + apply Forall_forall. intros r Hr.
      assert (Hi : S n + length r1 <= rec_id r) by (apply (seq_ge _ (length r2)); rewrite <- I2; apply in_map, Hr).
      rewrite Forall_forall in P2. destruct (P2 r Hr) as [E|E]; [left|right]; lia.
Qed.

Section Js.
Context {M : Type -> Type} `{SM : StrMap M}.
Variable g : @Graph M.

Lemma js_step_refl pn cnt st : js_step g pn cnt st st cnt.
Proof. exists []. rewrite app_nil_r, Nat.add_0_r, Nat.add_0_r. repeat split; auto using dtree_ok_nil. Qed.

Lemma children_loop_js rec pn parent pp links pm cm :
  (forall num c st st' k, rec num c st = Some (st', k) -> js_step g num 0 st st' k) ->
  forall cnt st st' k, children_viz_loop g false rec pn parent pp links pm cm cnt st = Some (st', k) ->
  js_step g pn cnt st st' k.
Proof.
  intros Hrec. induction links as [|[c|] rest IH]; intros cnt st st' k E; cbn [children_viz_loop] in E.
  - inv E. apply js_step_refl.
  - destruct (rec _ c _) as [[st2 k2]|] eqn:E2; [|discriminate].
    destruct (Hrec _ _ _ _ _ E2) as [r1 [O1 [R1 [N1 [K1 D1]]]]].
    destruct (IH _ _ _ _ E) as [r2 [O2 [R2 [N2 [K2 D2]]]]]. cbn [cout cerr sNodeNum emit] in *.
    exists ((sNodeNum st, pn, c) :: r1 ++ r2). split; [|split; [congruence|split; [|split]]].
    + rewrite O2, O1. unfold js_text. cbn [map concat rec_id rec_parent fst snd].
      rewrite map_app, concat_app, !app_assoc. reflexivity.
    + cbn [length]. rewrite length_app. lia.
    + cbn [length]. rewrite length_app. lia.
    + apply dtree_ok_node; [exact D1|]. rewrite N1 in D2. exact D2.
  - exact (IH _ _ _ _ E).
Qed.

Lemma display_children_js ip fuel : forall pn a pp st st' k,
  display_children_viz g false ip fuel pn a pp st = Some (st', k) -> js_step g pn 0 st st' k.
Proof.
  induction fuel as [|f IH]; intros pn a pp st st' k E; [discriminate|]. cbn [display_children_viz] in E.
  destruct (my_children _) as [|[c|] rest]; try (inv E; apply js_step_refl).
  eapply children_loop_js; [|exact E]. intros num c' st1 st1' k1 E1. exact (IH _ _ _ _ _ _ E1).
Qed.

Lemma js_roots_dtree fuel es : forall st st',
  js_roots g false false fuel es st = Some st' ->
  exists recs, cout st' = cout st ++ js_text g recs /\ dtree_ok (sNodeNum st) 0 recs.
Proof.
  induction es as [|[k a] rest IH]; intros st st' E; cbn [js_roots] in E.
  - inv E. exists []. rewrite app_nil_r. split; auto using dtree_ok_nil.
  - destruct (is_root g a); [|exact (IH _ _ E)].
    destruct (display_children_viz _ _ _ _ _ _ _ _) as [[st2 k2]|] eqn:E2; [|discriminate].
    destruct (display_children_js _ _ _ _ _ _ _ _ E2) as [r1 [O1 [_ [N1 [_ D1]]]]].
    destruct (IH _ _ E) as [r2 [O2 D2]]. cbn [cout cerr sNodeNum emit] in *.
    exists ((sNodeNum st, 0, a) :: r1 ++ r2). split.
    + rewrite O2, O1. unfold js_text. cbn [map concat rec_id rec_parent fst snd].
      rewrite map_app, concat_app, !app_assoc. reflexivity.
    + apply dtree_ok_node; [exact D1|]. rewrite N1 in D2. exact D2.
Qed.

(** *** Termination on acyclic graphs *)

Lemma children_viz_loop_some viz rec pn parent pp links :
  (forall num c st, In (Some c) links -> rec num c st <> None) ->
  forall pm cm cnt st, children_viz_loop g viz rec pn parent pp links pm cm cnt st <> None.
Proof.
  intros Hrec. induction links as [|[c|] rest IH]; intros pm cm cnt st; cbn [children_viz_loop]; [discriminate| |].
  - destruct (if viz then _ else _) as [[pm' cm'] st1].
    destruct (rec _ c _) as [[st2 k2]|] eqn:E; [|exfalso; eapply Hrec; [left; reflexivity|exact E]].
    apply IH. intros num d st' Hd. apply Hrec. right. exact Hd.
  - apply IH. intros num d st' Hd. apply Hrec. right. exact Hd.
Qed.

Lemma display_children_viz_some viz ip (rank : addr -> nat) :
  (forall a b, child_edge g a b -> rank b < rank a) ->
  forall fuel pn a pp st, rank a < fuel -> display_children_viz g viz ip fuel pn a pp st <> None.
Proof.
  intros Hrank fuel. induction fuel as [|f IH]; intros pn a pp st Ha; [lia|]. cbn [display_children_viz].
  destruct (if viz then _ else _) as [[st0 cnt0] pm0].
  destruct (my_children (node g a)) as [|[c|] rest] eqn:Ec; try discriminate.
  rewrite <- Ec. apply children_viz_loop_some. intros num d st' Hd. apply IH.
  specialize (Hrank a d Hd). lia.
Qed.

Lemma js_roots_some (rank : addr -> nat) fuel es :
  (forall a b, child_edge g a b -> rank b < rank a) -> (forall a, rank a < fuel) ->
  forall st, js_roots g false false fuel es st <> None.
Proof.
  intros Hrank Hf. induction es as [|[k a] rest IH]; intros st; cbn [js_roots]; [discriminate|].
  destruct (is_root g a); [|apply IH].
  destruct (display_children_viz _ _ _ _ _ _ _ _) as [[st2 k2]|] eqn:E; [apply IH|].
  exfalso. eapply display_children_viz_some; [exact Hrank|apply (Hf a)|exact E].
Qed.

End Js.

(** C10: on a graph whose child relation is ranked (so has no cycle),
    the [JAVA_CHAR] output of [display_dependences] is produced with
    enough fuel and is a well-formed [dTree] script: a sequence of
    [d.add(id, parentId, name, file)] lines whose ids are 1, 2, 3, ...
    in order and whose parent ids are 0 (the page's root, added by
    [main]) or the id of an earlier line. *)
Theorem js_display_dependences_dtree {M} `{SM : StrMap M} (g : @Graph M) (rank : addr -> nat) fuel :
  (forall a b, child_edge g a b -> rank b < rank a) -> (forall a, rank a < fuel) ->
  exists recs, js_display_dependences g fuel = Some (js_text g recs) /\ dtree_ok 1 0 recs.
Proof.
  intros Hrank Hf. unfold js_display_dependences.
  destruct (js_roots g false false fuel (melements (clist g)) (mkVS [] [] 1)) as [st'|] eqn:E.
  - destruct (js_roots_dtree g _ _ _ _ E) as [recs [O D]]. exists recs. split; [|exact D].
    cbn [option_map]. rewrite O. reflexivity.
  - exfalso. exact (js_roots_some g rank fuel _ Hrank Hf _ E).
Qed.

(** ** [childModStr] carries over between siblings *)

Section ChildMod.
Context {M : Type -> Type} `{SM : StrMap M}.
Variable g : @Graph M.

Lemma appends_refl st : appends st st.
Proof. exists []. rewrite app_nil_r. reflexivity. Qed.

Lemma appends_trans st1 st2 st3 : appends st1 st2 -> appends st2 st3 -> appends st1 st3.
Proof. intros [t1 E1] [t2 E2]. exists (t1 ++ t2). rewrite E2, E1, app_assoc. reflexivity. Qed.

Lemma children_loop_appends viz rec pn parent pp links :
  (forall num c st st' k, rec num c st = Some (st', k) -> appends st st') ->
  forall pm cm cnt st st' k, children_viz_loop g viz rec pn parent pp links pm cm cnt st = Some (st', k) ->
  appends st st'.
Proof.
  intros Hrec. induction links as [|[c|] rest IH]; intros pm cm cnt st st' k E; cbn [children_viz_loop] in E;
    [inv E; apply appends_refl| |eauto].
  destruct (if viz then _ else _) as [[pm' cm'] st1] eqn:E1.
  assert (A1 : appends st st1) by (destruct viz; inv E1; eexists; reflexivity).
  destruct (rec _ c _) as [[st2 k2]|] eqn:E2; [|discriminate].
  apply (appends_trans _ st1); [exact A1|]. apply (appends_trans _ st2); [|eauto].
  destruct (Hrec _ _ _ _ _ E2) as [t Et]. exists t. exact Et.
Qed.

Lemma interfaces_loop_cout viz pname links : forall sep cnt st st' k,
  interfaces_loop g viz pname links sep cnt st = (st', k) -> appends st st'.
Proof.
  induction links as [|[r|] rest IH]; intros sep cnt st st' k E; cbn [interfaces_loop] in E;
    [inv E; apply appends_refl| |inv E; apply appends_refl].
  destruct (_ =s? _); [eauto|].
  destruct viz; (eapply appends_trans; [|eapply IH; exact E]); eexists; reflexivity.
Qed.

Lemma viz_leaf_appends viz ip a cnt st : appends st (fst (viz_leaf g viz ip a cnt st)).
Proof.
  unfold viz_leaf. destruct viz; [destruct ip; [destruct (my_parents _) as [|[]]|]|]; cbn [fst];
    first [apply appends_refl | exists []; cbn; rewrite app_nil_r; reflexivity | eexists; reflexivity].
Qed.

Lemma display_children_viz_appends viz ip fuel : forall pn a pp st st' k,
  display_children_viz g viz ip fuel pn a pp st = Some (st', k) -> appends st st'.
Proof.
  induction fuel as [|f IH]; intros pn a pp st st' k E; [discriminate|]. cbn [display_children_viz] in E.
  destruct (if viz then _ else _) as [[st0 cnt0] pm0] eqn:E0.
  assert (A0 : appends st st0).
  { destruct viz; [|inv E0; apply appends_refl].
    unfold display_interfaces in E0. destruct (interfaces_loop _ _ _ _ _ _ _) as [st1 k1] eqn:Ei. inv E0.
    exact (interfaces_loop_cout _ _ _ _ _ _ _ _ Ei). }
  apply (appends_trans _ st0); [exact A0|].
  destruct (my_children (node g a)) as [|[c|] rest];
    try (injection E as E; pose proof (viz_leaf_appends viz ip a cnt0 st0) as H; rewrite E in H; exact H).
  eapply children_loop_appends; [|exact E]. intros ? ? ? ? ? H. eapply IH. exact H.
Qed.

(** With [childModStr] red, every later child that is not [abstract]
    is drawn red. *)
Lemma children_loop_red rec pn parent pp l2 b l3 :
  (forall num c st st' k, rec num c st = Some (st', k) -> appends st st') ->
  Forall (not_abstract g) (l2 ++ [Some b]) ->
  forall pm cnt st st' k, children_viz_loop g true rec pn parent pp (l2 ++ Some b :: l3) pm red cnt st = Some (st', k) ->
  exists pm' u v, cout st' = u ++ viz_edge g parent b pm' red ++ v.
Proof.
  intros Hrec. induction l2 as [|[c|] rest IH]; intros Hna pm cnt st st' k E; cbn [app children_viz_loop] in E.
  - inv Hna. unfold not_abstract in *. match goal with H : has_word _ _ = false |- _ => rewrite H in E end.
    destruct (negb _); destruct (rec _ b _) as [[st2 k2]|] eqn:E2; try discriminate;
      destruct (Hrec _ _ _ _ _ E2) as [t2 E2'];
      destruct (children_loop_appends _ _ _ _ _ _ Hrec _ _ _ _ _ _ E) as [t3 E3];
      cbn [cout emit] in *; eexists _, (cout st), (t2 ++ t3); rewrite E3, E2', <- !app_assoc; reflexivity.
  - inv Hna. unfold not_abstract in *. match goal with H : has_word _ _ = false |- _ => rewrite H in E end.
    replace (if negb _ then red else red) with red in E by (destruct (negb _); reflexivity).
    destruct (rec _ c _) as [[st2 k2]|]; [eapply IH; eauto|discriminate].
  - inv Hna. eapply IH; eauto.
Qed.

(** A non-[public] child sets [childModStr] to red for the children
    after it. *)
Lemma children_loop_nonpublic rec pn parent pp l1 a l2 b l3 :
  (forall num c st st' k, rec num c st = Some (st', k) -> appends st st') ->
  has_word ($"public") (my_modifier (node g a)) = false -> Forall (not_abstract g) (l2 ++ [Some b]) ->
  forall pm cm cnt st st' k,
  children_viz_loop g true rec pn parent pp (l1 ++ Some a :: l2 ++ Some b :: l3) pm cm cnt st = Some (st', k) ->
  exists pm' u v, cout st' = u ++ viz_edge g parent b pm' red ++ v.
Proof.
  intros Hrec Ha Hna. induction l1 as [|[c|] rest IH]; intros pm cm cnt st st' k E;
    cbn [app children_viz_loop] in E.
  - rewrite Ha in E. cbn [negb] in E. destruct (rec _ a _) as [[st2 k2]|]; [|discriminate].
    eapply children_loop_red; [exact Hrec|exact Hna|exact E].
  - destruct (rec _ c _) as [[st2 k2]|]; [eapply IH; exact E|discriminate].
  - eapply IH; exact E.
Qed.

End ChildMod.

(** C32: [childModStr] is never reset between the children of a node:
    in the Graphviz output, once a child that is not [public] has been
    drawn, every later child that is not [abstract] (with no [abstract]
    child in between) is drawn with [ [color=red] ], also when it is
    [public]. *)
Theorem viz_child_mod_not_reset {M} `{SM : StrMap M} (g : @Graph M) ip fuel pn parent pp l1 a l2 b l3
        st st' k :
  my_children (node g parent) = l1 ++ Some a :: l2 ++ Some b :: l3 ->
  hd None (my_children (node g parent)) <> None ->
  has_word ($"public") (my_modifier (node g a)) = false ->
  Forall (not_abstract g) (l2 ++ [Some b]) ->
  display_children_viz g true ip fuel pn parent pp st = Some (st', k) ->
  exists pm u v, cout st' = u ++ viz_edge g parent b pm red ++ v.
Proof.
  intros Hc Hhd Ha Hna E. destruct fuel as [|f]; [discriminate|]. cbn [display_children_viz] in E.
  destruct (display_interfaces g true parent st) as [st0 k0].
  destruct (my_children (node g parent)) as [|[c|] rest] eqn:Ec; try (cbn in Hhd; congruence).
  cbv beta iota in E. replace (Some c :: rest) with (l1 ++ Some a :: l2 ++ Some b :: l3) in E by congruence. eapply children_loop_nonpublic; [|exact Ha|exact Hna|exact E].
  intros ? ? ? ? ? H. exact (display_children_viz_appends _ _ _ _ _ _ _ _ _ _ H).
Qed.

(** ** Interface counts *)

Lemma interfaces_loop_count {M} `{SM : StrMap M} (g : @Graph M) viz pname links :
  forall sep cnt st, snd (interfaces_loop g viz pname links sep cnt st) = cnt + count_interface_links g links.
Proof.
  induction links as [|[r|] rest IH]; intros sep cnt st; cbn [interfaces_loop count_interface_links snd]; [lia| |lia].
  destruct (_ =s? _); [rewrite IH; lia|]. destruct viz; rewrite IH; lia.
Qed.

(** The number of interface nodes [display_interfaces] draws is the
    number [count_interfaces] predicts for [count_children] (and so for
    [NextFile]'s node budget): both skip the nodes whose modifier is
    [file] and stop at the first empty link. *)
Theorem display_interfaces_count {M} `{SM : StrMap M} (g : @Graph M) viz a st :
  snd (display_interfaces g viz a st) = count_interfaces g a.
Proof. unfold display_interfaces, count_interfaces. rewrite interfaces_loop_count. reflexivity. Qed.

(** ** Where the Graphviz output goes with [-O] *)

Section OutPath.
Context {M : Type -> Type} `{SM : StrMap M}.
Variable g : @Graph M.
Variable importPackage : bool.
Variable outPath graphName title : lstring.
Variable vizSplit : bool.
Variable nodesPerFile : Z.
Variable can_open : lstring -> bool.
Hypothesis outPath_set : nonempty outPath = true.
Hypothesis opens : forall name, can_open name = true.

Ltac ds_simpl := repeat match goal with d : DepState |- _ => destruct d end;
  unfold in_file, before_files in *; cbn [d_stdout d_swapped d_good d_open d_needHeader d_files d_cerr d_num] in *.

Lemma in_file_cout_write s d : in_file d -> in_file (cout_write s d).
Proof. unfold cout_write. intros H. destruct H as (H1 & H2 & H3 & H4). rewrite H2. ds_simpl. auto. Qed.

Lemma in_file_header d : in_file d -> in_file (outVizHeader graphName title d).
Proof.
  intros H. unfold outVizHeader.
  match goal with |- in_file (set_needHeader _ (cout_write ?s _)) => apply (in_file_cout_write s) in H end.
  unfold set_needHeader. ds_simpl. exact H.
Qed.

Lemma in_file_new_file a d : in_file d \/ d_stdout d = [] /\ d_swapped d = false /\ d_good d = true ->
  in_file (new_file g outPath can_open a d).
Proof.
  intros H. unfold new_file, end_file, os_open. rewrite opens.
  assert (E : d_good d = true) by (destruct H as [(_ & _ & ? & _)|(_ & _ & ?)]; auto). rewrite E.
  destruct H as [H|(H1 & H2 & _)].
  - apply (in_file_cout_write ($"}" ++ endl)) in H. unfold outVizTrailer. ds_simpl. intuition congruence.
  - unfold outVizTrailer, cout_write. rewrite H2. ds_simpl. subst. intuition congruence.
Qed.

Lemma in_file_draw_root fuel a d d' k : in_file d -> draw_root g importPackage fuel a d = Some (d', k) -> in_file d'.
Proof.
  unfold draw_root. destruct (display_children_viz _ _ _ _ _ _ _ _) as [[st k']|]; [|discriminate].
  intros H E. inv E. apply (in_file_cout_write (cout st)) in H. ds_simpl. exact H.
Qed.

Lemma viz_roots_outpath fuel es : forall d nc d' nc',
  before_files d nc \/ in_file d ->
  viz_roots g importPackage outPath graphName title vizSplit nodesPerFile can_open fuel es nc d = Some (d', nc') ->
  before_files d' nc' \/ in_file d'.
Proof.
  induction es as [|[k a] rest IH]; intros d nc d' nc' H E; cbn [viz_roots] in E; [inv E; exact H|].
  destruct (is_root g a); [|exact (IH _ _ _ _ H E)].
  destruct (count_children g fuel true a) as [cc|]; [|discriminate].
  destruct (NextFile _ _ _ _ _ _) as [nf nc1] eqn:Hn.
  assert (H1 : in_file (if nf then new_file g outPath can_open a d else d)).
  { destruct H as [(S1 & S2 & S3 & ->)|H].
    - replace nf with true.
      + apply in_file_new_file. right. auto.
      + unfold NextFile in Hn. rewrite outPath_set, S3 in Hn. cbn in Hn. inv Hn. reflexivity.
    - destruct nf; [apply in_file_new_file; left|]; exact H. }
  set (d1 := if nf then _ else _) in *.
  assert (H2 : in_file (if d_needHeader d1 then outVizHeader graphName title d1 else d1))
    by (destruct (d_needHeader d1); auto using in_file_header).
  destruct (draw_root _ _ _ _ _) as [[d3 k3]|] eqn:E3; [|discriminate].
  refine (IH _ _ _ _ (or_intror _) E).
  apply (in_file_draw_root _ _ _ _ _ H2) in E3. unfold incr_num. ds_simpl. exact E3.
Qed.

End OutPath.

(** C31: with an output path ([-O]) and files that open, the standard
    output of [javatree -z] receives exactly one stray closing brace: the
    first root finds [outStream] good (it was never opened), so the
    [outVizTrailer] meant for the previous file goes to the standard
    output; everything else goes to the [.gv] files. *)
Theorem viz_outpath_stdout {M} `{SM : StrMap M} (g : @Graph M) importPackage outPath graphName title
        vizSplit nodesPerFile can_open fuel d :
  nonempty outPath = true -> (forall name, can_open name = true) ->
  viz_display_dependences g importPackage outPath graphName title vizSplit nodesPerFile can_open fuel dep_init
    = Some d ->
  d_stdout d = $"}" ++ endl.
Proof.
  intros Hp Ho. unfold viz_display_dependences.
  destruct (viz_roots _ _ _ _ _ _ _ _ _ _ _ _) as [[d' nc']|] eqn:E; [|discriminate]. intros Eq. inv Eq.
  assert (H0 : before_files dep_init size_max) by (repeat split).
  destruct (viz_roots_outpath _ _ _ _ _ _ _ _ Hp Ho _ _ _ _ _ _ (or_introl H0) E)
    as [(S1 & S2 & S3 & _)|(S1 & S2 & S3 & S4)];
    unfold end_file, outVizTrailer, cout_write; rewrite S3, S2; destruct d'; cbn in *; subst; reflexivity.
Qed.

End VizFacts.

(** ** Graphviz and JavaScript runs *)

Module VizExamples.
Import Viz VizFacts VizRuns.

Lemma viz_child_mod_not_reset_witness :
  has_word ($"public") (my_modifier (node viz_g 1)) = true /\
  match display_children_viz viz_g true false 3 1 2 None (mkVS [] [] 2) with
  | Some (st', _) => exists pm u v, cout st' = u ++ viz_edge viz_g 2 1 pm red ++ v
  | None => False
  end.
Proof.
  split; [vm_compute; reflexivity|].
  destruct (display_children_viz viz_g true false 3 1 2 None (mkVS [] [] 2)) as [[st' k]|] eqn:E;
    [|vm_compute in E; discriminate E].
  apply (viz_child_mod_not_reset viz_g false 3 1 2 None [] 0 [] 1 [] (mkVS [] [] 2) st' k);
    [vm_compute; reflexivity|vm_compute; discriminate|vm_compute; reflexivity
    |apply Forall_cons; [vm_compute; reflexivity|constructor]|exact E].
Defined.

Lemma viz_outpath_stdout_witness :
  exists d, viz_run ($"out/") = Some d /\ d_stdout d = $"}" ++ endl /\ map fst (d_files d) = [$"out/P.gv"].
Proof.
  exists (match viz_run ($"out/") with Some d => d | None => dep_init end).
  split; [vm_compute; reflexivity|]. split; [|vm_compute; reflexivity].
  apply (viz_outpath_stdout viz_g false ($"out/") ($"G") ($"T") false 0 (fun _ => true) 3);
    [reflexivity|reflexivity|vm_compute; reflexivity].
Defined.

(** [display_children] counts every childless node twice (once by
    its parent's loop, once by its own branch), so the node count the
    Graphviz output accumulates exceeds the [count_children] estimate
    [NextFile] uses: 4 against 2 for [P] with the two leaves [A], [B]. *)
Example viz_leaf_double_count :
  count_children viz_g 3 true 2 = Some 2 /\
  option_map snd (display_children_viz viz_g true false 3 1 2 None (mkVS [] [] 1)) = Some 4.
Proof. vm_compute. split; reflexivity. Qed.

(** [javatree -j] on [viz_g]: the root [P] is added below the page
    root 0 and both children below [P], with consecutive ids. *)
Example js_tree_example :
  js_display_dependences viz_g 3
    = Some ($"d.add(1,0,'P','P.java');" ++ endl ++ $"d.add(2,1,'A','A.java');" ++ endl
            ++ $"d.add(3,1,'B','B.java');" ++ endl).
Proof. vm_compute. reflexivity. Qed.

Lemma js_display_dependences_dtree_witness :
  exists recs, js_display_dependences viz_g 3 = Some (js_text viz_g recs) /\ dtree_ok 1 0 recs.
Proof.
  apply (js_display_dependences_dtree viz_g (fun a => if Nat.eqb a 2 then 1 else 0) 3); [|intros a; destruct (Nat.eqb a 2); lia].
  intros a b H. unfold child_edge in H.
  destruct a as [|[|[|a]]]; vm_compute in H;
    repeat match goal with Hd : _ \/ _ |- _ => destruct Hd as [Hd|Hd] end;
    try contradiction; try discriminate;
    match goal with Hs : Some _ = Some _ |- _ => inv Hs end; vm_compute; lia.
Defined.

End VizExamples.
