(* ===== verification/Driver.v ===== *)
(** * Driver: the directory walk and whole-run scenarios

    [FindClassDefinitions] of [src/javatree/javatree.cpp] walks a
    directory with [Directory_files] (of [directory.h], outside [src/];
    here the listing is given as a tree of entries in the order the
    iterator yields them), skips names that [FileMatches] an ignore
    pattern, and runs on every other file the pass of its mode
    ([FindImportPackageInFile] with [-I], [TabularListOfInFile] with [-T],
    [FindClassDefsInFile] otherwise), counting the files it accepted and
    collecting what the passes write to [cerr]; the
    state is the class graph with [tableList].  The scenarios run the
    whole pipeline, from source text through the class graph to the text
    tree [display_dependences] prints. *)

From Stdlib Require Import Ascii String List Lia ZArith Bool.
From S2P Require Import Prelude JavaReader Registry ClassRel ClassRegex Extractor Tabular Imports Render Traverse Viz.
Import ListNotations.
Open Scope jt_scope.
Import ClassRel Extractor Tabular Imports Render.

Module Driver.

(** An entry of a directory listing, with its full name; a file carries
    its bytes, [None] when it cannot be opened. *)
Inductive DirEntry :=
| DFile (fullname : lstring) (contents : option lstring)
| DDir (fullname : lstring) (entries : list DirEntry).

(** A compiled ignore pattern, as [std::regex_match] on a file name. *)
Definition Pattern := lstring -> bool.

(** [inPath.rfind(SLASH_CHR)] with [npos] as [None]. *)
Definition rfind_slash (s : lstring) : option nat := strrchr s slash.

(** [FileMatches(inPath, patternList)]: [rfind + 1] wraps to 0 when there
    is no slash, and the file name must be non-empty. *)
Definition FileMatches (inPath : lstring) (patternList : list Pattern) : bool :=
  let nameStart := match rfind_slash inPath with Some i => S i | None => 0 end in
  if (match patternList with [] => true | _ => false end) || Nat.eqb nameStart 0
     || Nat.eqb nameStart (length inPath)
  then false
  else existsb (fun p => p (skipn nameStart inPath)) patternList.

(** [std::regex_replace(title, "[*?-]+", "_")]: every run of [*], [?]
    and [-] becomes one underscore. *)
Fixpoint replace_special_runs (in_run : bool) (s : lstring) : lstring :=
  match s with
  | [] => []
  | c :: s' =>
      if mem_char c $"*?-" then
        if in_run then replace_special_runs true s' else "_"%char :: replace_special_runs true s'
      else c :: replace_special_runs false s'
  end.

(** [MakeTitle(codePath)]: the value given to [title] and [graphName]. *)
Definition MakeTitle (codePath : lstring) : result lstring :=
  let* t1 := match strrchr codePath dot with
             | Some e => str_resize (Z.of_nat e) codePath
             | None => Ok codePath
             end in
  let* t2 := match strrchr t1 slash with
             | Some d => str_resize (Z.of_nat d) t1
             | None => Ok t1
             end in
  let* t3 := match find_first_of $":" t2 with
             | Some c => str_erase 0 (Z.of_nat (S c)) t2
             | None => Ok t2
             end in
  Ok (map (fun c => if Ascii.eqb c slash then "_"%char else c) (replace_special_runs false t3)).

Section Walk.
Context {M : Type -> Type} `{SM : StrMap M}.
Variable cfg : Config.
(** The switches [-I] and [-T]. *)
Variables importPackage tabularList : bool.
Variable ignorePatterns : list Pattern.

(** The class graph and [tableList]. *)
Definition RunState : Type := (@Graph M * list TableItem)%type.

(** The pass [FindClassDefinitions] runs on one file, by mode; an
    [INullDeref] outcome (which [FindImportPackageInFile_safe] rules out)
    has no defined continuation. *)
Definition process_file (fullname : lstring) (contents : option lstring) (st : RunState)
  : option (RunState * bool) :=
  if importPackage then
    match FindImportPackageInFile cfg fullname contents (fst st) with
    | Some (IDone g1 ok) => Some ((g1, snd st), ok)
    | _ => None
    end
  else if tabularList then
    match TabularListOfInFile cfg fullname contents (snd st) with
    | Some (t1, ok) => Some ((fst st, t1), ok)
    | None => None
    end
  else
    match FindClassDefsInFile cfg fullname contents (fst st) with
    | Some (g1, ok) => Some ((g1, snd st), ok)
    | None => None
    end.

(** What the pass of the mode writes to [cerr] on one file. *)
Definition process_file_cerr (fullname : lstring) (contents : option lstring) (st : RunState) : lstring :=
  if importPackage then FindImportPackageInFile_cerr cfg fullname contents (fst st)
  else if tabularList then TabularListOfInFile_cerr cfg fullname contents (snd st)
  else FindClassDefsInFile_cerr cfg fullname contents (fst st).

(** The [while (directory.more())] loop: [f] handles one entry; the
    counts are summed and the [cerr] texts joined. *)
Fixpoint walk_list (f : DirEntry -> RunState -> option (RunState * nat * lstring)) (es : list DirEntry)
         (st : RunState) : option (RunState * nat * lstring) :=
  match es with
  | [] => Some (st, 0, [])
  | e :: es' =>
      match f e st with
      | None => None
      | Some (st1, n1, l1) =>
          match walk_list f es' st1 with
          | None => None
          | Some (st2, n2, l2) => Some (st2, n1 + n2, l1 ++ l2)
          end
      end
  end.

(** The body of the loop for one entry: a directory is walked
    recursively, a file is read unless its name is empty or ignored. *)
Fixpoint walk_entry (e : DirEntry) (st : RunState) : option (RunState * nat * lstring) :=
  match e with
  | DDir _ sub => walk_list walk_entry sub st
  | DFile fullname contents =>
      if (0 <? length fullname) && negb (FileMatches fullname ignorePatterns)
      then match process_file fullname contents st with
           | None => None
           | Some (st1, ok) => Some (st1, if ok then 1 else 0, process_file_cerr fullname contents st)
           end
      else Some (st, 0, [])
  end.

(** [FindClassDefinitions(dirname, ignorePatterns)] on the entries of
    [dirname]: the graph and table after the walk, the file count, and
    what the passes wrote to [cerr]. *)
Definition FindClassDefinitions (entries : list DirEntry) (st : RunState) : option (RunState * nat * lstring) :=
  walk_list walk_entry entries st.

End Walk.

End Driver.

(** ** Whole-run scenarios *)

Module Scenarios.
Import Driver RenderFacts ExtractorRuns.

Definition src_file (path : lstring) (ls : list lstring) : DirEntry := DFile path (Some (text ls)).

(** [FindClassDefinitions] with no ignore pattern from an empty graph. *)
Definition walk (es : list DirEntry) : option (@RunState SortedMap * nat * lstring) :=
  FindClassDefinitions pub false false [] es (empty_graph, []).

Definition graph_of (r : option (@RunState SortedMap * nat * lstring)) : @Graph SortedMap :=
  match r with Some ((g, _), _, _) => g | None => empty_graph end.

(** The two files of the end-to-end scenario of the specification. *)
Definition spec_tree : list DirEntry :=
  [DDir ($"src") [src_file ($"src/A.java") [$"public class A extends B implements I1, I2 {"; $"}"];
                  src_file ($"src/B.java") [$"public class B {"; $"}"]]].

(** A superclass listed with a second name after [extends] closes a cycle. *)
Definition cycle_tree : list DirEntry :=
  [src_file ($"R.java") [$"public class R {"; $"}"];
   src_file ($"X.java") [$"public class X extends R, Y {"; $"}"];
   src_file ($"Y.java") [$"public class Y extends X {"; $"}"]].

Definition order_tree : list DirEntry :=
  [src_file ($"Zeta.java") [$"public class Zeta {"; $"}"];
   src_file ($"Alpha.java") [$"public class Alpha {"; $"}"]].

Definition cycle_graph : @Graph SortedMap := graph_of (walk cycle_tree).

(** The end-to-end scenario of the specification: after reading
    [A.java] ([public class A extends B implements I1, I2]) and [B.java]
    ([public class B]), both files are counted, [B] is the only root with
    the single child [A], [A] lists [I1] then [I2], and the text tree is
    printed with the file column 14 wide (the file is the full path). *)
Example walk_spec_scenario :
  option_map (fun r => snd (fst r)) (walk spec_tree) = Some 2 /\
  node_view (graph_of (walk spec_tree)) ($"B") = Some ([], [$"A"], []) /\
  node_view (graph_of (walk spec_tree)) ($"A") = Some ([$"B"], [], [$"I1"; $"I2"]) /\
  display_dependences (graph_of (walk spec_tree)) 3 TEXT_CHAR
    = Some (dc ++ $"    src/B.java:  B" ++ nl ++ $"    src/A.java:    - A" ++ nl).
Proof. vm_compute. repeat split. Qed.

(** The roots are printed in the key order of [clist] (a
    [std::map]), not in the order the classes were first seen: [Zeta] is
    read first but [Alpha] is printed first. *)
Example walk_roots_key_order :
  display_dependences (graph_of (walk order_tree)) 1 TEXT_CHAR
    = Some (dc ++ $"    Alpha.java:  Alpha" ++ nl ++ $"     Zeta.java:  Zeta" ++ nl).
Proof. vm_compute. reflexivity. Qed.

Lemma cycle_graph_roots :
  melements (clist cycle_graph) = [($"R", 0); ($"X", 1); ($"Y", 2)].
Proof. vm_compute. reflexivity. Qed.

(** C21: on the files of [cycle_tree] the printer never finishes: the root
    [R] has the child [X], whose children include [Y], whose child is [X]
    again, and [display_children] has no cycle guard, so no amount of
    fuel is enough, in any text character set. *)
Theorem walk_cycle_diverges fuel cs : display_dependences cycle_graph fuel cs = None.
Proof.
  unfold display_dependences. rewrite cycle_graph_roots. cbn [roots_loop].
  replace (is_root cycle_graph 0) with true by (vm_compute; reflexivity).
  rewrite (display_children_cycle cycle_graph [0; 1; 2]); [reflexivity| |simpl; auto].
  intros a Ha. unfold child_edge.
  destruct Ha as [<-|[<-|[<-|[]]]]; [exists 1|exists 2|exists 1]; vm_compute; auto 6.
Qed.

(** On the same graph the specification's cycle-guarded [traverse] from
    [R] ends: it visits [X], then [Y], and reports [X] below [Y] as a
    cycle instead of descending again. *)
Example traverse_cycle_marker :
  option_map (map (fun v => (Traverse.v_node v, Traverse.v_cycle v))) (Traverse.traverse cycle_graph 4 [0] 1 0)
    = Some [(1, false); (2, false); (1, true)].
Proof. vm_compute. reflexivity. Qed.

(** [Release_clist] deletes only the nodes registered in [clist]: the
    interface nodes [I1] and [I2] of the scenario, allocated by
    [add_interface(new ClassRelations(...))] and never registered, are
    never deleted. *)
Example release_leaks_interfaces :
  addrs (graph_of (walk spec_tree)) = [0; 1; 2; 3] /\
  option_map fst (Release_clist (graph_of (walk spec_tree))) = Some [0; 1].
Proof. vm_compute. split; reflexivity. Qed.

(** [MakeTitle] cuts the path at its last slash, so the file name is
    dropped, while its comment promises [_dir1_dir2_file] for such a
    path. *)
Example MakeTitle_drops_file_name : MakeTitle ($"/dir1/dir2/file.java") = Ok ($"_dir1_dir2").
Proof. vm_compute. reflexivity. Qed.

End Scenarios.

(** ** Invariants of the walk *)

Module DriverFacts.
Import Driver.

Section WalkInv.
Context {M : Type -> Type} `{SM : StrMap M}.
Variable cfg : Config.
Variables importPackage tabularList : bool.
Variable ignorePatterns : list Pattern.
(** A property of the graph and table that every file pass keeps. *)
Variable P : @RunState M -> Prop.
Hypothesis process_file_P : forall fn c st st' ok,
  P st -> process_file cfg importPackage tabularList fn c st = Some (st', ok) -> P st'.

Lemma walk_entry_P : forall e st st' n log,
  P st -> walk_entry cfg importPackage tabularList ignorePatterns e st = Some (st', n, log) -> P st'.
Proof.
  fix IH 1. intros [fn c|fn sub] st st' n log Hp; cbn [walk_entry].
  - destruct (_ && _); [|intros E; inv E; exact Hp].
    destruct (process_file _ _ _ _ _ _) as [[st1 ok]|] eqn:E; [|discriminate].
    intros Eq; inv Eq; eauto.
  - revert st n log Hp. induction sub as [|e es IHs]; intros st n log Hp; cbn [walk_list].
    + intros E; inv E; exact Hp.
    + destruct (walk_entry _ _ _ _ e st) as [[[st1 n1] l1]|] eqn:E1; [|discriminate].
      destruct (walk_list _ es st1) as [[[st2 n2] l2]|] eqn:E2; [|discriminate].
      intros Eq; inv Eq. exact (IHs st1 n2 l2 (IH e st st1 n1 l1 Hp E1) E2).
Qed.

Lemma FindClassDefinitions_P es : forall st st' n log,
  P st -> FindClassDefinitions cfg importPackage tabularList ignorePatterns es st = Some (st', n, log) -> P st'.
Proof.
  unfold FindClassDefinitions. induction es as [|e es IH]; intros st st' n log Hp; cbn [walk_list].
  - intros E; inv E; exact Hp.
  - destruct (walk_entry _ _ _ _ e st) as [[[st1 n1] l1]|] eqn:E1; [|discriminate].
    destruct (walk_list _ es st1) as [[[st2 n2] l2]|] eqn:E2; [|discriminate].
    intros Eq; inv Eq. exact (IH st1 _ n2 l2 (walk_entry_P e st st1 n1 l1 Hp E1) E2).
Qed.

End WalkInv.

End DriverFacts.
