(* ===== verification/Main.v ===== *)
(** * Main: the command line and the output of [main]

    [main] of [src/javatree/javatree.cpp] reads its arguments from left
    to right.  A word that starts with [-] or [+] is a switch that sets a
    global option ([show_names], [show_tree], [cset], [allClasses],
    [importPackage], [tabularList], [vizSplit], [nodesPerFile], [outPath]
    or the ignore patterns); any other word is a code path: [MakeTitle]
    sets [title] and [graphName] from it and [FindClassDefinitions] scans
    it with the options as they are at that point.  After the last word
    one of four outputs is printed: the Graphviz files, the tabular HTML
    page, the dTree HTML page, or the text tree.  Here the options are a
    record, the run is explicit state passing with the ways [main] can
    end without a defined result as values of [Abort], and the process's
    output is an [Output] record. *)

From Stdlib Require Import Ascii String List Lia ZArith Bool.
From S2P Require Import Prelude JavaReader Registry ClassRel ClassRegex Extractor Tabular Imports Render Traverse Viz Driver.
Import ListNotations.
Open Scope jt_scope.
Import ClassRel Extractor Tabular Imports Render Viz Driver.

Module Main.

(** A C string literal of the source, with a backquote standing for
    each escaped double quote. *)
Definition q (s : string) : lstring :=
  map (fun c => if Ascii.eqb c "`"%char then ascii_of_nat 34 else c) (lstr s).

(** [outputHtmlPrefix1()]. *)
Definition outputHtmlPrefix1 : lstring :=
  q "<!DOCTYPE html>" ++ nl ++
  q "<html lang=`en`>" ++ nl ++
  q "<head> " ++ nl.

(** [outputHtmlMetaHeader2()]. *)
Definition outputHtmlMetaHeader2 : lstring :=
  q "<meta name=`keywords` content=`Android,class,hierarchy,tree,diagram`> " ++ nl ++
  q "<meta name=`description` content=`Android class hierachy`>" ++ nl ++
  q "<meta name=`author` content=`Dennis Lang`>" ++ nl ++
  nl ++ q "<!-- Mobile -->" ++ nl ++
  q "<meta name=`viewport` content=`width=device-width, initial-scale=1, maximum-scale=1`>" ++ nl ++
  nl ++ q "<link rel=`icon` type=`/~lang.dennis/image/ico` href=`favicon.ico` > " ++ nl ++
  q "<link rel=`shortcut icon` href=`/~lang.dennis/favicon.ico` >" ++ nl ++
  nl ++ q "<meta http-equiv=`Content-type` content=`text/html;charset=UTF-8` >" ++ nl ++
  q "<META http-equiv=`Content-Style-Type` content=`text/css`>" ++ nl ++
  q "<meta name=`google-site-verification` content=`sTC1_x30FvQ9Xk-23yK-7jWMaoWFc7Dtw0waX6FFrAk` >" ++ nl ++
  nl ++ q "<!-- Google analytics tracking -->" ++ nl ++
  q "<script type=`text/javascript` src=`/~lang.dennis/scripts.js`></script>" ++ nl ++
  nl ++ q "<style> " ++ nl ++
  q "    body { " ++ nl ++
  q "    background: url(`bg.jpg`);" ++ nl ++
  q "    }" ++ nl ++
  q "</style>" ++ nl.

(** [outputHtmlTableStyle()]: the style sheet and the [DataTable] script. *)
Definition outputHtmlTableStyle : lstring :=
  q "<style type = 'text/css'>" ++ nl ++
  q "#gradient-style" ++ nl ++
  q "{" ++ nl ++
  q "    font-family: 'Lucida Sans Unicode', 'Lucida Grande', Sans-Serif;" ++ nl ++
  q "    font-size: 12px;" ++ nl ++
  q "    margin: 45px;" ++ nl ++
  q "    width: 480px;" ++ nl ++
  q "    text-align: left;" ++ nl ++
  q "    border-collapse: collapse;" ++ nl ++
  q "}" ++ nl ++
  q "#gradient-style th" ++ nl ++
  q "{" ++ nl ++
  q "    font-size: 13px;" ++ nl ++
  q "    font-weight: normal;" ++ nl ++
  q "    padding: 8px;" ++ nl ++
  q "    background: #b9c9fe url('img/gradhead.png') repeat-x;" ++ nl ++
  q "    border-top: 2px solid #d3ddff;" ++ nl ++
  q "    border-bottom: 1px solid #fff;" ++ nl ++
  q "    color: #039;" ++ nl ++
  q "}" ++ nl ++
  q "#gradient-style td" ++ nl ++
  q "{" ++ nl ++
  q "    padding: 8px;" ++ nl ++
  q "    border-bottom: 1px solid #fff;" ++ nl ++
  q "    color: #669;" ++ nl ++
  q "    border-top: 1px solid #fff;" ++ nl ++
  q "    background: #e8edff url('img/gradback.png') repeat-x;" ++ nl ++
  q "}" ++ nl ++
  q "#gradient-style tfoot tr td" ++ nl ++
  q "{" ++ nl ++
  q "    background: #e8edff;" ++ nl ++
  q "    font-size: 12px;" ++ nl ++
  q "    color: #99c;" ++ nl ++
  q "}" ++ nl ++
  q "#gradient-style tbody tr:hover td" ++ nl ++
  q "{" ++ nl ++
  q "   background: #d0dafd url('img/gradhover.png') repeat-x;" ++ nl ++
  q "   color: #339;" ++ nl ++
  q "}" ++ nl ++
  q "</style>" ++ nl ++
  q "<link rel='stylesheet' type='text/css' href='jquery.dataTables.min.css'> " ++ nl ++
  q "<script type='text/javascript' language='javascript' src='jquery-1.11.3.min.js'></script> " ++ nl ++
  q "<script type='text/javascript' language='javascript' src='jquery.dataTables.min.js'></script> " ++ nl ++
  nl ++ q "<script type='text/javascript' class='init'> " ++ nl ++
  nl ++ q "$(document).ready(function() { " ++ nl ++
  q "  $('#gradient-style').DataTable({ " ++ nl ++
  q "    'scrollY':        '600px', " ++ nl ++
  q "    'scrollCollapse' : false, " ++ nl ++
  q "    'paging' : false " ++ nl ++
  q "  }); " ++ nl ++
  q "}); " ++ nl ++
  q "</script> " ++ nl.

(** [outputHtmlTitle3(title)]. *)
Definition outputHtmlTitle3 (title : lstring) : lstring :=
  q "	<title>" ++ title ++ q " - Dennis Lang</title> " ++ nl.

(** The usage text [main] writes to [cerr] when it has no argument;
    [argv0] is [argv[0]]. *)
Definition usage (argv0 : lstring) : lstring :=
  nl ++ argv0 ++ nl ++
  nl ++ q "Des: Generate Java class dependence tree" ++ nl ++
  q "Use: Javatree [-+ntgxshjz] header_files..." ++ nl ++
  nl ++ q "Switches (" ++ q "*=default)(-=off, +=on):" ++ nl ++
  q "  n  ; Show alphabetic class name list" ++ nl ++
  q "* t  ; Show class dependency tree" ++ nl ++
  q "Output format (single choice):" ++ nl ++
  nl ++ q "* g  ; Use graphics for tree connections" ++ nl ++
  q "  x  ; Use (+|-) for tree connections" ++ nl ++
  q "  s  ; Use spaces for tree connections" ++ nl ++
  q "  h  ; Html tree connections" ++ nl ++
  q "  j  ; Java tree connections" ++ nl ++
  q "  z  ; GraphViz " ++ nl ++
  q "Modifiers:" ++ nl ++
  nl ++ q "  Z              ; Split GraphViz by tree, use with -O" ++ nl ++
  q "  N=nodesPerFile ; Split by nodes per file, use with -O" ++ nl ++
  q "  O=outpath      ; Save output in file " ++ nl ++
  nl ++ q "  V=filePattern  ; Ignore files " ++ nl ++
  nl ++ q "  A=allClasses   ; Defaults to public " ++ nl ++
  nl ++ nl ++
  q "Examples" ++ nl ++
  nl ++ q "  javatree -t +n  src\*.java  ; *.java prevent recursion" ++ nl ++
  q "  javatree -x  src\* > javaTree.txt" ++ nl ++
  q "  javatree -h  src\* > javaTree.html" ++ nl ++
  q "  javatree -j  src\* > javaTreeWithJs.html" ++ nl ++
  nl ++ q "  -V is case sensitive " ++ nl ++
  q "  javatree -z -Z -O=.\viz\ -V=*Test* -V=*Exception* src\* >foo.gv" ++ nl ++
  q "  javatree -z -N=10 -O=.\viz\ -V=*Test* -V=*Exception* src\* >foo.gv" ++ nl.


(** ** Options *)

(** [cset]: a text charset of [Render], [JAVA_CHAR] or [VIZ_CHAR]. *)
Inductive CsetOpt := CText (cs : Charset) | JAVA_CHAR | VIZ_CHAR.

(** The globals [main] sets from switches. *)
Record Options := mkOptions {
  show_names : bool;
  show_tree : bool;
  cset : CsetOpt;
  allClasses : bool;
  importPackage : bool;
  tabularList : bool;
  vizSplit : bool;
  nodesPerFile : Z;
  outPath : lstring;
  ignorePatterns : list Pattern }.

(** Their initial values. *)
Definition default_options : Options :=
  mkOptions false true (CText GRAPHICS_CHAR) false false false false 0 [] [].

Definition set_show_names b o := mkOptions b (show_tree o) (cset o) (allClasses o) (importPackage o)
  (tabularList o) (vizSplit o) (nodesPerFile o) (outPath o) (ignorePatterns o).
Definition set_show_tree b o := mkOptions (show_names o) b (cset o) (allClasses o) (importPackage o)
  (tabularList o) (vizSplit o) (nodesPerFile o) (outPath o) (ignorePatterns o).
Definition set_cset c o := mkOptions (show_names o) (show_tree o) c (allClasses o) (importPackage o)
  (tabularList o) (vizSplit o) (nodesPerFile o) (outPath o) (ignorePatterns o).
Definition set_allClasses o := mkOptions (show_names o) (show_tree o) (cset o) true (importPackage o)
  (tabularList o) (vizSplit o) (nodesPerFile o) (outPath o) (ignorePatterns o).
Definition set_importPackage o := mkOptions (show_names o) (show_tree o) (cset o) (allClasses o) true
  (tabularList o) (vizSplit o) (nodesPerFile o) (outPath o) (ignorePatterns o).
Definition set_tabularList o := mkOptions (show_names o) (show_tree o) (cset o) (allClasses o)
  (importPackage o) true (vizSplit o) (nodesPerFile o) (outPath o) (ignorePatterns o).
Definition set_vizSplit o := mkOptions (show_names o) (show_tree o) (cset o) (allClasses o)
  (importPackage o) (tabularList o) true (nodesPerFile o) (outPath o) (ignorePatterns o).
Definition set_nodesPerFile n o := mkOptions (show_names o) (show_tree o) (cset o) (allClasses o)
  (importPackage o) (tabularList o) (vizSplit o) n (outPath o) (ignorePatterns o).
Definition set_outPath p o := mkOptions (show_names o) (show_tree o) (cset o) (allClasses o)
  (importPackage o) (tabularList o) (vizSplit o) (nodesPerFile o) p (ignorePatterns o).
Definition push_pattern pat o := mkOptions (show_names o) (show_tree o) (cset o) (allClasses o)
  (importPackage o) (tabularList o) (vizSplit o) (nodesPerFile o) (outPath o)
  (ignorePatterns o ++ [pat]).

(** The [Config] the per-file passes read: [allClasses] and
    [cset == JAVA_CHAR], as they are when the pass runs. *)
Definition config (o : Options) : Config :=
  mkConfig (allClasses o) (match cset o with JAVA_CHAR => true | _ => false end).

(** ** [strtol(s, 0, 10)] and the cast to [int] *)

Definition LONG_MAX : Z := (2 ^ 63 - 1)%Z.
Definition LONG_MIN : Z := (- 2 ^ 63)%Z.

(** [isspace] in the C locale. *)
Definition is_space (c : ascii) : bool :=
  mem_char c [" "%char; ascii_of_nat 9; ascii_of_nat 10; ascii_of_nat 11; ascii_of_nat 12; ascii_of_nat 13].

Fixpoint skip_space (s : lstring) : lstring :=
  match s with
  | c :: s' => if is_space c then skip_space s' else s
  | [] => []
  end.

Definition digit_value (c : ascii) : option Z :=
  let n := nat_of_ascii c in
  if (48 <=? n) && (n <=? 57) then Some (Z.of_nat n - 48)%Z else None.

(** The value of the longest prefix of decimal digits, unbounded. *)
Fixpoint digits_value (s : lstring) (acc : Z) : Z :=
  match s with
  | c :: s' => match digit_value c with Some d => digits_value s' (acc * 10 + d)%Z | None => acc end
  | [] => acc
  end.

(** [strtol(s, 0, 10)] on a 64-bit [long]: leading white space, an
    optional sign, the digits; no digit gives 0, and a value out of range
    saturates at [LONG_MAX] or [LONG_MIN]. *)
Definition strtol (s : lstring) : Z :=
  match skip_space s with
  | c :: s' =>
      if Ascii.eqb c "-"%char then Z.max (- digits_value s' 0) LONG_MIN
      else if Ascii.eqb c "+"%char then Z.min (digits_value s' 0) LONG_MAX
      else Z.min (digits_value (c :: s') 0) LONG_MAX
  | [] => 0%Z
  end.

(** The conversion [(int)] of a [long] (modulo [2^32], as GCC defines it). *)
Definition int_of_long (z : Z) : Z :=
  let w := (z mod 2 ^ 32)%Z in
  if (w <? 2 ^ 31)%Z then w else (w - 2 ^ 32)%Z.

(** ** The ways [main] ends without a defined result *)

Inductive Abort :=
| ArgOverread                 (** [argv[argn] + 3] past the end of a two-byte switch *)
| RegexError                  (** [std::regex] throws on a [-V] pattern; nothing catches it *)
| Uncaught (e : cxx_exception)  (** [MakeTitle] throws *)
| Stuck.                      (** a pass or renderer has no result (fuel, or a cyclic graph) *)

Section Main.
Context {M : Type -> Type} `{SM : StrMap M}.
(** [std::regex(str)], [None] when it throws [regex_error]. *)
Variable compile : lstring -> option Pattern.
(** The entries [Directory_files] yields for a code path. *)
Variable listing : lstring -> list DirEntry.

(** ** The argument loop *)

(** The state [main] threads through its loop. *)
Record MainState := mkMain {
  opts : Options;
  title : lstring;
  graphName : lstring;
  run : @RunState M;
  err : lstring }.

Definition main_init : MainState := mkMain default_options [] [] (empty_graph, []) [].

(** One switch [argv[argn]]: the [switch] on its second byte; the
    value of [-N], [-O] and [-V] is the text from its fourth byte. *)
Definition parse_switch (o : Options) (arg : lstring) : Abort + Options :=
  let polarity := match arg with c :: _ => Ascii.eqb c "+"%char | [] => false end in
  let value := if length arg <? 3 then None else Some (skipn 3 arg) in
  match nth_error arg 1 with
  | None => inr o
  | Some k =>
      if Ascii.eqb k "n" then inr (set_show_names polarity o)
      else if Ascii.eqb k "t" then inr (set_show_tree polarity o)
      else if Ascii.eqb k "g" then inr (set_cset (CText GRAPHICS_CHAR) o)
      else if Ascii.eqb k "x" then inr (set_cset (CText TEXT_CHAR) o)
      else if Ascii.eqb k "s" then inr (set_cset (CText SPACE_CHAR) o)
      else if Ascii.eqb k "h" then inr (set_cset (CText HTML_CHAR) o)
      else if Ascii.eqb k "j" then inr (set_cset JAVA_CHAR o)
      else if Ascii.eqb k "z" then inr (set_cset VIZ_CHAR o)
      else if Ascii.eqb k "A" then inr (set_allClasses o)
      else if Ascii.eqb k "I" then inr (set_importPackage o)
      else if Ascii.eqb k "T" then inr (set_tabularList o)
      else if Ascii.eqb k "Z" then inr (set_vizSplit o)
      else if Ascii.eqb k "N" then
        match value with
        | None => inl ArgOverread
        | Some v => inr (set_nodesPerFile (int_of_long (strtol v)) o)
        end
      else if Ascii.eqb k "O" then
        match value with None => inl ArgOverread | Some v => inr (set_outPath v o) end
      else if Ascii.eqb k "V" then
        match value with
        | None => inl ArgOverread
        | Some v =>
            match compile (ReplaceAll v ($"*") ($".*")) with
            | None => inl RegexError
            | Some p => inr (push_pattern p o)
            end
        end
      else inr o
  end.

(** A word that starts with [-] or [+]. *)
Definition is_switch (arg : lstring) : bool :=
  match arg with c :: _ => Ascii.eqb c "-"%char || Ascii.eqb c "+"%char | [] => false end.

(** A code path: [MakeTitle], [FindClassDefinitions] with the current
    options, and the count line on [cerr]. *)
Definition process_path (arg : lstring) (ms : MainState) : Abort + MainState :=
  match MakeTitle arg with
  | Throw e => inl (Uncaught e)
  | Ok t =>
      let o := opts ms in
      match FindClassDefinitions (config o) (importPackage o) (tabularList o) (ignorePatterns o)
                                 (listing arg) (run ms) with
      | None => inl Stuck
      | Some (rs, fileCnt, log) =>
          inr (mkMain o t t rs
                 (err ms ++ log ++ dec fileCnt ++ $" Files parsed, "
                  ++ dec (length (melements (clist (fst rs)))) ++ $" classes found" ++ nl))
      end
  end.

Definition process_arg (arg : lstring) (ms : MainState) : Abort + MainState :=
  if is_switch arg then
    match parse_switch (opts ms) arg with
    | inl a => inl a
    | inr o => inr (mkMain o (title ms) (graphName ms) (run ms) (err ms))
    end
  else process_path arg ms.

(** [for (argn = 1; argn < argc; argn++)]. *)
Fixpoint args_loop (args : list lstring) (ms : MainState) : Abort + MainState :=
  match args with
  | [] => inr ms
  | a :: rest =>
      match process_arg a ms with
      | inl e => inl e
      | inr ms1 => args_loop rest ms1
      end
  end.

(** ** The outputs *)

Definition doc_begin (cs : Charset) : lstring := by_cset cs [] [] [] ($"<html>").
Definition doc_end (cs : Charset) : lstring := by_cset cs [] [] [] ($"</table></html>").

Definition tab : lstring := [ascii_of_nat 9].

(** [display_names()]: one line per entry of [clist] in key order, with
    the head of the parent and child chains and the interface list. *)
Definition display_names (g : @Graph M) : lstring :=
  $"ClassName" ++ tab ++ $"Modifiers" ++ tab ++ $"FirstParent" ++ tab ++ $"FirstChild" ++ tab
  ++ $"Interfaces" ++ tab ++ $"File" ++ nl
  ++ flat_map (fun p =>
       let n := Render.node g (snd p) in
       my_name n ++ tab ++ my_modifier n ++ tab
       ++ match my_parents n with Some a :: _ => my_name (Render.node g a) | _ => $"_NoParent_" end
       ++ tab
       ++ match my_children n with Some a :: _ => my_name (Render.node g a) | _ => $"_NoChildren_" end
       ++ tab ++ cout (fst (display_interfaces g false (snd p) (mkVS [] [] 1)))
       ++ tab ++ my_file n ++ endl)
     (melements (clist g)).

(** What the process leaves: its standard output, the files it wrote
    (name and bytes, in the order opened) and its standard error. *)
Record Output := mkOutput {
  o_stdout : lstring;
  o_files : list (lstring * lstring);
  o_stderr : lstring }.

(** [ctime(&now)] as [outputHtmlTableList] prints it. *)
Variable now : lstring.
(** Whether the file system lets [outStream.open] create a file. *)
Variable can_open : lstring -> bool.

(** The [else if (tabularList)] branch: the HTML page of [tableList]. *)
Definition tabular_page (ms : MainState) : Abort + Output :=
  inr (mkOutput
    (outputHtmlPrefix1 ++ outputHtmlMetaHeader2 ++ outputHtmlTableStyle
     ++ outputHtmlTitle3 (graphName ms)
     ++ q "</head>" ++ nl ++ q "<h2>Tabular List of " ++ graphName ms ++ q "</h2>" ++ q "<body>" ++ nl
     ++ outputHtmlTableList now (snd (run ms))
     ++ q "</body> " ++ nl ++ q "</html> " ++ nl ++ nl)
    [] (err ms ++ endl)).

(** The output branches after the argument loop, with [fuel] for the
    recursive renderers; [Release_clist] frees memory and prints nothing,
    and the run ends with [std::cerr << std::endl]. *)
Definition output (fuel : nat) (ms : MainState) : Abort + Output :=
  let o := opts ms in
  let g := fst (run ms) in
  match cset o with
  | VIZ_CHAR =>
      match viz_display_dependences g (importPackage o) (outPath o) (graphName ms) (title ms)
              (vizSplit o) (nodesPerFile o) can_open fuel dep_init with
      | None => inl Stuck
      | Some d => inr (mkOutput (d_stdout d) (d_files d) (err ms ++ d_cerr d ++ endl))
      end
  | JAVA_CHAR =>
      if tabularList o then tabular_page ms else
      match js_display_dependences g fuel with
      | None => inl Stuck
      | Some body =>
          inr (mkOutput
            (outputHtmlPrefix1 ++ outputHtmlMetaHeader2 ++ outputHtmlTitle3 (graphName ms)
             ++ q "	<link rel=StyleSheet href=dtree.css type=text/css /> " ++ nl
             ++ q "	<script type=text/javascript src=dtree.js></script>  " ++ nl
             ++ q "</head>           " ++ nl
             ++ q "<body>            " ++ nl
             ++ q "<h2>Example</h2>  " ++ nl
             ++ q "<div class=dtree> " ++ nl
             ++ q "	<p><a href=javascript:d.openAll();>open all</a> | <a href=javascript:d.closeAll();>close all</a></p>  " ++ nl
             ++ q "	<script type=text/javascript> " ++ nl
             ++ q "		<!--                " ++ nl
             ++ q "		d = new dTree('d'); " ++ nl
             ++ q "       d.add(0, -1, '" ++ graphName ms ++ q "');" ++ nl
             ++ body
             ++ q "		document.write(d); " ++ nl
             ++ q "       d.openAll();" ++ nl
             ++ q "		//--> " ++ nl
             ++ q "	</script> " ++ nl
             ++ q "</div>  " ++ nl
             ++ q "</body> " ++ nl
             ++ q "</html> " ++ nl ++ nl)
            [] (err ms ++ endl))
      end
  | CText cs =>
      if tabularList o then tabular_page ms else
      let names := if show_names o then display_names g else [] in
      match (if show_tree o then display_dependences g fuel cs else Some []) with
      | None => inl Stuck
      | Some tree => inr (mkOutput (doc_begin cs ++ names ++ tree ++ doc_end cs) [] (err ms ++ endl))
      end
  end.

(** [main(argc, argv)]: [argv0] and the arguments after it. *)
Definition main (fuel : nat) (argv0 : lstring) (args : list lstring) : Abort + Output :=
  match args with
  | [] => inr (mkOutput [] [] (usage argv0))
  | _ =>
      match args_loop args main_init with
      | inl a => inl a
      | inr ms => output fuel ms
      end
  end.

(** The invariant of the loop state: the class graph is sound, and its
    parent and child edges are paired as long as [-I] was not given
    ([FindImportPackageInFile] adds child edges alone). *)
Definition main_inv (ms : MainState) : Prop :=
  graph_ok (fst (run ms)) /\ (importPackage (opts ms) = false -> paired (fst (run ms))).

End Main.

End Main.

(** ** Runs on the two files of the specification's scenario *)

Module MainRuns.
Import Main Scenarios.

(** [Directory_files("src")] on the scenario's directory. *)
Definition src_listing (p : lstring) : list DirEntry :=
  if p =s? $"src" then
    [src_file ($"src/A.java") [$"public class A extends B implements I1, I2 {"; $"}"];
     src_file ($"src/B.java") [$"public class B {"; $"}"]]
  else if p =s? $"bad" then
    [src_file ($"bad/C.java") [$"public class C /* x */ { // c"];
     DFile ($"bad/D.java") None;
     src_file ($"bad/E.java") [$"public class E {"; $"}}{"]]
  else [].

(** A [std::regex] constructor that accepts every pattern and matches
    nothing. *)
Definition no_match (s : lstring) : option Pattern := Some (fun _ => false).

Definition args_run (args : list lstring) : Abort + @MainState SortedMap :=
  args_loop no_match src_listing args main_init.

Definition main_run (args : list lstring) : Abort + Output :=
  @main SortedMap _ no_match src_listing [] (fun _ => true) 5 ($"javatree") args.

End MainRuns.

(** ** Facts *)

Module MainFacts.
Import Main GraphFacts ImportsFacts ExtractorFacts.

(** *** Integers: [strtol] and the [int] cast *)

Lemma digit_value_range c d : digit_value c = Some d -> (0 <= d <= 9)%Z.
Proof.
  unfold digit_value. destruct (48 <=? _) eqn:E1, (_ <=? 57) eqn:E2; cbn; intros H; try discriminate.
  inv H. apply Nat.leb_le in E1, E2. lia.
Qed.

Lemma digits_value_ge s : forall acc, (0 <= acc)%Z -> (acc <= digits_value s acc)%Z.
Proof.
  induction s as [|c s IH]; intros acc Ha; cbn [digits_value]; [lia|].
  destruct (digit_value c) as [d|] eqn:Ed; [|lia].
  pose proof (digit_value_range c d Ed). specialize (IH (acc * 10 + d)%Z). lia.
Qed.

Lemma strtol_range v : (LONG_MIN <= strtol v <= LONG_MAX)%Z.
Proof.
  unfold strtol. destruct (skip_space v) as [|c s']; [unfold LONG_MIN, LONG_MAX; lia|].
  pose proof (digits_value_ge s' 0). pose proof (digits_value_ge (c :: s') 0).
  destruct (Ascii.eqb c _); [|destruct (Ascii.eqb c _)]; unfold LONG_MIN, LONG_MAX in *; lia.
Qed.

Lemma int_of_long_range z :
  (- 2 ^ 31 <= int_of_long z < 2 ^ 31)%Z /\ (int_of_long z mod 2 ^ 32 = z mod 2 ^ 32)%Z.
Proof.
  unfold int_of_long. pose proof (Z.mod_pos_bound z (2 ^ 32)) as Hb.
  destruct (_ <? _)%Z eqn:E; [apply Z.ltb_lt in E | apply Z.ltb_ge in E].
  - split; [lia|apply Z.mod_mod; lia].
  - split; [lia|].
    replace (z mod 2 ^ 32 - 2 ^ 32)%Z with (z mod 2 ^ 32 + (-1) * 2 ^ 32)%Z by ring.
    rewrite Z.mod_add by lia. apply Z.mod_mod; lia.
Qed.

Lemma int_of_long_LONG_MAX : int_of_long LONG_MAX = (-1)%Z.
Proof. vm_compute. reflexivity. Qed.

(** [NextFile] with the budget [-1] (the [size_t] maximum) never
    starts a file for the node count. *)
Lemma NextFile_minus_one outPath nodeCnt next :
  (0 <= nodeCnt < size_max)%Z -> NextFile outPath false (-1) true nodeCnt next = (false, nodeCnt).
Proof.
  intros Hn. unfold NextFile. destruct (nonempty outPath); [|reflexivity].
  replace (size_of_int (-1)) with size_max by (vm_compute; reflexivity).
  pose proof (Z.mod_pos_bound (nodeCnt * 2) (2 ^ 64)). unfold size_max in *.
  replace (Z.eqb nodeCnt _) with false by (symmetry; apply Z.eqb_neq; lia).
  replace (Z.ltb (2 ^ 64 - 1) ((nodeCnt * 2) mod 2 ^ 64)) with false
    by (symmetry; apply Z.ltb_ge; lia).
  rewrite !andb_false_r. reflexivity.
Qed.

(** *** The argument loop *)

Section Args.
Context {M : Type -> Type} `{SM : StrMap M}.
Variable compile : lstring -> option Pattern.
Variable listing : lstring -> list DirEntry.

Lemma args_loop_app a b (ms : @MainState M) :
  args_loop compile listing (a ++ b) ms =
  match args_loop compile listing a ms with inl e => inl e | inr ms1 => args_loop compile listing b ms1 end.
Proof.
  revert ms. induction a as [|x a IH]; intros ms; cbn [app args_loop]; [reflexivity|].
  destruct (process_arg _ _ x ms); [reflexivity|apply IH].
Qed.

Lemma args_loop_switches b : forall (ms ms' : @MainState M),
  forallb is_switch b = true -> args_loop compile listing b ms = inr ms' ->
  run ms' = run ms /\ title ms' = title ms /\ graphName ms' = graphName ms /\ err ms' = err ms.
Proof.
  induction b as [|a b IH]; intros ms ms' Hb; cbn [args_loop]; [intros E; inv E; auto|].
  cbn [forallb] in Hb. apply andb_true_iff in Hb as [Ha Hb].
  unfold process_arg at 1. rewrite Ha. destruct (parse_switch _ _ _) as [e|o]; [discriminate|].
  intros E. exact (IH _ _ Hb E).
Qed.

(** Only [-I] sets [importPackage], and nothing clears it. *)
Lemma parse_switch_importPackage o arg o' :
  parse_switch compile o arg = inr o' -> importPackage o' = false -> importPackage o = false.
Proof.
  unfold parse_switch. destruct (nth_error arg 1) as [k|]; [|intros E; inv E; auto].
  repeat (destruct (Ascii.eqb k _)); try destruct (length arg <? 3);
    try destruct (compile _); intros E; inv E; cbn; auto; discriminate.
Qed.

End Args.

Section Inv.
Context {M : Type -> Type} `{SML : StrMapLaws M}.
Variable compile : lstring -> option Pattern.
Variable listing : lstring -> list DirEntry.

Lemma process_file_inv cfg ip tl fn c (st st' : @RunState M) ok :
  graph_ok (fst st) /\ (ip = false -> paired (fst st)) ->
  process_file cfg ip tl fn c st = Some (st', ok) ->
  graph_ok (fst st') /\ (ip = false -> paired (fst st')).
Proof.
  intros [Hok Hp]. unfold process_file. destruct ip.
  - destruct (FindImportPackageInFile _ _ _ _) as [[g1 b|g1]|] eqn:E; intros Eq; inv Eq.
    split; [exact (import_pass_graph_ok _ _ _ _ _ _ Hok E)|discriminate].
  - destruct tl.
    + destruct (TabularListOfInFile _ _ _ _) as [[t1 b]|]; intros Eq; inv Eq. auto.
    + destruct (FindClassDefsInFile _ _ _ _) as [[g1 b]|] eqn:E; intros Eq; inv Eq.
      destruct (FindClassDefsInFile_graph_inv _ _ _ _ _ _ (conj Hok (Hp eq_refl)) E). auto.
Qed.

Lemma process_arg_inv arg (ms ms' : @MainState M) :
  main_inv ms -> process_arg compile listing arg ms = inr ms' -> main_inv ms'.
Proof.
  intros [Hok Hp]. unfold process_arg. destruct (is_switch arg).
  - destruct (parse_switch compile (opts ms) arg) as [e|o] eqn:E; intros Eq; inv Eq.
    split; [exact Hok|]. intros Hi. exact (Hp (parse_switch_importPackage _ _ _ _ E Hi)).
  - unfold process_path. destruct (MakeTitle arg) as [t|e]; [|discriminate].
    destruct (FindClassDefinitions _ _ _ _ _ _) as [[[rs n] log]|] eqn:E; intros Eq; inv Eq.
    exact (DriverFacts.FindClassDefinitions_P _ _ _ _
             (fun st => graph_ok (fst st) /\ (importPackage (opts ms) = false -> paired (fst st)))
             (process_file_inv _ _ _) _ _ _ _ _ (conj Hok Hp) E).
Qed.

Lemma args_loop_inv args : forall (ms ms' : @MainState M),
  main_inv ms -> args_loop compile listing args ms = inr ms' -> main_inv ms'.
Proof.
  induction args as [|a args IH]; intros ms ms' Hi; cbn [args_loop]; [intros E; inv E; exact Hi|].
  destruct (process_arg compile listing a ms) as [e|ms1] eqn:E; [discriminate|].
  exact (IH ms1 ms' (process_arg_inv a ms ms1 Hi E)).
Qed.

Lemma main_init_inv : main_inv (@main_init M _).
Proof. split; [apply graph_ok_empty|intros _; apply paired_empty]. Qed.

End Inv.

(** *** The command line *)

Section Claims.
Context {M : Type -> Type} `{SML : StrMapLaws M}.
Variable compile : lstring -> option Pattern.
Variable listing : lstring -> list DirEntry.

Lemma parse_switch_N o p c v :
  parse_switch compile o (p :: "N"%char :: c :: v) = inr (set_nodesPerFile (int_of_long (strtol v)) o).
Proof. reflexivity. Qed.

(** C25: a node budget too large for a [long] saturates to [LONG_MAX],
    whose [int] cast is [-1]; as a [size_t] that is the largest value,
    so without [-Z] [NextFile] never starts a file for the node count. *)
Theorem saturated_nodesPerFile_never_splits o o' v :
  (LONG_MAX <= strtol v)%Z -> parse_switch compile o ($"-N=" ++ v) = inr o' ->
  nodesPerFile o' = (-1)%Z /\
  forall outPath nodeCnt next, (0 <= nodeCnt < size_max)%Z ->
    NextFile outPath false (nodesPerFile o') true nodeCnt next = (false, nodeCnt).
Proof.
  intros Hv E. assert (Hs : strtol v = LONG_MAX) by (pose proof (strtol_range v); lia).
  change ($"-N=" ++ v) with ("-"%char :: "N"%char :: "="%char :: v) in E.
  rewrite parse_switch_N in E. inv E. cbn [nodesPerFile set_nodesPerFile].
  rewrite Hs, int_of_long_LONG_MAX. split; [reflexivity|]. intros; apply NextFile_minus_one; auto.
Qed.

(** C20: a switch [-N], [-O] or [-V] given without its [=value] makes
    [main] read [argv[argn] + 3], past the end of the argument: the run
    has no defined result, whatever precedes it. *)
Theorem main_switch_overread now can_open fuel argv0 pre rest p k (ms : @MainState M) :
  In k ["N"%char; "O"%char; "V"%char] -> is_switch [p; k] = true ->
  args_loop compile listing pre main_init = inr ms ->
  main compile listing now can_open fuel argv0 (pre ++ [p; k] :: rest) = inl ArgOverread.
Proof.
  intros Hk Hsw Hpre. unfold main.
  assert (Hne : exists x l, pre ++ [p; k] :: rest = x :: l) by (destruct pre; cbn [app]; eauto).
  destruct Hne as [x [l Hl]]. rewrite Hl, <- Hl, args_loop_app, Hpre. cbn [args_loop].
  unfold process_arg at 1. rewrite Hsw.
  destruct Hk as [<-|[<-|[<-|[]]]]; reflexivity.
Qed.

(** C13: the loop of [main] keeps the class graph sound whatever the
    arguments, and keeps parent and child edges paired unless [-I] was
    given. *)
Theorem main_args_graph_inv args (ms' : @MainState M) :
  args_loop compile listing args main_init = inr ms' ->
  graph_ok (fst (run ms')) /\ (importPackage (opts ms') = false -> paired (fst (run ms'))).
Proof. intros E. exact (args_loop_inv compile listing args _ _ main_init_inv E). Qed.

(** C26: switches after the last code path change no scan: the graph,
    the table, the title and the messages are those after the arguments
    before them. *)
Theorem trailing_switches_keep_scan a b (ms ms' : @MainState M) :
  forallb is_switch b = true -> args_loop compile listing (a ++ b) ms = inr ms' ->
  exists ms1, args_loop compile listing a ms = inr ms1 /\
    run ms' = run ms1 /\ title ms' = title ms1 /\ graphName ms' = graphName ms1 /\ err ms' = err ms1.
Proof.
  intros Hb. rewrite args_loop_app. destruct (args_loop compile listing a ms) as [e|ms1]; [discriminate|].
  intros E. exists ms1. split; [reflexivity|exact (args_loop_switches compile listing b ms1 ms' Hb E)].
Qed.

End Claims.

End MainFacts.

(** ** Whole runs of [main] *)

Module MainExamples.
Import Main MainFacts MainRuns Scenarios.

(** [javatree -x src] on the scenario's two files prints the text
    tree with [+]/[-] connectors, and on [cerr] the count line and the
    final [endl]; with [+n -s] the name table comes first and the tree
    uses spaces. *)
Example main_text_scenario :
  main_run [$"-x"; $"src"] =
    inr (mkOutput (dc ++ $"    src/B.java:  B" ++ nl ++ $"    src/A.java:    - A" ++ nl) []
                  ($"2 Files parsed, 2 classes found" ++ nl ++ endl)) /\
  main_run [$"+n"; $"-s"; $"src"] =
    inr (mkOutput ($"ClassName" ++ tab ++ $"Modifiers" ++ tab ++ $"FirstParent" ++ tab ++ $"FirstChild"
                   ++ tab ++ $"Interfaces" ++ tab ++ $"File" ++ nl
                   ++ $"A" ++ tab ++ $"public " ++ tab ++ $"B" ++ tab ++ $"_NoChildren_" ++ tab
                   ++ $"I1, I2" ++ tab ++ $"src/A.java" ++ nl
                   ++ $"B" ++ tab ++ tab ++ $"_NoParent_" ++ tab ++ $"A" ++ tab ++ tab ++ $"src/B.java" ++ nl
                   ++ dc ++ $"    src/B.java:  B" ++ nl ++ $"    src/A.java:      A" ++ nl) []
                  ($"2 Files parsed, 2 classes found" ++ nl ++ endl)).
Proof. vm_compute. split; reflexivity. Qed.

(** The messages of the passes come before the count line: [bad/C.java]
    throws at the end of the file (a block comment followed by a line
    comment, see [extract_comment_then_line_comment]), [bad/D.java]
    cannot be opened, and [bad/E.java] reports its extra [}] before the
    [{] after it throws. *)
Example main_reports_pass_errors :
  option_map o_stderr (match main_run [$"-x"; $"bad"] with inr o => Some o | inl _ => None end) =
  Some (parsing_error ($"bad/C.java") ++ unable_to_open ($"bad/D.java")
        ++ brace_error ($"bad/E.java") ++ parsing_error ($"bad/E.java")
        ++ $"0 Files parsed, 2 classes found" ++ nl ++ endl).
Proof. vm_compute. reflexivity. Qed.

(** [-j] after the path comes too late for [FindClassDefsInFile]: the
    dTree page then shows the plain path instead of the [file:///] URL. *)
Example main_java_switch_order :
  match main_run [$"-j"; $"src"] with
  | inr out => str_find ($"'file:///src/A.java'") (o_stdout out) 0 <> None | inl _ => False end /\
  match main_run [$"src"; $"-j"] with
  | inr out => str_find ($"file:///") (o_stdout out) 0 = None | inl _ => False end.
Proof. vm_compute. split; [discriminate|reflexivity]. Qed.

(** The value of [-N] starts at the fourth byte whatever the third is,
    and is reduced to 32 bits: [-N10] gives 0, [-N=4294967306] gives 10
    and [-N=99999999999999999999] gives -1. *)
Example nodesPerFile_examples :
  map (fun a => match args_run [a] with inr ms => Some (nodesPerFile (opts ms)) | inl _ => None end)
      [$"-N10"; $"-N=4294967306"; $"-N=99999999999999999999"]
  = [Some 0%Z; Some 10%Z; Some (-1)%Z].
Proof. vm_compute. reflexivity. Qed.

Lemma saturated_nodesPerFile_never_splits_witness :
  nodesPerFile (set_nodesPerFile (int_of_long (strtol ($"99999999999999999999"))) default_options)
    = (-1)%Z /\
  NextFile ($"out/") false (-1) true 5 100 = (false, 5%Z).
Proof.
  assert (Hv : (LONG_MAX <= strtol ($"99999999999999999999"))%Z) by (vm_compute; discriminate).
  destruct (saturated_nodesPerFile_never_splits no_match default_options
              (set_nodesPerFile (int_of_long (strtol ($"99999999999999999999"))) default_options)
              ($"99999999999999999999") Hv eq_refl) as [H1 H2].
  split; [exact H1|]. rewrite <- H1. apply H2. unfold size_max. lia.
Defined.

Lemma main_switch_overread_witness : main_run [$"src"; $"-N"] = inl ArgOverread.
Proof.
  destruct (args_loop no_match src_listing [$"src"] main_init) as [e|ms] eqn:E;
    [vm_compute in E; discriminate E|].
  exact (main_switch_overread no_match src_listing [] (fun _ => true) 5 ($"javatree") [$"src"] []
           "-"%char "N"%char ms (or_introl eq_refl) eq_refl E).
Defined.

Lemma main_args_graph_inv_witness :
  exists ms, args_run [$"src"] = inr ms /\ graph_ok (fst (run ms)) /\ paired (fst (run ms)).
Proof.
  destruct (args_run [$"src"]) as [e|ms] eqn:E; [vm_compute in E; discriminate E|].
  exists ms. split; [reflexivity|].
  destruct (main_args_graph_inv no_match src_listing [$"src"] ms E) as [H1 H2].
  split; [exact H1|apply H2]. vm_compute in E. injection E as <-. reflexivity.
Defined.

Lemma trailing_switches_keep_scan_witness :
  exists ms1, args_run [$"src"] = inr ms1 /\
    match args_run [$"src"; $"-A"] with inr ms' => run ms' = run ms1 | inl _ => False end.
Proof.
  destruct (args_run [$"src"; $"-A"]) as [e|ms'] eqn:E; [vm_compute in E; discriminate E|].
  destruct (trailing_switches_keep_scan no_match src_listing [$"src"] [$"-A"] main_init ms' eq_refl E)
    as (ms1 & H1 & H2 & _).
  exists ms1. split; [exact H1|exact H2].
Defined.

End MainExamples.
