(* ===== verification/ClassNeeds.v ===== *)
(** * ClassNeeds: the older class-needs tool [classneeds.cpp]

    [src/javatree/classneeds.cpp] is a separate, older program of the
    repository: it reads linker map files, where a line naming a section
    ([class_p]) is followed by reference lines ([reference_p]) that say
    whether the section provides or needs an item, and prints a tree of
    class needs and a tree of file needs.  It links against a
    [Class_list] / [Class_relations] / [Pattern] library that is not in
    the repository.  Here the two lists [nlist] and [flist] are sorted
    maps ([StrMap], in name order) over one heap of nodes, a node's
    [Class_linkage] chains are those of [ClassRel] (the newer
    [class_rel.h] keeps the same [add_parent]/[add_child] contract), the
    three patterns are parameters, and [istream::getline(char*, 256)] is
    modelled with its [failbit] on long lines.  The display writes the
    global [indent_text] and [levels] arrays, with each write checked to
    be in range. *)

From Stdlib Require Import Ascii String List Lia ZArith Bool.
From S2P Require Import Prelude Registry ClassRel JavaReader Render Viz.
Import ListNotations.
Open Scope jt_scope.
Import ClassRel.

Module ClassNeeds.

Definition NUL : ascii := ascii_of_nat 0.
Definition newline : ascii := ascii_of_nat 10.
Definition nl : lstring := [newline].

(** [enum {GRAPHICS_CHAR=0, TEXT_CHAR=1, SPACE_CHAR=2}]. *)
Inductive NCset := GRAPHICS_CHAR | TEXT_CHAR | SPACE_CHAR.

Definition by_cset (cs : NCset) (gr tx sp : ascii) : ascii :=
  match cs with GRAPHICS_CHAR => gr | TEXT_CHAR => tx | SPACE_CHAR => sp end.

(** [more], [more_and_me], [just_me]. *)
Definition more (cs : NCset) : ascii := by_cset cs (ascii_of_nat 179) "|" " ".
Definition more_and_me (cs : NCset) : ascii := by_cset cs (ascii_of_nat 195) "+" " ".
Definition just_me (cs : NCset) : ascii := by_cset cs (ascii_of_nat 192) "-" " ".

Definition MAX_LEVELS : nat := 30.
(** The global [short tab = 2], never changed. *)
Definition tab : nat := 2.

(** [char indent_text[81]]: the 78 spaces of its initialiser, then zeros. *)
Definition indent_text0 : lstring := repeat " "%char 78 ++ repeat NUL 3.

(** The runtime switches. *)
Record NOptions := mkNOpts {
  show_possessions : bool;
  show_multiple_parents : bool;
  list_n_classes : bool;
  list_f_classes : bool;
  show_n_tree : bool;
  show_f_tree : bool;
  print : bool;
  cset : NCset }.

Definition default_nopts : NOptions := mkNOpts false false false false true false false GRAPHICS_CHAR.

(** [array[i] = x]; [None] when [i] is out of the array's bounds. *)
Fixpoint arr_set {A} (l : list A) (i : nat) (x : A) : option (list A) :=
  match l, i with
  | [], _ => None
  | _ :: l', O => Some (x :: l')
  | y :: l', S i' => option_map (cons y) (arr_set l' i' x)
  end.

Section Needs.
Context {M : Type -> Type} `{SM : StrMap M}.

(** The globals: [nlist] is the [clist] of the graph, [flist] a second
    list over the same heap; [indent_text], [levels], and what was
    written to [stdout] and [cerr]. *)
Record NState := mkNS {
  ng : @Graph M;
  flist : M addr;
  indent_text : lstring;
  levels : list lstring;
  out : lstring;
  err : lstring }.

Definition nstate0 : NState :=
  mkNS empty_graph mempty indent_text0 (repeat [] MAX_LEVELS) [] [].

Definition set_graph (g : @Graph M) (st : NState) : NState :=
  mkNS g (flist st) (indent_text st) (levels st) (out st) (err st).

Definition write (s : lstring) (st : NState) : NState :=
  mkNS (ng st) (flist st) (indent_text st) (levels st) (out st ++ s) (err st).

Definition write_err (s : lstring) (st : NState) : NState :=
  mkNS (ng st) (flist st) (indent_text st) (levels st) (out st) (err st ++ s).

Definition node (st : NState) (a : addr) : ClassRelations := Render.node (ng st) a.

(** The two lists. *)
Inductive ListSel := NList | FList.

Definition the_list (l : ListSel) (st : NState) : M addr :=
  match l with NList => clist (ng st) | FList => flist st end.

(** [new Class_relations(name)] followed by [list.insert]. *)
Definition insert_new (l : ListSel) (name : lstring) (st : NState) : NState * addr :=
  let '(g1, a) := halloc (ng st) (new_ClassRelations name [] []) in
  match l with
  | NList => (set_graph (mkGraph (minsert name a (clist g1)) (heap g1) (next_addr g1)) st, a)
  | FList => (mkNS g1 (minsert name a (flist st)) (indent_text st) (levels st) (out st) (err st), a)
  end.

(** [add_class(list, class_name)]. *)
Definition add_class (l : ListSel) (name : lstring) (st : NState) : NState * addr :=
  match mfind name (the_list l st) with
  | Some a => (st, a)
  | None => insert_new l name st
  end.

Definition modify (a : addr) (f : ClassRelations -> ClassRelations) (st : NState) : NState :=
  set_graph (hmodify (ng st) a f) st.

(** [link_ptr->relations = NULL] on the [i]-th link of a chain. *)
Definition clear_at (i : nat) (links : ClassLinkage) : ClassLinkage :=
  firstn i links ++ match skipn i links with [] => [] | _ :: rest => None :: rest end.

Definition clear_parent_at (i : nat) (n : ClassRelations) : ClassRelations :=
  mkCR (my_name n) (my_modifier n) (my_file n) (my_children n) (clear_at i (my_parents n)) (my_interfaces n).

Definition clear_child_at (i : nat) (n : ClassRelations) : ClassRelations :=
  mkCR (my_name n) (my_modifier n) (my_file n) (clear_at i (my_children n)) (my_parents n) (my_interfaces n).

(** [crel_ptr->add_parent(drel_ptr); drel_ptr->add_child(crel_ptr)]. *)
Definition link_provides (crel d : addr) (st : NState) : NState :=
  modify d (add_child_link crel) (modify crel (add_parent_link d) st).

(** [crel_ptr->add_child(drel_ptr); drel_ptr->add_parent(crel_ptr)]. *)
Definition link_needs (crel d : addr) (st : NState) : NState :=
  modify d (add_parent_link crel) (modify crel (add_child_link d) st).

(** [add_provides(crel_ptr, item_name)]: [item_name] becomes a parent of
    [crel_ptr]; a link recording it as a child of [crel_ptr] is cleared
    on the item's side only. *)
Definition add_provides (crel : addr) (item : lstring) (st : NState) : NState :=
  match mfind item (clist (ng st)) with
  | None => let '(st1, d) := insert_new NList item st in link_provides crel d st1
  | Some d =>
      let st1 := match find_parent (node st d) crel with
                 | Some i => modify d (clear_parent_at i) st
                 | None => st
                 end in
      match find_child (node st1 d) crel with
      | None => link_provides crel d st1
      | Some _ => st1
      end
  end.

(** [add_needs(crel_ptr, item_name)]. *)
Definition add_needs (crel : addr) (item : lstring) (st : NState) : NState :=
  match mfind item (clist (ng st)) with
  | None => let '(st1, d) := insert_new NList item st in link_needs crel d st1
  | Some d =>
      match find_child (node st d) crel,
            find_parent (node st d) crel with
      | None, None => link_needs crel d st
      | _, _ => st
      end
  end.

(** [display_other_parents(parent_ptr, first_parent)]: every link of the
    chain, [NULL] ones skipped. *)
Fixpoint display_other_parents (st : NState) (parent : addr) (links : ClassLinkage) : lstring :=
  match links with
  | [] => []
  | Some r :: rest =>
      (if Nat.eqb r parent then [] else $"  (" ++ my_name (node st r) ++ $")")
      ++ display_other_parents st parent rest
  | None :: rest => display_other_parents st parent rest
  end.

End Needs.

(** Option binding for the checked array writes. *)
Notation "'let?' x ':=' m 'in' k" := (match m with Some x => k | None => None end)
  (at level 10, x name, m at level 100, k at level 200) : jt_scope.

Section Display.
Context {M : Type -> Type} `{SM : StrMap M}.
Variable cs : NCset.
Variable show_multiple_parents : bool.
(** The [only_having] argument: [NUL] for the class tree, [.] for files. *)
Variable only_having : ascii.

(** [strchr(name, only_having)] is not [NULL]: the terminator matches [NUL]. *)
Definition has_char (name : lstring) (c : ascii) : bool :=
  if Ascii.eqb c NUL then true else existsb (Ascii.eqb c) name.

(** [for (scan_lvl = 0; scan_lvl < level && levels[scan_lvl] != name; scan_lvl++);] *)
Fixpoint scan_from (lv : list lstring) (name : lstring) (i k : nat) : nat :=
  match k with
  | O => i
  | S k' => if nth i lv [] =s? name then i else scan_from lv name (S i) k'
  end.

Definition scan_levels (lv : list lstring) (name : lstring) (level : nat) : nat := scan_from lv name 0 level.

(** [indent_text[i] = c] and [levels[level] = name]. *)
Definition set_indent (i : nat) (c : ascii) (st : @NState M) : option (@NState M) :=
  option_map (fun t => mkNS (ng st) (flist st) t (levels st) (out st) (err st)) (arr_set (indent_text st) i c).

Definition set_level (level : nat) (name : lstring) (st : @NState M) : option (@NState M) :=
  option_map (fun lv => mkNS (ng st) (flist st) (indent_text st) lv (out st) (err st)) (arr_set (levels st) level name).

(** [%.*s]: at most [n] bytes, up to the terminator. *)
Fixpoint c_prefix (n : nat) (s : lstring) : lstring :=
  match n, s with
  | S n', c :: s' => if Ascii.eqb c NUL then [] else c :: c_prefix n' s'
  | _, _ => []
  end.

(** The [while] loop of [display_children(level, parent_ptr, only_having)]
    over the links of [parent_ptr->children()]: [i] is the current link,
    [k] the links left; [next_level] is the local of the same name. *)
Fixpoint needs_loop (rec : nat -> addr -> @NState M -> option (@NState M)) (level : nat) (parent : addr)
         (i k next_level : nat) (st : @NState M) : option (@NState M) :=
  match k with
  | O => Some st
  | S k' =>
      let chain := my_children (node st parent) in
      let st1 := if Ascii.eqb only_having NUL then modify parent (clear_child_at i) st else st in
      let has_next := S i <? length chain in
      let indent := level * tab in
      match nth i chain None with
      | Some c =>
          if Nat.eqb c parent then needs_loop rec level parent (S i) k' next_level st1 else
          let name := my_name (node st1 c) in
          if has_char name only_having then
            let scan := scan_levels (levels st1) name level in
            let? st2 := set_level level name st1 in
            let? st3 := set_indent (indent - 1) (if has_next then more_and_me cs else just_me cs) st2 in
            let st4 := write (c_prefix indent (indent_text st3) ++ $" " ++ name
                              ++ (if show_multiple_parents
                                  then display_other_parents st3 parent (my_parents (node st3 c)) else [])) st3 in
            if scan <? level then set_indent (indent - 1) " " (write ($" <Recursion>" ++ nl) st4)
            else if Nat.eqb scan (MAX_LEVELS - 1) then set_indent (indent - 1) " " (write ($" <Too deep>" ++ nl) st4)
            else
              let? st5 := set_indent (indent - 1) (if has_next then more cs else " ") (write nl st4) in
              let? st6 := rec (S level) c st5 in
              needs_loop rec level parent (S i) k' (S level) st6
          else
            let? st2 := rec next_level c st1 in
            needs_loop rec level parent (S i) k' next_level st2
      | None => needs_loop rec level parent (S i) k' next_level st1
      end
  end.

(** [display_children(level, parent_ptr, only_having)]: [None] when the
    fuel runs out or an array write is out of bounds. *)
Fixpoint display_children (fuel level : nat) (parent : addr) (st : @NState M) : option (@NState M) :=
  match fuel with
  | O => None
  | S f => needs_loop (display_children f) level parent 0 (length (my_children (node st parent))) level st
  end.

(** The loop of [display_dependences] over the list in index order. *)
Fixpoint roots_loop (fuel : nat) (show_all : bool) (es : list (lstring * addr)) (st : @NState M)
  : option (@NState M) :=
  match es with
  | [] => Some st
  | (_, a) :: rest =>
      if show_all || match my_parents (node st a) with Some _ :: _ => false | _ => true end then
        let name := my_name (node st a) in
        let? st1 := set_level 0 name (write (name ++ nl) st) in
        let? st2 := display_children fuel 1 a st1 in
        roots_loop fuel show_all rest st2
      else roots_loop fuel show_all rest st
  end.

(** [display_dependences(list, show_all, only_having)]. *)
Definition display_dependences (fuel : nat) (l : ListSel) (show_all : bool) (st : @NState M)
  : option (@NState M) :=
  let st1 := write (nl ++ $"Tree of " ++ match l with FList => $"File Needs" | NList => $"Class Needs" end ++ nl) st in
  roots_loop fuel show_all (melements (the_list l st1)) st1.

End Display.

Section Lists.
Context {M : Type -> Type} `{SM : StrMap M}.

(** [printf("%5u: %s\n", idx, name)]. *)
Definition class_line (idx : nat) (name : lstring) : lstring :=
  let d := Viz.dec idx in repeat " "%char (5 - length d) ++ d ++ $": " ++ name ++ nl.

(** [display_classes(list)]. *)
Definition display_classes (l : ListSel) (st : @NState M) : @NState M :=
  let st1 := write (nl ++ match l with FList => $"Files" | NList => $"Classes" end ++ nl) st in
  write (concat (map (fun p => class_line (fst p) (my_name (node st1 (snd (snd p)))))
                     (combine (seq 0 (length (melements (the_list l st1)))) (melements (the_list l st1)))))
        st1.

End Lists.

(** [release_links(first_link)] of [classneeds.cpp]: the same loop as
    the one of [javatree.cpp], modelled by [ClassRel.release_links]. *)
Definition release_links (fuel : nat) (links : ClassLinkage) : option (ClassLinkage * nat) :=
  ClassRel.release_links fuel links.

Section Release.
Context {M : Type -> Type} `{SM : StrMap M}.

(** [release_clist(clist)]: for every entry in index order, the child
    and parent chains are released and the node deleted; the deleted
    nodes and the number of deleted links.  [main]'s only call is
    commented out. *)
Definition release_clist (l : ListSel) (st : @NState M) : option (list addr * nat) :=
  fold_left
    (fun acc p =>
       match acc with
       | None => None
       | Some (freed, k) =>
           let n := node st (snd p) in
           match release_links (length (my_children n)) (my_children n),
                 release_links (length (my_parents n)) (my_parents n) with
           | Some (_, k1), Some (_, k2) => Some (freed ++ [snd p], k + k1 + k2)
           | _, _ => None
           end
       end)
    (melements (the_list l st)) (Some ([], 0)).

End Release.

(** ** Reading map files *)

(** [in.getline(line, n)] of [istream] into a [char] array: stores up
    to [n - 1] bytes up to the next newline, which is extracted; the end
    of the input sets [eofbit] (and [failbit] when nothing was
    extracted); [n - 1] bytes not followed by a newline set [failbit].
    A stream that is not good sets [failbit] and stores the empty
    string. *)
Fixpoint getline_loop (room : nat) (inp acc : lstring) : JavaReader.istream * lstring :=
  match inp with
  | [] => (JavaReader.mkStream [] true (match acc with [] => true | _ => false end), acc)
  | c :: rest =>
      if Ascii.eqb c newline then (JavaReader.mkStream rest false false, acc)
      else match room with
           | O => (JavaReader.mkStream inp false true, acc)
           | S r => getline_loop r rest (acc ++ [c])
           end
  end.

Definition c_getline (n : nat) (ins : JavaReader.istream) : JavaReader.istream * lstring :=
  if JavaReader.good ins then getline_loop (n - 1) (JavaReader.buf ins) []
  else (JavaReader.mkStream (JavaReader.buf ins) (JavaReader.eofbit ins) true, []).

Section Parse.
Context {M : Type -> Type} `{SM : StrMap M}.
Variable opts : NOptions.
(** [match.match(reference_p, line)]: the value of the number group as
    [(int)(long)numstr], the item group, and [match.location(3)]. *)
Variable reference_match : lstring -> option (Z * lstring * nat).
(** [possession_p.compare(line, end_idx)]. *)
Variable possession_at : lstring -> nat -> bool.
(** [match.match(class_p, line)]: the section name group. *)
Variable class_match : lstring -> option lstring.

(** [WWString::truncate(n)]: the first [n] bytes. *)
Definition truncate (n : Z) (s : lstring) : lstring := firstn (Z.to_nat n) s.

(** [line[0] == 0 || line[0] == ' '] *)
Definition section_ends (line : lstring) : bool :=
  match line with [] => true | c :: _ => Ascii.eqb c NUL || Ascii.eqb c " " end.

(** The loop of [process_section(section_name, in)]; [crel] is the local
    [crel_ptr], created in [flist] at the first reference. *)
Fixpoint section_loop (fuel : nat) (section_name : lstring) (crel : option addr)
         (ins : JavaReader.istream) (st : @NState M) : option (JavaReader.istream * @NState M) :=
  match fuel with
  | O => None
  | S f =>
      if JavaReader.eofbit ins then Some (ins, st) else
      let '(ins1, line) := c_getline 256 ins in
      if section_ends line then Some (ins1, st) else
      match reference_match line with
      | None => section_loop f section_name crel ins1 st
      | Some (numstr, item0, end_idx) =>
          let '(st1, c) := match crel with
                           | Some c => (st, c)
                           | None => add_class FList section_name st
                           end in
          let item := truncate numstr item0 in
          let poss := possession_at line end_idx in
          let st2 := if poss then add_provides c item st1 else add_needs c item st1 in
          let st3 := if show_possessions opts
                     then write (section_name ++ (if poss then $" provides " else $" needs ") ++ item ++ nl) st2
                     else st2 in
          section_loop f section_name (Some c) ins1 st3
      end
  end.

Definition process_section (fuel : nat) (section_name : lstring) (ins : JavaReader.istream) (st : @NState M)
  : option (JavaReader.istream * @NState M) :=
  section_loop fuel section_name None ins st.

(** The [while (!in.eof())] loop of [find_file_references]. *)
Fixpoint references_loop (fuel : nat) (ins : JavaReader.istream) (st : @NState M)
  : option (@NState M) :=
  match fuel with
  | O => None
  | S f =>
      if JavaReader.eofbit ins then Some st else
      let '(ins1, line) := c_getline 256 ins in
      match class_match line with
      | None => references_loop f ins1 st
      | Some section_name =>
          match process_section f section_name ins1 st with
          | None => None
          | Some (ins2, st2) => references_loop f ins2 st2
          end
      end
  end.

(** [find_file_references(filename)]; [file] is the file's bytes, [None]
    when it cannot be opened. *)
Definition find_file_references (fuel : nat) (filename : lstring) (file : option lstring) (st : @NState M)
  : option (@NState M) :=
  match file with
  | None => Some (write_err ($"Classtree: Unable to open " ++ filename ++ nl) st)
  | Some bytes => references_loop fuel (JavaReader.open_stream bytes) st
  end.

End Parse.

(** ** [main] *)

(** [tolower] in the C locale. *)
Definition tolower (c : ascii) : ascii :=
  let n := nat_of_ascii c in if (65 <=? n) && (n <=? 90) then ascii_of_nat (n + 32) else c.

Definition set_show_possessions b o := mkNOpts b (show_multiple_parents o) (list_n_classes o)
  (list_f_classes o) (show_n_tree o) (show_f_tree o) (print o) (cset o).
Definition set_show_multiple_parents b o := mkNOpts (show_possessions o) b (list_n_classes o)
  (list_f_classes o) (show_n_tree o) (show_f_tree o) (print o) (cset o).
Definition set_list_n_classes b o := mkNOpts (show_possessions o) (show_multiple_parents o) b
  (list_f_classes o) (show_n_tree o) (show_f_tree o) (print o) (cset o).
Definition set_list_f_classes b o := mkNOpts (show_possessions o) (show_multiple_parents o)
  (list_n_classes o) b (show_n_tree o) (show_f_tree o) (print o) (cset o).
Definition set_show_n_tree b o := mkNOpts (show_possessions o) (show_multiple_parents o)
  (list_n_classes o) (list_f_classes o) b (show_f_tree o) (print o) (cset o).
Definition set_show_f_tree b o := mkNOpts (show_possessions o) (show_multiple_parents o)
  (list_n_classes o) (list_f_classes o) (show_n_tree o) b (print o) (cset o).
Definition set_print b o := mkNOpts (show_possessions o) (show_multiple_parents o)
  (list_n_classes o) (list_f_classes o) (show_n_tree o) (show_f_tree o) b (cset o).
Definition set_cset c o := mkNOpts (show_possessions o) (show_multiple_parents o)
  (list_n_classes o) (list_f_classes o) (show_n_tree o) (show_f_tree o) (print o) c.

(** The [switch (tolower(argv[argn][1]))] of [main]; [argv[argn][2]] is
    the terminator of a two-byte switch.  Case ['l'] has no [break] and
    falls through into case ['t']. *)
Definition parse_nswitch (o : NOptions) (arg : lstring) : NOptions :=
  let polarity := match arg with c :: _ => Ascii.eqb c "+" | [] => false end in
  let sub := tolower (nth 2 arg NUL) in
  let case_t o := if Ascii.eqb sub "f" then set_show_f_tree polarity o else set_show_n_tree polarity o in
  let k := tolower (nth 1 arg NUL) in
  if Ascii.eqb k "m" then set_show_multiple_parents polarity o
  else if Ascii.eqb k "o" then set_show_possessions polarity o
  else if Ascii.eqb k "p" then set_print polarity o
  else if Ascii.eqb k "g" then set_cset GRAPHICS_CHAR o
  else if Ascii.eqb k "x" then set_cset TEXT_CHAR o
  else if Ascii.eqb k "s" then set_cset SPACE_CHAR o
  else if Ascii.eqb k "l" then
    case_t (if Ascii.eqb sub "f" then set_list_f_classes polarity o else set_list_n_classes polarity o)
  else if Ascii.eqb k "t" then case_t o
  else o.

(** The usage text, with [time.time_string()] as [now]. *)
Definition nusage (argv0 now : lstring) : lstring :=
  nl ++ argv0 ++ $":  " ++ now ++ nl ++
  nl ++ $"Des: Generate class dependence tree" ++ nl ++
  $"Use: Classtree [-+ntpgxs] header_files..." ++ nl ++
  nl ++ $"Switches (" ++ $"*=default)(-=off, +=on):" ++ nl ++
  $"  m  = Show multiple (needs)" ++ nl ++
  $"  ln = List classes alphabetically" ++ nl ++
  $"  lf = List files alphabetically" ++ nl ++
  $"* t  = Show class dependency tree" ++ nl ++
  $"  o  = Show possessions" ++ nl ++
  nl ++ $"  p  = Add HP prefix for printing" ++ nl ++
  $"* g  = Use graphics for tree connections" ++ nl ++
  $"  x  = Use (+|-) for tree connections" ++ nl ++
  $"  s  = Use spaces for tree connections" ++ nl.

(** The printer escape sequence of the [p] switch. *)
Definition hp_prefix : lstring :=
  [ascii_of_nat 27] ++ $"(10U" ++ [ascii_of_nat 27] ++ $"(s0p10.00h12.0v0s0b3T".

Section Main.
Context {M : Type -> Type} `{SM : StrMap M}.
Variable reference_match : lstring -> option (Z * lstring * nat).
Variable possession_at : lstring -> nat -> bool.
Variable class_match : lstring -> option lstring.
(** The files [in.open] can read, with their bytes. *)
Variable files : lstring -> option lstring.
(** [time.time_string()]. *)
Variable now : lstring.

(** [*argv[argn] == '-' || *argv[argn] == '+']. *)
Definition nis_switch (arg : lstring) : bool :=
  match arg with c :: _ => Ascii.eqb c "-" || Ascii.eqb c "+" | [] => false end.

(** The argument loop: switches, and the files read in between with the
    switches seen so far. *)
Fixpoint nargs_loop (fuel : nat) (args : list lstring) (o : NOptions) (st : @NState M)
  : option (NOptions * @NState M) :=
  match args with
  | [] => Some (o, st)
  | a :: rest =>
      if nis_switch a then nargs_loop fuel rest (parse_nswitch o a) st
      else let? st1 := find_file_references o reference_match possession_at class_match fuel a (files a) st in
           nargs_loop fuel rest o st1
  end.

(** What [main] prints after the loop. *)
Definition noutput (fuel : nat) (argv0 : lstring) (o : NOptions) (st : @NState M) : option (@NState M) :=
  let st1 := if print o then write hp_prefix st else st in
  let st2 := write (argv0 ++ $": " ++ now ++ nl ++ nl
                    ++ $"Multiple inheritance is designated by following the class name" ++ nl
                    ++ $"with all additional parents inclosed in parenthesis" ++ nl ++ nl) st1 in
  let st3 := if list_n_classes o then display_classes NList st2 else st2 in
  let? st4 := if show_n_tree o
              then display_dependences (cset o) (show_multiple_parents o) NUL fuel NList false st3
              else Some st3 in
  let st5 := if list_f_classes o then display_classes FList st4 else st4 in
  if show_f_tree o
  then display_dependences (cset o) (show_multiple_parents o) "." fuel FList true st5
  else Some st5.

(** [main(argc, argv)] of [classneeds.cpp]: the final [stdout] and
    [cerr]. *)
Definition nmain (fuel : nat) (argv0 : lstring) (args : list lstring) : option (lstring * lstring) :=
  match args with
  | [] => Some ([], nusage argv0 now)
  | _ =>
      let? r := nargs_loop fuel args default_nopts (@nstate0 M _) in
      let? st := noutput fuel argv0 (fst r) (snd r) in
      Some (out st, err st)
  end.

(** The array sizes of the globals. *)
Definition arrays_ok (st : @NState M) : Prop :=
  length (levels st) = MAX_LEVELS /\ length (indent_text st) = 81.

(** Every [NULL] child link of [st] is still [NULL] in [st']. *)
Definition keeps_cleared (st st' : @NState M) : Prop :=
  forall a i, nth i (my_children (node st a)) None = None -> nth i (my_children (node st' a)) None = None.

(** The output ends with the line of a [break]: [<Recursion>] or
    [<Too deep>]. *)
Definition stopped_early (st : @NState M) : Prop :=
  exists u, out st = u ++ $" <Recursion>" ++ nl \/ out st = u ++ $" <Too deep>" ++ nl.

End Main.

End ClassNeeds.

(** ** Runs on a small map file *)

Module ClassNeedsRuns.
Import ClassNeeds.

(** Map lines in the form the parameters read: [SECTION name] opens a
    section, [+item] says it provides [item], [-item] that it needs it. *)
Definition class_m (line : lstring) : option lstring :=
  if starts_with ($"SECTION ") line then Some (skipn 8 line) else None.

Definition reference_m (line : lstring) : option (Z * lstring * nat) :=
  match line with
  | c :: item => if Ascii.eqb c "+" || Ascii.eqb c "-" then Some (Z.of_nat (length item), item, 0) else None
  | [] => None
  end.

Definition possession_m (line : lstring) (i : nat) : bool :=
  match line with c :: _ => Ascii.eqb c "+" | [] => false end.

Definition map_file : lstring :=
  $"SECTION a.o" ++ nl ++ $"+A" ++ nl ++ $"-B" ++ nl ++ nl ++
  $"SECTION b.o" ++ nl ++ $"+B" ++ nl ++ $"-C" ++ nl ++ nl.

Definition files (p : lstring) : option lstring := if p =s? $"x.map" then Some map_file else None.

Definition nrun (args : list lstring) : option (lstring * lstring) :=
  @nmain SortedMap _ reference_m possession_m class_m files ($"now") 40 ($"classneeds") args.

(** A cycle below the root [R]: [r.o] needs [A], [a.o] provides [A] and
    needs [B], [b.o] provides [B] and needs [A]. *)
Definition cycle_file : lstring :=
  $"SECTION r.o" ++ nl ++ $"+R" ++ nl ++ $"-A" ++ nl ++ nl ++
  $"SECTION a.o" ++ nl ++ $"+A" ++ nl ++ $"-B" ++ nl ++ nl ++
  $"SECTION b.o" ++ nl ++ $"+B" ++ nl ++ $"-A" ++ nl ++ nl.

Definition cycle_state : @NState SortedMap :=
  match nargs_loop reference_m possession_m class_m (fun _ => Some cycle_file) 40 [$"c.map"]
          default_nopts nstate0 with
  | Some (_, st) => st
  | None => nstate0
  end.

(** The banner [main] prints before the trees. *)
Definition header : lstring :=
  $"classneeds: now" ++ nl ++ nl
  ++ $"Multiple inheritance is designated by following the class name" ++ nl
  ++ $"with all additional parents inclosed in parenthesis" ++ nl ++ nl.

End ClassNeedsRuns.

(** ** Facts *)

Module ClassNeedsFacts.
Import ClassNeeds.

(** *** Checked array writes *)

Lemma arr_set_in_range {A} (l : list A) i x :
  i < length l -> exists l', arr_set l i x = Some l' /\ length l' = length l.
Proof.
  revert i. induction l as [|y l IH]; intros [|i] Hi; cbn in *; try lia.
  - exists (x :: l). auto.
  - destruct (IH i ltac:(lia)) as [l' [E Hl]]. rewrite E. cbn. exists (y :: l'). cbn. auto.
Qed.

Section Bounds.
Context {M : Type -> Type} `{SM : StrMap M}.
Variable cs : NCset.
Variable smp : bool.

Lemma arrays_ok_write s (st : @NState M) : arrays_ok st -> arrays_ok (write s st).
Proof. exact (fun H => H). Qed.

Lemma arrays_ok_modify a f (st : @NState M) : arrays_ok st -> arrays_ok (modify a f st).
Proof. exact (fun H => H). Qed.

Lemma set_level_ok level name (st : @NState M) :
  level < MAX_LEVELS -> arrays_ok st -> exists st', set_level level name st = Some st' /\ arrays_ok st'.
Proof.
  intros Hl [H1 H2]. unfold set_level.
  destruct (arr_set_in_range (levels st) level name ltac:(lia)) as [l' [E Hl']]. rewrite E.
  eexists; split; [reflexivity|]. split; cbn; congruence.
Qed.

Lemma set_indent_ok i c (st : @NState M) :
  i < 81 -> arrays_ok st -> exists st', set_indent i c st = Some st' /\ arrays_ok st'.
Proof.
  intros Hi [H1 H2]. unfold set_indent.
  destruct (arr_set_in_range (indent_text st) i c ltac:(lia)) as [l' [E Hl']]. rewrite E.
  eexists; split; [reflexivity|]. split; cbn; congruence.
Qed.

Lemma scan_from_le lv name i k : scan_from lv name i k <= i + k.
Proof.
  revert i. induction k as [|k IH]; intros i; cbn [scan_from]; [lia|].
  destruct (_ =s? _); [lia|]. specialize (IH (S i)). lia.
Qed.

Lemma scan_levels_le lv name level : scan_levels lv name level <= level.
Proof. unfold scan_levels. pose proof (scan_from_le lv name 0 level). lia. Qed.

Hint Resolve arrays_ok_write arrays_ok_modify : core.

(** The children loop of the class tree, given that the recursive call
    finishes from the next level on. *)
Lemma needs_loop_total (rec : nat -> addr -> @NState M -> option (@NState M)) level parent :
  1 <= level <= 29 ->
  (level < 29 -> forall c st, arrays_ok st -> exists st', rec (S level) c st = Some st' /\ arrays_ok st') ->
  forall k i next_level st, arrays_ok st ->
  exists st', needs_loop cs smp NUL rec level parent i k next_level st = Some st' /\ arrays_ok st'.
Proof.
  intros Hl Hrec k. induction k as [|k IH]; intros i nl0 st Hst; cbn [needs_loop]; [eauto|].
  cbv zeta. rewrite Ascii.eqb_refl.
  destruct (nth i _ None) as [c|]; [|apply IH; auto].
  destruct (Nat.eqb c parent); [apply IH; auto|].
  unfold has_char. rewrite Ascii.eqb_refl.
  destruct (set_level_ok level (my_name (node (modify parent (clear_child_at i) st) c))
              (modify parent (clear_child_at i) st) ltac:(unfold MAX_LEVELS; lia) ltac:(auto))
    as [st2 [E2 H2]]. rewrite E2.
  match goal with |- context [set_indent (level * tab - 1) ?g st2] =>
    destruct (set_indent_ok (level * tab - 1) g st2 ltac:(unfold tab; lia) H2) as [st3 [E3 H3]] end.
  rewrite E3.
  pose proof (scan_levels_le (levels (modify parent (clear_child_at i) st))
                (my_name (node (modify parent (clear_child_at i) st) c)) level) as Hs.
  destruct (_ <? level) eqn:Elt; [apply set_indent_ok; [unfold tab; lia|auto]|].
  destruct (Nat.eqb _ (MAX_LEVELS - 1)) eqn:Eq29; [apply set_indent_ok; [unfold tab; lia|auto]|].
  apply Nat.ltb_ge in Elt. apply Nat.eqb_neq in Eq29. unfold MAX_LEVELS in Eq29.
  match goal with |- context [set_indent (level * tab - 1) ?g (write nl ?s)] =>
    destruct (set_indent_ok (level * tab - 1) g (write nl s) ltac:(unfold tab; lia) ltac:(auto))
      as [st5 [E5 H5]] end.
  rewrite E5. destruct (Hrec ltac:(lia) c st5 H5) as [st6 [E6 H6]]. rewrite E6. apply IH; auto.
Qed.

Lemma display_children_class_tree fuel : forall level parent (st : @NState M),
  1 <= level <= 29 -> 30 - level <= fuel -> arrays_ok st ->
  exists st', display_children cs smp NUL fuel level parent st = Some st' /\ arrays_ok st'.
Proof.
  induction fuel as [|f IH]; intros level parent st Hl Hf Hst; [lia|]. cbn [display_children].
  apply needs_loop_total; auto. intros Hlt c st1 H1. apply IH; auto; lia.
Qed.

Lemma roots_loop_class_tree fuel show_all es : forall (st : @NState M),
  29 <= fuel -> arrays_ok st ->
  exists st', roots_loop cs smp NUL fuel show_all es st = Some st' /\ arrays_ok st'.
Proof.
  induction es as [|[k a] es IH]; intros st Hf Hst; cbn [roots_loop]; [eauto|].
  destruct (_ || _); [|apply IH; auto].
  destruct (set_level_ok 0 (my_name (node st a)) (write (my_name (node st a) ++ nl) st)
              ltac:(unfold MAX_LEVELS; lia) ltac:(auto)) as [st1 [E1 H1]].
  rewrite E1. destruct (display_children_class_tree fuel 1 a st1 ltac:(lia) ltac:(lia) H1) as [st2 [E2 H2]].
  rewrite E2. apply IH; auto.
Qed.

(** C24: whatever the graph, cycles included, the class tree
    ([display_dependences] with [only_having == '\0']) finishes with 29
    levels of fuel, and every write to [levels] and [indent_text] stays
    inside the arrays: a cycle is cut by the [levels] search and depth
    by [MAX_LEVELS]. *)
Theorem class_tree_display_bounded fuel l show_all (st : @NState M) :
  29 <= fuel -> arrays_ok st ->
  exists st', display_dependences cs smp NUL fuel l show_all st = Some st' /\ arrays_ok st'.
Proof. intros Hf Hst. apply roots_loop_class_tree; auto. Qed.

End Bounds.

(** *** The class tree clears the links it walks *)

Lemma nth_clear_at_same i l : nth i (clear_at i l) None = None.
Proof.
  unfold clear_at. destruct (Nat.le_gt_cases (length l) i) as [Hle|Hlt].
  - rewrite skipn_all2 by auto. rewrite app_nil_r. apply nth_overflow. rewrite length_firstn. lia.
  - rewrite app_nth2 by (rewrite length_firstn; lia). rewrite length_firstn.
    replace (i - Nat.min i (length l)) with 0 by lia.
    destruct (skipn i l) as [|x r] eqn:E; [|reflexivity].
    apply (f_equal (@length _)) in E. rewrite length_skipn in E. simpl in E. lia.
Qed.

Lemma nth_clear_at_none i j l : nth i l None = None -> nth i (clear_at j l) None = None.
Proof.
  unfold clear_at. intros H. destruct (Nat.lt_ge_cases i j) as [Hij|Hij].
  - destruct (Nat.lt_ge_cases i (length l)) as [Hil|Hil].
    + rewrite app_nth1 by (rewrite length_firstn; lia). rewrite nth_firstn.
      destruct (Nat.ltb_spec i j); [exact H|lia].
    + apply nth_overflow. rewrite length_app, length_firstn.
      destruct (skipn j l) eqn:E; simpl; [lia|].
      apply (f_equal (@length _)) in E. rewrite length_skipn in E. simpl in E. lia.
  - rewrite <- (firstn_skipn j l) in H. destruct (Nat.le_gt_cases (length l) j) as [Hle|Hlt].
    + rewrite skipn_all2 by auto. rewrite app_nil_r. apply nth_overflow. rewrite length_firstn. lia.
    + rewrite app_nth2 in * by (rewrite length_firstn; lia). rewrite length_firstn in *.
      destruct (skipn j l) as [|x r]; [exact H|].
      destruct (i - Nat.min j (length l)) as [|m]; [reflexivity|exact H].
Qed.

Section Clears.
Context {M : Type -> Type} `{SM : StrMap M}.
Variable cs : NCset.
Variable smp : bool.

Lemma keeps_cleared_refl (st : @NState M) : keeps_cleared st st.
Proof. intros a i H. exact H. Qed.

Lemma keeps_cleared_trans (st1 st2 st3 : @NState M) :
  keeps_cleared st1 st2 -> keeps_cleared st2 st3 -> keeps_cleared st1 st3.
Proof. intros H1 H2 a i H. auto. Qed.

Lemma keeps_cleared_graph (st st' : @NState M) : ng st' = ng st -> keeps_cleared st st'.
Proof. intros E a i H. unfold node in *. rewrite E. exact H. Qed.

Lemma set_level_graph level name (st st' : @NState M) : set_level level name st = Some st' -> ng st' = ng st.
Proof. unfold set_level. destruct (arr_set _ _ _); intros E; inv E; reflexivity. Qed.

Lemma set_indent_graph i c (st st' : @NState M) : set_indent i c st = Some st' -> ng st' = ng st.
Proof. unfold set_indent. destruct (arr_set _ _ _); intros E; inv E; reflexivity. Qed.

Lemma keeps_cleared_clear parent i (st : @NState M) : keeps_cleared st (modify parent (clear_child_at i) st).
Proof.
  intros a j H. unfold node, Render.node, modify, set_graph in *. cbn [ng] in *.
  rewrite GraphFacts.hget_hmodify. destruct (Nat.eqb a parent); [|exact H].
  destruct (hget (ng st) a); [apply nth_clear_at_none, H|exact H].
Qed.

Lemma cleared_at_clear parent i (st : @NState M) :
  nth i (my_children (node (modify parent (clear_child_at i) st) parent)) None = None.
Proof.
  unfold node, Render.node, modify, set_graph. cbn [ng].
  rewrite GraphFacts.hget_hmodify, Nat.eqb_refl. destruct (hget (ng st) parent); cbn [option_map].
  - apply nth_clear_at_same.
  - destruct i as [|[|i]]; reflexivity.
Qed.

Lemma needs_loop_keeps rec level parent :
  (forall l c st st', rec l c st = Some st' -> keeps_cleared st st') ->
  forall k i nl0 (st st' : @NState M), needs_loop cs smp NUL rec level parent i k nl0 st = Some st' ->
  keeps_cleared st st'.
Proof.
  intros Hrec k. induction k as [|k IH]; intros i nl0 st st' E; cbn [needs_loop] in E;
    [inv E; apply keeps_cleared_refl|].
  cbv zeta in E. rewrite Ascii.eqb_refl in E.
  apply (keeps_cleared_trans _ (modify parent (clear_child_at i) st)); [apply keeps_cleared_clear|].
  set (st1 := modify parent (clear_child_at i) st) in *.
  destruct (nth i _ None) as [c|]; [|eapply IH; exact E].
  destruct (Nat.eqb c parent); [eapply IH; exact E|].
  unfold has_char in E. rewrite Ascii.eqb_refl in E.
  destruct (set_level _ _ st1) as [st2|] eqn:E2; [|discriminate].
  destruct (set_indent _ _ st2) as [st3|] eqn:E3; [|discriminate].
  assert (G3 : ng st3 = ng st1) by (rewrite (set_indent_graph _ _ _ _ E3); exact (set_level_graph _ _ _ _ E2)).
  destruct (_ <? level); [apply keeps_cleared_graph; rewrite (set_indent_graph _ _ _ _ E); exact G3|].
  destruct (Nat.eqb _ _); [apply keeps_cleared_graph; rewrite (set_indent_graph _ _ _ _ E); exact G3|].
  destruct (set_indent _ _ (write nl _)) as [st5|] eqn:E5; [|discriminate].
  destruct (rec _ c st5) as [st6|] eqn:E6; [|discriminate].
  apply (keeps_cleared_trans _ st5); [apply keeps_cleared_graph; rewrite (set_indent_graph _ _ _ _ E5); exact G3|].
  apply (keeps_cleared_trans _ st6); [eapply Hrec; exact E6|eapply IH; exact E].
Qed.

Lemma display_children_keeps fuel : forall level parent (st st' : @NState M),
  display_children cs smp NUL fuel level parent st = Some st' -> keeps_cleared st st'.
Proof.
  induction fuel as [|f IH]; intros level parent st st' E; [discriminate|]. cbn [display_children] in E.
  eapply needs_loop_keeps; [|exact E]. intros l c s s' E'. exact (IH _ _ _ _ E').
Qed.

(** The loop over the links [i], ..., [i + k - 1] of [parent] leaves them
    all [NULL], unless it ends at a [break]. *)
Lemma needs_loop_clears rec level parent :
  (forall l c st st', rec l c st = Some st' -> keeps_cleared st st') ->
  forall k i nl0 (st st' : @NState M), needs_loop cs smp NUL rec level parent i k nl0 st = Some st' ->
  (forall m, i <= m < i + k -> nth m (my_children (node st' parent)) None = None) \/ stopped_early st'.
Proof.
  intros Hrec k. induction k as [|k IH]; intros i nl0 st st' E; [left; intros; lia|].
  cbn [needs_loop] in E. cbv zeta in E. rewrite Ascii.eqb_refl in E.
  pose proof (cleared_at_clear parent i st) as Hi.
  set (st1 := modify parent (clear_child_at i) st) in *.
  assert (Hcont : forall st2 nl1, keeps_cleared st1 st2 ->
            needs_loop cs smp NUL rec level parent (S i) k nl1 st2 = Some st' ->
            (forall m, i <= m < i + S k -> nth m (my_children (node st' parent)) None = None) \/ stopped_early st').
  { intros st2 nl1 K E'. destruct (IH _ _ _ _ E') as [H|H]; [left|right; exact H].
    intros m Hm. destruct (Nat.eq_dec m i) as [->|]; [|apply H; lia].
    apply (needs_loop_keeps rec level parent Hrec k (S i) nl1 st2 st' E'). apply K. exact Hi. }
  destruct (nth i _ None) as [c|]; [|exact (Hcont st1 _ (keeps_cleared_refl _) E)].
  destruct (Nat.eqb c parent); [exact (Hcont st1 _ (keeps_cleared_refl _) E)|].
  unfold has_char in E. rewrite Ascii.eqb_refl in E.
  destruct (set_level _ _ st1) as [st2|] eqn:E2; [|discriminate].
  destruct (set_indent _ _ st2) as [st3|] eqn:E3; [|discriminate].
  assert (G3 : ng st3 = ng st1) by (rewrite (set_indent_graph _ _ _ _ E3); exact (set_level_graph _ _ _ _ E2)).
  destruct (_ <? level).
  { right. unfold set_indent in E. destruct (arr_set _ _ _); inv E. eexists. left. reflexivity. }
  destruct (Nat.eqb _ _).
  { right. unfold set_indent in E. destruct (arr_set _ _ _); inv E. eexists. right. reflexivity. }
  destruct (set_indent _ _ (write nl _)) as [st5|] eqn:E5; [|discriminate].
  destruct (rec _ c st5) as [st6|] eqn:E6; [|discriminate].
  apply (Hcont st6 (S level)); [|exact E].
  apply (keeps_cleared_trans _ st5); [apply keeps_cleared_graph; rewrite (set_indent_graph _ _ _ _ E5); exact G3|].
  eapply Hrec; exact E6.
Qed.

(** C38: the class tree ([only_having == '\0']) sets [link_ptr->relations]
    to [NULL] on every child link of a node it expands, so no later tree
    can walk those edges, unless the loop ended at the [break] after a
    [<Recursion>] or [<Too deep>] line. *)
Theorem class_tree_clears_links fuel level parent (st st' : @NState M) :
  display_children cs smp NUL fuel level parent st = Some st' ->
  (forall m, m < length (my_children (node st parent)) -> nth m (my_children (node st' parent)) None = None)
  \/ stopped_early st'.
Proof.
  intros E. destruct fuel as [|f]; [discriminate|]. cbn [display_children] in E.
  destruct (needs_loop_clears _ level parent (fun l c s s' E' => display_children_keeps f l c s s' E')
              _ 0 level st st' E) as [H|H]; [left; intros m Hm; apply H; lia|right; exact H].
Qed.

End Clears.

(** *** Reading a map file *)

Section Reading.
Context {M : Type -> Type} `{SM : StrMap M}.
Variable opts : NOptions.
Variable rm : lstring -> option (Z * lstring * nat).
Variable pa : lstring -> nat -> bool.
Variable cm : lstring -> option lstring.

Lemma getline_loop_long room : forall inp acc,
  room < length inp -> ~ In newline (firstn (S room) inp) ->
  getline_loop room inp acc = (JavaReader.mkStream (skipn room inp) false true, acc ++ firstn room inp).
Proof.
  induction room as [|r IH]; intros [|c inp] acc Hl Hn; cbn in Hl; try lia; cbn [getline_loop].
  - assert (Hc : Ascii.eqb c newline = false) by (apply Ascii.eqb_neq; intros ->; apply Hn; left; reflexivity).
    rewrite Hc, app_nil_r. reflexivity.
  - assert (Hc : Ascii.eqb c newline = false) by (apply Ascii.eqb_neq; intros ->; apply Hn; left; reflexivity).
    rewrite Hc, IH by (cbn [length firstn In] in *; first [lia | intros Hi; apply Hn; right; exact Hi]).
    rewrite <- app_assoc. reflexivity.
Qed.

(** A stream with [failbit] and without [eofbit] stays so, and reads
    the empty line. *)
Lemma c_getline_failed buf :
  c_getline 256 (JavaReader.mkStream buf false true) = (JavaReader.mkStream buf false true, []).
Proof. reflexivity. Qed.

Lemma references_loop_failed : cm [] = None -> forall fuel buf st,
  references_loop opts rm pa cm fuel (JavaReader.mkStream buf false true) st = None.
Proof.
  intros Hcm fuel. induction fuel as [|f IH]; intros buf st; [reflexivity|].
  cbn [references_loop JavaReader.eofbit]. rewrite c_getline_failed, Hcm. apply IH.
Qed.

Lemma process_section_failed f sec buf st :
  process_section opts rm pa (S f) sec (JavaReader.mkStream buf false true) st
  = Some (JavaReader.mkStream buf false true, st).
Proof. reflexivity. Qed.

End Reading.

(** C22: a map file whose first line has 256 bytes or more before its
    newline makes [find_file_references] loop for ever: [getline] stores
    255 bytes and sets [failbit], every later [getline] reads the empty
    line without reaching the end of the file, and [while (!in.eof())]
    never stops. *)
Theorem long_line_never_finishes {M} `{SM : StrMap M} opts rm pa cm filename line rest
        (st : @NState M) fuel :
  cm [] = None -> 256 <= length line -> ~ In newline (firstn 256 line) ->
  find_file_references opts rm pa cm fuel filename (Some (line ++ rest)) st = None.
Proof.
  intros Hcm Hl Hn. unfold find_file_references. destruct fuel as [|f]; [reflexivity|].
  unfold JavaReader.open_stream. cbn [references_loop JavaReader.eofbit].
  assert (Hf : firstn 256 (line ++ rest) = firstn 256 line).
  { rewrite firstn_app. replace (256 - length line) with 0 by lia. apply app_nil_r. }
  unfold c_getline, JavaReader.good. cbn [JavaReader.eofbit JavaReader.failbit negb andb JavaReader.buf].
  rewrite (getline_loop_long 255) by (rewrite ?length_app, ?Hf; first [lia | exact Hn]).
  cbn [app].
  destruct (cm (firstn 255 (line ++ rest))) as [sec|].
  - destruct f as [|f]; [reflexivity|].
    rewrite process_section_failed. apply references_loop_failed; exact Hcm.
  - apply references_loop_failed; exact Hcm.
Qed.

(** C37: [-l<c>] also sets the tree switch of the same list: case ['l']
    of the switch has no [break] and falls through into case ['t'], so
    [-lf] hides the file tree and [+ln] shows the class tree. *)
Theorem parse_nswitch_l_falls_through o p k rest :
  tolower k = "l"%char ->
  parse_nswitch o (p :: k :: rest) =
    if Ascii.eqb (tolower (nth 0 rest NUL)) "f"
    then set_show_f_tree (Ascii.eqb p "+") (set_list_f_classes (Ascii.eqb p "+") o)
    else set_show_n_tree (Ascii.eqb p "+") (set_list_n_classes (Ascii.eqb p "+") o).
Proof.
  intros Hk. unfold parse_nswitch. cbn [nth]. rewrite Hk. cbn - [tolower NUL].
  remember (Ascii.eqb (tolower (nth 0 rest NUL)) "f") as b. destruct b; reflexivity.
Qed.

End ClassNeedsFacts.

(** ** Runs *)

Module ClassNeedsExamples.
Import ClassNeeds ClassNeedsFacts ClassNeedsRuns.

(** Because the class tree clears every child link it draws
    ([class_tree_clears_links]), the file tree printed after it ([+tf]
    with the default [t]) shows the files without anything below them;
    without the class tree ([-tn +tf]) the same file shows [a.o] above
    [b.o]. *)
Example class_tree_empties_file_tree :
  nrun [$"-x"; $"+tf"; $"x.map"] =
    Some (header ++ nl ++ $"Tree of Class Needs" ++ nl ++ $"A" ++ nl ++ $" - a.o" ++ nl
          ++ $"   - B" ++ nl ++ $"     - b.o" ++ nl ++ $"       - C" ++ nl
          ++ nl ++ $"Tree of File Needs" ++ nl ++ $"a.o" ++ nl ++ $"b.o" ++ nl, []) /\
  nrun [$"-x"; $"-tn"; $"+tf"; $"x.map"] =
    Some (header ++ nl ++ $"Tree of File Needs" ++ nl ++ $"a.o" ++ nl ++ $" - b.o" ++ nl
          ++ $"b.o" ++ nl, []).
Proof. vm_compute. split; reflexivity. Qed.

(** On the cycle the class tree stops at the repeated name. *)
Example class_tree_cycle_marker :
  option_map (fun st => out st)
    (display_dependences TEXT_CHAR false NUL 29 NList false cycle_state) =
  Some (nl ++ $"Tree of Class Needs" ++ nl ++ $"R" ++ nl ++ $" - r.o" ++ nl ++ $"   - A" ++ nl
        ++ $"     - a.o" ++ nl ++ $"       - B" ++ nl ++ $"         - b.o" ++ nl
        ++ $"           - A <Recursion>" ++ nl).
Proof. vm_compute. reflexivity. Qed.

Lemma class_tree_clears_links_witness :
  match display_children TEXT_CHAR false NUL 29 1 1 cycle_state with
  | Some st' =>
      (forall m, m < length (my_children (node cycle_state 1)) -> nth m (my_children (node st' 1)) None = None)
      \/ stopped_early st'
  | None => False
  end.
Proof.
  destruct (display_children TEXT_CHAR false NUL 29 1 1 cycle_state) as [st'|] eqn:E;
    [|vm_compute in E; discriminate E].
  exact (class_tree_clears_links TEXT_CHAR false 29 1 1 cycle_state st' E).
Defined.

Lemma class_tree_display_bounded_witness :
  exists st', display_dependences TEXT_CHAR false NUL 29 NList false cycle_state = Some st' /\ arrays_ok st'.
Proof.
  apply class_tree_display_bounded; [lia|]. split; vm_compute; reflexivity.
Defined.

Lemma long_line_never_finishes_witness :
  find_file_references default_nopts reference_m possession_m class_m 1000 ($"big.map")
    (Some (repeat "x"%char 300 ++ nl)) (@nstate0 SortedMap _) = None.
Proof.
  apply long_line_never_finishes; [reflexivity | rewrite repeat_length; lia |].
  intros H.
  assert (E : existsb (Ascii.eqb newline) (firstn 256 (repeat "x"%char 300)) = true)
    by (apply existsb_exists; exists newline; split; [exact H | apply Ascii.eqb_refl]).
  vm_compute in E. discriminate E.
Defined.

Lemma parse_nswitch_l_falls_through_witness :
  tolower "l" = "l"%char /\
  parse_nswitch default_nopts ($"-lf") = set_show_f_tree false (set_list_f_classes false default_nopts).
Proof.
  split; [reflexivity|]. exact (parse_nswitch_l_falls_through default_nopts "-" "l" ["f"%char] eq_refl).
Defined.

End ClassNeedsExamples.
